(** * Statement AST nodes of lib/AST/Stmt.cpp

    A shallow embedding of the statement-node implementation file
    [lib/AST/Stmt.cpp]: the generic dispatch over statement classes, the
    compound statement, the condition-variable accessors of the control-flow
    statements, the exception statements, GCC inline-assembly string
    analysis, the OpenMP clauses with trailing arrays and the captured
    statement.

    Conventions.
    - An [unsigned] is a [Z] reduced with [to_unsigned]; an [int] obtained
      from an [unsigned] goes through [to_int].
    - A pointer [T *] is an [option T]: [None] is the null pointer.
    - A call that may stop the program returns an [outcome].
    - A C++ member [Class::member] is the definition [Class_member]. *)

From Stdlib Require Import ZArith Ascii String Bool Lia Arith List.
From Stdlib Require DecimalString.
Import ListNotations.
Open Scope Z_scope.

Set Implicit Arguments.

(* ================================================================= *)
(** * Part I: definitions *)
(* ================================================================= *)

(** ** Machine integers and outcomes *)

(** Conversion of an integer value to [unsigned] (32 bits). *)
Definition to_unsigned (z : Z) : Z := z mod 2 ^ 32.

(** Conversion of an [unsigned] value to [int] (32 bits, two's complement). *)
Definition to_int (z : Z) : Z :=
  let u := z mod 2 ^ 32 in
  if u <? 2 ^ 31 then u else u - 2 ^ 32.

(** What a call does: it returns, it reaches [llvm_unreachable], it fails an
    [assert], or it does what C++ leaves undefined (a read or write
    outside an array, a null dereference). *)
Inductive outcome (A : Type) : Type :=
| Returned (a : A)
| Unreachable (msg : string)
| AssertionFailed (msg : string)
| Undefined.

Arguments Returned {A} a.
Arguments Unreachable {A} msg.
Arguments AssertionFailed {A} msg.
Arguments Undefined {A}.

(** Sequencing of calls: the first abnormal outcome is the outcome. *)
Definition bind {A B : Type} (o : outcome A) (k : A -> outcome B) : outcome B :=
  match o with
  | Returned a => k a
  | Unreachable m => Unreachable m
  | AssertionFailed m => AssertionFailed m
  | Undefined => Undefined
  end.

Notation "x <- o ;; k" := (bind o (fun x => k))
  (at level 61, o at next level, right associativity).

(** [assert(cond && msg)]. *)
Definition assert_that (cond : bool) (msg : string) : outcome unit :=
  if cond then Returned tt else AssertionFailed msg.

(** [A.size()] of an [ArrayRef] handed in by the caller. *)
Definition list_size {A : Type} (l : list A) : Z := Z.of_nat (List.length l).

(** [SourceLocation] is an opaque encoded offset; [SourceRange] a pair. *)
Definition SourceLocation : Type := Z.

Record SourceRange : Type := mkSourceRange {
  getBegin : SourceLocation;
  getEnd : SourceLocation
}.

(** ** Characters and strings *)

(** A [StringRef] or [std::string] is its sequence of bytes. *)
Definition StringRef : Type := list ascii.

Definition lit (s : string) : StringRef := list_ascii_of_string s.

Definition char_code (c : ascii) : Z := Z.of_N (N_of_ascii c).

(** Modelled from the spec: [isLetter] and [isDigit] of
    clang/Basic/CharInfo.h are not under src/; the spec speaks of a
    "single letter" and of a "digit sequence", the ASCII ones. *)
Definition isLetter (c : ascii) : bool :=
  let n := char_code c in
  ((65 <=? n) && (n <=? 90)) || ((97 <=? n) && (n <=? 122)).

Definition isDigit (c : ascii) : bool :=
  let n := char_code c in
  (48 <=? n) && (n <=? 57).

(** [StringRef::operator==]: same length and same bytes. *)
Fixpoint StringRef_equals (a b : StringRef) : bool :=
  match a, b with
  | [], [] => true
  | x :: a', y :: b' => Ascii.eqb x y && StringRef_equals a' b'
  | _, _ => false
  end.

(** [memchr(p, c, n)] over the [n] bytes [rest]: the distance from [p] to
    the first [c], or [None] for the null result. *)
Fixpoint memchr (rest : StringRef) (c : ascii) : option nat :=
  match rest with
  | [] => None
  | x :: rest' =>
      if Ascii.eqb x c then Some O
      else match memchr rest' c with
           | Some k => Some (S k)
           | None => None
           end
  end.

(** ** GCC inline assembly: [AsmStmt] and [GCCAsmStmt] *)

(** The fields of a [GCCAsmStmt] that the string analysis reads.  [Names]
    holds [NumOutputs + NumInputs] identifiers (null for an operand with no
    symbolic name), outputs first; [Constraints] the constraint strings in
    the same order; [AsmStr] the bytes of the template string literal. *)
Record GCCAsmStmt : Type := mkGCCAsmStmt {
  IsSimple : bool;
  NumOutputs : Z;
  NumInputs : Z;
  Names : list (option StringRef);
  Constraints : list StringRef;
  AsmStr : StringRef
}.

Definition AsmStmt_isSimple (S : GCCAsmStmt) : bool := IsSimple S.
Definition AsmStmt_getNumOutputs (S : GCCAsmStmt) : Z := NumOutputs S.
Definition AsmStmt_getNumInputs (S : GCCAsmStmt) : Z := NumInputs S.

(** [Names[i]] and the name it carries; the empty [StringRef()] when the
    identifier is null. *)
Definition IdentifierInfo_name (II : option StringRef) : StringRef :=
  match II with
  | Some n => n
  | None => []
  end.

Definition GCCAsmStmt_getOutputName (S : GCCAsmStmt) (i : Z) : StringRef :=
  IdentifierInfo_name (nth (Z.to_nat i) (Names S) None).

Definition GCCAsmStmt_getInputName (S : GCCAsmStmt) (i : Z) : StringRef :=
  IdentifierInfo_name (nth (Z.to_nat (i + NumOutputs S)) (Names S) None).

(** [GCCAsmStmt::getOutputConstraint]: the string of the i-th constraint
    literal. *)
Definition GCCAsmStmt_getOutputConstraint (S : GCCAsmStmt) (i : Z) : StringRef :=
  nth (Z.to_nat i) (Constraints S) [].

(** Modelled from the spec: [isOutputPlusConstraint] is declared in
    clang/AST/Stmt.h, not under src/; an output is "+"-constrained when its
    constraint string starts with '+'. *)
Definition AsmStmt_isOutputPlusConstraint (S : GCCAsmStmt) (i : Z) : bool :=
  match GCCAsmStmt_getOutputConstraint S i with
  | c :: _ => Ascii.eqb c "+"%char
  | [] => false
  end.

(** The loop of [AsmStmt::getNumPlusOperands], [n] iterations left. *)
Fixpoint getNumPlusOperands_loop (S : GCCAsmStmt) (i : Z) (n : nat) (Res : Z) : Z :=
  match n with
  | O => Res
  | Datatypes.S n' =>
      getNumPlusOperands_loop S (i + 1) n'
        (if AsmStmt_isOutputPlusConstraint S i then to_unsigned (Res + 1) else Res)
  end.

Definition AsmStmt_getNumPlusOperands (S : GCCAsmStmt) : Z :=
  getNumPlusOperands_loop S 0 (Z.to_nat (AsmStmt_getNumOutputs S)) 0.

(** A loop [for (i = 0; i != e; ++i) if (name(i) == SymbolicName) return i;]
    with [n] iterations left: the index it returns at, if it does. *)
Fixpoint getNamedOperand_scan (name : Z -> StringRef) (SymbolicName : StringRef)
    (i : Z) (n : nat) : option Z :=
  match n with
  | O => None
  | Datatypes.S n' =>
      if StringRef_equals (name i) SymbolicName then Some i
      else getNamedOperand_scan name SymbolicName (i + 1) n'
  end.

Definition GCCAsmStmt_getNamedOperand (S : GCCAsmStmt) (SymbolicName : StringRef) : Z :=
  let NumPlusOperands := 0 in
  match getNamedOperand_scan (GCCAsmStmt_getOutputName S) SymbolicName 0
          (Z.to_nat (AsmStmt_getNumOutputs S)) with
  | Some i => to_int i
  | None =>
      match getNamedOperand_scan (GCCAsmStmt_getInputName S) SymbolicName 0
              (Z.to_nat (AsmStmt_getNumInputs S)) with
      | Some i =>
          to_int (to_unsigned (to_unsigned (AsmStmt_getNumOutputs S + NumPlusOperands) + i))
      | None => -1
      end
  end.

(** [AsmStringPiece]: a string or an operand with its modifier character
    (the NUL character when there is none). *)
Inductive AsmStringPiece : Type :=
| AsmStringPiece_String (Str : StringRef)
| AsmStringPiece_Operand (OpNo : Z) (Modifier : ascii).

(** The diagnostics [AnalyzeAsmString] returns. *)
Inductive diag : Type :=
| err_asm_invalid_escape
| err_asm_invalid_operand_number
| err_asm_unterminated_symbolic_operand_name
| err_asm_empty_symbolic_operand_name
| err_asm_unknown_symbolic_operand_name.

(** What the caller sees after [AnalyzeAsmString]: the returned value
    ([None] is 0), the out-parameter [DiagOffs] ([None] when it was not
    written) and the out-parameter [Pieces]. *)
Record AnalyzeResult : Type := mkAnalyzeResult {
  Ret : option diag;
  DiagOffs : option Z;
  Pieces : list AsmStringPiece
}.

(** The scan of a simple asm string: every '$' doubled. *)
Fixpoint AnalyzeAsmString_simple (rest : StringRef) (Result : StringRef) : StringRef :=
  match rest with
  | [] => Result
  | c :: rest' =>
      AnalyzeAsmString_simple rest'
        (if Ascii.eqb c "$"%char then Result ++ lit "$$" else Result ++ [c])
  end.

(** The variables of the [while (1)] loop.  [CurPtr] is kept as the bytes
    of [CurPtr, StrEnd) and the distance [CurPtr - StrStart]. *)
Record AnalyzeState : Type := mkAnalyzeState {
  CurPtr : StringRef;
  CurOffs : Z;
  CurStringPiece : StringRef;
  CurPieces : list AsmStringPiece;
  CurDiagOffs : option Z
}.

Inductive AnalyzeStep : Type :=
| Continue (st : AnalyzeState)
| Return (r : AnalyzeResult).

(** [if (!CurStringPiece.empty()) Pieces.push_back(CurStringPiece)]. *)
Definition flush_piece (Cur : StringRef) (Ps : list AsmStringPiece) : list AsmStringPiece :=
  match Cur with
  | [] => Ps
  | _ :: _ => Ps ++ [AsmStringPiece_String Cur]
  end.

(** [while (CurPtr != StrEnd && isDigit( *CurPtr)) N = N*10 + (( *CurPtr++)-'0')]. *)
Fixpoint scan_digits (rest : StringRef) (offs : Z) (N : Z) : Z * StringRef * Z :=
  match rest with
  | c :: rest' =>
      if isDigit c
      then scan_digits rest' (offs + 1) (to_unsigned (N * 10 + (char_code c - char_code "0"%char)))
      else (N, rest, offs)
  | [] => (N, rest, offs)
  end.

(** [getNumOutputs() + getNumPlusOperands() + getNumInputs()] in [unsigned]. *)
Definition AnalyzeAsmString_NumOperands (S : GCCAsmStmt) : Z :=
  to_unsigned (to_unsigned (AsmStmt_getNumOutputs S + AsmStmt_getNumPlusOperands S)
               + AsmStmt_getNumInputs S).

(** The operand part of the loop body, entered with the modifier, the
    escaped character and [CurPtr] just after it. *)
Definition AnalyzeAsmString_operand (S : GCCAsmStmt) (Modifier EscapedChar : ascii)
    (rest : StringRef) (offs : Z) (Ps : list AsmStringPiece) (DO : option Z) : AnalyzeStep :=
  if isDigit EscapedChar then
    let '(N, rest', offs') := scan_digits (EscapedChar :: rest) (offs - 1) 0 in
    let NumOperands := AnalyzeAsmString_NumOperands S in
    if N >=? NumOperands then
      Return (mkAnalyzeResult (Some err_asm_invalid_operand_number)
                (Some (to_unsigned (offs' - 1))) Ps)
    else
      Continue (mkAnalyzeState rest' offs' []
                  (Ps ++ [AsmStringPiece_Operand N Modifier]) DO)
  else if Ascii.eqb EscapedChar "["%char then
    let DO1 := Some (to_unsigned (offs - 1)) in
    match memchr rest "]"%char with
    | None =>
        Return (mkAnalyzeResult (Some err_asm_unterminated_symbolic_operand_name) DO1 Ps)
    | Some NameLen =>
        if Nat.eqb NameLen 0 then
          Return (mkAnalyzeResult (Some err_asm_empty_symbolic_operand_name) DO1 Ps)
        else
          let SymbolicName := firstn NameLen rest in
          let N := GCCAsmStmt_getNamedOperand S SymbolicName in
          if N =? -1 then
            Return (mkAnalyzeResult (Some err_asm_unknown_symbolic_operand_name)
                      (Some (to_unsigned offs)) Ps)
          else
            Continue (mkAnalyzeState (skipn (NameLen + 1) rest)
                        (offs + Z.of_nat NameLen + 1) []
                        (Ps ++ [AsmStringPiece_Operand (to_unsigned N) Modifier]) DO1)
    end
  else
    Return (mkAnalyzeResult (Some err_asm_invalid_escape)
              (Some (to_unsigned (offs - 1))) Ps).

(** One turn of the [while (1)] loop of [GCCAsmStmt::AnalyzeAsmString]:
    [Continue] is a [continue], [Return] a [return]. *)
Definition AnalyzeAsmString_body (S : GCCAsmStmt) (HasVariants : bool)
    (st : AnalyzeState) : AnalyzeStep :=
  let Cur := CurStringPiece st in
  let Ps := CurPieces st in
  let DO := CurDiagOffs st in
  match CurPtr st with
  | [] => Return (mkAnalyzeResult None DO (flush_piece Cur Ps))
  | CurChar :: rest1 =>
      let offs1 := CurOffs st + 1 in
      if Ascii.eqb CurChar "$"%char then
        Continue (mkAnalyzeState rest1 offs1 (Cur ++ lit "$$") Ps DO)
      else if Ascii.eqb CurChar "{"%char then
        Continue (mkAnalyzeState rest1 offs1
                    (Cur ++ (if HasVariants then lit "$(" else lit "{")) Ps DO)
      else if Ascii.eqb CurChar "|"%char then
        Continue (mkAnalyzeState rest1 offs1
                    (Cur ++ (if HasVariants then lit "$|" else lit "|")) Ps DO)
      else if Ascii.eqb CurChar "}"%char then
        Continue (mkAnalyzeState rest1 offs1
                    (Cur ++ (if HasVariants then lit "$)" else lit "}")) Ps DO)
      else if negb (Ascii.eqb CurChar "%"%char) then
        Continue (mkAnalyzeState rest1 offs1 (Cur ++ [CurChar]) Ps DO)
      else
        match rest1 with
        | [] =>
            Return (mkAnalyzeResult (Some err_asm_invalid_escape)
                      (Some (to_unsigned (offs1 - 1))) Ps)
        | EscapedChar :: rest2 =>
            let offs2 := offs1 + 1 in
            if Ascii.eqb EscapedChar "%"%char then
              Continue (mkAnalyzeState rest2 offs2 (Cur ++ lit "%") Ps DO)
            else if Ascii.eqb EscapedChar "="%char then
              Continue (mkAnalyzeState rest2 offs2 (Cur ++ lit "${:uid}") Ps DO)
            else
              let Ps1 := flush_piece Cur Ps in
              if isLetter EscapedChar then
                match rest2 with
                | [] =>
                    Return (mkAnalyzeResult (Some err_asm_invalid_escape)
                              (Some (to_unsigned (offs2 - 1))) Ps1)
                | EscapedChar' :: rest3 =>
                    AnalyzeAsmString_operand S EscapedChar EscapedChar'
                      rest3 (offs2 + 1) Ps1 DO
                end
              else
                AnalyzeAsmString_operand S "000"%char EscapedChar rest2 offs2 Ps1 DO
        end
  end.

(** The [while (1)] loop, at most [fuel] turns; [None] when the turns are
    used up (they never are, see [AnalyzeAsmString_while_total]). *)
Fixpoint AnalyzeAsmString_while (fuel : nat) (S : GCCAsmStmt) (HasVariants : bool)
    (st : AnalyzeState) : option AnalyzeResult :=
  match fuel with
  | O => None
  | Datatypes.S fuel' =>
      match AnalyzeAsmString_body S HasVariants st with
      | Return r => Some r
      | Continue st' => AnalyzeAsmString_while fuel' S HasVariants st'
      end
  end.

(** [GCCAsmStmt::AnalyzeAsmString].  [HasVariants] is
    [!C.getTargetInfo().hasNoAsmVariants()]; [Pieces] is empty and
    [DiagOffs] unwritten on entry. *)
Definition GCCAsmStmt_AnalyzeAsmString (S : GCCAsmStmt) (HasVariants : bool)
    : option AnalyzeResult :=
  let Str := AsmStr S in
  if AsmStmt_isSimple S then
    Some (mkAnalyzeResult None None
            [AsmStringPiece_String (AnalyzeAsmString_simple Str [])])
  else
    AnalyzeAsmString_while (Datatypes.S (length Str)) S HasVariants
      (mkAnalyzeState Str 0 [] [] None).


(** ** Arrays in allocated storage *)

(** A slot of allocated storage: not yet written, or holding a value. *)
Inductive Slot (A : Type) : Type :=
| Uninit
| Init (a : A).

Arguments Uninit {A}.
Arguments Init {A} a.

(** [new (C) T[n]], and the trailing bytes of an allocation seen as [n]
    slots: nothing is written yet. *)
Definition new_array (A : Type) (n : nat) : list (Slot A) := repeat Uninit n.

(** [a[i] = v] in allocated storage; a write outside it is undefined. *)
Definition array_write {A : Type} (a : list (Slot A)) (i : Z) (v : A)
    : outcome (list (Slot A)) :=
  if (0 <=? i) && (i <? Z.of_nat (length a))
  then Returned (firstn (Z.to_nat i) a ++ Init v :: skipn (Z.to_nat i + 1) a)
  else Undefined.

(** The value of [a[i]] in allocated storage. *)
Definition array_read {A : Type} (a : list (Slot A)) (i : Z) : outcome A :=
  if 0 <=? i then
    match nth_error a (Z.to_nat i) with
    | Some (Init v) => Returned v
    | _ => Undefined
    end
  else Undefined.

(** The value of [p[i]] for an array [p] handed in by the caller. *)
Definition ptr_read {A : Type} (p : list A) (i : Z) : outcome A :=
  if 0 <=? i then
    match nth_error p (Z.to_nat i) with
    | Some v => Returned v
    | None => Undefined
    end
  else Undefined.

(** [std::copy(src.begin(), src.end(), a + pos)]: one write per element. *)
Fixpoint std_copy {A : Type} (src : list A) (a : list (Slot A)) (pos : Z)
    : outcome (list (Slot A)) :=
  match src with
  | [] => Returned a
  | x :: src' => a' <- array_write a pos x ;; std_copy src' a' (pos + 1)
  end.

(** Enumeration of the range [a + pos, a + pos + n). *)
Fixpoint read_range {A : Type} (a : list (Slot A)) (pos : Z) (n : nat)
    : outcome (list A) :=
  match n with
  | O => Returned []
  | Datatypes.S n' =>
      x <- array_read a pos ;;
      xs <- read_range a (pos + 1) n' ;;
      Returned (x :: xs)
  end.

(** [p->member()] through a pointer: undefined on the null pointer. *)
Definition deref {A B : Type} (p : option A) (member : A -> B) : outcome B :=
  match p with
  | Some a => Returned (member a)
  | None => Undefined
  end.

Definition is_nonnull {A : Type} (p : option A) : bool :=
  match p with
  | Some _ => true
  | None => false
  end.

(** ** The statement classes and the generic dispatch *)

(** The object of a statement: the class tag of the [Stmt] base
    ([StmtBits.sClass]) and the storage of the most derived class. *)
Record Stmt (Storage : Type) : Type := mkStmt {
  sClass : nat;
  storage : Storage
}.

Definition Stmt_getStmtClass {Storage : Type} (s : Stmt Storage) : nat := sClass s.

(** What [Stmt.cpp] uses of a concrete class [CLASS]: its name [#CLASS],
    [sizeof(CLASS)], its members [children], [getLocStart], [getLocEnd] on
    the object after [static_cast<CLASS*>], and its own [getSourceRange]
    when it declares one. *)
Record StmtClassDecl (Storage ChildRange : Type) : Type := mkStmtClassDecl {
  class_name : string;
  class_sizeof : Z;
  class_children : Stmt Storage -> outcome ChildRange;
  class_getLocStart : Stmt Storage -> outcome SourceLocation;
  class_getLocEnd : Stmt Storage -> outcome SourceLocation;
  class_getSourceRange : option (Stmt Storage -> outcome SourceRange)
}.

(** An entry of clang/AST/StmtNodes.inc (not under src/): [STMT(CLASS,
    PARENT)] for a concrete class, [ABSTRACT_STMT(...)] for an abstract
    one. *)
Inductive StmtNode (Storage ChildRange : Type) : Type :=
| STMT (c : StmtClassDecl Storage ChildRange)
| ABSTRACT_STMT (name : string).

Arguments ABSTRACT_STMT {Storage ChildRange} name.

Section StmtDispatch.

Variables Storage ChildRange : Type.

(** The entries of StmtNodes.inc, in order. *)
Variable StmtNodes : list (StmtNode Storage ChildRange).

(** [#define ABSTRACT_STMT(type)] expands to nothing: what is left when
    Stmt.cpp includes StmtNodes.inc are the [STMT] entries. *)
Fixpoint STMT_entries (inc : list (StmtNode Storage ChildRange))
    : list (StmtClassDecl Storage ChildRange) :=
  match inc with
  | [] => []
  | STMT c :: inc' => c :: STMT_entries inc'
  | ABSTRACT_STMT _ :: inc' => STMT_entries inc'
  end.

(** Modelled from the spec: [enum StmtClass] is declared in
    clang/AST/Stmt.h, not under src/; the sentinel is [NoStmtClass], each
    concrete class has its own tag in the order of the registry, and an
    abstract class has no tag. *)
Definition NoStmtClass : nat := 0%nat.

Definition lastStmtConstant : nat := length (STMT_entries StmtNodes).

(** The [case Stmt::type##Class:] label that a tag selects, if any. *)
Definition StmtClass_case (tag : nat) : option (StmtClassDecl Storage ChildRange) :=
  match tag with
  | O => None
  | Datatypes.S i => nth_error (STMT_entries StmtNodes) i
  end.

(** [Stmt::children]. *)
Definition Stmt_children (s : Stmt Storage) : outcome ChildRange :=
  match Stmt_getStmtClass s with
  | O => Unreachable "statement without class"
  | Datatypes.S i =>
      match nth_error (STMT_entries StmtNodes) i with
      | Some type => class_children type s
      | None => Unreachable "unknown statement kind!"
      end
  end.

(** The two overloads of [getSourceRangeImpl]: the first when the class
    declares its own [getSourceRange], the second otherwise. *)
Definition getSourceRangeImpl (type : StmtClassDecl Storage ChildRange)
    (stmt : Stmt Storage) : outcome SourceRange :=
  match class_getSourceRange type with
  | Some getSourceRange => getSourceRange stmt
  | None =>
      B <- class_getLocStart type stmt ;;
      E <- class_getLocEnd type stmt ;;
      Returned (mkSourceRange B E)
  end.

(** [Stmt::getSourceRange]. *)
Definition Stmt_getSourceRange (s : Stmt Storage) : outcome SourceRange :=
  match Stmt_getStmtClass s with
  | O => Unreachable "statement without class"
  | Datatypes.S i =>
      match nth_error (STMT_entries StmtNodes) i with
      | Some type => getSourceRangeImpl type s
      | None => Unreachable "unknown statement kind!"
      end
  end.

(** [Stmt::getLocStart] and [Stmt::getLocEnd]. *)
Definition Stmt_getLocStart (s : Stmt Storage) : outcome SourceLocation :=
  match Stmt_getStmtClass s with
  | O => Unreachable "statement without class"
  | Datatypes.S i =>
      match nth_error (STMT_entries StmtNodes) i with
      | Some type => class_getLocStart type s
      | None => Unreachable "unknown statement kind"
      end
  end.

Definition Stmt_getLocEnd (s : Stmt Storage) : outcome SourceLocation :=
  match Stmt_getStmtClass s with
  | O => Unreachable "statement without class"
  | Datatypes.S i =>
      match nth_error (STMT_entries StmtNodes) i with
      | Some type => class_getLocEnd type s
      | None => Unreachable "unknown statement kind"
      end
  end.

(** An entry of the static table [StmtClassInfo]; [Name] is a
    [const char *]. *)
Record StmtClassNameTable : Type := mkStmtClassNameTable {
  Name : option string;
  Counter : Z;
  Size : Z
}.

(** The statics of Stmt.cpp: the flag [Initialized] of
    [getStmtInfoTableEntry] and the array
    [StmtClassInfo[Stmt::lastStmtConstant+1]]. *)
Record StmtStatics : Type := mkStmtStatics {
  Initialized : bool;
  StmtClassInfo : list StmtClassNameTable
}.

(** Static storage is zero-initialized. *)
Definition StmtStatics_initial : StmtStatics :=
  mkStmtStatics false
    (repeat (mkStmtClassNameTable None 0 0) (Datatypes.S lastStmtConstant)).

(** [a[i] = f(a[i])] on a static array. *)
Fixpoint table_update (i : nat) (f : StmtClassNameTable -> StmtClassNameTable)
    (a : list StmtClassNameTable) : list StmtClassNameTable :=
  match a, i with
  | [], _ => []
  | e :: a', O => f e :: a'
  | e :: a', Datatypes.S i' => e :: table_update i' f a'
  end.

(** The expansion of StmtNodes.inc in [getStmtInfoTableEntry]: for each
    [STMT] entry, in order, the two assignments to its table entry.
    [tag] is the tag of the first entry of [cs]. *)
Fixpoint StmtClassInfo_fill (cs : list (StmtClassDecl Storage ChildRange))
    (tag : nat) (a : list StmtClassNameTable) : list StmtClassNameTable :=
  match cs with
  | [] => a
  | CLASS :: cs' =>
      StmtClassInfo_fill cs' (Datatypes.S tag)
        (table_update tag
           (fun e => mkStmtClassNameTable (Some (class_name CLASS)) (Counter e)
                       (class_sizeof CLASS))
           a)
  end.

(** [getStmtInfoTableEntry]: the statics afterwards and the entry
    referred to; an index outside the array is undefined. *)
Definition getStmtInfoTableEntry (E : nat) (st : StmtStatics)
    : StmtStatics * outcome StmtClassNameTable :=
  let st' :=
    if Initialized st then st
    else mkStmtStatics true
           (StmtClassInfo_fill (STMT_entries StmtNodes) 1 (StmtClassInfo st)) in
  (st', match nth_error (StmtClassInfo st') E with
        | Some e => Returned e
        | None => Undefined
        end).

(** [Stmt::getStmtClassName]. *)
Definition Stmt_getStmtClassName (s : Stmt Storage) (st : StmtStatics)
    : StmtStatics * outcome (option string) :=
  let '(st', e) := getStmtInfoTableEntry (sClass s) st in
  (st', e' <- e ;; Returned (Name e')).

(** [Stmt::addStmtClass]: [++getStmtInfoTableEntry(s).Counter], for a tag
    [s] inside the array. *)
Definition Stmt_addStmtClass (s : nat) (st : StmtStatics) : StmtStatics :=
  let '(st', _) := getStmtInfoTableEntry s st in
  mkStmtStatics (Initialized st')
    (table_update s
       (fun e => mkStmtClassNameTable (Name e) (to_unsigned (Counter e + 1)) (Size e))
       (StmtClassInfo st')).

(** The statics a program can be in: the initial ones, and those after a
    call that touches them. *)
Inductive StmtStatics_reachable : StmtStatics -> Prop :=
| reachable_initial : StmtStatics_reachable StmtStatics_initial
| reachable_getStmtInfoTableEntry E st :
    StmtStatics_reachable st ->
    StmtStatics_reachable (fst (getStmtInfoTableEntry E st))
| reachable_addStmtClass s st :
    (s <= lastStmtConstant)%nat ->
    StmtStatics_reachable st ->
    StmtStatics_reachable (Stmt_addStmtClass s st).

End StmtDispatch.

(** ** [CompoundStmt] *)

(** [CompoundStmtBits.NumStmts], the array [Body] (null, or the allocated
    array) and the two brace locations.  [S] is the type of the statements
    pointed to. *)
Record CompoundStmt (S : Type) : Type := mkCompoundStmt {
  CompoundStmtBits_NumStmts : Z;
  Body : option (list (Slot (option S)));
  LBracLoc : SourceLocation;
  RBracLoc : SourceLocation
}.

(** [CompoundStmt::CompoundStmt].  [NumStmtsWidth] is the width in bits of
    the bit-field [CompoundStmtBits.NumStmts], declared in
    clang/AST/Stmt.h (not under src/): the assignment keeps the low bits of
    [Stmts.size()], and the [assert] compares the two. *)
Definition CompoundStmt_CompoundStmt {S : Type} (NumStmtsWidth : Z)
    (Stmts : list (option S)) (LB RB : SourceLocation) : outcome (CompoundStmt S) :=
  let size := Z.of_nat (length Stmts) in
  let NumStmts := size mod 2 ^ NumStmtsWidth in
  if negb (NumStmts =? size) then
    AssertionFailed "NumStmts doesn't fit in bits of CompoundStmtBits.NumStmts!"
  else if size =? 0 then
    Returned (mkCompoundStmt NumStmts None LB RB)
  else
    Body' <- std_copy Stmts (new_array (option S) (length Stmts)) 0 ;;
    Returned (mkCompoundStmt NumStmts (Some Body') LB RB).

(** Modelled from the spec: [CompoundStmt::children] is declared in
    clang/AST/Stmt.h, not under src/; "CompoundBlock yields its statement
    array", whose length is "stored inline": the range
    [Body, Body + NumStmts).  On a null [Body] the range is empty when
    [NumStmts] is 0 and undefined otherwise. *)
Definition CompoundStmt_children {S : Type} (c : CompoundStmt S)
    : outcome (list (option S)) :=
  match Body c with
  | Some a => read_range a 0 (Z.to_nat (CompoundStmtBits_NumStmts c))
  | None => if CompoundStmtBits_NumStmts c =? 0 then Returned [] else Undefined
  end.

(** ** Sizes of the classes *)

(** The [sizeof] and [alignOf] values that the factories use; the classes
    are declared in headers that are not under src/. *)
Record Layout : Type := mkLayout {
  sizeof_Stmt : Z;
  sizeof_StmtPtr : Z;
  sizeof_CXXTryStmt : Z;
  alignOf_CXXTryStmt : Z;
  sizeof_ObjCAtTryStmt : Z;
  alignOf_ObjCAtTryStmt : Z
}.

(** Conversion to [std::size_t] (64 bits). *)
Definition to_size_t (z : Z) : Z := z mod 2 ^ 64.

(** What a factory hands back: the size and alignment it asked the
    allocator for, and the object it built in that memory. *)
Record Allocation (T : Type) : Type := mkAllocation {
  alloc_Size : Z;
  alloc_Alignment : Z;
  alloc_object : T
}.

(** The memory after a header of [header] bytes in an allocation of [Size]
    bytes, as slots of [slot] bytes each. *)
Definition trailing_storage (A : Type) (Size header slot : Z) : list (Slot A) :=
  new_array A (Z.to_nat ((Size - header) / slot)).

(** ** [ObjCAtTryStmt] *)

(** Modelled from the spec: the class is declared in clang/AST/StmtObjC.h,
    not under src/, where the counter of the catch statements is the
    bit-field [unsigned NumCatchStmts : 16]; this is its width, which
    bounds what the constructor can store in it. *)
Definition ObjCAtTryStmt_NumCatchStmts_bits : Z := 16.

(** [AtTryLoc], [NumCatchStmts] (a bit-field of
    [ObjCAtTryStmt_NumCatchStmts_bits] bits), [HasFinally], and the
    trailing array of statements that [getStmts()] points to. *)
Record ObjCAtTryStmt (S : Type) : Type := mkObjCAtTryStmt {
  AtTryLoc : SourceLocation;
  NumCatchStmts : Z;
  HasFinally : bool;
  ObjCAtTryStmt_Stmts : list (Slot (option S))
}.

(** The loop [for (I = 0; I != NumCatchStmts; ++I) Stmts[I + 1] =
    CatchStmts[I];], [n] iterations left. *)
Fixpoint ObjCAtTryStmt_copy_catches {S : Type} (CatchStmts : list (option S))
    (Stmts : list (Slot (option S))) (I : Z) (n : nat)
    : outcome (list (Slot (option S))) :=
  match n with
  | O => Returned Stmts
  | Datatypes.S n' =>
      v <- ptr_read CatchStmts I ;;
      Stmts' <- array_write Stmts (I + 1) v ;;
      ObjCAtTryStmt_copy_catches CatchStmts Stmts' (I + 1) n'
  end.

(** [ObjCAtTryStmt::ObjCAtTryStmt], run on the trailing storage [Mem].
    The initializer [NumCatchStmts(NumCatchStmts)] stores the [unsigned]
    parameter in the bit-field, which keeps its low bits; in the body the
    name is the parameter, which hides the member, and [HasFinally] is
    the member. *)
Definition ObjCAtTryStmt_ObjCAtTryStmt {S : Type} (Mem : list (Slot (option S)))
    (atTryLoc : SourceLocation) (atTryStmt : option S)
    (CatchStmts : list (option S)) (NumCatchStmts' : Z) (atFinallyStmt : option S)
    : outcome (ObjCAtTryStmt S) :=
  let NumCatchStmts_member := NumCatchStmts' mod 2 ^ ObjCAtTryStmt_NumCatchStmts_bits in
  let HasFinally' := is_nonnull atFinallyStmt in
  Stmts0 <- array_write Mem 0 atTryStmt ;;
  Stmts1 <- ObjCAtTryStmt_copy_catches CatchStmts Stmts0 0 (Z.to_nat NumCatchStmts') ;;
  Stmts2 <- (if HasFinally'
             then array_write Stmts1 (to_unsigned (NumCatchStmts' + 1)) atFinallyStmt
             else Returned Stmts1) ;;
  Returned (mkObjCAtTryStmt atTryLoc NumCatchStmts_member HasFinally' Stmts2).

(** [ObjCAtTryStmt::Create]. *)
Definition ObjCAtTryStmt_Create {S : Type} (L : Layout)
    (atTryLoc : SourceLocation) (atTryStmt : option S)
    (CatchStmts : list (option S)) (NumCatchStmts' : Z) (atFinallyStmt : option S)
    : outcome (Allocation (ObjCAtTryStmt S)) :=
  let Size :=
    to_unsigned (sizeof_ObjCAtTryStmt L +
                 (1 + NumCatchStmts' + (if is_nonnull atFinallyStmt then 1 else 0))
                 * sizeof_StmtPtr L) in
  let Mem := trailing_storage (option S) Size (sizeof_ObjCAtTryStmt L) (sizeof_StmtPtr L) in
  t <- ObjCAtTryStmt_ObjCAtTryStmt Mem atTryLoc atTryStmt CatchStmts NumCatchStmts'
         atFinallyStmt ;;
  Returned (mkAllocation Size (alignOf_ObjCAtTryStmt L) t).

(** Modelled from the spec: the accessors [getTryBody], [getCatchStmt] and
    [getFinallyStmt] are declared in clang/AST/StmtObjC.h, not under src/;
    the node is "guarded block + ordered catch list + optional finally" in
    the trailing array, in the order the constructor writes them. *)
Definition ObjCAtTryStmt_getTryBody {S : Type} (t : ObjCAtTryStmt S) : outcome (option S) :=
  array_read (ObjCAtTryStmt_Stmts t) 0.

Definition ObjCAtTryStmt_getCatchStmt {S : Type} (t : ObjCAtTryStmt S) (I : Z)
    : outcome (option S) :=
  array_read (ObjCAtTryStmt_Stmts t) (I + 1).

Definition ObjCAtTryStmt_getFinallyStmt {S : Type} (t : ObjCAtTryStmt S)
    : outcome (option S) :=
  if negb (HasFinally t) then Returned None
  else array_read (ObjCAtTryStmt_Stmts t) (1 + NumCatchStmts t).

(** [ObjCAtTryStmt::getLocEnd].  [getLocEnd] is the member of the
    statements pointed to. *)
Definition ObjCAtTryStmt_getLocEnd {S : Type} (getLocEnd : S -> SourceLocation)
    (t : ObjCAtTryStmt S) : outcome SourceLocation :=
  if HasFinally t then
    p <- ObjCAtTryStmt_getFinallyStmt t ;; deref p getLocEnd
  else if negb (NumCatchStmts t =? 0) then
    p <- ObjCAtTryStmt_getCatchStmt t (to_unsigned (NumCatchStmts t - 1)) ;;
    deref p getLocEnd
  else
    p <- ObjCAtTryStmt_getTryBody t ;; deref p getLocEnd.

(** ** [CXXTryStmt] *)

(** [TryLoc], [NumHandlers], and the trailing array of statements at
    [this + 1]. *)
Record CXXTryStmt (S : Type) : Type := mkCXXTryStmt {
  TryLoc : SourceLocation;
  NumHandlers : Z;
  CXXTryStmt_Stmts : list (Slot (option S))
}.

(** [CXXTryStmt::CXXTryStmt], run on the trailing storage [Mem]. *)
Definition CXXTryStmt_CXXTryStmt {S : Type} (Mem : list (Slot (option S)))
    (tryLoc : SourceLocation) (tryBlock : option S) (handlers : list (option S))
    : outcome (CXXTryStmt S) :=
  Stmts0 <- array_write Mem 0 tryBlock ;;
  Stmts1 <- std_copy handlers Stmts0 1 ;;
  Returned (mkCXXTryStmt tryLoc (to_unsigned (Z.of_nat (length handlers))) Stmts1).

(** [CXXTryStmt::Create] from a try block and handlers.  The size adds
    [sizeof(Stmt)] per slot, as the source does. *)
Definition CXXTryStmt_Create {S : Type} (L : Layout) (tryLoc : SourceLocation)
    (tryBlock : option S) (handlers : list (option S))
    : outcome (Allocation (CXXTryStmt S)) :=
  let Size := sizeof_CXXTryStmt L in
  let Size := to_size_t (Size + to_size_t ((Z.of_nat (length handlers) + 1) * sizeof_Stmt L)) in
  let Mem := trailing_storage (option S) Size (sizeof_CXXTryStmt L) (sizeof_StmtPtr L) in
  t <- CXXTryStmt_CXXTryStmt Mem tryLoc tryBlock handlers ;;
  Returned (mkAllocation Size (alignOf_CXXTryStmt L) t).

(** ** Condition variables of [IfStmt], [ForStmt], [SwitchStmt], [WhileStmt] *)

(** A declaration is a [VarDecl] or of another class; a [DeclGroupRef]
    holds one declaration or a group; a [DeclStmt] a group and two
    locations.  A statement pointed to from a [SubExprs] slot is a
    [DeclStmt] or of another class.  These classes are declared in headers
    that are not under src/. *)
Inductive Decl (VarDecl OtherDecl : Type) : Type :=
| Decl_VarDecl (V : VarDecl)
| Decl_other (D : OtherDecl).

Arguments Decl_VarDecl {VarDecl OtherDecl} V.
Arguments Decl_other {VarDecl OtherDecl} D.

Inductive DeclGroupRef (VarDecl OtherDecl : Type) : Type :=
| DeclGroupRef_single (D : option (Decl VarDecl OtherDecl))
| DeclGroupRef_group (Ds : list (Decl VarDecl OtherDecl)).

Arguments DeclGroupRef_single {VarDecl OtherDecl} D.
Arguments DeclGroupRef_group {VarDecl OtherDecl} Ds.

Record DeclStmt (VarDecl OtherDecl : Type) : Type := mkDeclStmt {
  DG : DeclGroupRef VarDecl OtherDecl;
  DeclStmt_StartLoc : SourceLocation;
  DeclStmt_EndLoc : SourceLocation
}.

Inductive SubStmt (VarDecl OtherDecl OtherStmt : Type) : Type :=
| SubStmt_DeclStmt (DS : DeclStmt VarDecl OtherDecl)
| SubStmt_other (s : OtherStmt).

Arguments SubStmt_DeclStmt {VarDecl OtherDecl OtherStmt} DS.
Arguments SubStmt_other {VarDecl OtherDecl OtherStmt} s.

Section ConditionVariable.

Variables VarDecl OtherDecl OtherStmt : Type.

(** [VarDecl::getSourceRange], declared in clang/AST/Decl.h. *)
Variable VarDecl_getSourceRange : VarDecl -> SourceRange.

Local Notation "'StmtPtr'" := (option (SubStmt VarDecl OtherDecl OtherStmt)).

(** [cast<DeclStmt>(p)]: an [assert] on the class of the object. *)
Definition cast_DeclStmt (p : StmtPtr) : outcome (DeclStmt VarDecl OtherDecl) :=
  match p with
  | Some (SubStmt_DeclStmt DS) => Returned DS
  | Some (SubStmt_other _) => AssertionFailed "cast<Ty>() argument of incompatible type!"
  | None => AssertionFailed "isa<> used on a null pointer"
  end.

(** [cast<VarDecl>(p)]. *)
Definition cast_VarDecl (p : option (Decl VarDecl OtherDecl)) : outcome VarDecl :=
  match p with
  | Some (Decl_VarDecl V) => Returned V
  | Some (Decl_other _) => AssertionFailed "cast<Ty>() argument of incompatible type!"
  | None => AssertionFailed "isa<> used on a null pointer"
  end.

(** [DeclStmt::getSingleDecl]: the declaration of a single-declaration
    group. *)
Definition DeclStmt_getSingleDecl (DS : DeclStmt VarDecl OtherDecl)
    : outcome (option (Decl VarDecl OtherDecl)) :=
  match DG DS with
  | DeclGroupRef_single D => Returned D
  | DeclGroupRef_group _ => AssertionFailed "Isn't a declgroup"
  end.

(** The statement that [setConditionVariable] stores for a non-null [V]:
    [new (C) DeclStmt(DeclGroupRef(V), VarRange.getBegin(),
    VarRange.getEnd())]. *)
Definition new_DeclStmt_for (V : VarDecl) : StmtPtr :=
  let VarRange := VarDecl_getSourceRange V in
  Some (SubStmt_DeclStmt
          (mkDeclStmt (DeclGroupRef_single (Some (Decl_VarDecl V)))
             (getBegin VarRange) (getEnd VarRange))).

(** *** [IfStmt]: [SubExprs] is indexed by [VAR], [COND], [THEN], [ELSE]. *)
Record IfStmt : Type := mkIfStmt {
  IfLoc : SourceLocation;
  ElseLoc : SourceLocation;
  IfStmt_SubExprs_VAR : StmtPtr;
  IfStmt_SubExprs_COND : StmtPtr;
  IfStmt_SubExprs_THEN : StmtPtr;
  IfStmt_SubExprs_ELSE : StmtPtr
}.

Definition IfStmt_getConditionVariable (this : IfStmt) : outcome (option VarDecl) :=
  if negb (is_nonnull (IfStmt_SubExprs_VAR this)) then Returned None
  else
    DS <- cast_DeclStmt (IfStmt_SubExprs_VAR this) ;;
    D <- DeclStmt_getSingleDecl DS ;;
    V <- cast_VarDecl D ;;
    Returned (Some V).

Definition IfStmt_setConditionVariable (this : IfStmt) (V : option VarDecl) : IfStmt :=
  match V with
  | None =>
      mkIfStmt (IfLoc this) (ElseLoc this) None (IfStmt_SubExprs_COND this)
        (IfStmt_SubExprs_THEN this) (IfStmt_SubExprs_ELSE this)
  | Some V' =>
      mkIfStmt (IfLoc this) (ElseLoc this) (new_DeclStmt_for V')
        (IfStmt_SubExprs_COND this) (IfStmt_SubExprs_THEN this)
        (IfStmt_SubExprs_ELSE this)
  end.

(** [IfStmt::IfStmt]; the slots are not written before the body runs. *)
Definition IfStmt_IfStmt (IL : SourceLocation) (var : option VarDecl)
    (cond then' : StmtPtr) (EL : SourceLocation) (elsev : StmtPtr) : IfStmt :=
  let this := IfStmt_setConditionVariable (mkIfStmt IL EL None None None None) var in
  mkIfStmt (IfLoc this) (ElseLoc this) (IfStmt_SubExprs_VAR this) cond then' elsev.

(** *** [ForStmt]: [INIT], [CONDVAR], [COND], [INC], [BODY]. *)
Record ForStmt : Type := mkForStmt {
  ForLoc : SourceLocation;
  ForStmt_LParenLoc : SourceLocation;
  ForStmt_RParenLoc : SourceLocation;
  ForStmt_SubExprs_INIT : StmtPtr;
  ForStmt_SubExprs_CONDVAR : StmtPtr;
  ForStmt_SubExprs_COND : StmtPtr;
  ForStmt_SubExprs_INC : StmtPtr;
  ForStmt_SubExprs_BODY : StmtPtr
}.

Definition ForStmt_getConditionVariable (this : ForStmt) : outcome (option VarDecl) :=
  if negb (is_nonnull (ForStmt_SubExprs_CONDVAR this)) then Returned None
  else
    DS <- cast_DeclStmt (ForStmt_SubExprs_CONDVAR this) ;;
    D <- DeclStmt_getSingleDecl DS ;;
    V <- cast_VarDecl D ;;
    Returned (Some V).

Definition ForStmt_setConditionVariable (this : ForStmt) (V : option VarDecl) : ForStmt :=
  match V with
  | None =>
      mkForStmt (ForLoc this) (ForStmt_LParenLoc this) (ForStmt_RParenLoc this)
        (ForStmt_SubExprs_INIT this) None (ForStmt_SubExprs_COND this)
        (ForStmt_SubExprs_INC this) (ForStmt_SubExprs_BODY this)
  | Some V' =>
      mkForStmt (ForLoc this) (ForStmt_LParenLoc this) (ForStmt_RParenLoc this)
        (ForStmt_SubExprs_INIT this) (new_DeclStmt_for V') (ForStmt_SubExprs_COND this)
        (ForStmt_SubExprs_INC this) (ForStmt_SubExprs_BODY this)
  end.

(** *** [SwitchStmt]: [VAR], [COND], [BODY]. *)
Record SwitchStmt : Type := mkSwitchStmt {
  SwitchLoc : SourceLocation;
  AllEnumCasesCovered : bool;
  SwitchStmt_SubExprs_VAR : StmtPtr;
  SwitchStmt_SubExprs_COND : StmtPtr;
  SwitchStmt_SubExprs_BODY : StmtPtr
}.

Definition SwitchStmt_getConditionVariable (this : SwitchStmt) : outcome (option VarDecl) :=
  if negb (is_nonnull (SwitchStmt_SubExprs_VAR this)) then Returned None
  else
    DS <- cast_DeclStmt (SwitchStmt_SubExprs_VAR this) ;;
    D <- DeclStmt_getSingleDecl DS ;;
    V <- cast_VarDecl D ;;
    Returned (Some V).

Definition SwitchStmt_setConditionVariable (this : SwitchStmt) (V : option VarDecl)
    : SwitchStmt :=
  match V with
  | None =>
      mkSwitchStmt (SwitchLoc this) (AllEnumCasesCovered this) None
        (SwitchStmt_SubExprs_COND this) (SwitchStmt_SubExprs_BODY this)
  | Some V' =>
      mkSwitchStmt (SwitchLoc this) (AllEnumCasesCovered this) (new_DeclStmt_for V')
        (SwitchStmt_SubExprs_COND this) (SwitchStmt_SubExprs_BODY this)
  end.

(** *** [WhileStmt]: [VAR], [COND], [BODY]. *)
Record WhileStmt : Type := mkWhileStmt {
  WhileLoc : SourceLocation;
  WhileStmt_SubExprs_VAR : StmtPtr;
  WhileStmt_SubExprs_COND : StmtPtr;
  WhileStmt_SubExprs_BODY : StmtPtr
}.

Definition WhileStmt_getConditionVariable (this : WhileStmt) : outcome (option VarDecl) :=
  if negb (is_nonnull (WhileStmt_SubExprs_VAR this)) then Returned None
  else
    DS <- cast_DeclStmt (WhileStmt_SubExprs_VAR this) ;;
    D <- DeclStmt_getSingleDecl DS ;;
    V <- cast_VarDecl D ;;
    Returned (Some V).

Definition WhileStmt_setConditionVariable (this : WhileStmt) (V : option VarDecl)
    : WhileStmt :=
  match V with
  | None =>
      mkWhileStmt (WhileLoc this) None (WhileStmt_SubExprs_COND this)
        (WhileStmt_SubExprs_BODY this)
  | Some V' =>
      mkWhileStmt (WhileLoc this) (new_DeclStmt_for V') (WhileStmt_SubExprs_COND this)
        (WhileStmt_SubExprs_BODY this)
  end.

End ConditionVariable.

(** ** OpenMP clauses with a variable list *)

(** The part of a clause that [OMPVarList] keeps: the number of variables,
    and the storage after the header, in [Expr *] slots, where the variable
    list and the arrays that follow it live.  [E] is the type of the
    expressions pointed to. *)
Record OMPVarListClause (E : Type) : Type := mkOMPVarListClause {
  NumVars : Z;
  OMPClause_storage : list (Slot (option E))
}.

(** An [ArrayRef] into the storage of a clause: the slot it starts at and
    its length. *)
Record ArrayRef : Type := mkArrayRef {
  ArrayRef_begin : Z;
  ArrayRef_size : Z
}.

Definition ArrayRef_end (r : ArrayRef) : Z := ArrayRef_begin r + ArrayRef_size r.

Section OMPClauses.

Variable E : Type.

Local Notation "'Clause'" := (OMPVarListClause E).

(** Modelled from the spec: [varlist_size], [varlist_end], [setVars] and
    the accessors of the arrays are declared in
    clang/AST/OpenMPClause.h / StmtOpenMP.h, not under src/; "every
    parallel array has exactly the same length as the variable list;
    segment boundaries are computed by address arithmetic from the
    variable-list end". *)
Definition varlist_size (c : Clause) : Z := NumVars c.
Definition varlist_begin (c : Clause) : Z := 0.
Definition varlist_end (c : Clause) : Z := varlist_begin c + varlist_size c.
Definition numberOfVariables (c : Clause) : Z := varlist_size c.

(** The array of [varlist_size()] elements that starts at [start]. *)
Definition array_after (c : Clause) (start : Z) : ArrayRef :=
  mkArrayRef start (varlist_size c).

Definition OMPPrivateClause_getDefaultInits (c : Clause) : ArrayRef :=
  array_after c (varlist_end c).

Definition OMPFirstPrivateClause_getPseudoVars (c : Clause) : ArrayRef :=
  array_after c (varlist_end c).
Definition OMPFirstPrivateClause_getInits (c : Clause) : ArrayRef :=
  array_after c (ArrayRef_end (OMPFirstPrivateClause_getPseudoVars c)).

Definition OMPLastPrivateClause_getPseudoVars1 (c : Clause) : ArrayRef :=
  array_after c (varlist_end c).
Definition OMPLastPrivateClause_getPseudoVars2 (c : Clause) : ArrayRef :=
  array_after c (ArrayRef_end (OMPLastPrivateClause_getPseudoVars1 c)).
Definition OMPLastPrivateClause_getDefaultInits (c : Clause) : ArrayRef :=
  array_after c (ArrayRef_end (OMPLastPrivateClause_getPseudoVars2 c)).
Definition OMPLastPrivateClause_getAssignments (c : Clause) : ArrayRef :=
  array_after c (ArrayRef_end (OMPLastPrivateClause_getDefaultInits c)).

Definition OMPCopyinClause_getPseudoVars1 (c : Clause) : ArrayRef :=
  array_after c (varlist_end c).
Definition OMPCopyinClause_getPseudoVars2 (c : Clause) : ArrayRef :=
  array_after c (ArrayRef_end (OMPCopyinClause_getPseudoVars1 c)).
Definition OMPCopyinClause_getAssignments (c : Clause) : ArrayRef :=
  array_after c (ArrayRef_end (OMPCopyinClause_getPseudoVars2 c)).

Definition OMPCopyPrivateClause_getPseudoVars1 (c : Clause) : ArrayRef :=
  array_after c (varlist_end c).
Definition OMPCopyPrivateClause_getPseudoVars2 (c : Clause) : ArrayRef :=
  array_after c (ArrayRef_end (OMPCopyPrivateClause_getPseudoVars1 c)).
Definition OMPCopyPrivateClause_getAssignments (c : Clause) : ArrayRef :=
  array_after c (ArrayRef_end (OMPCopyPrivateClause_getPseudoVars2 c)).

Definition OMPReductionClause_getOpExprs (c : Clause) : ArrayRef :=
  array_after c (varlist_end c).
Definition OMPReductionClause_getHelperParameters1st (c : Clause) : ArrayRef :=
  array_after c (ArrayRef_end (OMPReductionClause_getOpExprs c)).
Definition OMPReductionClause_getHelperParameters2nd (c : Clause) : ArrayRef :=
  array_after c (ArrayRef_end (OMPReductionClause_getHelperParameters1st c)).
Definition OMPReductionClause_getDefaultInits (c : Clause) : ArrayRef :=
  array_after c (ArrayRef_end (OMPReductionClause_getHelperParameters2nd c)).

(** The elements of an array of the clause. *)
Definition ArrayRef_elements (c : Clause) (r : ArrayRef) : outcome (list (option E)) :=
  read_range (OMPClause_storage c) (ArrayRef_begin r) (Z.to_nat (ArrayRef_size r)).

(** [std::copy(A.begin(), A.end(), dest)] into the storage of [c]. *)
Definition copy_into (c : Clause) (A : list (option E)) (dest : Z) : outcome Clause :=
  st <- std_copy A (OMPClause_storage c) dest ;;
  Returned (mkOMPVarListClause (NumVars c) st).

(** [setVars], see above. *)
Definition OMPVarList_setVars (VL : list (option E)) (c : Clause) : outcome Clause :=
  _ <- assert_that (list_size VL =? varlist_size c)
         "Number of vars is not the same as the preallocated buffer" ;;
  copy_into c VL (varlist_begin c).

(** The setters of Stmt.cpp. *)
Definition OMPPrivateClause_setDefaultInits (DefaultInits : list (option E)) (c : Clause)
    : outcome Clause :=
  _ <- assert_that (list_size DefaultInits =? varlist_size c)
         "Number of inits is not the same as the preallocated buffer" ;;
  copy_into c DefaultInits (varlist_end c).

Definition OMPFirstPrivateClause_setPseudoVars (PseudoVars : list (option E)) (c : Clause)
    : outcome Clause :=
  _ <- assert_that (list_size PseudoVars =? varlist_size c)
         "Number of vars is not the same as the preallocated buffer" ;;
  copy_into c PseudoVars (varlist_end c).

Definition OMPFirstPrivateClause_setInits (Inits : list (option E)) (c : Clause)
    : outcome Clause :=
  _ <- assert_that (list_size Inits =? varlist_size c)
         "Number of inits is not the same as the preallocated buffer" ;;
  copy_into c Inits (ArrayRef_end (OMPFirstPrivateClause_getPseudoVars c)).

Definition OMPLastPrivateClause_setPseudoVars1 (PseudoVars : list (option E)) (c : Clause)
    : outcome Clause :=
  _ <- assert_that (list_size PseudoVars =? varlist_size c)
         "Number of vars is not the same as the preallocated buffer" ;;
  copy_into c PseudoVars (varlist_end c).

Definition OMPLastPrivateClause_setPseudoVars2 (PseudoVars : list (option E)) (c : Clause)
    : outcome Clause :=
  _ <- assert_that (list_size PseudoVars =? varlist_size c)
         "Number of vars is not the same as the preallocated buffer" ;;
  copy_into c PseudoVars (ArrayRef_end (OMPLastPrivateClause_getPseudoVars1 c)).

Definition OMPLastPrivateClause_setDefaultInits (DefaultInits : list (option E))
    (c : Clause) : outcome Clause :=
  _ <- assert_that (list_size DefaultInits =? varlist_size c)
         "Number of inits is not the same as the preallocated buffer" ;;
  copy_into c DefaultInits (ArrayRef_end (OMPLastPrivateClause_getPseudoVars2 c)).

Definition OMPLastPrivateClause_setAssignments (Assignments : list (option E))
    (c : Clause) : outcome Clause :=
  _ <- assert_that (list_size Assignments =? varlist_size c)
         "Number of inits is not the same as the preallocated buffer" ;;
  copy_into c Assignments (ArrayRef_end (OMPLastPrivateClause_getDefaultInits c)).

Definition OMPCopyinClause_setPseudoVars1 (PseudoVars : list (option E)) (c : Clause)
    : outcome Clause :=
  _ <- assert_that (list_size PseudoVars =? varlist_size c)
         "Number of vars is not the same as the preallocated buffer" ;;
  copy_into c PseudoVars (varlist_end c).

Definition OMPCopyinClause_setPseudoVars2 (PseudoVars : list (option E)) (c : Clause)
    : outcome Clause :=
  _ <- assert_that (list_size PseudoVars =? varlist_size c)
         "Number of vars is not the same as the preallocated buffer" ;;
  copy_into c PseudoVars (ArrayRef_end (OMPCopyinClause_getPseudoVars1 c)).

Definition OMPCopyinClause_setAssignments (Assignments : list (option E)) (c : Clause)
    : outcome Clause :=
  _ <- assert_that (list_size Assignments =? varlist_size c)
         "Number of inits is not the same as the preallocated buffer" ;;
  copy_into c Assignments (ArrayRef_end (OMPCopyinClause_getPseudoVars2 c)).

Definition OMPCopyPrivateClause_setPseudoVars1 (PseudoVars : list (option E))
    (c : Clause) : outcome Clause :=
  _ <- assert_that (list_size PseudoVars =? varlist_size c)
         "Number of vars is not the same as the preallocated buffer" ;;
  copy_into c PseudoVars (varlist_end c).

Definition OMPCopyPrivateClause_setPseudoVars2 (PseudoVars : list (option E))
    (c : Clause) : outcome Clause :=
  _ <- assert_that (list_size PseudoVars =? varlist_size c)
         "Number of vars is not the same as the preallocated buffer" ;;
  copy_into c PseudoVars (ArrayRef_end (OMPCopyPrivateClause_getPseudoVars1 c)).

Definition OMPCopyPrivateClause_setAssignments (Assignments : list (option E))
    (c : Clause) : outcome Clause :=
  _ <- assert_that (list_size Assignments =? varlist_size c)
         "Number of inits is not the same as the preallocated buffer" ;;
  copy_into c Assignments (ArrayRef_end (OMPCopyPrivateClause_getPseudoVars2 c)).

Definition OMPReductionClause_setOpExprs (OpExprs : list (option E)) (c : Clause)
    : outcome Clause :=
  _ <- assert_that (list_size OpExprs =? numberOfVariables c)
         "Number of expressions is not the same as the number of variables." ;;
  copy_into c OpExprs (varlist_end c).

Definition OMPReductionClause_setHelperParameters1st (HelperParams : list (option E))
    (c : Clause) : outcome Clause :=
  _ <- assert_that (list_size HelperParams =? numberOfVariables c)
         "Number of expressions is not the same as the number of variables." ;;
  copy_into c HelperParams (ArrayRef_end (OMPReductionClause_getOpExprs c)).

Definition OMPReductionClause_setHelperParameters2nd (HelperParams : list (option E))
    (c : Clause) : outcome Clause :=
  _ <- assert_that (list_size HelperParams =? numberOfVariables c)
         "Number of expressions is not the same as the number of variables." ;;
  copy_into c HelperParams (ArrayRef_end (OMPReductionClause_getHelperParameters1st c)).

Definition OMPReductionClause_setDefaultInits (DefaultInits : list (option E))
    (c : Clause) : outcome Clause :=
  _ <- assert_that (list_size DefaultInits =? varlist_size c)
         "Number of inits is not the same as the preallocated buffer" ;;
  copy_into c DefaultInits (ArrayRef_end (OMPReductionClause_getHelperParameters2nd c)).

(** The object a factory builds before it calls the setters: [N]
    variables and, after the header rounded up to [sizeof(Expr * )], the
    [sizeof(Expr * ) * arrays * N] bytes it asked for, as [arrays * N]
    slots. *)
Definition OMPVarListClause_new (N : Z) (arrays : Z) : Clause :=
  mkOMPVarListClause N (new_array (option E) (Z.to_nat (arrays * N))).

(** [CreateEmpty] of the six classes. *)
Definition OMPPrivateClause_CreateEmpty (N : Z) : Clause := OMPVarListClause_new N 2.
Definition OMPFirstPrivateClause_CreateEmpty (N : Z) : Clause := OMPVarListClause_new N 3.
Definition OMPLastPrivateClause_CreateEmpty (N : Z) : Clause := OMPVarListClause_new N 5.
Definition OMPCopyinClause_CreateEmpty (N : Z) : Clause := OMPVarListClause_new N 4.
Definition OMPCopyPrivateClause_CreateEmpty (N : Z) : Clause := OMPVarListClause_new N 4.
Definition OMPReductionClause_CreateEmpty (N : Z) : Clause := OMPVarListClause_new N 5.

(** [OMPFirstPrivateClause::Create] and [OMPReductionClause::Create]. *)
Definition OMPFirstPrivateClause_Create (VL PseudoVars Inits : list (option E))
    : outcome Clause :=
  let Clause0 := OMPVarListClause_new (list_size VL) 3 in
  Clause1 <- OMPVarList_setVars VL Clause0 ;;
  Clause2 <- OMPFirstPrivateClause_setPseudoVars PseudoVars Clause1 ;;
  OMPFirstPrivateClause_setInits Inits Clause2.

Definition OMPReductionClause_Create (VL OpExprs HelperParams1 HelperParams2
    DefaultInits : list (option E)) : outcome Clause :=
  _ <- assert_that (list_size VL =? list_size OpExprs)
         "Number of expressions is not the same as number of variables!" ;;
  let Clause0 := OMPVarListClause_new (list_size VL) 5 in
  Clause1 <- OMPVarList_setVars VL Clause0 ;;
  Clause2 <- OMPReductionClause_setOpExprs OpExprs Clause1 ;;
  Clause3 <- OMPReductionClause_setHelperParameters1st HelperParams1 Clause2 ;;
  Clause4 <- OMPReductionClause_setHelperParameters2nd HelperParams2 Clause3 ;;
  OMPReductionClause_setDefaultInits DefaultInits Clause4.

(** A setter of Stmt.cpp that fills an array attached to the variable
    list: its name, the [CreateEmpty] of its class, the setter, and the
    accessor of the array it fills. *)
Record ClauseArraySetter : Type := mkClauseArraySetter {
  setter_name : string;
  setter_CreateEmpty : Z -> Clause;
  setter_set : list (option E) -> Clause -> outcome Clause;
  setter_get : Clause -> ArrayRef
}.

Definition clause_array_setters : list ClauseArraySetter :=
  [
    mkClauseArraySetter "OMPPrivateClause::setDefaultInits"
      OMPPrivateClause_CreateEmpty OMPPrivateClause_setDefaultInits OMPPrivateClause_getDefaultInits;
    mkClauseArraySetter "OMPFirstPrivateClause::setPseudoVars"
      OMPFirstPrivateClause_CreateEmpty OMPFirstPrivateClause_setPseudoVars OMPFirstPrivateClause_getPseudoVars;
    mkClauseArraySetter "OMPFirstPrivateClause::setInits"
      OMPFirstPrivateClause_CreateEmpty OMPFirstPrivateClause_setInits OMPFirstPrivateClause_getInits;
    mkClauseArraySetter "OMPLastPrivateClause::setPseudoVars1"
      OMPLastPrivateClause_CreateEmpty OMPLastPrivateClause_setPseudoVars1 OMPLastPrivateClause_getPseudoVars1;
    mkClauseArraySetter "OMPLastPrivateClause::setPseudoVars2"
      OMPLastPrivateClause_CreateEmpty OMPLastPrivateClause_setPseudoVars2 OMPLastPrivateClause_getPseudoVars2;
    mkClauseArraySetter "OMPLastPrivateClause::setDefaultInits"
      OMPLastPrivateClause_CreateEmpty OMPLastPrivateClause_setDefaultInits OMPLastPrivateClause_getDefaultInits;
    mkClauseArraySetter "OMPLastPrivateClause::setAssignments"
      OMPLastPrivateClause_CreateEmpty OMPLastPrivateClause_setAssignments OMPLastPrivateClause_getAssignments;
    mkClauseArraySetter "OMPCopyinClause::setPseudoVars1"
      OMPCopyinClause_CreateEmpty OMPCopyinClause_setPseudoVars1 OMPCopyinClause_getPseudoVars1;
    mkClauseArraySetter "OMPCopyinClause::setPseudoVars2"
      OMPCopyinClause_CreateEmpty OMPCopyinClause_setPseudoVars2 OMPCopyinClause_getPseudoVars2;
    mkClauseArraySetter "OMPCopyinClause::setAssignments"
      OMPCopyinClause_CreateEmpty OMPCopyinClause_setAssignments OMPCopyinClause_getAssignments;
    mkClauseArraySetter "OMPCopyPrivateClause::setPseudoVars1"
      OMPCopyPrivateClause_CreateEmpty OMPCopyPrivateClause_setPseudoVars1 OMPCopyPrivateClause_getPseudoVars1;
    mkClauseArraySetter "OMPCopyPrivateClause::setPseudoVars2"
      OMPCopyPrivateClause_CreateEmpty OMPCopyPrivateClause_setPseudoVars2 OMPCopyPrivateClause_getPseudoVars2;
    mkClauseArraySetter "OMPCopyPrivateClause::setAssignments"
      OMPCopyPrivateClause_CreateEmpty OMPCopyPrivateClause_setAssignments OMPCopyPrivateClause_getAssignments;
    mkClauseArraySetter "OMPReductionClause::setOpExprs"
      OMPReductionClause_CreateEmpty OMPReductionClause_setOpExprs OMPReductionClause_getOpExprs;
    mkClauseArraySetter "OMPReductionClause::setHelperParameters1st"
      OMPReductionClause_CreateEmpty OMPReductionClause_setHelperParameters1st OMPReductionClause_getHelperParameters1st;
    mkClauseArraySetter "OMPReductionClause::setHelperParameters2nd"
      OMPReductionClause_CreateEmpty OMPReductionClause_setHelperParameters2nd OMPReductionClause_getHelperParameters2nd;
    mkClauseArraySetter "OMPReductionClause::setDefaultInits"
      OMPReductionClause_CreateEmpty OMPReductionClause_setDefaultInits OMPReductionClause_getDefaultInits ].

End OMPClauses.

(** ** [CapturedStmt] *)

Inductive CapturedRegionKind : Type :=
| CR_Default
| CR_OpenMP.

(** [NumCaptures], the captured declaration, the region kind, the record
    declaration, and the two trailing arrays: the statements that
    [getStoredStmts()] points to and the [Capture] objects that
    [getStoredCaptures()] points to. *)
Record CapturedStmt (S Capture CapturedDecl RecordDecl : Type) : Type := mkCapturedStmt {
  NumCaptures : Z;
  TheCapturedDecl : option CapturedDecl;
  RegionKind : CapturedRegionKind;
  TheRecordDecl : option RecordDecl;
  StoredStmts : list (Slot (option S));
  StoredCaptures : list (Slot Capture)
}.

(** [ArrayRef::operator[]]: an [assert] on the index. *)
Definition ArrayRef_index {A : Type} (a : list A) (Index : Z) : outcome A :=
  _ <- assert_that (Index <? list_size a) "Invalid index!" ;;
  ptr_read a Index.

(** [sizeof(CapturedStmt)], [sizeof(Stmt * )], [sizeof(Capture)] and
    [llvm::alignOf<Capture>()]. *)
Record CapturedLayout : Type := mkCapturedLayout {
  sizeof_CapturedStmt : Z;
  CapturedLayout_sizeof_StmtPtr : Z;
  sizeof_Capture : Z;
  alignOf_Capture : Z
}.

(** Modelled from the spec: [llvm::RoundUpToAlignment] belongs to the
    LLVM support library, not to this repository; on [uint64_t] it is
    [((Value + Align - 1) / Align) * Align]. *)
Definition RoundUpToAlignment (Value Align : Z) : Z :=
  to_size_t (to_size_t (to_size_t (Value + Align - 1) / Align) * Align).

(** The offset [FirstCaptureOffset] of [CapturedStmt::getStoredCaptures],
    in bytes from [this]; [NumCaptures + 1] and the two locals are
    [unsigned]. *)
Definition CapturedStmt_getStoredCaptures_offset (L : CapturedLayout) (NumCaptures : Z)
    : Z :=
  let Size :=
    to_unsigned (sizeof_CapturedStmt L
                 + CapturedLayout_sizeof_StmtPtr L * to_unsigned (NumCaptures + 1)) in
  to_unsigned (RoundUpToAlignment Size (alignOf_Capture L)).

(** The size that [CapturedStmt::Create] asks the allocator for;
    [Captures.size()] is a [size_t] and [Size] an [unsigned]. *)
Definition CapturedStmt_Create_Size (L : CapturedLayout) (Captures_size : Z) : Z :=
  let Size :=
    to_unsigned (sizeof_CapturedStmt L
                 + CapturedLayout_sizeof_StmtPtr L * to_size_t (Captures_size + 1)) in
  if negb (Captures_size =? 0) then
    let Size := to_unsigned (RoundUpToAlignment Size (alignOf_Capture L)) in
    to_unsigned (Size + to_size_t (sizeof_Capture L * Captures_size))
  else Size.

(** The size that [CapturedStmt::CreateDeserialized] asks for. *)
Definition CapturedStmt_CreateDeserialized_Size (L : CapturedLayout) (NumCaptures : Z)
    : Z :=
  let Size :=
    to_unsigned (sizeof_CapturedStmt L
                 + CapturedLayout_sizeof_StmtPtr L * to_unsigned (NumCaptures + 1)) in
  if NumCaptures >? 0 then
    let Size := to_unsigned (RoundUpToAlignment Size (alignOf_Capture L)) in
    to_unsigned (Size + to_size_t (sizeof_Capture L * NumCaptures))
  else Size.

(** The sizes of a build for a 64-bit target. *)
Definition CapturedLayout_LP64 : CapturedLayout := mkCapturedLayout 36 8 16 8.

(** Of the [wanted] slots of [slot] bytes that start at the byte offset
    [from], the number of those that end at or before the offset
    [limit]. *)
Definition slots_before (from slot wanted limit : Z) : nat :=
  Z.to_nat (Z.min wanted ((limit - from) / slot)).

Section CapturedStmtDefs.

Variables S Capture CapturedDecl RecordDecl : Type.

(** The loop [for (I = 0, N = NumCaptures; I != N; ++I) *Stored++ =
    CaptureInits[I];], [n] iterations left; [Stored] is a slot index. *)
Fixpoint CapturedStmt_copy_inits (CaptureInits : list (option S))
    (Stmts : list (Slot (option S))) (Stored : Z) (I : Z) (n : nat)
    : outcome (list (Slot (option S)) * Z) :=
  match n with
  | O => Returned (Stmts, Stored)
  | Datatypes.S n' =>
      v <- ArrayRef_index CaptureInits I ;;
      Stmts' <- array_write Stmts Stored v ;;
      CapturedStmt_copy_inits CaptureInits Stmts' (Stored + 1) (I + 1) n'
  end.

(** [CapturedStmt::CapturedStmt], run on the trailing storage
    [MemStmts] and [MemCaptures]. *)
Definition CapturedStmt_CapturedStmt (MemStmts : list (Slot (option S)))
    (MemCaptures : list (Slot Capture)) (S' : option S) (Kind : CapturedRegionKind)
    (Captures : list Capture) (CaptureInits : list (option S))
    (CD : option CapturedDecl) (RD : option RecordDecl)
    : outcome (CapturedStmt S Capture CapturedDecl RecordDecl) :=
  let NumCaptures' := to_unsigned (list_size Captures) in
  _ <- assert_that (is_nonnull S') "null captured statement" ;;
  _ <- assert_that (is_nonnull CD) "null captured declaration for captured statement" ;;
  _ <- assert_that (is_nonnull RD) "null record declaration for captured statement" ;;
  r <- CapturedStmt_copy_inits CaptureInits MemStmts 0 0 (Z.to_nat NumCaptures') ;;
  let '(Stmts, Stored) := r in
  Stmts' <- array_write Stmts Stored S' ;;
  Buffer <- std_copy Captures MemCaptures 0 ;;
  Returned (mkCapturedStmt NumCaptures' CD Kind RD Stmts' Buffer).

(** [CapturedStmt::Create].  The [unsigned Size] it asks the allocator
    for is [CapturedStmt_Create_Size]; the constructor then works in that
    memory.  The statements are the [NumCaptures + 1] pointer slots
    after the header, and the [Capture] objects the [NumCaptures] slots
    from [FirstCaptureOffset]; of the statement slots the memory holds
    those that end inside the allocation and before the first
    [Capture], and of the [Capture] slots those that end inside the
    allocation, so that a write past them is undefined. *)
Definition CapturedStmt_Create (L : CapturedLayout) (S' : option S)
    (Kind : CapturedRegionKind)
    (Captures : list Capture) (CaptureInits : list (option S))
    (CD : option CapturedDecl) (RD : option RecordDecl)
    : outcome (CapturedStmt S Capture CapturedDecl RecordDecl) :=
  _ <- assert_that (list_size CaptureInits =? list_size Captures)
         "wrong number of arguments" ;;
  let Size := CapturedStmt_Create_Size L (list_size Captures) in
  let NumCaptures' := to_unsigned (list_size Captures) in
  let FirstCaptureOffset := CapturedStmt_getStoredCaptures_offset L NumCaptures' in
  let MemStmts :=
    new_array (option S)
      (slots_before (sizeof_CapturedStmt L) (CapturedLayout_sizeof_StmtPtr L)
         (NumCaptures' + 1) (Z.min FirstCaptureOffset Size)) in
  let MemCaptures :=
    new_array Capture
      (slots_before FirstCaptureOffset (sizeof_Capture L) NumCaptures' Size) in
  CapturedStmt_CapturedStmt MemStmts MemCaptures S' Kind Captures CaptureInits CD RD.

(** [CapturedStmt::children]: the range
    [getStoredStmts(), getStoredStmts() + NumCaptures). *)
Definition CapturedStmt_children (c : CapturedStmt S Capture CapturedDecl RecordDecl)
    : outcome (list (option S)) :=
  read_range (StoredStmts c) 0 (Z.to_nat (NumCaptures c)).

(** Modelled from the spec: [getCapturedStmt] is declared in
    clang/AST/Stmt.h, not under src/; the captured statement is "S" of
    the layout "Init, ..., Init, S", the slot after the initializers. *)
Definition CapturedStmt_getCapturedStmt (c : CapturedStmt S Capture CapturedDecl RecordDecl)
    : outcome (option S) :=
  array_read (StoredStmts c) (NumCaptures c).

(** The [Capture] objects [capture_begin(), capture_end()). *)
Definition CapturedStmt_captures (c : CapturedStmt S Capture CapturedDecl RecordDecl)
    : outcome (list Capture) :=
  read_range (StoredCaptures c) 0 (Z.to_nat (NumCaptures c)).

End CapturedStmtDefs.

(** ** A registry with three of the classes above *)

(** A statement pointed to by a node of the registry below; only its two
    locations are read. *)
Record Leaf : Type := mkLeaf {
  Leaf_getLocStart : SourceLocation;
  Leaf_getLocEnd : SourceLocation
}.

Inductive SampleStorage : Type :=
| Sample_CompoundStmt (c : CompoundStmt Leaf)
| Sample_ObjCAtTryStmt (t : ObjCAtTryStmt Leaf)
| Sample_CapturedStmt (c : CapturedStmt Leaf unit unit unit).

(** [static_cast<CLASS*>(this)]: defined when the object is of the class. *)
Definition static_cast_CompoundStmt (s : Stmt SampleStorage) : outcome (CompoundStmt Leaf) :=
  match storage s with
  | Sample_CompoundStmt c => Returned c
  | _ => Undefined
  end.

Definition static_cast_ObjCAtTryStmt (s : Stmt SampleStorage) : outcome (ObjCAtTryStmt Leaf) :=
  match storage s with
  | Sample_ObjCAtTryStmt t => Returned t
  | _ => Undefined
  end.

Definition static_cast_CapturedStmt (s : Stmt SampleStorage)
    : outcome (CapturedStmt Leaf unit unit unit) :=
  match storage s with
  | Sample_CapturedStmt c => Returned c
  | _ => Undefined
  end.

(** The members that are declared in headers (the brace locations of a
    compound statement, the range of statements of an ObjC try, the
    locations and range of a captured statement, taken from the statement
    it captures) are written here as the headers describe them. *)
Definition Sample_CompoundStmt_class : StmtClassDecl SampleStorage (list (option Leaf)) :=
  mkStmtClassDecl "CompoundStmt" 24
    (fun s => c <- static_cast_CompoundStmt s ;; CompoundStmt_children c)
    (fun s => c <- static_cast_CompoundStmt s ;; Returned (LBracLoc c))
    (fun s => c <- static_cast_CompoundStmt s ;; Returned (RBracLoc c))
    None.

Definition Sample_ObjCAtTryStmt_class : StmtClassDecl SampleStorage (list (option Leaf)) :=
  mkStmtClassDecl "ObjCAtTryStmt" 16
    (fun s => t <- static_cast_ObjCAtTryStmt s ;;
              read_range (ObjCAtTryStmt_Stmts t) 0
                (Z.to_nat (1 + NumCatchStmts t + (if HasFinally t then 1 else 0))))
    (fun s => t <- static_cast_ObjCAtTryStmt s ;; Returned (AtTryLoc t))
    (fun s => t <- static_cast_ObjCAtTryStmt s ;; ObjCAtTryStmt_getLocEnd Leaf_getLocEnd t)
    None.

Definition Sample_CapturedStmt_class : StmtClassDecl SampleStorage (list (option Leaf)) :=
  mkStmtClassDecl "CapturedStmt" 32
    (fun s => c <- static_cast_CapturedStmt s ;; CapturedStmt_children c)
    (fun s => c <- static_cast_CapturedStmt s ;;
              p <- CapturedStmt_getCapturedStmt c ;; deref p Leaf_getLocStart)
    (fun s => c <- static_cast_CapturedStmt s ;;
              p <- CapturedStmt_getCapturedStmt c ;; deref p Leaf_getLocEnd)
    (Some (fun s => c <- static_cast_CapturedStmt s ;;
                    p <- CapturedStmt_getCapturedStmt c ;;
                    deref p (fun l => mkSourceRange (Leaf_getLocStart l) (Leaf_getLocEnd l)))).

Definition Sample_StmtNodes : list (StmtNode SampleStorage (list (option Leaf))) :=
  [ ABSTRACT_STMT "AsmStmt";
    STMT Sample_CompoundStmt_class;
    STMT Sample_ObjCAtTryStmt_class;
    ABSTRACT_STMT "SwitchCase";
    STMT Sample_CapturedStmt_class ].

Definition Sample_CompoundStmtClass : nat := 1%nat.
Definition Sample_ObjCAtTryStmtClass : nat := 2%nat.
Definition Sample_CapturedStmtClass : nat := 3%nat.

(** ** Statements of the specification, for comparison with the code *)

(** The end location of an ObjC try statement in the words of the
    specification: the finally's end if present, else the last catch's end
    if there is a catch, else the end of the guarded block. *)
Definition ObjCAtTryStmt_end_location_spec {S : Type} (getLocEnd : S -> SourceLocation)
    (atTryStmt : option S) (CatchStmts : list (option S)) (atFinallyStmt : option S)
    : outcome SourceLocation :=
  match atFinallyStmt with
  | Some finally => Returned (getLocEnd finally)
  | None =>
      match CatchStmts with
      | _ :: _ => deref (last CatchStmts None) getLocEnd
      | [] => deref atTryStmt getLocEnd
      end
  end.

(** Claim C4 as the specification states it, for the node that the
    constructor builds from the given statements, an [unsigned] number of
    catch statements, in storage with room for them. *)
Definition ObjCAtTryStmt_getLocEnd_as_stated {S : Type} (getLocEnd : S -> SourceLocation)
    (Mem : list (Slot (option S))) (atTryLoc : SourceLocation) (atTryStmt : option S)
    (CatchStmts : list (option S)) (atFinallyStmt : option S) : Prop :=
  list_size CatchStmts < 2 ^ 32 ->
  (1 + length CatchStmts + (if is_nonnull atFinallyStmt then 1 else 0) <= length Mem)%nat ->
  exists t,
    ObjCAtTryStmt_ObjCAtTryStmt Mem atTryLoc atTryStmt CatchStmts
      (list_size CatchStmts) atFinallyStmt = Returned t /\
    ObjCAtTryStmt_getLocEnd getLocEnd t
    = ObjCAtTryStmt_end_location_spec getLocEnd atTryStmt CatchStmts atFinallyStmt.

(** 65536 catch statements, each ending at 20. *)
Definition Sample_many_catches : list (option Leaf) :=
  repeat (Some (mkLeaf 11 20)) (Z.to_nat 65536).

(** A layout in which a [Stmt] object is larger than a pointer to one. *)
Definition Layout_wide_Stmt : Layout :=
  mkLayout 16 8 16 8 16 8.

(** A layout in which a [Stmt] object is smaller than a pointer to one. *)
Definition Layout_narrow_Stmt : Layout :=
  mkLayout 4 8 16 8 16 8.

(** A layout in which a [Stmt] object has the size of a pointer. *)
Definition Layout_LP64 : Layout :=
  mkLayout 8 8 16 8 16 8.

(** The shape that the setters of the clause arrays share: the assertion
    on the length, then the copy to the slot [start c]. *)
Definition checked_copy {E : Type} (msg : string) (start : OMPVarListClause E -> Z)
    (A : list (option E)) (c : OMPVarListClause E) : outcome (OMPVarListClause E) :=
  _ <- assert_that (list_size A =? varlist_size c) msg ;;
  copy_into c A (start c).

(** What holds of the statics in every reachable state: the table has
    [lastStmtConstant + 1] entries, the name of entry [NoStmtClass] is
    null, and once [Initialized] is set the entry of every concrete class
    carries its name and size. *)
Definition StmtStatics_inv {Storage ChildRange : Type}
    (StmtNodes : list (StmtNode Storage ChildRange)) (st : StmtStatics) : Prop :=
  length (StmtClassInfo st) = Datatypes.S (lastStmtConstant StmtNodes) /\
  (forall e, nth_error (StmtClassInfo st) 0 = Some e -> Name e = None) /\
  (Initialized st = true ->
   forall i type,
     nth_error (STMT_entries StmtNodes) i = Some type ->
     exists e,
       nth_error (StmtClassInfo st) (Datatypes.S i) = Some e /\
       Name e = Some (class_name type) /\ Size e = class_sizeof type).

(** The second half of claim C1 as the specification states it: on a tag
    that selects no class, each of the three operations ends in
    [llvm_unreachable]. *)
Definition dispatch_fatal_as_stated {Storage ChildRange : Type}
    (StmtNodes : list (StmtNode Storage ChildRange)) (s : Stmt Storage)
    (st : StmtStatics) : Prop :=
  StmtClass_case StmtNodes (Stmt_getStmtClass s) = None ->
  (exists msg, Stmt_children StmtNodes s = Unreachable msg) /\
  (exists msg, Stmt_getSourceRange StmtNodes s = Unreachable msg) /\
  (exists msg, snd (Stmt_getStmtClassName StmtNodes s st) = Unreachable msg).

(** A compound statement of the registry of three classes, and an object
    whose tag is the sentinel. *)
Definition Sample_compound : Stmt SampleStorage :=
  mkStmt Sample_CompoundStmtClass
    (Sample_CompoundStmt
       (mkCompoundStmt 2 (Some [Init (Some (mkLeaf 3 4)); Init None]) 1 9)).

Definition Sample_no_class : Stmt SampleStorage :=
  mkStmt NoStmtClass (Sample_CompoundStmt (mkCompoundStmt 0 None 1 9)).

(** The same statement with another template string. *)
Definition GCCAsmStmt_with_AsmStr (S : GCCAsmStmt) (Str : StringRef) : GCCAsmStmt :=
  mkGCCAsmStmt (IsSimple S) (NumOutputs S) (NumInputs S) (Names S) (Constraints S) Str.

(** What the constructor of a [GCCAsmStmt] establishes, and what the [int]
    result of [getNamedOperand] needs: the counts are those of the [Names]
    array and their sum is an [int]. *)
Definition GCCAsmStmt_wf (S : GCCAsmStmt) : Prop :=
  0 <= NumOutputs S /\ 0 <= NumInputs S /\
  NumOutputs S + NumInputs S < 2 ^ 31 /\
  list_size (Names S) = NumOutputs S + NumInputs S.

(** The value of a run of digits read as a decimal number. *)
Definition decimal_value (digits : StringRef) : Z :=
  fold_left (fun N c => N * 10 + (char_code c - char_code "0"%char)) digits 0.

(** The characters between '%' and the operand, and the modifier they
    stand for: none (the NUL character), or one letter. *)
Definition modifier_chars (Modifier : option ascii) : StringRef :=
  match Modifier with
  | Some m => [m]
  | None => []
  end.

Definition modifier_char (Modifier : option ascii) : ascii :=
  match Modifier with
  | Some m => m
  | None => "000"%char
  end.

Definition modifier_ok (Modifier : option ascii) : Prop :=
  match Modifier with
  | Some m => isLetter m = true
  | None => True
  end.

(** The names of the output operands and of the input operands. *)
Definition output_names (S : GCCAsmStmt) : list StringRef :=
  map IdentifierInfo_name (firstn (Z.to_nat (NumOutputs S)) (Names S)).

Definition input_names (S : GCCAsmStmt) : list StringRef :=
  map IdentifierInfo_name
    (firstn (Z.to_nat (NumInputs S)) (skipn (Z.to_nat (NumOutputs S)) (Names S))).

(** The position of the first name equal to [SymbolicName]. *)
Fixpoint first_match (names : list StringRef) (SymbolicName : StringRef) : option nat :=
  match names with
  | [] => None
  | n :: names' =>
      if list_eq_dec ascii_dec n SymbolicName then Some O
      else option_map Datatypes.S (first_match names' SymbolicName)
  end.

(** The resolution of a symbolic name in the words of the specification:
    "an exact linear scan over output names then input names (first match
    wins; outputs checked before inputs)"; an input is numbered after all
    the outputs. *)
Definition resolve_symbolic_name (S : GCCAsmStmt) (SymbolicName : StringRef) : option Z :=
  match first_match (output_names S) SymbolicName with
  | Some i => Some (Z.of_nat i)
  | None =>
      match first_match (input_names S) SymbolicName with
      | Some j => Some (NumOutputs S + Z.of_nat j)
      | None => None
      end
  end.

(** Claim C2 as the specification states it, for a template that is
    [before], '%', the digit run [digits], and [after]: an operand number
    that is too large is reported at the offset where the digit run
    starts. *)
Definition operand_number_diag_as_stated (S : GCCAsmStmt) (HasVariants : bool)
    (before digits after : StringRef) : Prop :=
  AsmStr S = before ++ lit "%" ++ digits ++ after ->
  AnalyzeAsmString_NumOperands S <= decimal_value digits ->
  exists Ps,
    GCCAsmStmt_AnalyzeAsmString S HasVariants
    = Some (mkAnalyzeResult (Some err_asm_invalid_operand_number)
              (Some (list_size before + 1)) Ps).

(** An asm statement with one output named "foo" and constrained "=r", one
    unnamed input constrained "r", and the given template. *)
Definition asm_foo (Str : string) : GCCAsmStmt :=
  mkGCCAsmStmt false 1 1 [Some (lit "foo"); None] [lit "=r"; lit "r"] (lit Str).

(** The same with the output constrained "+r". *)
Definition asm_plus (Str : string) : GCCAsmStmt :=
  mkGCCAsmStmt false 1 1 [Some (lit "foo"); Some (lit "bar")] [lit "+r"; lit "r"] (lit Str).

(** The state of the loop on entry. *)
Definition AnalyzeState_initial (Str : StringRef) : AnalyzeState :=
  mkAnalyzeState Str 0 [] [] None.

(** A loop state with one more '%' at the end of the string. *)
Definition with_trailing_percent (st : AnalyzeState) : AnalyzeState :=
  mkAnalyzeState (CurPtr st ++ lit "%") (CurOffs st) (CurStringPiece st)
    (CurPieces st) (CurDiagOffs st).

(** The number of output operands whose constraint starts with '+'. *)
Definition number_of_plus_outputs (S : GCCAsmStmt) : Z :=
  Z.of_nat
    (length
       (filter (fun cs => match cs with
                          | c :: _ => Ascii.eqb c "+"%char
                          | [] => false
                          end)
          (firstn (Z.to_nat (NumOutputs S)) (Constraints S)))).

(** ** More of the inline-assembly code *)

(** Modelled from the spec: [llvm::utostr] belongs to the LLVM support
    library, not to this repository; it writes an unsigned number in
    decimal. *)
Definition utostr (N : Z) : StringRef :=
  lit (DecimalString.NilZero.string_of_uint (N.to_uint (Z.to_N N))).

(** What the loop of [GCCAsmStmt::generateAsmString] appends for one
    piece. *)
Definition generateAsmString_piece (P : AsmStringPiece) : StringRef :=
  match P with
  | AsmStringPiece_String Str => Str
  | AsmStringPiece_Operand OpNo Modifier =>
      if Ascii.eqb Modifier "000"%char then lit "$" ++ utostr OpNo
      else lit "${" ++ utostr OpNo ++ lit ":" ++ [Modifier] ++ lit "}"
  end.

(** [GCCAsmStmt::generateAsmString]: the pieces of [AnalyzeAsmString], whose
    returned value it does not look at, put together. *)
Definition GCCAsmStmt_generateAsmString (S : GCCAsmStmt) (HasVariants : bool)
    : option StringRef :=
  match GCCAsmStmt_AnalyzeAsmString S HasVariants with
  | Some r =>
      Some (fold_left (fun AsmString P => AsmString ++ generateAsmString_piece P)
              (Pieces r) [])
  | None => None
  end.

(** What the loop of [AnalyzeAsmString] appends to the string piece for a
    character other than '%'. *)
Definition AnalyzeAsmString_literal (HasVariants : bool) (CurChar : ascii) : StringRef :=
  if Ascii.eqb CurChar "$"%char then lit "$$"
  else if Ascii.eqb CurChar "{"%char then (if HasVariants then lit "$(" else lit "{")
  else if Ascii.eqb CurChar "|"%char then (if HasVariants then lit "$|" else lit "|")
  else if Ascii.eqb CurChar "}"%char then (if HasVariants then lit "$)" else lit "}")
  else [CurChar].

(** A string with every "$$" read back as one '$'. *)
Fixpoint undouble_dollars (s : StringRef) : StringRef :=
  match s with
  | [] => []
  | c :: s' =>
      if Ascii.eqb c "$"%char then
        match s' with
        | c' :: s'' =>
            if Ascii.eqb c' "$"%char then c :: undouble_dollars s''
            else c :: undouble_dollars s'
        | [] => [c]
        end
      else c :: undouble_dollars s'
  end.

(** A piece that the analysis may produce for a statement: a string piece
    is not empty, and an operand piece numbers one of the operands. *)
Definition AsmStringPiece_ok (S : GCCAsmStmt) (P : AsmStringPiece) : Prop :=
  match P with
  | AsmStringPiece_String Str => Str <> []
  | AsmStringPiece_Operand OpNo _ => 0 <= OpNo < AnalyzeAsmString_NumOperands S
  end.

(** A simple asm statement with the given template. *)
Definition asm_simple (Str : string) : GCCAsmStmt :=
  mkGCCAsmStmt true 0 0 [] [] (lit Str).

(** ** The statistics of [Stmt::PrintStats] *)

(** A line of the second loop of [Stmt::PrintStats]: the counter, the
    name, the size and their product, as written to [llvm::errs()]. *)
Record StatsLine : Type := mkStatsLine {
  line_Counter : Z;
  line_Name : option string;
  line_Size : Z;
  line_bytes : Z
}.

(** All that [Stmt::PrintStats] writes: the total of the first loop, the
    lines of the second and its total. *)
Record Stats : Type := mkStats {
  stats_total : Z;
  stats_lines : list StatsLine;
  stats_bytes : Z
}.

(** The first loop of [Stmt::PrintStats] over the whole table, from
    index 0 to [lastStmtConstant]; [sum] is an [unsigned]. *)
Fixpoint PrintStats_total (a : list StmtClassNameTable) (sum : Z) : Z :=
  match a with
  | [] => sum
  | e :: a' =>
      match Name e with
      | None => PrintStats_total a' sum
      | Some _ => PrintStats_total a' (to_unsigned (sum + Counter e))
      end
  end.

(** The second loop: the lines written and [sum]. *)
Fixpoint PrintStats_bytes (a : list StmtClassNameTable) (lines : list StatsLine) (sum : Z)
    : list StatsLine * Z :=
  match a with
  | [] => (lines, sum)
  | e :: a' =>
      match Name e with
      | None => PrintStats_bytes a' lines sum
      | Some _ =>
          if Counter e =? 0 then PrintStats_bytes a' lines sum
          else
            let bytes := to_unsigned (Counter e * Size e) in
            PrintStats_bytes a'
              (lines ++ [mkStatsLine (Counter e) (Name e) (Size e) bytes])
              (to_unsigned (sum + bytes))
      end
  end.

(** [Stmt::PrintStats]; [NullStmtClass] is the tag that primes the
    table. *)
Definition Stmt_PrintStats {Storage ChildRange : Type}
    (StmtNodes : list (StmtNode Storage ChildRange)) (NullStmtClass : nat)
    (st : StmtStatics) : StmtStatics * Stats :=
  let st' := fst (getStmtInfoTableEntry StmtNodes NullStmtClass st) in
  let total := PrintStats_total (StmtClassInfo st') 0 in
  let '(lines, bytes) := PrintStats_bytes (StmtClassInfo st') [] 0 in
  (st', mkStats total lines bytes).

(** The statics after a run of calls of [Stmt::addStmtClass], one for
    each tag of [tags], from the start of the program. *)
Definition StmtStatics_after {Storage ChildRange : Type}
    (StmtNodes : list (StmtNode Storage ChildRange)) (tags : list nat)
    : StmtStatics :=
  fold_left (fun st s => Stmt_addStmtClass StmtNodes s st) tags
    (StmtStatics_initial StmtNodes).

(** The sum of the counters of the named entries, without wrap-around. *)
Fixpoint named_counters (a : list StmtClassNameTable) : Z :=
  match a with
  | [] => 0
  | e :: a' =>
      match Name e with
      | None => named_counters a'
      | Some _ => Counter e + named_counters a'
      end
  end.

(** ** [CompoundStmt::setStmts] *)

(** [memcpy(dst, src, sizeof(T) * n)] between two arrays of [T]: [n]
    elements, read from the caller's array and written from [dst[0]]
    on; [i] is the index reached. *)
Fixpoint memcpy_elements {A : Type} (dst : list (Slot A)) (src : list A) (i : Z) (n : nat)
    : outcome (list (Slot A)) :=
  match n with
  | O => Returned dst
  | Datatypes.S n' =>
      x <- ptr_read src i ;;
      dst' <- array_write dst i x ;;
      memcpy_elements dst' src (i + 1) n'
  end.

(** [CompoundStmt::setStmts]: the old array, if any, is given back to the
    allocator; the counter keeps the low bits of [NumStmts], with no
    [assert]; the new array has [NumStmts] slots, also when [NumStmts]
    is 0. *)
Definition CompoundStmt_setStmts {S : Type} (NumStmtsWidth : Z) (this : CompoundStmt S)
    (Stmts : list (option S)) (NumStmts : Z) : outcome (CompoundStmt S) :=
  let bits := NumStmts mod 2 ^ NumStmtsWidth in
  Body' <- memcpy_elements (new_array (option S) (Z.to_nat NumStmts)) Stmts 0
             (Z.to_nat NumStmts) ;;
  Returned (mkCompoundStmt bits (Some Body') (LBracLoc this) (RBracLoc this)).

(** ** The factories of the OpenMP clauses *)

Section OMPClauseFactories.

Variable E : Type.

(** Modelled from the spec: [varlists()] is declared in
    clang/AST/OpenMPClause.h, not under src/; the variable list is the
    first array of the storage. *)
Definition OMPVarList_varlists (c : OMPVarListClause E) : ArrayRef :=
  mkArrayRef (varlist_begin c) (varlist_size c).

(** [OMPPrivateClause::Create]. *)
Definition OMPPrivateClause_Create (VL DefaultInits : list (option E))
    : outcome (OMPVarListClause E) :=
  let Clause0 := OMPVarListClause_new E (list_size VL) 2 in
  Clause1 <- OMPVarList_setVars VL Clause0 ;;
  OMPPrivateClause_setDefaultInits DefaultInits Clause1.

(** [OMPLastPrivateClause::Create]: the assignments are set before the
    default inits, which are [VL.size()] null pointers. *)
Definition OMPLastPrivateClause_Create (VL PseudoVars1 PseudoVars2 Assignments
    : list (option E)) : outcome (OMPVarListClause E) :=
  let Clause0 := OMPVarListClause_new E (list_size VL) 5 in
  Clause1 <- OMPVarList_setVars VL Clause0 ;;
  Clause2 <- OMPLastPrivateClause_setPseudoVars1 PseudoVars1 Clause1 ;;
  Clause3 <- OMPLastPrivateClause_setPseudoVars2 PseudoVars2 Clause2 ;;
  Clause4 <- OMPLastPrivateClause_setAssignments Assignments Clause3 ;;
  let DefaultInits := repeat (@None E) (length VL) in
  OMPLastPrivateClause_setDefaultInits DefaultInits Clause4.

(** [OMPCopyinClause::Create] and [OMPCopyPrivateClause::Create]. *)
Definition OMPCopyinClause_Create (VL PseudoVars1 PseudoVars2 Assignments
    : list (option E)) : outcome (OMPVarListClause E) :=
  let Clause0 := OMPVarListClause_new E (list_size VL) 4 in
  Clause1 <- OMPVarList_setVars VL Clause0 ;;
  Clause2 <- OMPCopyinClause_setPseudoVars1 PseudoVars1 Clause1 ;;
  Clause3 <- OMPCopyinClause_setPseudoVars2 PseudoVars2 Clause2 ;;
  OMPCopyinClause_setAssignments Assignments Clause3.

Definition OMPCopyPrivateClause_Create (VL PseudoVars1 PseudoVars2 Assignments
    : list (option E)) : outcome (OMPVarListClause E) :=
  let Clause0 := OMPVarListClause_new E (list_size VL) 4 in
  Clause1 <- OMPVarList_setVars VL Clause0 ;;
  Clause2 <- OMPCopyPrivateClause_setPseudoVars1 PseudoVars1 Clause1 ;;
  Clause3 <- OMPCopyPrivateClause_setPseudoVars2 PseudoVars2 Clause2 ;;
  OMPCopyPrivateClause_setAssignments Assignments Clause3.

End OMPClauseFactories.

(** Every slot of a storage has been written. *)
Definition all_written {A : Type} (a : list (Slot A)) : Prop :=
  Forall (fun slot => slot <> Uninit) a.

(** [segs] with segment [j] replaced by [x]: the storage of a clause is
    the concatenation of its arrays. *)
Fixpoint set_segment {X : Type} (j : nat) (x : list X) (segs : list (list X))
    : list (list X) :=
  match segs, j with
  | [], _ => []
  | _ :: segs', O => x :: segs'
  | s :: segs', Datatypes.S j' => s :: set_segment j' x segs'
  end.

(** ** [CapturedStmt::capturesVariable] *)

Section CapturedStmtCaptures.

Variables S Capture CapturedDecl RecordDecl VarDecl : Type.

(** [Capture::capturesVariable] and [Capture::getCapturedVar], declared
    in clang/AST/Stmt.h, and [==] on [VarDecl] pointers. *)
Variable Capture_capturesVariable : Capture -> bool.
Variable Capture_getCapturedVar : Capture -> outcome (option VarDecl).
Variable VarDecl_ptr_eqb : option VarDecl -> option VarDecl -> bool.

(** The loop of [CapturedStmt::capturesVariable] from [capture_begin()]
    to [capture_end()]; [I] is the index of the capture looked at and [n]
    the number of captures left. *)
Fixpoint CapturedStmt_capturesVariable_loop (Buffer : list (Slot Capture))
    (Var : option VarDecl) (I : Z) (n : nat) : outcome bool :=
  match n with
  | O => Returned false
  | Datatypes.S n' =>
      C <- array_read Buffer I ;;
      if negb (Capture_capturesVariable C) then
        CapturedStmt_capturesVariable_loop Buffer Var (I + 1) n'
      else
        V <- Capture_getCapturedVar C ;;
        if VarDecl_ptr_eqb V Var then Returned true
        else CapturedStmt_capturesVariable_loop Buffer Var (I + 1) n'
  end.

Definition CapturedStmt_capturesVariable
    (c : CapturedStmt S Capture CapturedDecl RecordDecl) (Var : option VarDecl)
    : outcome bool :=
  CapturedStmt_capturesVariable_loop (StoredCaptures c) Var 0 (Z.to_nat (NumCaptures c)).

(** Whether one of [Captures] captures the variable [Var]. *)
Definition captured_in (Var : option VarDecl) (Captures : list Capture) : bool :=
  existsb (fun C =>
             Capture_capturesVariable C &&
             match Capture_getCapturedVar C with
             | Returned V => VarDecl_ptr_eqb V Var
             | _ => false
             end) Captures.

End CapturedStmtCaptures.

(** A sample [Capture]: the captured variable, or nothing for a capture
    of [this]; [getCapturedVar] asserts on a capture of [this]. *)
Definition Sample_capturesVariable (C : option nat) : bool := is_nonnull C.

Definition Sample_getCapturedVar (C : option nat) : outcome (option nat) :=
  match C with
  | Some v => Returned (Some v)
  | None => AssertionFailed "No variable available for 'this' capture"
  end.

Definition Sample_ptr_eqb (a b : option nat) : bool :=
  match a, b with
  | Some x, Some y => Nat.eqb x y
  | None, None => true
  | _, _ => false
  end.

(** ** [MSAsmStmt] *)

(** The fields of an [MSAsmStmt]: those of [AsmStmt] ([AsmLoc],
    [IsSimple], [IsVolatile], [NumOutputs], [NumInputs], [NumClobbers],
    [Exprs]) and its own.  [Exprs] is a [Stmt **] that only ever holds
    [Expr *]. *)
Record MSAsmStmt (Expr Token : Type) : Type := mkMSAsmStmt {
  MS_AsmLoc : SourceLocation;
  MS_IsSimple : bool;
  MS_IsVolatile : bool;
  MS_NumOutputs : Z;
  MS_NumInputs : Z;
  MS_NumClobbers : Z;
  MS_Exprs : list (Slot (option Expr));
  MS_LBraceLoc : SourceLocation;
  MS_EndLoc : SourceLocation;
  MS_AsmStr : StringRef;
  MS_NumAsmToks : Z;
  MS_AsmToks : list (Slot Token);
  MS_Constraints : list (Slot StringRef);
  MS_Clobbers : list (Slot StringRef)
}.

(** [copyIntoContext]: a buffer of [str.size()] characters, filled by
    [memcpy]; the result is the [StringRef] on the buffer. *)
Definition copyIntoContext (str : StringRef) : outcome StringRef :=
  let size := length str in
  buffer <- memcpy_elements (new_array ascii size) str 0 size ;;
  read_range buffer 0 size.

(** The loops [for (i = 0, e = n; i != e; ++i) dst[i] = f(src[i]);] of
    [MSAsmStmt::initialize]; [src[i]] is [ArrayRef::operator[]]. *)
Fixpoint initialize_loop {A B : Type} (f : A -> outcome B) (src : list A)
    (dst : list (Slot B)) (i : Z) (n : nat) : outcome (list (Slot B)) :=
  match n with
  | O => Returned dst
  | Datatypes.S n' =>
      x <- ArrayRef_index src i ;;
      y <- f x ;;
      dst' <- array_write dst i y ;;
      initialize_loop f src dst' (i + 1) n'
  end.

Section MSAsmStmtDefs.

Variables Expr Token : Type.

(** [MSAsmStmt::initialize]; the counters of [this] were set by the
    constructor. *)
Definition MSAsmStmt_initialize (this : MSAsmStmt Expr Token) (asmstr : StringRef)
    (asmtoks : list Token) (constraints : list StringRef) (exprs : list (option Expr))
    (clobbers : list StringRef) : outcome (MSAsmStmt Expr Token) :=
  _ <- assert_that (MS_NumAsmToks this =? list_size asmtoks)
         "NumAsmToks == asmtoks.size()" ;;
  _ <- assert_that (MS_NumClobbers this =? list_size clobbers)
         "NumClobbers == clobbers.size()" ;;
  let NumExprs := to_unsigned (list_size exprs) in
  _ <- assert_that (NumExprs =? to_unsigned (MS_NumOutputs this + MS_NumInputs this))
         "NumExprs == NumOutputs + NumInputs" ;;
  _ <- assert_that (NumExprs =? list_size constraints)
         "NumExprs == constraints.size()" ;;
  AsmStr' <- copyIntoContext asmstr ;;
  Exprs' <- initialize_loop (fun e => Returned e) exprs
              (new_array (option Expr) (Z.to_nat NumExprs)) 0 (Z.to_nat NumExprs) ;;
  AsmToks' <- initialize_loop (fun t => Returned t) asmtoks
                (new_array Token (Z.to_nat (MS_NumAsmToks this))) 0
                (Z.to_nat (MS_NumAsmToks this)) ;;
  Constraints' <- initialize_loop copyIntoContext constraints
                    (new_array StringRef (Z.to_nat NumExprs)) 0 (Z.to_nat NumExprs) ;;
  Clobbers' <- initialize_loop copyIntoContext clobbers
                 (new_array StringRef (Z.to_nat (MS_NumClobbers this))) 0
                 (Z.to_nat (MS_NumClobbers this)) ;;
  Returned (mkMSAsmStmt (MS_AsmLoc this) (MS_IsSimple this) (MS_IsVolatile this)
              (MS_NumOutputs this) (MS_NumInputs this) (MS_NumClobbers this) Exprs'
              (MS_LBraceLoc this) (MS_EndLoc this) AsmStr' (MS_NumAsmToks this)
              AsmToks' Constraints' Clobbers').

(** [MSAsmStmt::MSAsmStmt]: the counters of clobbers and tokens are the
    sizes of the arrays, kept in [unsigned]; the arrays and the string
    are set by [initialize]. *)
Definition MSAsmStmt_MSAsmStmt (asmloc lbraceloc : SourceLocation)
    (issimple isvolatile : bool) (asmtoks : list Token) (numoutputs numinputs : Z)
    (constraints : list StringRef) (exprs : list (option Expr)) (asmstr : StringRef)
    (clobbers : list StringRef) (endloc : SourceLocation)
    : outcome (MSAsmStmt Expr Token) :=
  let this :=
    mkMSAsmStmt asmloc issimple isvolatile numoutputs numinputs
      (to_unsigned (list_size clobbers)) [] lbraceloc endloc []
      (to_unsigned (list_size asmtoks)) [] [] [] in
  MSAsmStmt_initialize this asmstr asmtoks constraints exprs clobbers.

(** [cast<Expr>(p)] on a slot that holds an [Expr *]: an [assert] that
    the pointer is not null. *)
Definition cast_Expr (p : option Expr) : outcome Expr :=
  match p with
  | Some e => Returned e
  | None => AssertionFailed "isa<> used on a null pointer"
  end.

(** [MSAsmStmt::getOutputExpr], [getInputExpr], [setInputExpr]; the
    index [i + NumOutputs] is an [unsigned]. *)
Definition MSAsmStmt_getOutputExpr (this : MSAsmStmt Expr Token) (i : Z) : outcome Expr :=
  p <- array_read (MS_Exprs this) i ;; cast_Expr p.

Definition MSAsmStmt_getInputExpr (this : MSAsmStmt Expr Token) (i : Z) : outcome Expr :=
  p <- array_read (MS_Exprs this) (to_unsigned (i + MS_NumOutputs this)) ;; cast_Expr p.

Definition MSAsmStmt_setInputExpr (this : MSAsmStmt Expr Token) (i : Z) (E : option Expr)
    : outcome (MSAsmStmt Expr Token) :=
  Exprs' <- array_write (MS_Exprs this) (to_unsigned (i + MS_NumOutputs this)) E ;;
  Returned (mkMSAsmStmt (MS_AsmLoc this) (MS_IsSimple this) (MS_IsVolatile this)
              (MS_NumOutputs this) (MS_NumInputs this) (MS_NumClobbers this) Exprs'
              (MS_LBraceLoc this) (MS_EndLoc this) (MS_AsmStr this) (MS_NumAsmToks this)
              (MS_AsmToks this) (MS_Constraints this) (MS_Clobbers this)).

(** [MSAsmStmt::generateAsmString]. *)
Definition MSAsmStmt_generateAsmString (this : MSAsmStmt Expr Token) : StringRef :=
  MS_AsmStr this.

End MSAsmStmtDefs.

(** ** [Stmt::IgnoreImplicit] and [Stmt::stripLabelLikeStatements] *)

(** The statements that the two functions tell apart, with the
    sub-statement or sub-expression that they follow (a pointer, which
    may be null); [CaseStmt] and [DefaultStmt] are the two classes of
    [SwitchCase].  The classes and their [getSubStmt] and [getSubExpr]
    are declared in clang/AST/Stmt.h, Expr.h and ExprCXX.h. *)
#[warnings="-register-all"]
Inductive StmtTree (Other : Type) : Type :=
| LabelStmt (SubStmt : option (StmtTree Other))
| CaseStmt (SubStmt : option (StmtTree Other))
| DefaultStmt (SubStmt : option (StmtTree Other))
| AttributedStmt (SubStmt : option (StmtTree Other))
| ExprWithCleanups (SubExpr : option (StmtTree Other))
| ImplicitCastExpr (SubExpr : option (StmtTree Other))
| OtherStmt (s : Other).

Arguments LabelStmt {Other} SubStmt.
Arguments CaseStmt {Other} SubStmt.
Arguments DefaultStmt {Other} SubStmt.
Arguments AttributedStmt {Other} SubStmt.
Arguments ExprWithCleanups {Other} SubExpr.
Arguments ImplicitCastExpr {Other} SubExpr.
Arguments OtherStmt {Other} s.

(** [SwitchCase::getSubStmt]. *)
Definition SwitchCase_getSubStmt {Other : Type} (this : StmtTree Other)
    : outcome (option (StmtTree Other)) :=
  match this with
  | CaseStmt SubStmt => Returned SubStmt
  | DefaultStmt SubStmt => Returned SubStmt
  | _ => AssertionFailed "cast<Ty>() argument of incompatible type!"
  end.

(** [Stmt::stripLabelLikeStatements]: one turn of the loop for each
    label-like statement on the way down; [dyn_cast] asserts on the null
    pointer. *)
Fixpoint Stmt_stripLabelLikeStatements {Other : Type} (S : StmtTree Other)
    : outcome (StmtTree Other) :=
  let next (p : option (StmtTree Other)) :=
    match p with
    | Some S' => Stmt_stripLabelLikeStatements S'
    | None => AssertionFailed "isa<> used on a null pointer"
    end in
  match S with
  | LabelStmt SubStmt => next SubStmt
  | CaseStmt SubStmt => next SubStmt
  | DefaultStmt SubStmt => next SubStmt
  | AttributedStmt SubStmt => next SubStmt
  | _ => Returned S
  end.

(** The loop [while (ImplicitCastExpr *ice = dyn_cast<ImplicitCastExpr>(s))
    s = ice->getSubExpr();] of [Stmt::IgnoreImplicit]. *)
Fixpoint IgnoreImplicit_casts {Other : Type} (s : StmtTree Other)
    : outcome (StmtTree Other) :=
  match s with
  | ImplicitCastExpr (Some s') => IgnoreImplicit_casts s'
  | ImplicitCastExpr None => AssertionFailed "isa<> used on a null pointer"
  | _ => Returned s
  end.

(** [Stmt::IgnoreImplicit]. *)
Definition Stmt_IgnoreImplicit {Other : Type} (this : StmtTree Other)
    : outcome (StmtTree Other) :=
  match this with
  | ExprWithCleanups (Some s) => IgnoreImplicit_casts s
  | ExprWithCleanups None => AssertionFailed "isa<> used on a null pointer"
  | _ => IgnoreImplicit_casts this
  end.

(** The statements that [stripLabelLikeStatements] looks through. *)
Definition is_label_like {Other : Type} (S : StmtTree Other) : bool :=
  match S with
  | LabelStmt _ | CaseStmt _ | DefaultStmt _ | AttributedStmt _ => true
  | _ => false
  end.

Definition is_ImplicitCastExpr {Other : Type} (S : StmtTree Other) : bool :=
  match S with
  | ImplicitCastExpr _ => true
  | _ => false
  end.

(** The sub-statement of a label-like statement. *)
Definition label_like_sub {Other : Type} (S : StmtTree Other)
    : option (StmtTree Other) :=
  match S with
  | LabelStmt p | CaseStmt p | DefaultStmt p | AttributedStmt p => p
  | _ => None
  end.

(** [R] is reached from [S] through label-like statements only. *)
Inductive under_labels {Other : Type} : StmtTree Other -> StmtTree Other -> Prop :=
| under_labels_here S : under_labels S S
| under_labels_sub S S' R :
    is_label_like S = true -> label_like_sub S = Some S' ->
    under_labels S' R -> under_labels S R.

(** A chain of label-like statements from [S] ends in a null
    sub-statement. *)
Inductive labels_end_in_null {Other : Type} : StmtTree Other -> Prop :=
| labels_end_here S :
    is_label_like S = true -> label_like_sub S = None -> labels_end_in_null S
| labels_end_sub S S' :
    is_label_like S = true -> label_like_sub S = Some S' ->
    labels_end_in_null S' -> labels_end_in_null S.

Definition is_ExprWithCleanups {Other : Type} (S : StmtTree Other) : bool :=
  match S with
  | ExprWithCleanups _ => true
  | _ => false
  end.

(** ** [AttributedStmt::Create] and [AttributedStmt::CreateEmpty] *)

(** The sizes that the two factories use: [sizeof(AttributedStmt)],
    [sizeof(Attr * )] and [llvm::alignOf<AttributedStmt>()]. *)
Record AttributedLayout : Type := mkAttributedLayout {
  sizeof_AttributedStmt : Z;
  sizeof_AttrPtr : Z;
  alignOf_AttributedStmt : Z
}.

(** The call [C.Allocate(Size, Alignment)] of [AttributedStmt::Create]:
    [Attrs.size() - 1] and the size are [size_t]. *)
Definition AttributedStmt_Create_Allocate {Attr : Type} (L : AttributedLayout)
    (Attrs : list (option Attr)) : Z * Z :=
  (to_size_t (sizeof_AttributedStmt L
              + to_size_t (sizeof_AttrPtr L * to_size_t (list_size Attrs - 1))),
   alignOf_AttributedStmt L).

(** The [assert] and the call [C.Allocate(Size, Alignment)] of
    [AttributedStmt::CreateEmpty]: [NumAttrs - 1] is an [unsigned]. *)
Definition AttributedStmt_CreateEmpty_Allocate (L : AttributedLayout) (NumAttrs : Z)
    : outcome (Z * Z) :=
  _ <- assert_that (NumAttrs >? 0) "NumAttrs should be greater than zero" ;;
  Returned
    (to_size_t (sizeof_AttributedStmt L
                + to_size_t (sizeof_AttrPtr L * to_unsigned (NumAttrs - 1))),
     alignOf_AttributedStmt L).

Definition AttributedLayout_LP64 : AttributedLayout := mkAttributedLayout 32 8 8.

(** ** The constructors of [ForStmt], [SwitchStmt] and [WhileStmt] *)

Section ConditionVariableConstructors.

Variables VarDecl OtherDecl OtherStmt : Type.
Variable VarDecl_getSourceRange : VarDecl -> SourceRange.

Local Notation "'StmtPtr'" := (option (SubStmt VarDecl OtherDecl OtherStmt)).

(** [ForStmt::ForStmt]: [SubExprs[INIT]], then [setConditionVariable],
    then the other slots. *)
Definition ForStmt_ForStmt (Init : StmtPtr) (Cond : StmtPtr) (condVar : option VarDecl)
    (Inc Body : StmtPtr) (FL LP RP : SourceLocation)
    : ForStmt VarDecl OtherDecl OtherStmt :=
  let this := mkForStmt FL LP RP Init None None None None in
  let this := ForStmt_setConditionVariable VarDecl_getSourceRange this condVar in
  mkForStmt (ForLoc this) (ForStmt_LParenLoc this) (ForStmt_RParenLoc this)
    (ForStmt_SubExprs_INIT this) (ForStmt_SubExprs_CONDVAR this) Cond Inc Body.

(** [SwitchStmt::SwitchStmt]: the location is the default
    [SourceLocation], [AllEnumCasesCovered] is 0 and the body is null
    ([FirstCase], also null, is not among the fields kept here). *)
Definition SwitchStmt_SwitchStmt (Var : option VarDecl) (cond : StmtPtr)
    : SwitchStmt VarDecl OtherDecl OtherStmt :=
  let this := mkSwitchStmt 0 false None None None in
  let this := SwitchStmt_setConditionVariable VarDecl_getSourceRange this Var in
  mkSwitchStmt (SwitchLoc this) (AllEnumCasesCovered this) (SwitchStmt_SubExprs_VAR this)
    cond None.

(** [WhileStmt::WhileStmt]. *)
Definition WhileStmt_WhileStmt (Var : option VarDecl) (cond body : StmtPtr)
    (WL : SourceLocation) : WhileStmt VarDecl OtherDecl OtherStmt :=
  let this := mkWhileStmt 0 None None None in
  let this := WhileStmt_setConditionVariable VarDecl_getSourceRange this Var in
  mkWhileStmt WL (WhileStmt_SubExprs_VAR this) cond body.

End ConditionVariableConstructors.


(** A loop state with [suffix] after the rest of the string. *)
Definition with_suffix (st : AnalyzeState) (suffix : StringRef) : AnalyzeState :=
  mkAnalyzeState (CurPtr st ++ suffix) (CurOffs st) (CurStringPiece st)
    (CurPieces st) (CurDiagOffs st).

(** The template of claims C2 and C5: [before], then '%', an optional
    modifier letter, and [operand]. *)
Definition escape_template (before : StringRef) (Modifier : option ascii)
    (operand : StringRef) : StringRef :=
  before ++ lit "%" ++ modifier_chars Modifier ++ operand.

(** The offset of the character after '%' and the modifier. *)
Definition escape_offset (before : StringRef) (Modifier : option ascii) : Z :=
  list_size before + 1 + list_size (modifier_chars Modifier).

(* ================================================================= *)
(** * Part II: properties *)
(* ================================================================= *)

(** ** Arrays *)

Lemma array_write_in_bounds (A : Type) (a : list (Slot A)) (i : nat) (v : A) :
  (i < length a)%nat ->
  array_write a (Z.of_nat i) v = Returned (firstn i a ++ Init v :: skipn (i + 1) a).
Proof.
  intros Hi. unfold array_write.
  replace ((0 <=? Z.of_nat i) && (Z.of_nat i <? Z.of_nat (length a))) with true.
  - now rewrite Nat2Z.id.
  - symmetry. apply andb_true_iff. split; [apply Z.leb_le | apply Z.ltb_lt]; lia.
Qed.

Lemma array_write_length (A : Type) (a a' : list (Slot A)) (i : Z) (v : A) :
  array_write a i v = Returned a' -> length a' = length a.
Proof.
  unfold array_write.
  destruct ((0 <=? i) && (i <? Z.of_nat (length a))) eqn:Hb; [|discriminate].
  apply andb_true_iff in Hb. destruct Hb as [H0 H1].
  apply Z.leb_le in H0. apply Z.ltb_lt in H1.
  intros H. injection H as <-.
  rewrite length_app. cbn [length]. rewrite length_firstn, length_skipn. lia.
Qed.

(** Writing at the slot after the prefix [pre]. *)
Lemma array_write_after_prefix (A : Type) (pre : list (Slot A)) (x : Slot A)
    (post : list (Slot A)) (v : A) :
  array_write (pre ++ x :: post) (Z.of_nat (length pre)) v
  = Returned (pre ++ Init v :: post).
Proof.
  rewrite array_write_in_bounds.
  - rewrite firstn_app, Nat.sub_diag, firstn_all. cbn [firstn]. rewrite app_nil_r.
    rewrite skipn_app, skipn_all2 by lia.
    replace (length pre + 1 - length pre)%nat with 1%nat by lia. reflexivity.
  - rewrite length_app. cbn [length]. lia.
Qed.

(** [std::copy] into storage that has room: the elements land, in order,
    after the first [pos] slots, and the other slots keep their content. *)
Lemma std_copy_after_prefix (A : Type) (src : list A) :
  forall (pre old post : list (Slot A)),
    length old = length src ->
    std_copy src (pre ++ old ++ post) (Z.of_nat (length pre))
    = Returned (pre ++ map Init src ++ post).
Proof.
  induction src as [|x src IH]; intros pre old post Hlen.
  - destruct old; [reflexivity | discriminate].
  - destruct old as [|o old]; [discriminate|]. cbn [std_copy length map] in *.
    change ((o :: old) ++ post) with (o :: (old ++ post)).
    rewrite array_write_after_prefix. cbn [bind].
    replace (Z.of_nat (length pre) + 1) with (Z.of_nat (length (pre ++ [Init x]))).
    + change (pre ++ Init x :: old ++ post) with (pre ++ [Init x] ++ old ++ post).
      rewrite app_assoc. rewrite IH by lia. now rewrite <- app_assoc.
    + rewrite length_app. cbn [length]. lia.
Qed.

(** Enumerating a range of written slots gives their values. *)
Lemma read_range_after_prefix (A : Type) (xs : list A) :
  forall (pre post : list (Slot A)),
    read_range (pre ++ map Init xs ++ post) (Z.of_nat (length pre)) (length xs)
    = Returned xs.
Proof.
  induction xs as [|x xs IH]; intros pre post; [reflexivity|].
  cbn [read_range length map]. unfold array_read.
  replace (0 <=? Z.of_nat (length pre)) with true by (symmetry; apply Z.leb_le; lia).
  rewrite Nat2Z.id, nth_error_app2, Nat.sub_diag by lia. cbn [nth_error app bind].
  replace (Z.of_nat (length pre) + 1) with (Z.of_nat (length (pre ++ [Init x]))).
  - change (pre ++ Init x :: map Init xs ++ post)
      with (pre ++ [Init x] ++ map Init xs ++ post).
    rewrite app_assoc, IH. reflexivity.
  - rewrite length_app. cbn [length]. lia.
Qed.

Lemma array_read_after_prefix (A : Type) (pre post : list (Slot A)) (v : A) :
  array_read (pre ++ Init v :: post) (Z.of_nat (length pre)) = Returned v.
Proof.
  unfold array_read.
  replace (0 <=? Z.of_nat (length pre)) with true by (symmetry; apply Z.leb_le; lia).
  now rewrite Nat2Z.id, nth_error_app2, Nat.sub_diag by lia.
Qed.

Lemma new_array_length (A : Type) (n : nat) : length (new_array A n) = n.
Proof. apply repeat_length. Qed.

Lemma array_write_at (A : Type) (a pre : list (Slot A)) (x : Slot A)
    (post : list (Slot A)) (i : Z) (v : A) :
  a = pre ++ x :: post -> i = Z.of_nat (length pre) ->
  array_write a i v = Returned (pre ++ Init v :: post).
Proof. intros -> ->. apply array_write_after_prefix. Qed.

Lemma array_read_at (A : Type) (a pre post : list (Slot A)) (i : Z) (v : A) :
  a = pre ++ Init v :: post -> i = Z.of_nat (length pre) ->
  array_read a i = Returned v.
Proof. intros -> ->. apply array_read_after_prefix. Qed.

Lemma snoc_cases (A : Type) (l : list A) :
  l = [] \/ exists init x, l = init ++ [x].
Proof.
  destruct l as [|a l]; [now left | right].
  destruct (@exists_last A (a :: l)) as (init & x & H); [discriminate|].
  now exists init, x.
Qed.

Lemma split_storage (A : Type) (l : list A) (a b : nat) :
  (a + b <= length l)%nat ->
  exists pre old post,
    l = pre ++ old ++ post /\ length pre = a /\ length old = b.
Proof.
  intros H. exists (firstn a l), (firstn b (skipn a l)), (skipn b (skipn a l)).
  repeat split.
  - now rewrite !firstn_skipn.
  - rewrite length_firstn. lia.
  - rewrite length_firstn, length_skipn. lia.
Qed.

(** ** C6: [CompoundStmt] *)

Lemma std_copy_fresh (A : Type) (src : list A) :
  std_copy src (new_array A (length src)) 0 = Returned (map Init src).
Proof.
  pose proof (@std_copy_after_prefix A src [] (new_array A (length src)) []
                (new_array_length A (length src))) as H.
  cbn [app length Z.of_nat] in H. now rewrite !app_nil_r in H.
Qed.

Lemma read_range_all (A : Type) (xs : list A) :
  read_range (map Init xs) 0 (length xs) = Returned xs.
Proof.
  pose proof (read_range_after_prefix xs [] []) as H.
  cbn [app length Z.of_nat] in H. now rewrite app_nil_r in H.
Qed.

(** What the constructor does with a sequence too long for the counter. *)
Lemma CompoundStmt_CompoundStmt_overflow (S : Type) (w : Z) (Stmts : list (option S))
    (LB RB : SourceLocation) :
  0 <= w -> 2 ^ w <= list_size Stmts ->
  CompoundStmt_CompoundStmt w Stmts LB RB
  = AssertionFailed "NumStmts doesn't fit in bits of CompoundStmtBits.NumStmts!".
Proof.
  intros Hw Hlen. unfold CompoundStmt_CompoundStmt, list_size in *.
  assert (Hm : Z.of_nat (length Stmts) mod 2 ^ w < 2 ^ w)
    by (apply Z.mod_pos_bound; apply Z.pow_pos_nonneg; lia).
  destruct (Z.of_nat (length Stmts) mod 2 ^ w =? Z.of_nat (length Stmts)) eqn:E.
  - apply Z.eqb_eq in E. lia.
  - reflexivity.
Qed.

(** C6, as amended: for a sequence whose length fits the [NumStmts]
    bit-field, the constructor returns, the children of the node it builds
    are the sequence in order, and [Body] is null exactly when the sequence
    is empty (then the children are the empty sequence). *)
Theorem CompoundStmt_children_roundtrip (S : Type) (w : Z) (Stmts : list (option S))
    (LB RB : SourceLocation) :
  0 <= w -> list_size Stmts < 2 ^ w ->
  exists c,
    CompoundStmt_CompoundStmt w Stmts LB RB = Returned c /\
    CompoundStmt_children c = Returned Stmts /\
    (Stmts = [] -> Body c = None /\ CompoundStmt_children c = Returned []) /\
    (Stmts <> [] -> Body c = Some (map Init Stmts)).
Proof.
  intros Hw Hlen. unfold CompoundStmt_CompoundStmt, list_size in *.
  rewrite Z.mod_small by lia. rewrite Z.eqb_refl. cbn [negb].
  destruct Stmts as [|s Stmts].
  - eexists. split; [reflexivity|]. repeat split; try reflexivity. congruence.
  - replace (Z.of_nat (length (s :: Stmts)) =? 0) with false
      by (symmetry; apply Z.eqb_neq; cbn [length]; lia).
    rewrite std_copy_fresh. cbn [bind].
    eexists. split; [reflexivity|].
    unfold CompoundStmt_children. cbn [Body CompoundStmtBits_NumStmts].
    rewrite Nat2Z.id, read_range_all.
    repeat split; try reflexivity; discriminate.
Qed.

Lemma CompoundStmt_children_roundtrip_witness :
  exists c,
    CompoundStmt_CompoundStmt 24 [Some 7%nat; None; Some 9%nat] 1 2 = Returned c /\
    CompoundStmt_children c = Returned [Some 7%nat; None; Some 9%nat] /\
    ([Some 7%nat; None; Some 9%nat] = [] ->
       Body c = None /\ CompoundStmt_children c = Returned []) /\
    ([Some 7%nat; None; Some 9%nat] <> [] ->
       Body c = Some (map Init [Some 7%nat; None; Some 9%nat])).
Proof.
  apply (@CompoundStmt_children_roundtrip nat 24 [Some 7%nat; None; Some 9%nat] 1 2).
  - lia.
  - reflexivity.
Defined.

(** C6, as stated, at a sequence of 2^24 statements and a counter of 24
    bits: the constructor stops at its assertion, so no node is built whose
    children are the sequence. *)
Lemma CompoundStmt_children_roundtrip_counterexample :
  ~ exists c,
      CompoundStmt_CompoundStmt 24 (repeat (@None unit) (Z.to_nat (2 ^ 24))) 0 0
        = Returned c /\
      CompoundStmt_children c = Returned (repeat (@None unit) (Z.to_nat (2 ^ 24))).
Proof.
  intros [c [H _]].
  rewrite CompoundStmt_CompoundStmt_overflow in H; [discriminate | lia |].
  unfold list_size. rewrite repeat_length, Z2Nat.id; lia.
Qed.

Example CompoundStmt_empty :
  CompoundStmt_CompoundStmt 24 (@nil (option nat)) 3 4
  = Returned (mkCompoundStmt 0 None 3 4).
Proof. reflexivity. Qed.

(** ** C4: [ObjCAtTryStmt::getLocEnd] *)

Lemma ptr_read_after_prefix (A : Type) (done todo : list A) (x : A) :
  ptr_read (done ++ x :: todo) (Z.of_nat (length done)) = Returned x.
Proof.
  unfold ptr_read.
  replace (0 <=? Z.of_nat (length done)) with true by (symmetry; apply Z.leb_le; lia).
  now rewrite Nat2Z.id, nth_error_app2, Nat.sub_diag by lia.
Qed.

(** The copy loop of the constructor: the catch statements land after the
    try body, in order. *)
Lemma ObjCAtTryStmt_copy_catches_spec (S : Type) (todo : list (option S)) :
  forall (done : list (option S)) (pre old post : list (Slot (option S))),
    length pre = Datatypes.S (length done) ->
    length old = length todo ->
    ObjCAtTryStmt_copy_catches (done ++ todo) (pre ++ old ++ post)
      (Z.of_nat (length done)) (length todo)
    = Returned (pre ++ map Init todo ++ post).
Proof.
  induction todo as [|x todo IH]; intros done pre old post Hpre Hold.
  - destruct old; [reflexivity | discriminate].
  - destruct old as [|o old]; [discriminate|].
    cbn [ObjCAtTryStmt_copy_catches length map].
    rewrite ptr_read_after_prefix. cbn [bind].
    replace (Z.of_nat (length done) + 1) with (Z.of_nat (length pre)) by lia.
    change ((o :: old) ++ post) with (o :: (old ++ post)).
    rewrite array_write_after_prefix. cbn [bind].
    replace (Z.of_nat (length pre)) with (Z.of_nat (length (done ++ [x])))
      by (rewrite length_app; cbn [length]; lia).
    replace (done ++ x :: todo) with ((done ++ [x]) ++ todo)
      by (now rewrite <- app_assoc).
    change (pre ++ Init x :: old ++ post) with (pre ++ [Init x] ++ old ++ post).
    rewrite app_assoc, IH.
    + now rewrite <- app_assoc.
    + rewrite !length_app. cbn [length]. lia.
    + cbn [length] in Hold. lia.
Qed.

(** What the constructor leaves in the trailing array, and what it keeps
    of the number of catch statements. *)
Lemma ObjCAtTryStmt_ObjCAtTryStmt_returns (S : Type) (Mem : list (Slot (option S)))
    (atTryLoc : SourceLocation) (atTryStmt : option S) (CatchStmts : list (option S))
    (atFinallyStmt : option S) :
  list_size CatchStmts + 1 < 2 ^ 32 ->
  (1 + length CatchStmts + (if is_nonnull atFinallyStmt then 1 else 0) <= length Mem)%nat ->
  exists post,
    ObjCAtTryStmt_ObjCAtTryStmt Mem atTryLoc atTryStmt CatchStmts
      (list_size CatchStmts) atFinallyStmt
    = Returned (mkObjCAtTryStmt atTryLoc
                  (list_size CatchStmts mod 2 ^ ObjCAtTryStmt_NumCatchStmts_bits)
                  (is_nonnull atFinallyStmt)
                  (Init atTryStmt :: map Init CatchStmts
                   ++ (if is_nonnull atFinallyStmt then [Init atFinallyStmt] else [])
                   ++ post)).
Proof.
  intros Hu Hcap.
  destruct (@split_storage _ Mem 1 (length CatchStmts)) as (pre & old & post & -> & Hpre & Hold);
    [destruct (is_nonnull atFinallyStmt); lia|].
  destruct pre as [|m0 [|? ?]]; try discriminate.
  unfold ObjCAtTryStmt_ObjCAtTryStmt, list_size in *. cbn zeta.
  change (array_write ([m0] ++ old ++ post) 0 atTryStmt)
    with (array_write ([] ++ m0 :: old ++ post) (Z.of_nat (@length (Slot (option S)) [])) atTryStmt).
  rewrite array_write_after_prefix. cbn [bind app].
  rewrite Nat2Z.id.
  pose proof (@ObjCAtTryStmt_copy_catches_spec S CatchStmts [] [Init atTryStmt] old post
                eq_refl Hold) as Hcopy.
  cbn [app length Z.of_nat] in Hcopy. rewrite Hcopy. cbn [bind].
  destruct (is_nonnull atFinallyStmt) eqn:Hf.
  - rewrite !length_app in Hcap. cbn [length] in Hcap.
    destruct post as [|p post]; [cbn [length] in Hcap; lia|].
    exists post.
    replace (to_unsigned (Z.of_nat (length CatchStmts) + 1))
      with (Z.of_nat (length (Init atTryStmt :: map Init CatchStmts)))
      by (unfold to_unsigned; rewrite Z.mod_small by lia;
          cbn [length]; rewrite length_map; lia).
    change (Init atTryStmt :: map Init CatchStmts ++ p :: post)
      with ((Init atTryStmt :: map Init CatchStmts) ++ p :: post).
    rewrite array_write_after_prefix. cbn [bind]. reflexivity.
  - exists post. reflexivity.
Qed.

Lemma last_repeat (A : Type) (x d : A) (n : nat) :
  last (repeat x (Datatypes.S n)) d = x.
Proof.
  induction n as [|n IH]; [reflexivity|].
  change (repeat x (Datatypes.S (Datatypes.S n))) with (x :: repeat x (Datatypes.S n)).
  change (last (x :: repeat x (Datatypes.S n)) d) with (last (repeat x (Datatypes.S n)) d).
  exact IH.
Qed.

(** C4, as amended: for a node built by the constructor, in storage with
    room for the try body, the catches and the finally, from a number of
    catch statements that fits the bit-field [NumCatchStmts] of the node
    (fewer than 2^16), [getLocEnd] is the end of the finally statement
    when there is one, else the end of the last catch statement when
    there is a catch, else the end of the try body. *)
Theorem ObjCAtTryStmt_getLocEnd_three_way (S : Type) (getLocEnd : S -> SourceLocation)
    (Mem : list (Slot (option S))) (atTryLoc : SourceLocation) (atTryStmt : option S)
    (CatchStmts : list (option S)) (atFinallyStmt : option S) :
  list_size CatchStmts < 2 ^ ObjCAtTryStmt_NumCatchStmts_bits ->
  (1 + length CatchStmts + (if is_nonnull atFinallyStmt then 1 else 0) <= length Mem)%nat ->
  exists t,
    ObjCAtTryStmt_ObjCAtTryStmt Mem atTryLoc atTryStmt CatchStmts
      (list_size CatchStmts) atFinallyStmt = Returned t /\
    ObjCAtTryStmt_getLocEnd getLocEnd t
    = ObjCAtTryStmt_end_location_spec getLocEnd atTryStmt CatchStmts atFinallyStmt.
Proof.
  intros Hu Hcap. unfold ObjCAtTryStmt_NumCatchStmts_bits in Hu.
  destruct (@ObjCAtTryStmt_ObjCAtTryStmt_returns S Mem atTryLoc atTryStmt CatchStmts
              atFinallyStmt ltac:(lia) Hcap) as [post Hctor].
  eexists. split; [exact Hctor|]. clear Hctor Hcap.
  unfold ObjCAtTryStmt_NumCatchStmts_bits.
  rewrite (Z.mod_small (list_size CatchStmts)) by (unfold list_size in *; lia).
  unfold ObjCAtTryStmt_getLocEnd, ObjCAtTryStmt_end_location_spec, list_size in *.
  cbn [HasFinally NumCatchStmts].
  destruct atFinallyStmt as [finally|]; cbn [is_nonnull].
  - unfold ObjCAtTryStmt_getFinallyStmt.
    cbn [HasFinally NumCatchStmts negb ObjCAtTryStmt_Stmts].
    rewrite (@array_read_at _ _ (Init atTryStmt :: map Init CatchStmts) post _
               (Some finally)).
    + reflexivity.
    + reflexivity.
    + cbn [length]. rewrite length_map. lia.
  - destruct (snoc_cases CatchStmts) as [-> | (init & c & ->)].
    + cbn [length Z.of_nat Z.eqb negb].
      unfold ObjCAtTryStmt_getTryBody. cbn [ObjCAtTryStmt_Stmts].
      rewrite (@array_read_at _ _ [] (map Init [] ++ [] ++ post) _ atTryStmt);
        reflexivity.
    + rewrite length_app in *. cbn [length] in *.
      replace (Z.of_nat (length init + 1) =? 0) with false
        by (symmetry; apply Z.eqb_neq; lia).
      cbn [negb]. unfold ObjCAtTryStmt_getCatchStmt, to_unsigned.
      cbn [ObjCAtTryStmt_Stmts].
      rewrite Z.mod_small by lia.
      rewrite (@array_read_at _ _ (Init atTryStmt :: map Init init) post _ c).
      * rewrite last_last. destruct init; reflexivity.
      * rewrite map_app. cbn [map app]. now rewrite <- app_assoc.
      * cbn [length]. rewrite length_map. lia.
Qed.

Lemma ObjCAtTryStmt_getLocEnd_three_way_witness :
  exists t,
    ObjCAtTryStmt_ObjCAtTryStmt (new_array (option Leaf) 2) 5 (Some (mkLeaf 6 10))
      [Some (mkLeaf 11 20)] (list_size [Some (mkLeaf 11 20)]) None = Returned t /\
    ObjCAtTryStmt_getLocEnd Leaf_getLocEnd t
    = ObjCAtTryStmt_end_location_spec Leaf_getLocEnd (Some (mkLeaf 6 10))
        [Some (mkLeaf 11 20)] None.
Proof.
  apply (@ObjCAtTryStmt_getLocEnd_three_way Leaf Leaf_getLocEnd
           (new_array (option Leaf) 2) 5 (Some (mkLeaf 6 10)) [Some (mkLeaf 11 20)] None).
  - reflexivity.
  - simpl. lia.
Defined.

(** What the code does with 65536 catch statements, each ending at 20,
    after a try body that ends at 10, and no finally: the counter of the
    node is 0, and [getLocEnd] is the end of the try body, where the
    last catch statement ends at 20. *)
Lemma ObjCAtTryStmt_getLocEnd_many_catches :
  exists t,
    ObjCAtTryStmt_ObjCAtTryStmt (new_array (option Leaf) (Z.to_nat 65537)) 5
      (Some (mkLeaf 6 10)) Sample_many_catches (list_size Sample_many_catches) None
    = Returned t /\
    NumCatchStmts t = 0 /\
    ObjCAtTryStmt_getLocEnd Leaf_getLocEnd t = Returned 10 /\
    ObjCAtTryStmt_end_location_spec Leaf_getLocEnd (Some (mkLeaf 6 10))
      Sample_many_catches None = Returned 20.
Proof.
  assert (Hlen : length Sample_many_catches = Z.to_nat 65536) by apply repeat_length.
  destruct (@ObjCAtTryStmt_ObjCAtTryStmt_returns Leaf
              (new_array (option Leaf) (Z.to_nat 65537)) 5 (Some (mkLeaf 6 10))
              Sample_many_catches None) as [post Hctor].
  { unfold list_size. rewrite Hlen. lia. }
  { rewrite new_array_length, Hlen. cbn [is_nonnull]. lia. }
  eexists. split; [exact Hctor|].
  assert (Hcount : list_size Sample_many_catches mod 2 ^ ObjCAtTryStmt_NumCatchStmts_bits = 0).
  { unfold list_size. rewrite Hlen. reflexivity. }
  cbn [NumCatchStmts]. split; [exact Hcount|]. split.
  - unfold ObjCAtTryStmt_getLocEnd. cbn [HasFinally NumCatchStmts is_nonnull].
    rewrite Hcount. cbn [Z.eqb negb].
    unfold ObjCAtTryStmt_getTryBody. cbn [ObjCAtTryStmt_Stmts].
    rewrite (@array_read_at _ _ []
               (map Init Sample_many_catches ++ [] ++ post) _ (Some (mkLeaf 6 10)));
      reflexivity.
  - unfold ObjCAtTryStmt_end_location_spec, Sample_many_catches.
    destruct (Z.to_nat 65536) as [|n] eqn:Hn; [lia|].
    rewrite last_repeat. reflexivity.
Qed.

(** C4, as stated, on 65536 catch statements and no finally: the claim
    gives the end of the last catch statement, 20, and [getLocEnd] is the
    end of the try body, 10. *)
Lemma ObjCAtTryStmt_getLocEnd_counterexample :
  ~ ObjCAtTryStmt_getLocEnd_as_stated Leaf_getLocEnd
      (new_array (option Leaf) (Z.to_nat 65537)) 5 (Some (mkLeaf 6 10))
      Sample_many_catches None.
Proof.
  unfold ObjCAtTryStmt_getLocEnd_as_stated. intros H.
  assert (Hlen : length Sample_many_catches = Z.to_nat 65536) by apply repeat_length.
  destruct H as (t & Hctor & Hend).
  { unfold list_size. rewrite Hlen. lia. }
  { rewrite new_array_length, Hlen. cbn [is_nonnull]. lia. }
  destruct ObjCAtTryStmt_getLocEnd_many_catches as (t' & Hctor' & _ & Hcode & Hspec).
  rewrite Hctor in Hctor'. injection Hctor' as <-.
  rewrite Hcode, Hspec in Hend. discriminate Hend.
Qed.

(** The case of the specification: the guarded block ends at 10, one catch
    ends at 20, no finally; the end location is 20. *)
Example ObjCAtTryStmt_Create_getLocEnd_20 :
  exists a,
    ObjCAtTryStmt_Create Layout_LP64 5 (Some (mkLeaf 6 10)) [Some (mkLeaf 11 20)] 1 None
      = Returned a /\
    alloc_Size a = 32 /\
    ObjCAtTryStmt_getLocEnd Leaf_getLocEnd (alloc_object a) = Returned 20.
Proof. eexists. repeat split. Qed.

Example ObjCAtTryStmt_getLocEnd_finally :
  exists a,
    ObjCAtTryStmt_Create Layout_LP64 5 (Some (mkLeaf 6 10)) [Some (mkLeaf 11 20)] 1
      (Some (mkLeaf 21 30)) = Returned a /\
    ObjCAtTryStmt_getLocEnd Leaf_getLocEnd (alloc_object a) = Returned 30.
Proof. eexists. repeat split. Qed.

Example ObjCAtTryStmt_getLocEnd_no_catch :
  exists a,
    ObjCAtTryStmt_Create Layout_LP64 5 (Some (mkLeaf 6 10)) [] 0 None = Returned a /\
    ObjCAtTryStmt_getLocEnd Leaf_getLocEnd (alloc_object a) = Returned 10.
Proof. eexists. repeat split. Qed.

(** ** C3: [CXXTryStmt::Create] *)

(** The size that [CXXTryStmt::Create] asks for, and the object it builds,
    when a [Stmt] is at least as large as a pointer and the size fits a
    [size_t]: the header plus one [sizeof(Stmt)] per slot; the try block
    and the handlers fill the first slots of the trailing storage. *)
Lemma CXXTryStmt_Create_returns (S : Type) (L : Layout) (tryLoc : SourceLocation)
    (tryBlock : option S) (handlers : list (option S)) :
  0 < sizeof_StmtPtr L <= sizeof_Stmt L ->
  0 <= sizeof_CXXTryStmt L ->
  sizeof_CXXTryStmt L + (list_size handlers + 1) * sizeof_Stmt L < 2 ^ 64 ->
  exists post,
    CXXTryStmt_Create L tryLoc tryBlock handlers
    = Returned (mkAllocation
                  (sizeof_CXXTryStmt L + (list_size handlers + 1) * sizeof_Stmt L)
                  (alignOf_CXXTryStmt L)
                  (mkCXXTryStmt tryLoc (to_unsigned (list_size handlers))
                     (Init tryBlock :: map Init handlers ++ post))).
Proof.
  intros HS HH Hfit. unfold CXXTryStmt_Create, list_size, to_size_t in *.
  set (H := Z.of_nat (length handlers)) in *.
  assert (HHn : 0 <= H) by (unfold H; lia).
  rewrite (Z.mod_small ((H + 1) * sizeof_Stmt L)) by nia.
  rewrite Z.mod_small by nia.
  unfold trailing_storage.
  replace (sizeof_CXXTryStmt L + (H + 1) * sizeof_Stmt L - sizeof_CXXTryStmt L)
    with ((H + 1) * sizeof_Stmt L) by lia.
  assert (Hcap : H + 1 <= (H + 1) * sizeof_Stmt L / sizeof_StmtPtr L).
  { rewrite <- (Z.div_mul (H + 1) (sizeof_StmtPtr L)) at 1 by lia.
    apply Z.div_le_mono; [lia | nia]. }
  set (cap := Z.to_nat ((H + 1) * sizeof_Stmt L / sizeof_StmtPtr L)).
  destruct (@split_storage _ (new_array (option S) cap) 1 (length handlers))
    as (pre & old & post & Hmem & Hpre & Hold).
  { rewrite new_array_length. unfold cap, H in *. lia. }
  destruct pre as [|m0 [|? ?]]; try discriminate.
  rewrite Hmem. exists post.
  unfold CXXTryStmt_CXXTryStmt.
  rewrite (@array_write_at _ _ [] m0 (old ++ post) 0 tryBlock) by reflexivity.
  cbn [bind app].
  pose proof (@std_copy_after_prefix _ handlers [Init tryBlock] old post Hold) as Hcopy.
  change (Z.of_nat (length [Init tryBlock])) with 1 in Hcopy.
  cbn [app] in Hcopy. rewrite Hcopy. reflexivity.
Qed.

(** C3: [CXXTryStmt::Create] with [H] handlers.  The source writes the
    size of a slot as [sizeof(Stmt)]; a [Stmt] (declared in clang/AST/Stmt.h)
    is a union of bit-fields aligned to a pointer, so that [sizeof(Stmt)]
    is [sizeof(Stmt * )], which is the hypothesis on the layout.  The size
    asked for is then the size of the header plus [H + 1] pointer slots,
    and the trailing array is the try block in slot 0, then the [H]
    handlers in order, and nothing more. *)
Theorem CXXTryStmt_Create_header_plus_slots (S : Type) (L : Layout)
    (tryLoc : SourceLocation) (tryBlock : option S) (handlers : list (option S)) :
  sizeof_Stmt L = sizeof_StmtPtr L ->
  0 < sizeof_StmtPtr L ->
  0 <= sizeof_CXXTryStmt L ->
  sizeof_CXXTryStmt L + (list_size handlers + 1) * sizeof_StmtPtr L < 2 ^ 64 ->
  CXXTryStmt_Create L tryLoc tryBlock handlers
  = Returned (mkAllocation
                (sizeof_CXXTryStmt L + (list_size handlers + 1) * sizeof_StmtPtr L)
                (alignOf_CXXTryStmt L)
                (mkCXXTryStmt tryLoc (to_unsigned (list_size handlers))
                   (Init tryBlock :: map Init handlers))).
Proof.
  intros Heq HS HH Hfit. unfold CXXTryStmt_Create, list_size, to_size_t in *.
  rewrite Heq.
  set (H := Z.of_nat (length handlers)) in *.
  assert (HHn : 0 <= H) by (unfold H; lia).
  rewrite (Z.mod_small ((H + 1) * sizeof_StmtPtr L)) by nia.
  rewrite Z.mod_small by nia.
  unfold trailing_storage.
  replace (sizeof_CXXTryStmt L + (H + 1) * sizeof_StmtPtr L - sizeof_CXXTryStmt L)
    with ((H + 1) * sizeof_StmtPtr L) by lia.
  rewrite Z.div_mul by lia.
  replace (Z.to_nat (H + 1)) with (1 + length handlers)%nat by (unfold H; lia).
  destruct (@split_storage _ (new_array (option S) (1 + length handlers)) 1
              (length handlers))
    as (pre & old & post & Hmem & Hpre & Hold).
  { rewrite new_array_length. lia. }
  assert (Hpost : post = []).
  { apply (f_equal (@length _)) in Hmem.
    rewrite new_array_length, !length_app in Hmem.
    destruct post; [reflexivity | cbn [length] in Hmem; lia]. }
  subst post.
  destruct pre as [|m0 [|? ?]]; try discriminate.
  rewrite Hmem.
  unfold CXXTryStmt_CXXTryStmt.
  rewrite (@array_write_at _ _ [] m0 (old ++ []) 0 tryBlock) by reflexivity.
  cbn [bind app].
  pose proof (@std_copy_after_prefix _ handlers [Init tryBlock] old [] Hold) as Hcopy.
  change (Z.of_nat (length [Init tryBlock])) with 1 in Hcopy.
  cbn [app] in Hcopy. rewrite Hcopy. cbn [bind]. now rewrite app_nil_r.
Qed.

Lemma CXXTryStmt_Create_header_plus_slots_witness :
  CXXTryStmt_Create Layout_LP64 7 (Some 1%nat) [Some 2%nat; None; Some 3%nat]
  = Returned (mkAllocation
                (sizeof_CXXTryStmt Layout_LP64
                 + (list_size [Some 2%nat; None; Some 3%nat] + 1)
                   * sizeof_StmtPtr Layout_LP64)
                (alignOf_CXXTryStmt Layout_LP64)
                (mkCXXTryStmt 7 (to_unsigned (list_size [Some 2%nat; None; Some 3%nat]))
                   (Init (Some 1%nat) :: map Init [Some 2%nat; None; Some 3%nat]))).
Proof.
  apply (@CXXTryStmt_Create_header_plus_slots nat Layout_LP64 7 (Some 1%nat)
           [Some 2%nat; None; Some 3%nat]).
  - reflexivity.
  - simpl. lia.
  - simpl. lia.
  - vm_compute. reflexivity.
Defined.

(** Were a [Stmt] 16 bytes and a pointer 8, the size asked for with one
    handler would be 16 + 2 * 16 = 48 bytes: the try block in slot 0, the
    handler in slot 1, and two more slots left over. *)
Example CXXTryStmt_Create_wide_Stmt :
  CXXTryStmt_Create Layout_wide_Stmt 7 (Some 1%nat) [Some 2%nat]
  = Returned (mkAllocation 48 8
                (mkCXXTryStmt 7 1 [Init (Some 1%nat); Init (Some 2%nat); Uninit; Uninit])).
Proof. reflexivity. Qed.

(** Where the two sizes agree, so do the two formulas. *)
Example CXXTryStmt_Create_LP64 :
  CXXTryStmt_Create Layout_LP64 7 (Some 1%nat) [Some 2%nat]
  = Returned (mkAllocation 32 8 (mkCXXTryStmt 7 1 [Init (Some 1%nat); Init (Some 2%nat)])).
Proof. reflexivity. Qed.

(** Where a [Stmt] is smaller than a pointer, the memory asked for is too
    small for the slots that the constructor writes. *)
Example CXXTryStmt_Create_narrow :
  CXXTryStmt_Create Layout_narrow_Stmt 7 (Some 1%nat) [Some 2%nat] = Undefined.
Proof. reflexivity. Qed.

(** The sibling factory counts [sizeof(Stmt * )] per slot, in every layout. *)
Example ObjCAtTryStmt_Create_size :
  exists t,
    ObjCAtTryStmt_Create Layout_wide_Stmt 5 (Some 1%nat) [Some 2%nat] 1 None
    = Returned (mkAllocation 32 8 t).
Proof. eexists. reflexivity. Qed.

(** ** C7: condition variables *)

Section ConditionVariableProperties.

Variables VarDecl OtherDecl OtherStmt : Type.
Variable VarDecl_getSourceRange : VarDecl -> SourceRange.

(** The statement stored for [V] is a [DeclStmt] of the single
    declaration [V] with the two ends of the source range of [V]. *)
Lemma new_DeclStmt_for_range (V : VarDecl) :
  new_DeclStmt_for OtherDecl OtherStmt VarDecl_getSourceRange V
  = Some (SubStmt_DeclStmt
            (mkDeclStmt (DeclGroupRef_single (Some (Decl_VarDecl V)))
               (getBegin (VarDecl_getSourceRange V))
               (getEnd (VarDecl_getSourceRange V)))).
Proof. reflexivity. Qed.

(** C7: on an [IfStmt], [ForStmt], [SwitchStmt] or [WhileStmt],
    [setConditionVariable] with a declaration [V] stores a [DeclStmt] of
    the single declaration [V] carrying the source range of [V], and
    [getConditionVariable] then returns [V]; [setConditionVariable] with
    the null pointer clears the slot, and [getConditionVariable] then
    returns the null pointer. *)
Theorem ConditionVariable_set_get
    (i : IfStmt VarDecl OtherDecl OtherStmt) (f : ForStmt VarDecl OtherDecl OtherStmt)
    (s : SwitchStmt VarDecl OtherDecl OtherStmt) (w : WhileStmt VarDecl OtherDecl OtherStmt)
    (V : VarDecl) :
  let wrapper :=
    Some (SubStmt_DeclStmt (OtherStmt := OtherStmt)
            (mkDeclStmt (DeclGroupRef_single (Some (Decl_VarDecl (OtherDecl := OtherDecl) V)))
               (getBegin (VarDecl_getSourceRange V))
               (getEnd (VarDecl_getSourceRange V)))) in
  (IfStmt_SubExprs_VAR (IfStmt_setConditionVariable VarDecl_getSourceRange i (Some V))
     = wrapper /\
   IfStmt_getConditionVariable
     (IfStmt_setConditionVariable VarDecl_getSourceRange i (Some V)) = Returned (Some V) /\
   IfStmt_SubExprs_VAR (IfStmt_setConditionVariable VarDecl_getSourceRange i None) = None /\
   IfStmt_getConditionVariable
     (IfStmt_setConditionVariable VarDecl_getSourceRange i None) = Returned None) /\
  (ForStmt_SubExprs_CONDVAR (ForStmt_setConditionVariable VarDecl_getSourceRange f (Some V))
     = wrapper /\
   ForStmt_getConditionVariable
     (ForStmt_setConditionVariable VarDecl_getSourceRange f (Some V)) = Returned (Some V) /\
   ForStmt_SubExprs_CONDVAR (ForStmt_setConditionVariable VarDecl_getSourceRange f None)
     = None /\
   ForStmt_getConditionVariable
     (ForStmt_setConditionVariable VarDecl_getSourceRange f None) = Returned None) /\
  (SwitchStmt_SubExprs_VAR (SwitchStmt_setConditionVariable VarDecl_getSourceRange s (Some V))
     = wrapper /\
   SwitchStmt_getConditionVariable
     (SwitchStmt_setConditionVariable VarDecl_getSourceRange s (Some V))
     = Returned (Some V) /\
   SwitchStmt_SubExprs_VAR (SwitchStmt_setConditionVariable VarDecl_getSourceRange s None)
     = None /\
   SwitchStmt_getConditionVariable
     (SwitchStmt_setConditionVariable VarDecl_getSourceRange s None) = Returned None) /\
  (WhileStmt_SubExprs_VAR (WhileStmt_setConditionVariable VarDecl_getSourceRange w (Some V))
     = wrapper /\
   WhileStmt_getConditionVariable
     (WhileStmt_setConditionVariable VarDecl_getSourceRange w (Some V))
     = Returned (Some V) /\
   WhileStmt_SubExprs_VAR (WhileStmt_setConditionVariable VarDecl_getSourceRange w None)
     = None /\
   WhileStmt_getConditionVariable
     (WhileStmt_setConditionVariable VarDecl_getSourceRange w None) = Returned None).
Proof. intros wrapper. repeat split. Qed.

(** The setters leave the other slots and the locations as they were. *)
Lemma IfStmt_setConditionVariable_frame (i : IfStmt VarDecl OtherDecl OtherStmt)
    (V : option VarDecl) :
  let i' := IfStmt_setConditionVariable VarDecl_getSourceRange i V in
  IfStmt_SubExprs_COND i' = IfStmt_SubExprs_COND i /\
  IfStmt_SubExprs_THEN i' = IfStmt_SubExprs_THEN i /\
  IfStmt_SubExprs_ELSE i' = IfStmt_SubExprs_ELSE i /\
  IfLoc i' = IfLoc i /\ ElseLoc i' = ElseLoc i.
Proof. destruct V; repeat split. Qed.

(** The variable given to the constructor of an [IfStmt] is the one read
    back. *)
Lemma IfStmt_IfStmt_getConditionVariable (IL EL : SourceLocation) (V : option VarDecl)
    (cond then' elsev : option (SubStmt VarDecl OtherDecl OtherStmt)) :
  IfStmt_getConditionVariable
    (IfStmt_IfStmt VarDecl_getSourceRange IL V cond then' EL elsev) = Returned V.
Proof. destruct V; reflexivity. Qed.

(** A slot that holds another statement than a [DeclStmt] fails the
    cast. *)
Lemma IfStmt_getConditionVariable_other (i : IfStmt VarDecl OtherDecl OtherStmt)
    (o : OtherStmt) :
  IfStmt_SubExprs_VAR i = Some (SubStmt_other o) ->
  IfStmt_getConditionVariable i
  = AssertionFailed "cast<Ty>() argument of incompatible type!".
Proof. intros H. unfold IfStmt_getConditionVariable. now rewrite H. Qed.

End ConditionVariableProperties.

(** ** C8: arrays attached to the variable list of a clause *)

(** Unfolds the accessors of the clause arrays down to the arithmetic on
    the number of variables. *)
Ltac unfold_arrays :=
  cbv beta iota delta
    [ OMPPrivateClause_getDefaultInits
      OMPFirstPrivateClause_getPseudoVars OMPFirstPrivateClause_getInits
      OMPLastPrivateClause_getPseudoVars1 OMPLastPrivateClause_getPseudoVars2
      OMPLastPrivateClause_getDefaultInits OMPLastPrivateClause_getAssignments
      OMPCopyinClause_getPseudoVars1 OMPCopyinClause_getPseudoVars2
      OMPCopyinClause_getAssignments
      OMPCopyPrivateClause_getPseudoVars1 OMPCopyPrivateClause_getPseudoVars2
      OMPCopyPrivateClause_getAssignments
      OMPReductionClause_getOpExprs OMPReductionClause_getHelperParameters1st
      OMPReductionClause_getHelperParameters2nd OMPReductionClause_getDefaultInits
      ArrayRef_end array_after varlist_end varlist_begin varlist_size
      ArrayRef_begin ArrayRef_size OMPVarListClause_new ];
  cbn [NumVars].

Section OMPClauseProperties.

Variable E : Type.

Lemma checked_copy_rejects (msg : string) (start : OMPVarListClause E -> Z)
    (A : list (option E)) (c : OMPVarListClause E) :
  list_size A <> varlist_size c ->
  checked_copy msg start A c = AssertionFailed msg.
Proof.
  intros H. unfold checked_copy, assert_that.
  now replace (list_size A =? varlist_size c) with false
    by (symmetry; now apply Z.eqb_neq).
Qed.

Lemma checked_copy_fills (msg : string) (start : OMPVarListClause E -> Z)
    (A : list (option E)) (c : OMPVarListClause E) :
  (forall (c' : OMPVarListClause E) st, NumVars c' = NumVars c ->
                 start (mkOMPVarListClause (NumVars c') st) = start c) ->
  0 <= start c ->
  list_size A = varlist_size c ->
  start c + varlist_size c <= list_size (OMPClause_storage c) ->
  exists c',
    checked_copy msg start A c = Returned c' /\
    varlist_size c' = varlist_size c /\
    ArrayRef_elements c' (array_after c' (start c')) = Returned A /\
    length (OMPClause_storage c') = length (OMPClause_storage c).
Proof.
  intros Hinv Hpos Hlen Hroom. unfold checked_copy, assert_that.
  rewrite Hlen, Z.eqb_refl. cbn [bind]. unfold list_size, varlist_size in *.
  destruct (@split_storage _ (OMPClause_storage c) (Z.to_nat (start c)) (length A))
    as (pre & old & post & Hst & Hpre & Hold); [lia|].
  assert (Hs : start c = Z.of_nat (length pre)) by lia.
  unfold copy_into. rewrite Hst, Hs.
  rewrite std_copy_after_prefix by exact Hold. cbn [bind].
  eexists. split; [reflexivity|]. cbn [NumVars OMPClause_storage].
  split; [reflexivity|]. split.
  - unfold ArrayRef_elements, array_after. cbn [ArrayRef_begin ArrayRef_size OMPClause_storage].
    unfold varlist_size. cbn [NumVars]. rewrite (Hinv c _ eq_refl), Hs.
    rewrite <- Hlen, Nat2Z.id. apply read_range_after_prefix.
  - rewrite !length_app, length_map. lia.
Qed.

(** C8: for every setter of Stmt.cpp that fills an array attached to the
    variable list of a clause: the array has as many elements as the
    variable list; an argument of another length stops the setter at its
    assertion, before the copy; in a clause made by [CreateEmpty] the
    array lies inside the storage; and where it does, an argument of that
    length is copied into the array, the variable count and the storage
    size staying as they were. *)
Theorem OMPClause_array_setters_checked (s : ClauseArraySetter E)
    (A : list (option E)) (c : OMPVarListClause E) (N : Z) :
  In s (clause_array_setters E) ->
  ArrayRef_size (setter_get s c) = varlist_size c /\
  (list_size A <> varlist_size c ->
     exists msg, setter_set s A c = AssertionFailed msg) /\
  (0 <= N ->
     varlist_size (setter_CreateEmpty s N) = N /\
     ArrayRef_end (setter_get s (setter_CreateEmpty s N))
       <= list_size (OMPClause_storage (setter_CreateEmpty s N))) /\
  (list_size A = varlist_size c ->
   ArrayRef_end (setter_get s c) <= list_size (OMPClause_storage c) ->
     exists c',
       setter_set s A c = Returned c' /\
       varlist_size c' = varlist_size c /\
       ArrayRef_elements c' (setter_get s c') = Returned A /\
       length (OMPClause_storage c') = length (OMPClause_storage c)).
Proof.
  intros Hin.
  assert (Hshape : exists msg start,
             setter_set s = checked_copy msg start /\
             setter_get s = (fun c => array_after c (start c)) /\
             (forall (c c' : OMPVarListClause E) st, NumVars c' = NumVars c ->
                 start (mkOMPVarListClause (NumVars c') st) = start c) /\
             (forall c, 0 <= NumVars c -> 0 <= start c) /\
             (forall N, 0 <= N ->
                 NumVars (setter_CreateEmpty s N) = N /\
                 start (setter_CreateEmpty s N) + N
                 <= list_size (OMPClause_storage (setter_CreateEmpty s N)))).
  { assert (Hnew : forall N k, 0 <= N -> 0 <= k ->
              list_size (OMPClause_storage (OMPVarListClause_new E N k)) = k * N).
    { intros N' k HN Hk. unfold OMPVarListClause_new, list_size.
      cbn [OMPClause_storage]. rewrite new_array_length, Z2Nat.id; nia. }
    cbn [clause_array_setters In] in Hin.
    repeat (destruct Hin as [<- | Hin];
            [ eexists; eexists; split; [reflexivity|]; split; [reflexivity|];
              split; [intros ? ? ? HNV; unfold_arrays; rewrite ?HNV; reflexivity|];
              split; [intros c0 H0; unfold_arrays; lia|];
              intros N' HN'; cbn [setter_CreateEmpty];
              unfold OMPPrivateClause_CreateEmpty, OMPFirstPrivateClause_CreateEmpty,
                OMPLastPrivateClause_CreateEmpty, OMPCopyinClause_CreateEmpty,
                OMPCopyPrivateClause_CreateEmpty, OMPReductionClause_CreateEmpty;
              rewrite Hnew by lia; unfold_arrays; lia
            | ]).
    destruct Hin. }
  destruct Hshape as (msg & start & Hset & Hget & Hinv & Hpos & Hnew).
  rewrite Hset, Hget. unfold ArrayRef_end. cbn [array_after ArrayRef_size ArrayRef_begin].
  split; [reflexivity|]. split; [|split].
  - intros Hne. exists msg. now apply checked_copy_rejects.
  - intros HN. destruct (Hnew N HN) as [H1 H2]. unfold varlist_size. rewrite H1.
    split; [reflexivity | exact H2].
  - intros Hlen Hroom.
    apply checked_copy_fills;
      [ intros c' st Hc'; now apply Hinv
      | apply Hpos; unfold varlist_size, list_size in Hlen; lia
      | exact Hlen
      | exact Hroom ].
Qed.

End OMPClauseProperties.

Lemma OMPClause_array_setters_checked_witness :
  let s := mkClauseArraySetter "OMPFirstPrivateClause::setInits"
             (@OMPFirstPrivateClause_CreateEmpty nat)
             (@OMPFirstPrivateClause_setInits nat)
             (@OMPFirstPrivateClause_getInits nat) in
  let A := [Some 5%nat; None] in
  let c := OMPFirstPrivateClause_CreateEmpty nat 2 in
  ArrayRef_size (setter_get s c) = varlist_size c /\
  (list_size A <> varlist_size c ->
     exists msg, setter_set s A c = AssertionFailed msg) /\
  (0 <= 2 ->
     varlist_size (setter_CreateEmpty s 2) = 2 /\
     ArrayRef_end (setter_get s (setter_CreateEmpty s 2))
       <= list_size (OMPClause_storage (setter_CreateEmpty s 2))) /\
  (list_size A = varlist_size c ->
   ArrayRef_end (setter_get s c) <= list_size (OMPClause_storage c) ->
     exists c',
       setter_set s A c = Returned c' /\
       varlist_size c' = varlist_size c /\
       ArrayRef_elements c' (setter_get s c') = Returned A /\
       length (OMPClause_storage c') = length (OMPClause_storage c)).
Proof.
  intros s A c.
  apply (@OMPClause_array_setters_checked nat s A c 2).
  simpl. right. right. left. reflexivity.
Defined.

(** The factory of a firstprivate clause: the three arrays hold what was
    passed, each of the length of the variable list. *)
Example OMPFirstPrivateClause_Create_arrays :
  exists c,
    OMPFirstPrivateClause_Create [Some 1%nat; Some 2%nat] [Some 3%nat; Some 4%nat]
      [None; Some 6%nat] = Returned c /\
    varlist_size c = 2 /\
    ArrayRef_elements c (OMPFirstPrivateClause_getPseudoVars c)
      = Returned [Some 3%nat; Some 4%nat] /\
    ArrayRef_elements c (OMPFirstPrivateClause_getInits c) = Returned [None; Some 6%nat].
Proof. eexists. repeat split. Qed.

(** A mismatched length stops the factory at the assertion of the setter. *)
Example OMPFirstPrivateClause_Create_mismatch :
  OMPFirstPrivateClause_Create [Some 1%nat; Some 2%nat] [Some 3%nat] [None; Some 6%nat]
  = AssertionFailed "Number of vars is not the same as the preallocated buffer".
Proof. reflexivity. Qed.

Example OMPReductionClause_Create_arrays :
  exists c,
    OMPReductionClause_Create [Some 1%nat] [Some 2%nat] [Some 3%nat] [Some 4%nat] [None]
      = Returned c /\
    ArrayRef_elements c (OMPReductionClause_getOpExprs c) = Returned [Some 2%nat] /\
    ArrayRef_elements c (OMPReductionClause_getHelperParameters1st c) = Returned [Some 3%nat] /\
    ArrayRef_elements c (OMPReductionClause_getHelperParameters2nd c) = Returned [Some 4%nat] /\
    ArrayRef_elements c (OMPReductionClause_getDefaultInits c) = Returned [None].
Proof. eexists. repeat split. Qed.

(** ** C10: [CapturedStmt::children] *)

Section CapturedStmtProperties.

Variables S Capture CapturedDecl RecordDecl : Type.

Lemma ArrayRef_index_after_prefix (A : Type) (done todo : list A) (x : A) :
  ArrayRef_index (done ++ x :: todo) (Z.of_nat (length done)) = Returned x.
Proof.
  unfold ArrayRef_index, assert_that, list_size.
  replace (Z.of_nat (length done) <? Z.of_nat (length (done ++ x :: todo))) with true.
  - cbn [bind]. apply ptr_read_after_prefix.
  - symmetry. apply Z.ltb_lt. rewrite length_app. cbn [length]. lia.
Qed.

(** The copy loop of the constructor: the initializers land in the first
    slots, in order, and [Stored] ends on the slot after them. *)
Lemma CapturedStmt_copy_inits_spec (todo : list (option S)) :
  forall (done : list (option S)) (pre old post : list (Slot (option S))),
    length pre = length done ->
    length old = length todo ->
    CapturedStmt_copy_inits (done ++ todo) (pre ++ old ++ post)
      (Z.of_nat (length pre)) (Z.of_nat (length done)) (length todo)
    = Returned (pre ++ map Init todo ++ post,
                Z.of_nat (length pre) + Z.of_nat (length todo)).
Proof.
  induction todo as [|x todo IH]; intros done pre old post Hpre Hold.
  - destruct old; [|discriminate]. cbn [CapturedStmt_copy_inits length map app Z.of_nat].
    now rewrite Z.add_0_r.
  - destruct old as [|o old]; [discriminate|].
    cbn [CapturedStmt_copy_inits length map].
    rewrite ArrayRef_index_after_prefix. cbn [bind].
    rewrite (@array_write_at _ _ pre o (old ++ post) _ x) by reflexivity. cbn [bind].
    replace (Z.of_nat (length pre) + 1) with (Z.of_nat (length (pre ++ [Init x])))
      by (rewrite length_app; cbn [length]; lia).
    replace (Z.of_nat (length done) + 1) with (Z.of_nat (length (done ++ [x])))
      by (rewrite length_app; cbn [length]; lia).
    replace (done ++ x :: todo) with ((done ++ [x]) ++ todo)
      by (now rewrite <- app_assoc).
    replace (pre ++ Init x :: old ++ post) with ((pre ++ [Init x]) ++ old ++ post)
      by (now rewrite <- app_assoc).
    rewrite IH.
    + rewrite <- app_assoc. cbn [app]. f_equal. f_equal.
      rewrite length_app. cbn [length]. lia.
    + rewrite !length_app. cbn [length]. lia.
    + cbn [length] in Hold. lia.
Qed.

Lemma RoundUpToAlignment_spec (Value Align : Z) :
  0 <= Value -> 0 < Align -> Value + Align < 2 ^ 64 ->
  Value <= RoundUpToAlignment Value Align < Value + Align /\
  RoundUpToAlignment Value Align mod Align = 0.
Proof.
  intros HV HA Hfit. unfold RoundUpToAlignment, to_size_t.
  rewrite (Z.mod_small (Value + Align - 1)) by lia.
  pose proof (Z.div_mod (Value + Align - 1) Align ltac:(lia)) as Hdm.
  pose proof (Z.mod_pos_bound (Value + Align - 1) Align HA) as Hm.
  assert (Hq : 0 <= (Value + Align - 1) / Align) by (apply Z.div_pos; lia).
  assert (Hle : (Value + Align - 1) / Align * Align <= Value + Align - 1) by nia.
  rewrite (Z.mod_small ((Value + Align - 1) / Align)) by nia.
  rewrite (Z.mod_small ((Value + Align - 1) / Align * Align)) by nia.
  split; [nia|]. apply Z.mod_mul. lia.
Qed.

(** The storage that [CapturedStmt::Create] hands to the constructor
    when the size it computes does not wrap: all [N] + 1 statement slots
    and all [N] [Capture] slots. *)
Lemma CapturedStmt_Create_storage (L : CapturedLayout) (N : Z) :
  0 <= sizeof_CapturedStmt L -> 0 < CapturedLayout_sizeof_StmtPtr L ->
  0 < sizeof_Capture L -> 0 < alignOf_Capture L ->
  0 <= N ->
  sizeof_CapturedStmt L + CapturedLayout_sizeof_StmtPtr L * (N + 1)
  + alignOf_Capture L + sizeof_Capture L * N < 2 ^ 32 ->
  to_unsigned N = N /\
  slots_before (sizeof_CapturedStmt L) (CapturedLayout_sizeof_StmtPtr L) (N + 1)
    (Z.min (CapturedStmt_getStoredCaptures_offset L N) (CapturedStmt_Create_Size L N))
  = Z.to_nat (N + 1) /\
  slots_before (CapturedStmt_getStoredCaptures_offset L N) (sizeof_Capture L) N
    (CapturedStmt_Create_Size L N)
  = Z.to_nat N.
Proof.
  intros Hhdr Hptr Hcap Halign HN Hfit.
  set (stmts_end := sizeof_CapturedStmt L + CapturedLayout_sizeof_StmtPtr L * (N + 1)) in *.
  set (offset := CapturedStmt_getStoredCaptures_offset L N).
  assert (Hpow : 2 ^ 32 < 2 ^ 64) by (vm_compute; reflexivity).
  assert (Hcn : 0 <= sizeof_Capture L * N) by nia.
  assert (Hse : 0 <= stmts_end < 2 ^ 32) by (unfold stmts_end; nia).
  assert (HN1 : N + 1 < 2 ^ 32) by (unfold stmts_end in Hse; nia).
  assert (Hu32 : to_unsigned (N + 1) = N + 1)
    by (unfold to_unsigned; apply Z.mod_small; lia).
  assert (Hu64 : to_size_t (N + 1) = N + 1)
    by (unfold to_size_t; apply Z.mod_small; lia).
  assert (HSize : to_unsigned stmts_end = stmts_end)
    by (unfold to_unsigned; apply Z.mod_small; lia).
  destruct (@RoundUpToAlignment_spec stmts_end (alignOf_Capture L)) as [Hr _];
    [lia | lia | lia |].
  assert (Hoff : offset = RoundUpToAlignment stmts_end (alignOf_Capture L)).
  { unfold offset, CapturedStmt_getStoredCaptures_offset. rewrite Hu32.
    fold stmts_end. rewrite HSize. unfold to_unsigned. apply Z.mod_small. lia. }
  assert (HCreate : CapturedStmt_Create_Size L N
                    = if negb (N =? 0) then offset + sizeof_Capture L * N else stmts_end).
  { unfold CapturedStmt_Create_Size. rewrite Hu64. fold stmts_end. rewrite HSize.
    destruct (N =? 0); cbn [negb]; [reflexivity|].
    rewrite Hoff. unfold to_unsigned at 2.
    rewrite (Z.mod_small (RoundUpToAlignment _ _)) by lia.
    unfold to_size_t at 1. rewrite (Z.mod_small (sizeof_Capture L * N)) by lia.
    unfold to_unsigned. apply Z.mod_small. lia. }
  rewrite <- Hoff in Hr.
  split; [unfold to_unsigned; apply Z.mod_small; lia|].
  unfold slots_before. rewrite HCreate.
  destruct (Z.eq_dec N 0) as [-> | Hne].
  - cbn [Z.eqb negb]. split.
    + f_equal. apply Z.min_l. apply Z.div_le_lower_bound; [lia|].
      unfold stmts_end in *. lia.
    + pose proof (Z.le_min_l 0 ((stmts_end - offset) / sizeof_Capture L)). lia.
  - replace (N =? 0) with false by (symmetry; apply Z.eqb_neq; lia). cbn [negb]. split.
    + f_equal. apply Z.min_l. apply Z.div_le_lower_bound; [lia|].
      unfold stmts_end in *. lia.
    + f_equal.
      replace (offset + sizeof_Capture L * N - offset) with (N * sizeof_Capture L) by lia.
      rewrite Z.div_mul by lia. apply Z.min_id.
Qed.

(** What [CapturedStmt::Create] builds from valid arguments, when the
    size it computes does not wrap. *)
Lemma CapturedStmt_Create_returns (L : CapturedLayout) (S' : option S)
    (Kind : CapturedRegionKind)
    (Captures : list Capture) (CaptureInits : list (option S))
    (CD : option CapturedDecl) (RD : option RecordDecl) :
  is_nonnull S' = true -> is_nonnull CD = true -> is_nonnull RD = true ->
  length CaptureInits = length Captures ->
  0 <= sizeof_CapturedStmt L -> 0 < CapturedLayout_sizeof_StmtPtr L ->
  0 < sizeof_Capture L -> 0 < alignOf_Capture L ->
  sizeof_CapturedStmt L + CapturedLayout_sizeof_StmtPtr L * (list_size Captures + 1)
  + alignOf_Capture L + sizeof_Capture L * list_size Captures < 2 ^ 32 ->
  CapturedStmt_Create L S' Kind Captures CaptureInits CD RD
  = Returned (mkCapturedStmt (list_size Captures) CD Kind RD
                (map Init CaptureInits ++ [Init S']) (map Init Captures)).
Proof.
  intros HS HCD HRD Hlen Hhdr Hptr Hcap Halign Hfit.
  destruct (@CapturedStmt_Create_storage L (list_size Captures) Hhdr Hptr Hcap Halign
              ltac:(unfold list_size; lia) Hfit) as (Hu & Hstmts & Hcaps).
  unfold CapturedStmt_Create. cbv zeta.
  rewrite Hu, Hstmts, Hcaps.
  unfold CapturedStmt_CapturedStmt, assert_that, list_size in *.
  rewrite Hlen, Z.eqb_refl, HS, HCD, HRD. cbn [bind].
  rewrite Hu, Nat2Z.id.
  replace (Z.to_nat (Z.of_nat (length Captures) + 1))
    with (Datatypes.S (length Captures)) by lia.
  pose proof (@CapturedStmt_copy_inits_spec CaptureInits [] []
                (new_array (option S) (length CaptureInits)) [Uninit] eq_refl
                (new_array_length _ _)) as Hcopy.
  cbn [app length Z.of_nat] in Hcopy.
  replace (new_array (option S) (Datatypes.S (length Captures)))
    with (new_array (option S) (length CaptureInits) ++ [Uninit]).
  - rewrite <- Hlen. rewrite Hcopy. cbn [bind Z.add].
    rewrite (@array_write_at _ _ (map Init CaptureInits) Uninit [] _ S');
      [| reflexivity | now rewrite length_map].
    cbn [bind]. rewrite Hlen.
    pose proof (@std_copy_after_prefix _ Captures [] (new_array Capture (length Captures))
                  [] (new_array_length _ _)) as Hc.
    cbn [app length Z.of_nat] in Hc. rewrite !app_nil_r in Hc. rewrite Hc.
    reflexivity.
  - rewrite Hlen. unfold new_array.
    replace (Datatypes.S (length Captures)) with (length Captures + 1)%nat by lia.
    now rewrite repeat_app.
Qed.

(** C10: for a captured statement built by [CapturedStmt::Create] from a
    statement, [N] captures and their [N] initializers, in an allocation
    whose size (header, [N] + 1 statement slots, realignment and [N]
    [Capture] objects) fits the [unsigned] that [Create] computes it in,
    [children] is the sequence of the [N] initializers in order; the
    captured statement is in the slot after them, outside the range, and
    the [Capture] objects are in their own array.  A dispatch of
    [Stmt::children] that reaches [CapturedStmt::children] for this node
    returns the same sequence. *)
Theorem CapturedStmt_children_are_capture_inits (L : CapturedLayout) (S' : option S)
    (Kind : CapturedRegionKind)
    (Captures : list Capture) (CaptureInits : list (option S))
    (CD : option CapturedDecl) (RD : option RecordDecl) :
  is_nonnull S' = true -> is_nonnull CD = true -> is_nonnull RD = true ->
  length CaptureInits = length Captures ->
  0 <= sizeof_CapturedStmt L -> 0 < CapturedLayout_sizeof_StmtPtr L ->
  0 < sizeof_Capture L -> 0 < alignOf_Capture L ->
  sizeof_CapturedStmt L + CapturedLayout_sizeof_StmtPtr L * (list_size Captures + 1)
  + alignOf_Capture L + sizeof_Capture L * list_size Captures < 2 ^ 32 ->
  exists c,
    CapturedStmt_Create L S' Kind Captures CaptureInits CD RD = Returned c /\
    NumCaptures c = list_size Captures /\
    CapturedStmt_children c = Returned CaptureInits /\
    StoredStmts c = map Init (CaptureInits ++ [S']) /\
    CapturedStmt_getCapturedStmt c = Returned S' /\
    CapturedStmt_captures c = Returned Captures /\
    (forall (Storage : Type) (StmtNodes : list (StmtNode Storage (list (option S))))
            (s : Stmt Storage) (type : StmtClassDecl Storage (list (option S))),
        StmtClass_case StmtNodes (Stmt_getStmtClass s) = Some type ->
        class_children type s = CapturedStmt_children c ->
        Stmt_children StmtNodes s = Returned CaptureInits).
Proof.
  intros HS HCD HRD Hlen Hhdr Hptr Hcap Halign Hfit.
  eexists. split; [now apply CapturedStmt_Create_returns|].
  assert (Hch : CapturedStmt_children
                  (mkCapturedStmt (list_size Captures) CD Kind RD
                     (map Init CaptureInits ++ [Init S']) (map Init Captures))
                = Returned CaptureInits).
  { unfold CapturedStmt_children, list_size. cbn [StoredStmts NumCaptures].
    rewrite Nat2Z.id, <- Hlen.
    apply (@read_range_after_prefix _ CaptureInits [] [Init S']). }
  cbn [NumCaptures StoredStmts].
  split; [reflexivity|]. split; [exact Hch|]. split; [now rewrite map_app|].
  split; [|split].
  - unfold CapturedStmt_getCapturedStmt, list_size. cbn [StoredStmts NumCaptures].
    apply (@array_read_at _ _ (map Init CaptureInits) []); [reflexivity|].
    rewrite length_map. lia.
  - unfold CapturedStmt_captures, list_size. cbn [StoredCaptures NumCaptures].
    rewrite Nat2Z.id. pose proof (@read_range_after_prefix _ Captures [] []) as H.
    cbn [app length Z.of_nat] in H. now rewrite app_nil_r in H.
  - intros Storage StmtNodes s type Hcase Hcls.
    unfold Stmt_children, StmtClass_case in *.
    destruct (Stmt_getStmtClass s) as [|i]; [discriminate|].
    rewrite Hcase, Hcls. exact Hch.
Qed.

End CapturedStmtProperties.

Lemma CapturedStmt_children_are_capture_inits_witness :
  exists c,
    CapturedStmt_Create CapturedLayout_LP64 (Some (mkLeaf 1 9)) CR_OpenMP [tt; tt]
      [Some (mkLeaf 2 3); Some (mkLeaf 4 5)] (Some tt) (Some tt) = Returned c /\
    NumCaptures c = list_size [tt; tt] /\
    CapturedStmt_children c = Returned [Some (mkLeaf 2 3); Some (mkLeaf 4 5)] /\
    StoredStmts c = map Init ([Some (mkLeaf 2 3); Some (mkLeaf 4 5)] ++ [Some (mkLeaf 1 9)]) /\
    CapturedStmt_getCapturedStmt c = Returned (Some (mkLeaf 1 9)) /\
    CapturedStmt_captures c = Returned [tt; tt] /\
    (forall (Storage : Type) (StmtNodes : list (StmtNode Storage (list (option Leaf))))
            (s : Stmt Storage) (type : StmtClassDecl Storage (list (option Leaf))),
        StmtClass_case StmtNodes (Stmt_getStmtClass s) = Some type ->
        class_children type s = CapturedStmt_children c ->
        Stmt_children StmtNodes s = Returned [Some (mkLeaf 2 3); Some (mkLeaf 4 5)]).
Proof.
  apply (@CapturedStmt_children_are_capture_inits Leaf unit unit unit CapturedLayout_LP64
           (Some (mkLeaf 1 9)) CR_OpenMP [tt; tt] [Some (mkLeaf 2 3); Some (mkLeaf 4 5)]
           (Some tt) (Some tt)).
  - reflexivity.
  - reflexivity.
  - reflexivity.
  - reflexivity.
  - simpl. lia.
  - simpl. lia.
  - simpl. lia.
  - simpl. lia.
  - vm_compute. reflexivity.
Defined.

(** The dispatch of [Stmt::children] in the registry of Part I, on a
    captured statement with two captures. *)
Example Sample_CapturedStmt_children :
  exists c,
    CapturedStmt_Create CapturedLayout_LP64 (Some (mkLeaf 1 9)) CR_OpenMP [tt; tt]
      [Some (mkLeaf 2 3); Some (mkLeaf 4 5)] (Some tt) (Some tt) = Returned c /\
    Stmt_children Sample_StmtNodes (mkStmt Sample_CapturedStmtClass (Sample_CapturedStmt c))
    = Returned [Some (mkLeaf 2 3); Some (mkLeaf 4 5)].
Proof. eexists. split; reflexivity. Qed.

(** A call with a null statement, or with arrays of different lengths,
    stops at an assertion. *)
Example CapturedStmt_Create_null_statement :
  @CapturedStmt_Create Leaf unit unit unit CapturedLayout_LP64 None CR_Default [] []
    (Some tt) (Some tt)
  = AssertionFailed "null captured statement".
Proof. reflexivity. Qed.

Example CapturedStmt_Create_wrong_number :
  @CapturedStmt_Create Leaf unit unit unit CapturedLayout_LP64 (Some (mkLeaf 1 9))
    CR_Default [tt] []
    (Some tt) (Some tt)
  = AssertionFailed "wrong number of arguments".
Proof. reflexivity. Qed.

(** Where the size does not fit the [unsigned], the allocation is too
    small for what the constructor writes: with two [Capture] objects of
    2^31 bytes each the size wraps to the 64 bytes before them. *)
Example CapturedStmt_Create_size_wraps :
  CapturedStmt_Create_Size (mkCapturedLayout 36 8 (2 ^ 31) 8) 2 = 64 /\
  @CapturedStmt_Create Leaf unit unit unit (mkCapturedLayout 36 8 (2 ^ 31) 8)
    (Some (mkLeaf 1 9)) CR_Default [tt; tt] [None; None] (Some tt) (Some tt)
  = Undefined.
Proof. split; reflexivity. Qed.

(** ** C1: the dispatch over statement classes *)

Section StmtDispatchProperties.

Variables Storage ChildRange : Type.
Variable StmtNodes : list (StmtNode Storage ChildRange).

(** The tags that select a class are those from 1 to
    [lastStmtConstant]. *)
Lemma StmtClass_case_Some (tag : nat) :
  (1 <= tag <= lastStmtConstant StmtNodes)%nat <->
  exists type, StmtClass_case StmtNodes tag = Some type.
Proof.
  unfold StmtClass_case, lastStmtConstant. destruct tag as [|i].
  - split; [lia | intros [? ?]; discriminate].
  - split.
    + intros H. destruct (nth_error (STMT_entries StmtNodes) i) eqn:E; [eauto|].
      apply nth_error_None in E. lia.
    + intros [type H]. assert (nth_error (STMT_entries StmtNodes) i <> None) by congruence.
      apply nth_error_Some in H0. lia.
Qed.

Lemma StmtClass_case_None (tag : nat) :
  (tag = NoStmtClass \/ lastStmtConstant StmtNodes < tag)%nat <->
  StmtClass_case StmtNodes tag = None.
Proof.
  unfold StmtClass_case, lastStmtConstant, NoStmtClass. destruct tag as [|i].
  - split; auto.
  - rewrite nth_error_None. split; [intros [H|H]; [discriminate | lia] | right; lia].
Qed.

Lemma table_update_length (i : nat) (f : StmtClassNameTable -> StmtClassNameTable)
    (a : list StmtClassNameTable) :
  length (table_update i f a) = length a.
Proof.
  revert i. induction a as [|e a IH]; intros [|i]; cbn [table_update length]; auto.
Qed.

Lemma table_update_same (i : nat) (f : StmtClassNameTable -> StmtClassNameTable)
    (a : list StmtClassNameTable) (e : StmtClassNameTable) :
  nth_error a i = Some e -> nth_error (table_update i f a) i = Some (f e).
Proof.
  revert i. induction a as [|x a IH]; intros [|i] H; cbn [table_update nth_error] in *;
    try discriminate.
  - now injection H as ->.
  - now apply IH.
Qed.

Lemma table_update_other (i j : nat) (f : StmtClassNameTable -> StmtClassNameTable)
    (a : list StmtClassNameTable) :
  i <> j -> nth_error (table_update i f a) j = nth_error a j.
Proof.
  revert i j. induction a as [|x a IH]; intros [|i] [|j] H;
    cbn [table_update nth_error]; try reflexivity; try congruence.
  apply IH. congruence.
Qed.

(** What the assignments of [getStmtInfoTableEntry] leave in the table. *)
Lemma StmtClassInfo_fill_spec (cs : list (StmtClassDecl Storage ChildRange)) :
  forall (tag : nat) (a : list StmtClassNameTable),
    length (StmtClassInfo_fill cs tag a) = length a /\
    (forall j, (j < tag)%nat -> nth_error (StmtClassInfo_fill cs tag a) j = nth_error a j) /\
    (forall i type, nth_error cs i = Some type -> (tag + i < length a)%nat ->
       exists e, nth_error (StmtClassInfo_fill cs tag a) (tag + i) = Some e /\
                 Name e = Some (class_name type) /\ Size e = class_sizeof type).
Proof.
  induction cs as [|c cs IH]; intros tag a; cbn [StmtClassInfo_fill].
  - repeat split; auto. intros [|i] type H; discriminate.
  - destruct (IH (Datatypes.S tag)
                (table_update tag
                   (fun e => mkStmtClassNameTable (Some (class_name c)) (Counter e)
                               (class_sizeof c)) a)) as (Hlen & Hlow & Hset).
    rewrite table_update_length in *. split; [exact Hlen|]. split.
    + intros j Hj. rewrite Hlow by lia. apply table_update_other. lia.
    + intros [|i] type Hi Hb; cbn [nth_error] in Hi.
      * injection Hi as <-. rewrite Nat.add_0_r in *. rewrite Hlow by lia.
        destruct (nth_error a tag) as [e|] eqn:E;
          [|apply nth_error_None in E; lia].
        rewrite (table_update_same _ _ _ E). eexists. split; [reflexivity|]. split; reflexivity.
      * replace (tag + Datatypes.S i)%nat with (Datatypes.S tag + i)%nat by lia.
        apply Hset; [exact Hi | lia].
Qed.

Lemma StmtStatics_inv_initial : StmtStatics_inv StmtNodes (StmtStatics_initial StmtNodes).
Proof.
  unfold StmtStatics_inv, StmtStatics_initial. cbn [StmtClassInfo Initialized].
  rewrite repeat_length. split; [reflexivity|]. split; [|discriminate].
  cbn [repeat nth_error]. now intros e [= <-].
Qed.

Lemma StmtStatics_inv_getStmtInfoTableEntry (E : nat) (st : StmtStatics) :
  StmtStatics_inv StmtNodes st ->
  StmtStatics_inv StmtNodes (fst (getStmtInfoTableEntry StmtNodes E st)) /\
  Initialized (fst (getStmtInfoTableEntry StmtNodes E st)) = true.
Proof.
  intros (Hlen & H0 & Hinit). unfold getStmtInfoTableEntry. cbn [fst].
  destruct (Initialized st) eqn:Hi.
  - split; [|exact Hi]. repeat split; auto.
  - cbn [Initialized]. split; [|reflexivity].
    destruct (StmtClassInfo_fill_spec (STMT_entries StmtNodes) 1 (StmtClassInfo st))
      as (Hl & Hlow & Hset).
    unfold StmtStatics_inv. cbn [StmtClassInfo Initialized].
    split; [congruence|]. split.
    + intros e. rewrite Hlow by lia. apply H0.
    + intros _ i type Hty. apply (Hset i type Hty).
      rewrite Hlen. unfold lastStmtConstant.
      assert (nth_error (STMT_entries StmtNodes) i <> None) by congruence.
      apply nth_error_Some in H. lia.
Qed.

Lemma StmtStatics_inv_addStmtClass (s : nat) (st : StmtStatics) :
  StmtStatics_inv StmtNodes st ->
  StmtStatics_inv StmtNodes (Stmt_addStmtClass StmtNodes s st).
Proof.
  intros Hinv. unfold Stmt_addStmtClass.
  destruct (StmtStatics_inv_getStmtInfoTableEntry s Hinv) as [(Hlen & H0 & Hinit) Htrue].
  destruct (getStmtInfoTableEntry StmtNodes s st) as [st' o]. cbn [fst] in *.
  unfold StmtStatics_inv. cbn [StmtClassInfo Initialized].
  rewrite table_update_length. split; [exact Hlen|]. split.
  - intros e. destruct (Nat.eq_dec s 0) as [->|Hs].
    + destruct (nth_error (StmtClassInfo st') 0) as [e0|] eqn:E0.
      * rewrite (table_update_same _ _ _ E0). intros [= <-]. cbn [Name]. now apply H0.
      * apply nth_error_None in E0. lia.
    + rewrite table_update_other by exact Hs. apply H0.
  - intros Hi i type Hty. destruct (Hinit Hi i type Hty) as (e & He & Hn & Hsz).
    destruct (Nat.eq_dec s (Datatypes.S i)) as [->|Hs].
    + rewrite (table_update_same _ _ _ He). eexists. split; [reflexivity|]. now split.
    + rewrite table_update_other by exact Hs. eauto.
Qed.

Lemma StmtStatics_reachable_inv (st : StmtStatics) :
  StmtStatics_reachable StmtNodes st -> StmtStatics_inv StmtNodes st.
Proof.
  induction 1.
  - apply StmtStatics_inv_initial.
  - now apply StmtStatics_inv_getStmtInfoTableEntry.
  - now apply StmtStatics_inv_addStmtClass.
Qed.

(** C1, as amended: on a node whose tag selects a concrete class,
    [Stmt::children], [Stmt::getSourceRange] and [Stmt::getStmtClassName]
    give what the class gives: its [children], its own [getSourceRange]
    or else the pair of its [getLocStart] and [getLocEnd], and its name.
    On the sentinel tag and on every tag past the last class,
    [Stmt::children] and [Stmt::getSourceRange] end in
    [llvm_unreachable].  [Stmt::getStmtClassName] has no such check: on
    the sentinel tag it returns the null name of the unused table
    entry. *)
Theorem Stmt_dispatch_by_class (s : Stmt Storage) (st : StmtStatics) :
  StmtStatics_reachable StmtNodes st ->
  ((1 <= Stmt_getStmtClass s <= lastStmtConstant StmtNodes)%nat ->
     exists type,
       StmtClass_case StmtNodes (Stmt_getStmtClass s) = Some type /\
       Stmt_children StmtNodes s = class_children type s /\
       Stmt_getSourceRange StmtNodes s = getSourceRangeImpl type s /\
       snd (Stmt_getStmtClassName StmtNodes s st) = Returned (Some (class_name type))) /\
  ((Stmt_getStmtClass s = NoStmtClass \/
    lastStmtConstant StmtNodes < Stmt_getStmtClass s)%nat ->
     (exists msg, Stmt_children StmtNodes s = Unreachable msg) /\
     (exists msg, Stmt_getSourceRange StmtNodes s = Unreachable msg)) /\
  (Stmt_getStmtClass s = NoStmtClass ->
     snd (Stmt_getStmtClassName StmtNodes s st) = Returned None).
Proof.
  intros Hreach. apply StmtStatics_reachable_inv in Hreach.
  destruct (StmtStatics_inv_getStmtInfoTableEntry (sClass s) Hreach)
    as [(Hlen & H0 & Hinit) Htrue].
  unfold Stmt_getStmtClassName.
  destruct (getStmtInfoTableEntry StmtNodes (sClass s) st) as [st' o] eqn:Hentry.
  assert (Ho : o = match nth_error (StmtClassInfo st') (sClass s) with
                   | Some e => Returned e
                   | None => Undefined
                   end).
  { unfold getStmtInfoTableEntry in Hentry. now injection Hentry as <- <-. }
  cbn [fst snd] in *. subst o.
  unfold Stmt_children, Stmt_getSourceRange, Stmt_getStmtClass, NoStmtClass.
  split; [|split].
  - intros Htag. apply StmtClass_case_Some in Htag. destruct Htag as [type Hty].
    exists type. split; [exact Hty|]. unfold StmtClass_case in Hty.
    destruct (sClass s) as [|i]; [discriminate|]. rewrite Hty.
    split; [reflexivity|]. split; [reflexivity|].
    destruct (Hinit Htrue i type Hty) as (e & He & Hn & _).
    rewrite He. cbn [bind]. now rewrite Hn.
  - intros Htag. apply StmtClass_case_None in Htag. unfold StmtClass_case in Htag.
    destruct (sClass s) as [|i]; [split; eexists; reflexivity|].
    rewrite Htag. split; eexists; reflexivity.
  - intros ->. destruct (nth_error (StmtClassInfo st') 0) as [e|] eqn:E.
    + cbn [bind]. now rewrite (H0 e eq_refl).
    + apply nth_error_None in E. lia.
Qed.

End StmtDispatchProperties.

Lemma Stmt_dispatch_by_class_witness :
  let s := Sample_compound in
  let st := StmtStatics_initial Sample_StmtNodes in
  ((1 <= Stmt_getStmtClass s <= lastStmtConstant Sample_StmtNodes)%nat ->
     exists type,
       StmtClass_case Sample_StmtNodes (Stmt_getStmtClass s) = Some type /\
       Stmt_children Sample_StmtNodes s = class_children type s /\
       Stmt_getSourceRange Sample_StmtNodes s = getSourceRangeImpl type s /\
       snd (Stmt_getStmtClassName Sample_StmtNodes s st)
       = Returned (Some (class_name type))) /\
  ((Stmt_getStmtClass s = NoStmtClass \/
    lastStmtConstant Sample_StmtNodes < Stmt_getStmtClass s)%nat ->
     (exists msg, Stmt_children Sample_StmtNodes s = Unreachable msg) /\
     (exists msg, Stmt_getSourceRange Sample_StmtNodes s = Unreachable msg)) /\
  (Stmt_getStmtClass s = NoStmtClass ->
     snd (Stmt_getStmtClassName Sample_StmtNodes s st) = Returned None).
Proof.
  intros s st.
  apply (@Stmt_dispatch_by_class SampleStorage (list (option Leaf)) Sample_StmtNodes s st).
  apply reachable_initial.
Defined.

(** C1, as stated, on an object whose tag is the sentinel, before any
    other call: [Stmt::getStmtClassName] returns the null name of table
    entry 0; it does not end in [llvm_unreachable]. *)
Lemma Stmt_dispatch_fatal_counterexample :
  ~ dispatch_fatal_as_stated Sample_StmtNodes Sample_no_class
      (StmtStatics_initial Sample_StmtNodes).
Proof.
  unfold dispatch_fatal_as_stated. intros H.
  destruct (H eq_refl) as (_ & _ & [msg Hname]). discriminate Hname.
Qed.

Example Sample_getStmtClassName_no_class :
  snd (Stmt_getStmtClassName Sample_StmtNodes Sample_no_class
         (StmtStatics_initial Sample_StmtNodes)) = Returned None.
Proof. reflexivity. Qed.

Example Sample_children_no_class :
  Stmt_children Sample_StmtNodes Sample_no_class = Unreachable "statement without class".
Proof. reflexivity. Qed.

Example Sample_dispatch_compound :
  Stmt_children Sample_StmtNodes Sample_compound = Returned [Some (mkLeaf 3 4); None] /\
  Stmt_getSourceRange Sample_StmtNodes Sample_compound = Returned (mkSourceRange 1 9) /\
  snd (Stmt_getStmtClassName Sample_StmtNodes Sample_compound
         (StmtStatics_initial Sample_StmtNodes)) = Returned (Some "CompoundStmt"%string).
Proof. repeat split. Qed.

(** The name lookup on a tag past the table reads outside the array. *)
Example Sample_getStmtClassName_unknown_tag :
  snd (Stmt_getStmtClassName Sample_StmtNodes (mkStmt 4 (storage Sample_compound))
         (StmtStatics_initial Sample_StmtNodes)) = Undefined.
Proof. reflexivity. Qed.

Example Sample_dispatch_unknown_tag :
  Stmt_children Sample_StmtNodes (mkStmt 4 (storage Sample_compound))
  = Unreachable "unknown statement kind!" /\
  Stmt_getSourceRange Sample_StmtNodes (mkStmt 4 (storage Sample_compound))
  = Unreachable "unknown statement kind!".
Proof. split; reflexivity. Qed.

(** ** GCC inline assembly: the analysis terminates *)

Lemma scan_digits_rest (rest : StringRef) :
  forall (offs N : Z) (N' : Z) (rest' : StringRef) (offs' : Z),
    scan_digits rest offs N = (N', rest', offs') ->
    (length rest' <= length rest)%nat /\
    offs' + Z.of_nat (length rest') = offs + Z.of_nat (length rest).
Proof.
  induction rest as [|c rest IH]; intros offs N N' rest' offs' H; cbn [scan_digits] in H.
  - injection H as <- <- <-. split; lia.
  - destruct (isDigit c).
    + apply IH in H. cbn [length]. lia.
    + injection H as <- <- <-. split; lia.
Qed.

Lemma memchr_bound (rest : StringRef) (c : ascii) (k : nat) :
  memchr rest c = Some k -> (k < length rest)%nat.
Proof.
  revert k. induction rest as [|x rest IH]; intros k H; cbn [memchr] in H; [discriminate|].
  destruct (Ascii.eqb x c).
  - injection H as <-. cbn [length]. lia.
  - destruct (memchr rest c) as [k'|]; [|discriminate].
    injection H as <-. specialize (IH k' eq_refl). cbn [length]. lia.
Qed.

(** A turn of the loop that continues has consumed at least one character,
    and [CurOffs] has advanced by what was consumed. *)
Lemma AnalyzeAsmString_operand_progress (S : GCCAsmStmt) (Modifier EscapedChar : ascii)
    (rest : StringRef) (offs : Z) (Ps : list AsmStringPiece) (DO : option Z)
    (st' : AnalyzeState) :
  AnalyzeAsmString_operand S Modifier EscapedChar rest offs Ps DO = Continue st' ->
  (length (CurPtr st') <= length rest)%nat /\
  CurOffs st' + Z.of_nat (length (CurPtr st')) = offs + Z.of_nat (length rest).
Proof.
  unfold AnalyzeAsmString_operand. intros H.
  destruct (isDigit EscapedChar) eqn:Hd.
  - destruct (scan_digits (EscapedChar :: rest) (offs - 1) 0) as [[N rest'] offs'] eqn:Hs.
    cbn [scan_digits] in Hs. rewrite Hd in Hs. apply scan_digits_rest in Hs.
    destruct (N >=? AnalyzeAsmString_NumOperands S); [discriminate|].
    injection H as <-. cbn [CurPtr CurOffs]. lia.
  - destruct (Ascii.eqb EscapedChar "["); [|discriminate].
    destruct (memchr rest "]") as [k|] eqn:Hm; [|discriminate].
    destruct (Nat.eqb k 0); [discriminate|].
    destruct (GCCAsmStmt_getNamedOperand S (firstn k rest) =? -1); [discriminate|].
    injection H as <-. cbn [CurPtr CurOffs]. apply memchr_bound in Hm.
    rewrite length_skipn. lia.
Qed.

Lemma AnalyzeAsmString_body_progress (S : GCCAsmStmt) (HasVariants : bool)
    (st st' : AnalyzeState) :
  AnalyzeAsmString_body S HasVariants st = Continue st' ->
  (length (CurPtr st') < length (CurPtr st))%nat /\
  CurOffs st' + Z.of_nat (length (CurPtr st')) = CurOffs st + Z.of_nat (length (CurPtr st)).
Proof.
  unfold AnalyzeAsmString_body. intros H.
  destruct (CurPtr st) as [|CurChar rest1]; [discriminate|].
  repeat match type of H with
         | (if ?b then _ else _) = _ =>
             destruct b;
             [ injection H as <-; cbn [CurPtr CurOffs length]; lia | ]
         end.
  destruct rest1 as [|EscapedChar rest2]; [discriminate|].
  repeat match type of H with
         | (if Ascii.eqb ?a ?b then _ else _) = _ =>
             destruct (Ascii.eqb a b);
             [ injection H as <-; cbn [CurPtr CurOffs length]; lia | ]
         end.
  destruct (isLetter EscapedChar).
  - destruct rest2 as [|EscapedChar' rest3]; [discriminate|].
    apply AnalyzeAsmString_operand_progress in H. cbn [length]. lia.
  - apply AnalyzeAsmString_operand_progress in H. cbn [length]. lia.
Qed.

(** The loop returns within one turn more than the characters left. *)
Lemma AnalyzeAsmString_while_total (S : GCCAsmStmt) (HasVariants : bool) (fuel : nat) :
  forall st, (length (CurPtr st) < fuel)%nat ->
             exists r, AnalyzeAsmString_while fuel S HasVariants st = Some r.
Proof.
  induction fuel as [|fuel IH]; intros st Hlen; [lia|].
  cbn [AnalyzeAsmString_while].
  destruct (AnalyzeAsmString_body S HasVariants st) as [st'|r] eqn:Hb; [|eauto].
  apply AnalyzeAsmString_body_progress in Hb. apply IH. lia.
Qed.

(** [GCCAsmStmt::AnalyzeAsmString] returns on every statement. *)
Lemma GCCAsmStmt_AnalyzeAsmString_total (S : GCCAsmStmt) (HasVariants : bool) :
  exists r, GCCAsmStmt_AnalyzeAsmString S HasVariants = Some r.
Proof.
  unfold GCCAsmStmt_AnalyzeAsmString. destruct (AsmStmt_isSimple S); [eauto|].
  apply AnalyzeAsmString_while_total. cbn [CurPtr]. lia.
Qed.

(** More turns than needed change nothing. *)
Lemma AnalyzeAsmString_while_more_fuel (S : GCCAsmStmt) (HasVariants : bool) (fuel : nat) :
  forall st r fuel',
    AnalyzeAsmString_while fuel S HasVariants st = Some r -> (fuel <= fuel')%nat ->
    AnalyzeAsmString_while fuel' S HasVariants st = Some r.
Proof.
  induction fuel as [|fuel IH]; intros st r fuel' H Hle; [discriminate|].
  destruct fuel' as [|fuel']; [lia|]. cbn [AnalyzeAsmString_while] in *.
  destruct (AnalyzeAsmString_body S HasVariants st); [|exact H].
  apply IH; [exact H | lia].
Qed.

(** The analysis stops at the first [return]: a turn that returns ends the
    loop with what it returns. *)
Lemma AnalyzeAsmString_while_return (S : GCCAsmStmt) (HasVariants : bool) (fuel : nat)
    (st : AnalyzeState) (r : AnalyzeResult) :
  AnalyzeAsmString_body S HasVariants st = Return r ->
  AnalyzeAsmString_while (Datatypes.S fuel) S HasVariants st = Some r.
Proof. intros H. cbn [AnalyzeAsmString_while]. now rewrite H. Qed.

(** The cases of the specification. *)
Example AnalyzeAsmString_simple_dollar :
  GCCAsmStmt_AnalyzeAsmString
    (mkGCCAsmStmt true 0 0 [] [] (lit "mov $eax, $ebx")) false
  = Some (mkAnalyzeResult None None [AsmStringPiece_String (lit "mov $$eax, $$ebx")]).
Proof. reflexivity. Qed.

Example AnalyzeAsmString_two_operands :
  GCCAsmStmt_AnalyzeAsmString (asm_foo "%0 = %1") false
  = Some (mkAnalyzeResult None None
            [AsmStringPiece_Operand 0 "000"; AsmStringPiece_String (lit " = ");
             AsmStringPiece_Operand 1 "000"]).
Proof. reflexivity. Qed.

Example AnalyzeAsmString_named_foo :
  GCCAsmStmt_AnalyzeAsmString (asm_foo "%[foo]") false
  = Some (mkAnalyzeResult None (Some 1) [AsmStringPiece_Operand 0 "000"]).
Proof. reflexivity. Qed.

Example AnalyzeAsmString_percent :
  GCCAsmStmt_AnalyzeAsmString (asm_foo "%") false
  = Some (mkAnalyzeResult (Some err_asm_invalid_escape) (Some 0) []).
Proof. reflexivity. Qed.

Example AnalyzeAsmString_percent_9 :
  GCCAsmStmt_AnalyzeAsmString (asm_foo "%9") false
  = Some (mkAnalyzeResult (Some err_asm_invalid_operand_number) (Some 1) []).
Proof. reflexivity. Qed.

(** A "+" constraint adds an operand number: "%2" is valid with one "+r"
    output and one input. *)
Example AnalyzeAsmString_plus_operand :
  AnalyzeAsmString_NumOperands (asm_plus "%2") = 3 /\
  GCCAsmStmt_AnalyzeAsmString (asm_plus "%2") false
  = Some (mkAnalyzeResult None None [AsmStringPiece_Operand 2 "000"]) /\
  GCCAsmStmt_AnalyzeAsmString (asm_foo "%2") false
  = Some (mkAnalyzeResult (Some err_asm_invalid_operand_number) (Some 1) []).
Proof. repeat split. Qed.

(** The number is accumulated in an [unsigned]: 4294967296 is read as 0. *)
Example AnalyzeAsmString_operand_number_wraps :
  GCCAsmStmt_AnalyzeAsmString (asm_foo "%4294967296") false
  = Some (mkAnalyzeResult None None [AsmStringPiece_Operand 0 "000"]).
Proof. reflexivity. Qed.

(** ** GCC inline assembly: characters *)

Lemma isDigit_range (c : ascii) :
  isDigit c = true <-> 48 <= char_code c <= 57.
Proof.
  unfold isDigit. rewrite andb_true_iff, !Z.leb_le. tauto.
Qed.

Lemma isDigit_not_isLetter (c : ascii) : isDigit c = true -> isLetter c = false.
Proof.
  rewrite isDigit_range. intros H. unfold isLetter.
  apply orb_false_iff. split; apply andb_false_iff; left; apply Z.leb_gt; lia.
Qed.

Lemma isDigit_not_percent (c : ascii) : isDigit c = true -> Ascii.eqb c "%" = false.
Proof. intros H. destruct (Ascii.eqb_spec c "%"); [subst; discriminate | reflexivity]. Qed.

Lemma isDigit_not_equals_sign (c : ascii) : isDigit c = true -> Ascii.eqb c "=" = false.
Proof. intros H. destruct (Ascii.eqb_spec c "="); [subst; discriminate | reflexivity]. Qed.

Lemma isLetter_not_percent (c : ascii) : isLetter c = true -> Ascii.eqb c "%" = false.
Proof. intros H. destruct (Ascii.eqb_spec c "%"); [subst; discriminate | reflexivity]. Qed.

Lemma isLetter_not_equals_sign (c : ascii) : isLetter c = true -> Ascii.eqb c "=" = false.
Proof. intros H. destruct (Ascii.eqb_spec c "="); [subst; discriminate | reflexivity]. Qed.

Lemma StringRef_equals_spec (a b : StringRef) : StringRef_equals a b = true <-> a = b.
Proof.
  revert b. induction a as [|x a IH]; intros [|y b]; cbn [StringRef_equals];
    try (split; [discriminate | congruence]); [tauto|].
  rewrite andb_true_iff, IH. destruct (Ascii.eqb_spec x y); split.
  - intros [_ ->]. now subst.
  - intros [= _ ->]. auto.
  - intros [H _]. discriminate.
  - intros [= -> _]. contradiction.
Qed.

(** ** GCC inline assembly: one turn of the loop on an escape *)

(** After '%', an optional letter and a character that starts an operand,
    the loop body is in its operand part with the string piece flushed. *)
Lemma AnalyzeAsmString_body_escape (S : GCCAsmStmt) (HasVariants : bool)
    (st : AnalyzeState) (Modifier : option ascii) (EscapedChar : ascii)
    (rest : StringRef) :
  CurPtr st = lit "%" ++ modifier_chars Modifier ++ EscapedChar :: rest ->
  modifier_ok Modifier ->
  (Modifier = None ->
   Ascii.eqb EscapedChar "%" = false /\ Ascii.eqb EscapedChar "=" = false /\
   isLetter EscapedChar = false) ->
  AnalyzeAsmString_body S HasVariants st
  = AnalyzeAsmString_operand S (modifier_char Modifier) EscapedChar rest
      (CurOffs st + 2 + list_size (modifier_chars Modifier))
      (flush_piece (CurStringPiece st) (CurPieces st)) (CurDiagOffs st).
Proof.
  intros HPtr Hok Hnone. unfold AnalyzeAsmString_body. rewrite HPtr.
  cbn [lit list_ascii_of_string app]. cbn [Ascii.eqb Bool.eqb andb negb].
  destruct Modifier as [m|]; cbn [modifier_chars modifier_char app list_size length] in *.
  - rewrite (isLetter_not_percent m Hok), (isLetter_not_equals_sign m Hok), Hok.
    f_equal. unfold list_size. cbn [length Z.of_nat Pos.of_succ_nat]. lia.
  - destruct (Hnone eq_refl) as (-> & -> & ->). f_equal.
    unfold list_size. cbn [length Z.of_nat]. lia.
Qed.

(** The digit loop on a run of digits: the number is the decimal value of
    the run reduced to an [unsigned], and the pointer stops after the run. *)
Lemma scan_digits_run (digits : StringRef) :
  forall (tail : StringRef) (offs N : Z),
    Forall (fun c => isDigit c = true) digits ->
    match tail with
    | c :: _ => isDigit c = false
    | [] => True
    end ->
    scan_digits (digits ++ tail) offs N
    = (fold_left (fun N c => to_unsigned (N * 10 + (char_code c - char_code "0"%char)))
         digits N,
       tail, offs + list_size digits).
Proof.
  unfold list_size.
  induction digits as [|d digits IH]; intros tail offs N Hd Ht; cbn [app fold_left length].
  - rewrite Z.add_0_r. destruct tail as [|c tail]; [reflexivity|].
    cbn [scan_digits]. now rewrite Ht.
  - inversion Hd as [|? ? Hd1 Hd2]; subst. cbn [scan_digits]. rewrite Hd1.
    rewrite IH by assumption. f_equal. lia.
Qed.

Lemma fold_to_unsigned (digits : StringRef) :
  forall N : Z,
    fold_left (fun N c => to_unsigned (N * 10 + (char_code c - char_code "0"%char)))
      digits (to_unsigned N)
    = to_unsigned
        (fold_left (fun N c => N * 10 + (char_code c - char_code "0"%char)) digits N).
Proof.
  induction digits as [|d digits IH]; intros N; cbn [fold_left]; [reflexivity|].
  rewrite <- IH. f_equal. unfold to_unsigned.
  rewrite Z.add_mod, Z.mul_mod, Z.mod_mod by lia.
  rewrite <- Z.mul_mod, <- Z.add_mod by lia. reflexivity.
Qed.

Lemma decimal_value_nonneg_from (digits : StringRef) :
  forall N : Z,
    0 <= N -> Forall (fun c => isDigit c = true) digits ->
    0 <= fold_left (fun N c => N * 10 + (char_code c - char_code "0"%char)) digits N.
Proof.
  induction digits as [|d digits IH]; intros N HN Hd; cbn [fold_left]; [exact HN|].
  inversion Hd as [|? ? Hd1 Hd2]; subst. apply IH; [|assumption].
  apply isDigit_range in Hd1. change (char_code "0") with 48. lia.
Qed.

(** The count of [getNumPlusOperands] is the number of outputs whose
    constraint starts with '+'. *)
Lemma getNumPlusOperands_loop_counts (S : GCCAsmStmt) (n : nat) :
  forall (i : nat) (Res : Z),
    0 <= Res -> Res + Z.of_nat n < 2 ^ 32 ->
    getNumPlusOperands_loop S (Z.of_nat i) n Res
    = Res + Z.of_nat
              (length
                 (filter (fun cs => match cs with
                                    | c :: _ => Ascii.eqb c "+"%char
                                    | [] => false
                                    end)
                    (firstn n (skipn i (Constraints S))))).
Proof.
  induction n as [|n IH]; intros i Res HRes Hb; cbn [getNumPlusOperands_loop].
  - cbn [firstn filter length Z.of_nat]. lia.
  - replace (Z.of_nat i + 1) with (Z.of_nat (Datatypes.S i)) by lia.
    unfold AsmStmt_isOutputPlusConstraint, GCCAsmStmt_getOutputConstraint.
    rewrite Nat2Z.id.
    assert (Hskip : skipn i (Constraints S) = [] /\ nth i (Constraints S) [] = [] \/
                    exists x, skipn i (Constraints S) = x :: skipn (Datatypes.S i) (Constraints S)
                              /\ nth i (Constraints S) [] = x).
    { clear. revert i. induction (Constraints S) as [|x l IHl]; intros [|i].
      - left. split; reflexivity.
      - left. split; reflexivity.
      - right. exists x. split; reflexivity.
      - destruct (IHl i) as [[H1 H2]|[y [H1 H2]]].
        + left. split; assumption.
        + right. exists y. split; assumption. }
    destruct Hskip as [[Hs Hn]|[x [Hs Hn]]]; rewrite Hs, Hn.
    + rewrite IH by lia.
      assert (Hnil : skipn (Datatypes.S i) (Constraints S) = []).
      { apply skipn_all2. assert (length (skipn i (Constraints S)) = 0%nat) by now rewrite Hs.
        rewrite length_skipn in H. lia. }
      rewrite Hnil, firstn_nil. reflexivity.
    + cbn [firstn filter].
      destruct x as [|c x']; [rewrite IH by lia; reflexivity|].
      destruct (Ascii.eqb c "+").
      * unfold to_unsigned. rewrite Z.mod_small by lia.
        rewrite IH by lia. cbn [length]. lia.
      * rewrite IH by lia. reflexivity.
Qed.

Lemma AnalyzeAsmString_NumOperands_counts (S : GCCAsmStmt) :
  GCCAsmStmt_wf S ->
  AnalyzeAsmString_NumOperands S
  = NumOutputs S + number_of_plus_outputs S + NumInputs S.
Proof.
  intros (HO & HI & Hsum & _).
  unfold AnalyzeAsmString_NumOperands, AsmStmt_getNumPlusOperands, AsmStmt_getNumOutputs,
    AsmStmt_getNumInputs, number_of_plus_outputs.
  pose proof (@getNumPlusOperands_loop_counts S (Z.to_nat (NumOutputs S)) 0 0) as H.
  cbn [Z.of_nat skipn] in H. rewrite H by lia. clear H.
  set (l := filter _ _).
  assert (Hl : Z.of_nat (length l) <= NumOutputs S).
  { unfold l. pose proof (filter_length_le
      (fun cs : list ascii => match cs with c :: _ => Ascii.eqb c "+" | [] => false end)
      (firstn (Z.to_nat (NumOutputs S)) (Constraints S))) as Hf.
    rewrite length_firstn in Hf. lia. }
  unfold to_unsigned.
  rewrite (Z.mod_small (NumOutputs S + (0 + Z.of_nat (length l)))) by lia.
  rewrite Z.mod_small; lia.
Qed.

(** ** C2: numeric operands *)

(** One turn of the loop at a '%' followed by an optional modifier letter
    and a run of digits whose decimal value [N] fits an [unsigned]: if
    [N] is not less than the number of operands, the turn returns the
    invalid-operand-number diagnostic with the offset of the last digit
    of the run; otherwise it adds the string piece in progress, if any,
    and an operand piece with [N] and the modifier, and goes on after the
    run. *)
Lemma AnalyzeAsmString_body_operand_number (S : GCCAsmStmt) (HasVariants : bool)
    (st : AnalyzeState) (Modifier : option ascii) (digits tail : StringRef) :
  CurPtr st = lit "%" ++ modifier_chars Modifier ++ digits ++ tail ->
  modifier_ok Modifier ->
  digits <> [] ->
  Forall (fun c => isDigit c = true) digits ->
  match tail with
  | c :: _ => isDigit c = false
  | [] => True
  end ->
  decimal_value digits < 2 ^ 32 ->
  let N := decimal_value digits in
  let run_start := CurOffs st + 1 + list_size (modifier_chars Modifier) in
  let Ps := flush_piece (CurStringPiece st) (CurPieces st) in
  (GCCAsmStmt_wf S ->
   AnalyzeAsmString_NumOperands S
   = NumOutputs S + number_of_plus_outputs S + NumInputs S) /\
  AnalyzeAsmString_body S HasVariants st
  = if N >=? AnalyzeAsmString_NumOperands S then
      Return (mkAnalyzeResult (Some err_asm_invalid_operand_number)
                (Some (to_unsigned (run_start + list_size digits - 1))) Ps)
    else
      Continue (mkAnalyzeState tail (run_start + list_size digits) []
                  (Ps ++ [AsmStringPiece_Operand N (modifier_char Modifier)])
                  (CurDiagOffs st)).
Proof.
  intros HPtr Hok Hne Hd Ht Hfit N run_start Ps.
  split; [apply AnalyzeAsmString_NumOperands_counts|].
  destruct digits as [|d digits]; [congruence|].
  inversion Hd as [|? ? Hd1 Hd2]; subst.
  rewrite (@AnalyzeAsmString_body_escape S HasVariants st Modifier d (digits ++ tail));
    [ | exact HPtr | exact Hok
      | intros _; auto using isDigit_not_percent, isDigit_not_equals_sign,
                    isDigit_not_isLetter ].
  unfold AnalyzeAsmString_operand. rewrite Hd1.
  change (d :: digits ++ tail) with ((d :: digits) ++ tail).
  rewrite scan_digits_run by assumption.
  assert (HN : fold_left
                 (fun N c => to_unsigned (N * 10 + (char_code c - char_code "0"%char)))
                 (d :: digits) 0 = N).
  { change 0 with (to_unsigned 0) at 1. rewrite fold_to_unsigned.
    fold (decimal_value (d :: digits)). fold N.
    unfold to_unsigned. apply Z.mod_small. split; [|exact Hfit].
    apply decimal_value_nonneg_from; [lia | assumption]. }
  rewrite HN. fold Ps. unfold run_start.
  replace (CurOffs st + 2 + list_size (modifier_chars Modifier) - 1 + list_size (d :: digits))
    with (CurOffs st + 1 + list_size (modifier_chars Modifier) + list_size (d :: digits))
    by lia.
  reflexivity.
Qed.

(** C2, as stated, on the template "%10" with two operands: the digit run
    starts at offset 1, and the diagnostic is reported at offset 2. *)
Lemma AnalyzeAsmString_operand_number_counterexample :
  ~ operand_number_diag_as_stated (asm_foo "%10") false [] (lit "10") [].
Proof.
  unfold operand_number_diag_as_stated. intros H.
  destruct (H eq_refl) as [Ps HPs]; [vm_compute; discriminate|].
  vm_compute in HPs. discriminate HPs.
Qed.

Example AnalyzeAsmString_percent_10 :
  GCCAsmStmt_AnalyzeAsmString (asm_foo "%10") false
  = Some (mkAnalyzeResult (Some err_asm_invalid_operand_number) (Some 2) []).
Proof. reflexivity. Qed.

(** ** C5: symbolic operands *)

Lemma memchr_absent (rest : StringRef) (c : ascii) :
  ~ In c rest -> memchr rest c = None.
Proof.
  induction rest as [|x rest IH]; intros H; cbn [memchr]; [reflexivity|].
  destruct (Ascii.eqb_spec x c) as [->|Hx]; [exfalso; apply H; now left|].
  rewrite IH; [reflexivity | intros Hin; apply H; now right].
Qed.

Lemma memchr_first (name tail : StringRef) (c : ascii) :
  ~ In c name -> memchr (name ++ c :: tail) c = Some (length name).
Proof.
  induction name as [|x name IH]; intros H; cbn [memchr app length].
  - now rewrite Ascii.eqb_refl.
  - destruct (Ascii.eqb_spec x c) as [->|Hx]; [exfalso; apply H; now left|].
    rewrite IH; [reflexivity | intros Hin; apply H; now right].
Qed.

(** The loop of [getNamedOperand] over names [name(i), name(i+1), ...]
    finds the first position that matches. *)
Lemma getNamedOperand_scan_first_match (name : Z -> StringRef) (SymbolicName : StringRef)
    (names : list StringRef) :
  forall i : Z,
    (forall k, (k < length names)%nat -> name (i + Z.of_nat k) = nth k names []) ->
    getNamedOperand_scan name SymbolicName i (length names)
    = option_map (fun k => i + Z.of_nat k) (first_match names SymbolicName).
Proof.
  induction names as [|n names IH]; intros i Hname; [reflexivity|].
  cbn [getNamedOperand_scan length first_match].
  pose proof (Hname 0%nat ltac:(cbn [length]; lia)) as H0.
  cbn [Z.of_nat nth] in H0. rewrite Z.add_0_r in H0. rewrite H0.
  destruct (list_eq_dec ascii_dec n SymbolicName) as [->|Hn].
  - replace (StringRef_equals SymbolicName SymbolicName) with true
      by (symmetry; now apply StringRef_equals_spec).
    cbn [option_map Z.of_nat]. now rewrite Z.add_0_r.
  - destruct (StringRef_equals n SymbolicName) eqn:E;
      [apply StringRef_equals_spec in E; contradiction|].
    rewrite IH.
    + destruct (first_match names SymbolicName) as [k|]; cbn [option_map]; [|reflexivity].
      f_equal. lia.
    + intros k Hk. replace (i + 1 + Z.of_nat k) with (i + Z.of_nat (Datatypes.S k)) by lia.
      rewrite Hname by (cbn [length]; lia). reflexivity.
Qed.

Lemma first_match_bound (names : list StringRef) (SymbolicName : StringRef) (k : nat) :
  first_match names SymbolicName = Some k -> (k < length names)%nat.
Proof.
  revert k. induction names as [|n names IH]; intros k H; cbn [first_match] in H;
    [discriminate|].
  destruct (list_eq_dec ascii_dec n SymbolicName).
  - injection H as <-. cbn [length]. lia.
  - destruct (first_match names SymbolicName) as [k'|]; [|discriminate].
    injection H as <-. specialize (IH k' eq_refl). cbn [length]. lia.
Qed.

Lemma to_int_small (z : Z) : 0 <= z < 2 ^ 31 -> to_int z = z.
Proof.
  intros H. unfold to_int. rewrite Z.mod_small by lia.
  destruct (z <? 2 ^ 31) eqn:E; [reflexivity | apply Z.ltb_ge in E; lia].
Qed.

(** [getNamedOperand] computes the resolution of the specification: the
    first output of that name, else the first input of that name numbered
    after the outputs, else -1. *)
Lemma GCCAsmStmt_getNamedOperand_resolves (S : GCCAsmStmt) (SymbolicName : StringRef) :
  GCCAsmStmt_wf S ->
  GCCAsmStmt_getNamedOperand S SymbolicName
  = match resolve_symbolic_name S SymbolicName with
    | Some N => N
    | None => -1
    end /\
  (forall N, resolve_symbolic_name S SymbolicName = Some N ->
             0 <= N < NumOutputs S + NumInputs S).
Proof.
  intros (HO & HI & Hsum & Hlen). unfold list_size in Hlen.
  assert (Hout_len : length (output_names S) = Z.to_nat (NumOutputs S)).
  { unfold output_names. rewrite length_map, length_firstn. lia. }
  assert (Hin_len : length (input_names S) = Z.to_nat (NumInputs S)).
  { unfold input_names. rewrite length_map, length_firstn, length_skipn. lia. }
  assert (Hout : forall k, (k < length (output_names S))%nat ->
                   GCCAsmStmt_getOutputName S (0 + Z.of_nat k) = nth k (output_names S) []).
  { intros k Hk. unfold GCCAsmStmt_getOutputName, output_names.
    change (@nil ascii) with (IdentifierInfo_name None). rewrite map_nth.
    cbn [Z.add]. rewrite Nat2Z.id. f_equal.
    rewrite <- (firstn_skipn (Z.to_nat (NumOutputs S)) (Names S)) at 1.
    apply app_nth1. rewrite length_firstn. lia. }
  assert (Hin : forall k, (k < length (input_names S))%nat ->
                  GCCAsmStmt_getInputName S (0 + Z.of_nat k) = nth k (input_names S) []).
  { intros k Hk. unfold GCCAsmStmt_getInputName, input_names.
    change (@nil ascii) with (IdentifierInfo_name None). rewrite map_nth.
    f_equal.
    assert (HN : Names S = firstn (Z.to_nat (NumOutputs S)) (Names S)
                           ++ skipn (Z.to_nat (NumOutputs S)) (Names S))
      by (symmetry; apply firstn_skipn).
    assert (Hpre : length (firstn (Z.to_nat (NumOutputs S)) (Names S))
                   = Z.to_nat (NumOutputs S)) by (rewrite length_firstn; lia).
    assert (Hsuf : length (skipn (Z.to_nat (NumOutputs S)) (Names S))
                   = Z.to_nat (NumInputs S)) by (rewrite length_skipn; lia).
    revert HN Hpre Hsuf.
    generalize (firstn (Z.to_nat (NumOutputs S)) (Names S)) as pre.
    generalize (skipn (Z.to_nat (NumOutputs S)) (Names S)) as suf.
    intros suf pre HN Hpre Hsuf. rewrite HN.
    replace (Z.to_nat (0 + Z.of_nat k + NumOutputs S)) with (length pre + k)%nat by lia.
    rewrite app_nth2_plus.
    rewrite <- (firstn_skipn (Z.to_nat (NumInputs S)) suf) at 1.
    apply app_nth1. rewrite length_firstn. lia. }
  unfold GCCAsmStmt_getNamedOperand, resolve_symbolic_name, AsmStmt_getNumOutputs,
    AsmStmt_getNumInputs.
  rewrite <- Hout_len, <- Hin_len.
  rewrite (getNamedOperand_scan_first_match _ SymbolicName (output_names S) 0 Hout).
  rewrite (getNamedOperand_scan_first_match _ SymbolicName (input_names S) 0 Hin).
  destruct (first_match (output_names S) SymbolicName) as [i|] eqn:Ei; cbn [option_map].
  - apply first_match_bound in Ei. split.
    + apply to_int_small. lia.
    + intros N [= <-]. lia.
  - destruct (first_match (input_names S) SymbolicName) as [j|] eqn:Ej; cbn [option_map].
    + apply first_match_bound in Ej. split.
      * unfold to_unsigned. rewrite Z.add_0_r.
        rewrite (Z.mod_small (NumOutputs S)) by lia.
        rewrite Z.mod_small by lia. rewrite to_int_small by lia. lia.
      * intros N [= <-]. lia.
    + split; [reflexivity | discriminate].
Qed.

(** One turn of the loop at a '%' followed by an optional modifier letter
    and '[': with no ']' in the rest of the string the turn returns the
    unterminated-name diagnostic; with ']' right after '[' it returns the
    empty-name diagnostic; otherwise the name runs to the first ']' and
    is resolved by [getNamedOperand], which finds the first output of
    that name, else the first input of that name, numbered after the
    outputs: with no such operand the turn returns the unknown-name
    diagnostic, and with one it adds the string piece in progress, if
    any, and an operand piece with the number found and the modifier, and
    goes on after the ']'. *)
Lemma AnalyzeAsmString_body_symbolic_operand (S : GCCAsmStmt) (HasVariants : bool)
    (st : AnalyzeState) (Modifier : option ascii) (rest : StringRef) :
  GCCAsmStmt_wf S ->
  CurPtr st = lit "%" ++ modifier_chars Modifier ++ lit "[" ++ rest ->
  modifier_ok Modifier ->
  let bracket := CurOffs st + 1 + list_size (modifier_chars Modifier) in
  let Ps := flush_piece (CurStringPiece st) (CurPieces st) in
  let diagnose d offs := Return (mkAnalyzeResult (Some d) (Some (to_unsigned offs)) Ps) in
  (~ In "]"%char rest ->
     AnalyzeAsmString_body S HasVariants st
     = diagnose err_asm_unterminated_symbolic_operand_name bracket) /\
  (forall tail, rest = lit "]" ++ tail ->
     AnalyzeAsmString_body S HasVariants st
     = diagnose err_asm_empty_symbolic_operand_name bracket) /\
  (forall name tail,
     rest = name ++ lit "]" ++ tail -> name <> [] -> ~ In "]"%char name ->
     GCCAsmStmt_getNamedOperand S name
     = match resolve_symbolic_name S name with
       | Some N => N
       | None => -1
       end /\
     AnalyzeAsmString_body S HasVariants st
     = match resolve_symbolic_name S name with
       | None => diagnose err_asm_unknown_symbolic_operand_name (bracket + 1)
       | Some N =>
           Continue (mkAnalyzeState tail (bracket + 1 + list_size name + 1) []
                       (Ps ++ [AsmStringPiece_Operand N (modifier_char Modifier)])
                       (Some (to_unsigned bracket)))
       end).
Proof.
  intros Hwf HPtr Hok bracket Ps diagnose.
  assert (Hbody : AnalyzeAsmString_body S HasVariants st
                  = AnalyzeAsmString_operand S (modifier_char Modifier) "["%char rest
                      (bracket + 1) Ps (CurDiagOffs st)).
  { rewrite (@AnalyzeAsmString_body_escape S HasVariants st Modifier "["%char rest);
      [ | exact HPtr | exact Hok | intros _; repeat split ].
    unfold bracket, Ps. f_equal. lia. }
  rewrite Hbody. unfold AnalyzeAsmString_operand.
  change (isDigit "[") with false. change (Ascii.eqb "[" "[") with true. cbv iota.
  replace (bracket + 1 - 1) with bracket by lia.
  split; [|split].
  - intros Hno. now rewrite memchr_absent.
  - intros tail ->. reflexivity.
  - intros name tail -> Hne Hno.
    destruct (GCCAsmStmt_getNamedOperand_resolves name Hwf) as [Hres Hrange].
    split; [exact Hres|].
    change (lit "]" ++ tail) with ("]"%char :: tail).
    rewrite memchr_first by exact Hno.
    destruct (Nat.eqb_spec (length name) 0) as [H0|_];
      [destruct name; [congruence | discriminate]|].
    rewrite firstn_app, Nat.sub_diag, firstn_all. cbn [firstn]. rewrite app_nil_r.
    rewrite Hres.
    destruct (resolve_symbolic_name S name) as [N|] eqn:ER.
    + specialize (Hrange N eq_refl). destruct Hwf as (HO & HI & Hsum & _).
      destruct (N =? -1) eqn:EN; [apply Z.eqb_eq in EN; lia|].
      rewrite skipn_app, skipn_all2 by lia.
      replace (length name + 1 - length name)%nat with 1%nat by lia.
      cbn [skipn app]. unfold to_unsigned at 1. rewrite (Z.mod_small N) by lia.
      unfold list_size. reflexivity.
    + reflexivity.
Qed.

(** Outputs are looked up before inputs, and the first match wins. *)
Example getNamedOperand_outputs_first :
  let S := mkGCCAsmStmt false 2 2
             [Some (lit "a"); Some (lit "b"); Some (lit "b"); Some (lit "a")]
             [lit "=r"; lit "=r"; lit "r"; lit "r"] (lit "%[b] %[a] %[c]") in
  GCCAsmStmt_getNamedOperand S (lit "a") = 0 /\
  GCCAsmStmt_getNamedOperand S (lit "b") = 1 /\
  GCCAsmStmt_getNamedOperand S (lit "c") = -1 /\
  GCCAsmStmt_AnalyzeAsmString S false
  = Some (mkAnalyzeResult (Some err_asm_unknown_symbolic_operand_name) (Some 12)
            [AsmStringPiece_Operand 1 "000"; AsmStringPiece_String (lit " ");
             AsmStringPiece_Operand 0 "000"; AsmStringPiece_String (lit " ")]).
Proof. repeat split. Qed.

Example AnalyzeAsmString_symbolic_errors :
  GCCAsmStmt_AnalyzeAsmString (asm_foo "%[foo") false
  = Some (mkAnalyzeResult (Some err_asm_unterminated_symbolic_operand_name) (Some 1) []) /\
  GCCAsmStmt_AnalyzeAsmString (asm_foo "%[]") false
  = Some (mkAnalyzeResult (Some err_asm_empty_symbolic_operand_name) (Some 1) []) /\
  GCCAsmStmt_AnalyzeAsmString (asm_foo "%[bar]") false
  = Some (mkAnalyzeResult (Some err_asm_unknown_symbolic_operand_name) (Some 2) []).
Proof. repeat split. Qed.

(** ** C9: a '%' at the end of the string *)

Lemma scan_digits_trailing_percent (rest : StringRef) :
  forall (offs N : Z),
    scan_digits (rest ++ lit "%") offs N
    = let '(N', rest', offs') := scan_digits rest offs N in
      (N', rest' ++ lit "%", offs').
Proof.
  induction rest as [|c rest IH]; intros offs N; [reflexivity|].
  cbn [app scan_digits]. destruct (isDigit c); [apply IH | reflexivity].
Qed.

Lemma memchr_app (rest more : StringRef) (c : ascii) (k : nat) :
  memchr rest c = Some k -> memchr (rest ++ more) c = Some k.
Proof.
  revert k. induction rest as [|x rest IH]; intros k H; cbn [memchr app] in *; [discriminate|].
  destruct (Ascii.eqb x c); [exact H|].
  destruct (memchr rest c) as [k'|]; [|discriminate].
  now rewrite (IH k' eq_refl).
Qed.

(** A turn that continues does the same with one more '%' at the end of
    the string, which stays at the end. *)
Lemma AnalyzeAsmString_operand_trailing_percent (S : GCCAsmStmt)
    (Modifier EscapedChar : ascii) (rest : StringRef) (offs : Z)
    (Ps : list AsmStringPiece) (DO : option Z) (st' : AnalyzeState) :
  AnalyzeAsmString_operand S Modifier EscapedChar rest offs Ps DO = Continue st' ->
  AnalyzeAsmString_operand S Modifier EscapedChar (rest ++ lit "%") offs Ps DO
  = Continue (with_trailing_percent st').
Proof.
  unfold AnalyzeAsmString_operand. intros H.
  destruct (isDigit EscapedChar) eqn:Hd.
  - change (EscapedChar :: rest ++ lit "%") with ((EscapedChar :: rest) ++ lit "%").
    rewrite scan_digits_trailing_percent.
    destruct (scan_digits (EscapedChar :: rest) (offs - 1) 0) as [[N rest'] offs'].
    destruct (N >=? AnalyzeAsmString_NumOperands S); [discriminate|].
    injection H as <-. reflexivity.
  - destruct (Ascii.eqb EscapedChar "["); [|discriminate].
    destruct (memchr rest "]") as [k|] eqn:Hm; [|discriminate].
    rewrite (@memchr_app rest (lit "%") _ _ Hm). apply memchr_bound in Hm.
    destruct (Nat.eqb k 0); [discriminate|].
    rewrite firstn_app. replace (k - length rest)%nat with 0%nat by lia.
    cbn [firstn]. rewrite app_nil_r.
    destruct (GCCAsmStmt_getNamedOperand S (firstn k rest) =? -1); [discriminate|].
    injection H as <-. unfold with_trailing_percent. cbn [CurPtr CurOffs CurStringPiece
      CurPieces CurDiagOffs].
    rewrite skipn_app. replace (k + 1 - length rest)%nat with 0%nat by lia.
    reflexivity.
Qed.

Lemma AnalyzeAsmString_body_trailing_percent (S : GCCAsmStmt) (HasVariants : bool)
    (st st' : AnalyzeState) :
  AnalyzeAsmString_body S HasVariants st = Continue st' ->
  AnalyzeAsmString_body S HasVariants (with_trailing_percent st)
  = Continue (with_trailing_percent st').
Proof.
  unfold AnalyzeAsmString_body, with_trailing_percent.
  cbn [CurPtr CurOffs CurStringPiece CurPieces CurDiagOffs]. intros H.
  destruct (CurPtr st) as [|CurChar rest1]; [discriminate|]. cbn [app].
  repeat match type of H with
         | (if ?b then _ else _) = _ =>
             destruct b; [ injection H as <-; reflexivity | ]
         end.
  destruct rest1 as [|EscapedChar rest2]; [discriminate|]. cbn [app].
  repeat match type of H with
         | (if Ascii.eqb ?a ?b then _ else _) = _ =>
             destruct (Ascii.eqb a b); [ injection H as <-; reflexivity | ]
         end.
  destruct (isLetter EscapedChar).
  - destruct rest2 as [|EscapedChar' rest3]; [discriminate|]. cbn [app].
    now apply AnalyzeAsmString_operand_trailing_percent.
  - now apply AnalyzeAsmString_operand_trailing_percent.
Qed.

(** A turn returns 0 only at the end of the string. *)
Lemma AnalyzeAsmString_body_returns_zero (S : GCCAsmStmt) (HasVariants : bool)
    (st : AnalyzeState) (r : AnalyzeResult) :
  AnalyzeAsmString_body S HasVariants st = Return r -> Ret r = None -> CurPtr st = [].
Proof.
  unfold AnalyzeAsmString_body. intros H Hr.
  destruct (CurPtr st) as [|CurChar rest1]; [reflexivity|]. exfalso.
  repeat match type of H with
         | (if ?b then _ else _) = _ => destruct b; [ discriminate | ]
         end.
  destruct rest1 as [|EscapedChar rest2]; [injection H as <-; discriminate|].
  repeat match type of H with
         | (if Ascii.eqb ?a ?b then _ else _) = _ =>
             destruct (Ascii.eqb a b); [ discriminate | ]
         end.
  assert (Hop : forall M E rest offs Ps DO,
             AnalyzeAsmString_operand S M E rest offs Ps DO = Return r -> False).
  { clear H. unfold AnalyzeAsmString_operand. intros M E rest offs Ps DO H.
    destruct (isDigit E).
    - destruct (scan_digits (E :: rest) (offs - 1) 0) as [[N rest'] offs'].
      destruct (N >=? AnalyzeAsmString_NumOperands S);
        [injection H as <-; discriminate | discriminate].
    - destruct (Ascii.eqb E "["); [|injection H as <-; discriminate].
      destruct (memchr rest "]") as [k|]; [|injection H as <-; discriminate].
      destruct (Nat.eqb k 0); [injection H as <-; discriminate|].
      destruct (GCCAsmStmt_getNamedOperand S (firstn k rest) =? -1);
        [injection H as <-; discriminate | discriminate]. }
  destruct (isLetter EscapedChar).
  - destruct rest2 as [|EscapedChar' rest3]; [injection H as <-; discriminate|].
    eauto.
  - eauto.
Qed.

(** At the end of the string, one more '%' makes the turn return the
    invalid-escape diagnostic at the offset of that '%'. *)
Lemma AnalyzeAsmString_body_percent_at_end (S : GCCAsmStmt) (HasVariants : bool)
    (st : AnalyzeState) :
  CurPtr st = [] ->
  AnalyzeAsmString_body S HasVariants (with_trailing_percent st)
  = Return (mkAnalyzeResult (Some err_asm_invalid_escape)
              (Some (to_unsigned (CurOffs st))) (CurPieces st)).
Proof.
  intros H. unfold AnalyzeAsmString_body, with_trailing_percent.
  cbn [CurPtr CurOffs CurStringPiece CurPieces CurDiagOffs]. rewrite H.
  cbn [app lit list_ascii_of_string]. cbn [Ascii.eqb Bool.eqb andb negb].
  now replace (CurOffs st + 1 - 1) with (CurOffs st) by lia.
Qed.

Lemma AnalyzeAsmString_while_trailing_percent (S : GCCAsmStmt) (HasVariants : bool)
    (fuel : nat) :
  forall st r,
    AnalyzeAsmString_while fuel S HasVariants st = Some r -> Ret r = None ->
    exists Ps,
      AnalyzeAsmString_while (Datatypes.S fuel) S HasVariants (with_trailing_percent st)
      = Some (mkAnalyzeResult (Some err_asm_invalid_escape)
                (Some (to_unsigned (CurOffs st + list_size (CurPtr st)))) Ps).
Proof.
  induction fuel as [|fuel IH]; intros st r H Hr; [discriminate|].
  cbn [AnalyzeAsmString_while] in H.
  destruct (AnalyzeAsmString_body S HasVariants st) as [st'|r0] eqn:Hb.
  - destruct (IH st' r H Hr) as [Ps HPs]. exists Ps.
    pose proof (@AnalyzeAsmString_body_progress S HasVariants st st' Hb) as [_ Hoffs].
    cbn [AnalyzeAsmString_while].
    rewrite (@AnalyzeAsmString_body_trailing_percent S HasVariants st st' Hb).
    cbn [AnalyzeAsmString_while] in HPs. rewrite HPs.
    unfold list_size. now rewrite Hoffs.
  - injection H as ->.
    pose proof (@AnalyzeAsmString_body_returns_zero S HasVariants st r Hb Hr) as Hend.
    exists (CurPieces st). cbn [AnalyzeAsmString_while].
    rewrite (@AnalyzeAsmString_body_percent_at_end S HasVariants st Hend).
    rewrite Hend. unfold list_size. cbn [length Z.of_nat]. now rewrite Z.add_0_r.
Qed.

(** The loop reads the counts, names and constraints of the statement, not
    its template. *)
Lemma getNumPlusOperands_loop_with_AsmStr (S : GCCAsmStmt) (Str : StringRef) (n : nat) :
  forall i Res,
    getNumPlusOperands_loop (GCCAsmStmt_with_AsmStr S Str) i n Res
    = getNumPlusOperands_loop S i n Res.
Proof.
  induction n as [|n IH]; intros i Res; cbn [getNumPlusOperands_loop]; [reflexivity|].
  rewrite IH. reflexivity.
Qed.

Lemma AnalyzeAsmString_body_with_AsmStr (S : GCCAsmStmt) (Str : StringRef)
    (HasVariants : bool) (st : AnalyzeState) :
  AnalyzeAsmString_body (GCCAsmStmt_with_AsmStr S Str) HasVariants st
  = AnalyzeAsmString_body S HasVariants st.
Proof.
  assert (HN : AnalyzeAsmString_NumOperands (GCCAsmStmt_with_AsmStr S Str)
               = AnalyzeAsmString_NumOperands S).
  { unfold AnalyzeAsmString_NumOperands, AsmStmt_getNumPlusOperands.
    now rewrite getNumPlusOperands_loop_with_AsmStr. }
  unfold AnalyzeAsmString_body, AnalyzeAsmString_operand. rewrite HN. reflexivity.
Qed.

Lemma AnalyzeAsmString_while_with_AsmStr (S : GCCAsmStmt) (Str : StringRef)
    (HasVariants : bool) (fuel : nat) :
  forall st,
    AnalyzeAsmString_while fuel (GCCAsmStmt_with_AsmStr S Str) HasVariants st
    = AnalyzeAsmString_while fuel S HasVariants st.
Proof.
  induction fuel as [|fuel IH]; intros st; cbn [AnalyzeAsmString_while]; [reflexivity|].
  rewrite AnalyzeAsmString_body_with_AsmStr.
  destruct (AnalyzeAsmString_body S HasVariants st); [apply IH | reflexivity].
Qed.

(** C9: for a non-simple asm statement whose template is a string [p],
    analysed without error, followed by a '%' that ends the template,
    [AnalyzeAsmString] returns the invalid-escape diagnostic, with
    [DiagOffs] the offset of that '%' (the length of [p], which a string
    literal keeps below 2^32); the diagnostic and the offset are the value
    returned and the out-parameter, and the loop ends at the turn that
    returns them. *)
Theorem AnalyzeAsmString_trailing_percent (S : GCCAsmStmt) (HasVariants : bool)
    (p : StringRef) :
  AsmStmt_isSimple S = false ->
  AsmStr S = p ++ lit "%" ->
  list_size p < 2 ^ 32 ->
  (exists r, GCCAsmStmt_AnalyzeAsmString (GCCAsmStmt_with_AsmStr S p) HasVariants = Some r /\
             Ret r = None) ->
  exists Ps,
    GCCAsmStmt_AnalyzeAsmString S HasVariants
    = Some (mkAnalyzeResult (Some err_asm_invalid_escape) (Some (list_size p)) Ps).
Proof.
  intros Hsimple HStr Hlen (r & Hp & Hr).
  unfold GCCAsmStmt_AnalyzeAsmString, AsmStmt_isSimple in *.
  cbn [GCCAsmStmt_with_AsmStr IsSimple AsmStr] in Hp.
  rewrite Hsimple in *. rewrite AnalyzeAsmString_while_with_AsmStr in Hp.
  destruct (@AnalyzeAsmString_while_trailing_percent S HasVariants _ _ _ Hp Hr) as [Ps HPs].
  exists Ps. rewrite HStr.
  replace (length (p ++ lit "%")) with (Datatypes.S (length p))
    by (rewrite length_app; cbn [lit list_ascii_of_string length]; lia).
  unfold with_trailing_percent in HPs.
  cbn [CurPtr CurOffs CurStringPiece CurPieces CurDiagOffs] in HPs.
  rewrite HPs. unfold to_unsigned, list_size in *.
  rewrite Z.mod_small by lia. reflexivity.
Qed.

Lemma AnalyzeAsmString_trailing_percent_witness :
  exists Ps,
    GCCAsmStmt_AnalyzeAsmString (asm_foo "mov %0, %%eax %") false
    = Some (mkAnalyzeResult (Some err_asm_invalid_escape)
              (Some (list_size (lit "mov %0, %%eax "))) Ps).
Proof.
  apply (@AnalyzeAsmString_trailing_percent (asm_foo "mov %0, %%eax %") false
           (lit "mov %0, %%eax ")).
  - reflexivity.
  - reflexivity.
  - reflexivity.
  - eexists. split; [vm_compute; reflexivity | reflexivity].
Defined.

(** The template "%" alone: the diagnostic is at offset 0. *)
Example AnalyzeAsmString_trailing_percent_alone :
  exists Ps,
    GCCAsmStmt_AnalyzeAsmString (asm_foo "%") false
    = Some (mkAnalyzeResult (Some err_asm_invalid_escape) (Some 0) Ps).
Proof. eexists. reflexivity. Qed.

(** An earlier error is the one returned: the loop has stopped there. *)
Example AnalyzeAsmString_first_error :
  GCCAsmStmt_AnalyzeAsmString (asm_foo "%9 %") false
  = Some (mkAnalyzeResult (Some err_asm_invalid_operand_number) (Some 1) []).
Proof. reflexivity. Qed.

(** ** C2 and C5: the analysis up to a '%' and from it on *)

Lemma scan_digits_before_percent (rest suffix : StringRef) :
  forall (offs N : Z),
    scan_digits (rest ++ "%"%char :: suffix) offs N
    = let '(N', rest', offs') := scan_digits rest offs N in
      (N', rest' ++ "%"%char :: suffix, offs').
Proof.
  induction rest as [|c rest IH]; intros offs N; [reflexivity|].
  cbn [app scan_digits]. destruct (isDigit c); [apply IH | reflexivity].
Qed.

(** A turn that continues does the same when the string goes on with a
    '%'. *)
Lemma AnalyzeAsmString_operand_before_percent (S : GCCAsmStmt)
    (Modifier EscapedChar : ascii) (rest suffix : StringRef) (offs : Z)
    (Ps : list AsmStringPiece) (DO : option Z) (st' : AnalyzeState) :
  AnalyzeAsmString_operand S Modifier EscapedChar rest offs Ps DO = Continue st' ->
  AnalyzeAsmString_operand S Modifier EscapedChar (rest ++ "%"%char :: suffix) offs Ps DO
  = Continue (with_suffix st' ("%"%char :: suffix)).
Proof.
  unfold AnalyzeAsmString_operand. intros H.
  destruct (isDigit EscapedChar) eqn:Hd.
  - change (EscapedChar :: rest ++ "%"%char :: suffix)
      with ((EscapedChar :: rest) ++ "%"%char :: suffix).
    rewrite scan_digits_before_percent.
    destruct (scan_digits (EscapedChar :: rest) (offs - 1) 0) as [[N rest'] offs'].
    destruct (N >=? AnalyzeAsmString_NumOperands S); [discriminate|].
    injection H as <-. reflexivity.
  - destruct (Ascii.eqb EscapedChar "["); [|discriminate].
    destruct (memchr rest "]") as [k|] eqn:Hm; [|discriminate].
    rewrite (@memchr_app rest ("%"%char :: suffix) _ _ Hm). apply memchr_bound in Hm.
    destruct (Nat.eqb k 0); [discriminate|].
    rewrite firstn_app. replace (k - length rest)%nat with 0%nat by lia.
    cbn [firstn]. rewrite app_nil_r.
    destruct (GCCAsmStmt_getNamedOperand S (firstn k rest) =? -1); [discriminate|].
    injection H as <-. unfold with_suffix. cbn [CurPtr CurOffs CurStringPiece
      CurPieces CurDiagOffs].
    rewrite skipn_app. replace (k + 1 - length rest)%nat with 0%nat by lia.
    reflexivity.
Qed.

Lemma AnalyzeAsmString_body_before_percent (S : GCCAsmStmt) (HasVariants : bool)
    (st st' : AnalyzeState) (suffix : StringRef) :
  AnalyzeAsmString_body S HasVariants st = Continue st' ->
  AnalyzeAsmString_body S HasVariants (with_suffix st ("%"%char :: suffix))
  = Continue (with_suffix st' ("%"%char :: suffix)).
Proof.
  unfold AnalyzeAsmString_body, with_suffix.
  cbn [CurPtr CurOffs CurStringPiece CurPieces CurDiagOffs]. intros H.
  destruct (CurPtr st) as [|CurChar rest1]; [discriminate|]. cbn [app].
  repeat match type of H with
         | (if ?b then _ else _) = _ =>
             destruct b; [ injection H as <-; reflexivity | ]
         end.
  destruct rest1 as [|EscapedChar rest2]; [discriminate|]. cbn [app].
  repeat match type of H with
         | (if Ascii.eqb ?a ?b then _ else _) = _ =>
             destruct (Ascii.eqb a b); [ injection H as <-; reflexivity | ]
         end.
  destruct (isLetter EscapedChar).
  - destruct rest2 as [|EscapedChar' rest3]; [discriminate|]. cbn [app].
    now apply AnalyzeAsmString_operand_before_percent.
  - now apply AnalyzeAsmString_operand_before_percent.
Qed.

(** With the turns it needs, the loop gives the same with more. *)
Lemma AnalyzeAsmString_while_enough_fuel (S : GCCAsmStmt) (HasVariants : bool)
    (st : AnalyzeState) (m m' : nat) :
  (length (CurPtr st) < m)%nat -> (m <= m')%nat ->
  AnalyzeAsmString_while m' S HasVariants st = AnalyzeAsmString_while m S HasVariants st.
Proof.
  intros Hm Hle.
  destruct (@AnalyzeAsmString_while_total S HasVariants m st Hm) as [r Hr].
  rewrite Hr. now apply (@AnalyzeAsmString_while_more_fuel S HasVariants m st r m').
Qed.

(** The analysis of a string that succeeds ends in a state at the end of
    the string; with a '%' and more after the string, the loop reaches
    that state with what follows still to read. *)
Lemma AnalyzeAsmString_while_before_percent (S : GCCAsmStmt) (HasVariants : bool)
    (fuel : nat) :
  forall st r,
    AnalyzeAsmString_while fuel S HasVariants st = Some r -> Ret r = None ->
    exists st_end,
      CurPtr st_end = [] /\
      CurOffs st_end = CurOffs st + list_size (CurPtr st) /\
      Pieces r = flush_piece (CurStringPiece st_end) (CurPieces st_end) /\
      forall (suffix : StringRef) (m : nat),
        (length ("%"%char :: suffix) < m)%nat ->
        AnalyzeAsmString_while (fuel + m) S HasVariants (with_suffix st ("%"%char :: suffix))
        = AnalyzeAsmString_while m S HasVariants (with_suffix st_end ("%"%char :: suffix)).
Proof.
  induction fuel as [|fuel IH]; intros st r H Hr; [discriminate|].
  cbn [AnalyzeAsmString_while] in H.
  destruct (AnalyzeAsmString_body S HasVariants st) as [st'|r0] eqn:Hb.
  - destruct (IH st' r H Hr) as (st_end & Hend & Hoffs & HPs & Hrun).
    pose proof (@AnalyzeAsmString_body_progress S HasVariants st st' Hb) as [_ Hprog].
    exists st_end. split; [exact Hend|]. split; [unfold list_size in *; lia|].
    split; [exact HPs|].
    intros suffix m Hm. cbn [Nat.add AnalyzeAsmString_while].
    rewrite (@AnalyzeAsmString_body_before_percent S HasVariants st st' suffix Hb).
    now apply Hrun.
  - injection H as ->.
    pose proof (@AnalyzeAsmString_body_returns_zero S HasVariants st r Hb Hr) as Hend.
    exists st. split; [exact Hend|].
    split; [rewrite Hend; unfold list_size; cbn [length Z.of_nat]; lia|].
    split.
    + unfold AnalyzeAsmString_body in Hb. rewrite Hend in Hb. now injection Hb as <-.
    + intros suffix m Hm. apply AnalyzeAsmString_while_enough_fuel; [|lia].
      unfold with_suffix. cbn [CurPtr]. now rewrite Hend.
Qed.

(** The analysis of a template [before ++ "%" ++ suffix] whose part
    [before] is analysed without error: the loop comes to the '%' with
    the pieces of [before], the last of them not yet pushed. *)
Lemma AnalyzeAsmString_after_prefix (S : GCCAsmStmt) (HasVariants : bool)
    (before suffix : StringRef) (r_p : AnalyzeResult) :
  AsmStmt_isSimple S = false ->
  AsmStr S = before ++ "%"%char :: suffix ->
  GCCAsmStmt_AnalyzeAsmString (GCCAsmStmt_with_AsmStr S before) HasVariants = Some r_p ->
  Ret r_p = None ->
  exists st,
    CurPtr st = "%"%char :: suffix /\
    CurOffs st = list_size before /\
    flush_piece (CurStringPiece st) (CurPieces st) = Pieces r_p /\
    GCCAsmStmt_AnalyzeAsmString S HasVariants
    = AnalyzeAsmString_while (Datatypes.S (length (CurPtr st))) S HasVariants st.
Proof.
  intros Hsimple HStr Hp Hr.
  unfold GCCAsmStmt_AnalyzeAsmString, AsmStmt_isSimple in *.
  cbn [GCCAsmStmt_with_AsmStr IsSimple AsmStr] in Hp.
  rewrite Hsimple in *. rewrite AnalyzeAsmString_while_with_AsmStr in Hp.
  destruct (@AnalyzeAsmString_while_before_percent S HasVariants _ _ _ Hp Hr)
    as (st_end & Hend & Hoffs & HPs & Hrun).
  cbn [CurOffs CurPtr] in Hoffs.
  exists (with_suffix st_end ("%"%char :: suffix)).
  unfold with_suffix at 1 2 3 4. cbn [CurPtr CurOffs CurStringPiece CurPieces].
  rewrite Hend. cbn [app].
  split; [reflexivity|]. split; [lia|]. split; [now rewrite HPs|].
  rewrite HStr.
  change (mkAnalyzeState (before ++ "%"%char :: suffix) 0 [] [] None)
    with (with_suffix (mkAnalyzeState before 0 [] [] None) ("%"%char :: suffix)).
  set (m := Datatypes.S (length ("%"%char :: suffix))).
  rewrite <- (@AnalyzeAsmString_while_enough_fuel S HasVariants
                (with_suffix (mkAnalyzeState before 0 [] [] None) ("%"%char :: suffix))
                (Datatypes.S (length (before ++ "%"%char :: suffix)))
                (Datatypes.S (length before) + m)).
  - rewrite (Hrun suffix m) by (unfold m; lia). subst m.
    unfold with_suffix. cbn [CurPtr]. rewrite Hend. reflexivity.
  - unfold with_suffix. cbn [CurPtr]. lia.
  - unfold m. rewrite length_app. cbn [length]. lia.
Qed.

(** The pieces are only added to. *)
Lemma AnalyzeAsmString_body_pieces_grow (S : GCCAsmStmt) (HasVariants : bool)
    (st : AnalyzeState) :
  match AnalyzeAsmString_body S HasVariants st with
  | Continue st' => exists more, CurPieces st' = CurPieces st ++ more
  | Return r => exists more, Pieces r = CurPieces st ++ more
  end.
Proof.
  assert (Hflush : forall Cur Ps, exists more, flush_piece Cur Ps = Ps ++ more).
  { intros Cur Ps. destruct Cur; cbn [flush_piece]; eexists;
      [symmetry; apply app_nil_r | reflexivity]. }
  assert (Hop : forall M E rest offs Ps DO,
             (exists more, Ps = CurPieces st ++ more) ->
             match AnalyzeAsmString_operand S M E rest offs Ps DO with
             | Continue st' => exists more, CurPieces st' = CurPieces st ++ more
             | Return r => exists more, Pieces r = CurPieces st ++ more
             end).
  { intros M E rest offs Ps DO [more ->]. unfold AnalyzeAsmString_operand.
    destruct (isDigit E).
    - destruct (scan_digits (E :: rest) (offs - 1) 0) as [[N rest'] offs'].
      destruct (N >=? AnalyzeAsmString_NumOperands S); cbn [Pieces CurPieces];
        [eauto | rewrite <- app_assoc; eauto].
    - destruct (Ascii.eqb E "["); cbn [Pieces]; [|eauto].
      destruct (memchr rest "]") as [k|]; cbn [Pieces]; [|eauto].
      destruct (Nat.eqb k 0); cbn [Pieces]; [eauto|].
      destruct (GCCAsmStmt_getNamedOperand S (firstn k rest) =? -1);
        cbn [Pieces CurPieces]; [eauto | rewrite <- app_assoc; eauto]. }
  unfold AnalyzeAsmString_body.
  destruct (CurPtr st) as [|CurChar rest1]; [cbn [Pieces]; apply Hflush|].
  repeat match goal with
         | |- match (if ?b then _ else _) with _ => _ end =>
             destruct b; [cbn [CurPieces]; exists []; symmetry; apply app_nil_r|]
         end.
  destruct rest1 as [|EscapedChar rest2];
    [cbn [Pieces]; exists []; symmetry; apply app_nil_r|].
  repeat match goal with
         | |- match (if Ascii.eqb ?a ?b then _ else _) with _ => _ end =>
             destruct (Ascii.eqb a b);
             [cbn [CurPieces]; exists []; symmetry; apply app_nil_r|]
         end.
  destruct (isLetter EscapedChar).
  - destruct rest2 as [|EscapedChar' rest3]; [cbn [Pieces]; apply Hflush|].
    apply Hop, Hflush.
  - apply Hop, Hflush.
Qed.

Lemma AnalyzeAsmString_while_pieces_grow (S : GCCAsmStmt) (HasVariants : bool)
    (fuel : nat) :
  forall st r,
    AnalyzeAsmString_while fuel S HasVariants st = Some r ->
    exists more, Pieces r = CurPieces st ++ more.
Proof.
  induction fuel as [|fuel IH]; intros st r H; [discriminate|].
  cbn [AnalyzeAsmString_while] in H.
  pose proof (AnalyzeAsmString_body_pieces_grow S HasVariants st) as Hb.
  destruct (AnalyzeAsmString_body S HasVariants st) as [st'|r'].
  - destruct Hb as [more1 H1]. destruct (IH st' r H) as [more2 H2].
    exists (more1 ++ more2). now rewrite H2, H1, app_assoc.
  - injection H as <-. exact Hb.
Qed.

(** What the loop gives from a state on, by its first turn. *)
Lemma AnalyzeAsmString_while_first_turn (S : GCCAsmStmt) (HasVariants : bool)
    (st : AnalyzeState) :
  match AnalyzeAsmString_body S HasVariants st with
  | Return r =>
      AnalyzeAsmString_while (Datatypes.S (length (CurPtr st))) S HasVariants st = Some r
  | Continue st' =>
      exists r more,
        AnalyzeAsmString_while (Datatypes.S (length (CurPtr st))) S HasVariants st = Some r /\
        Pieces r = CurPieces st' ++ more
  end.
Proof.
  destruct (AnalyzeAsmString_body S HasVariants st) as [st'|r] eqn:Hb.
  - destruct (@AnalyzeAsmString_while_total S HasVariants
                (Datatypes.S (length (CurPtr st))) st ltac:(lia)) as [r Hr].
    pose proof Hr as Hr'. cbn [AnalyzeAsmString_while] in Hr'. rewrite Hb in Hr'.
    destruct (AnalyzeAsmString_while_pieces_grow _ _ _ _ Hr') as [more Hmore].
    exists r, more. split; [exact Hr | exact Hmore].
  - cbn [AnalyzeAsmString_while]. now rewrite Hb.
Qed.

(** C2, as amended: for a non-simple asm statement whose template,
    shorter than 2^32 characters, is a string [before], analysed without
    error, then a '%' (which therefore opens an escape), an optional
    modifier letter, a run of digits whose decimal value [N] fits an
    [unsigned], and the rest, which does not go on with a digit.  The
    number of operands that [N] is compared with is the number of
    outputs, "+"-constrained outputs and inputs, when the counts of the
    statement are those of its [Names] array.  If [N] is not less than
    the number of operands, [AnalyzeAsmString] returns the
    invalid-operand-number diagnostic with [DiagOffs] the offset of the
    last digit of the run, and [Pieces] holds the pieces of [before].  Otherwise the analysis goes on, and [Pieces] holds the
    pieces of [before], then an operand piece with [N] and the modifier,
    then what the rest of the template adds. *)
Theorem AnalyzeAsmString_operand_number (S : GCCAsmStmt) (HasVariants : bool)
    (before : StringRef) (Modifier : option ascii) (digits after : StringRef)
    (r_p : AnalyzeResult) :
  AsmStmt_isSimple S = false ->
  AsmStr S = escape_template before Modifier (digits ++ after) ->
  list_size (AsmStr S) < 2 ^ 32 ->
  GCCAsmStmt_AnalyzeAsmString (GCCAsmStmt_with_AsmStr S before) HasVariants = Some r_p ->
  Ret r_p = None ->
  modifier_ok Modifier ->
  digits <> [] ->
  Forall (fun c => isDigit c = true) digits ->
  match after with
  | c :: _ => isDigit c = false
  | [] => True
  end ->
  decimal_value digits < 2 ^ 32 ->
  let N := decimal_value digits in
  (GCCAsmStmt_wf S ->
   AnalyzeAsmString_NumOperands S
   = NumOutputs S + number_of_plus_outputs S + NumInputs S) /\
  (AnalyzeAsmString_NumOperands S <= N ->
   GCCAsmStmt_AnalyzeAsmString S HasVariants
   = Some (mkAnalyzeResult (Some err_asm_invalid_operand_number)
             (Some (escape_offset before Modifier + list_size digits - 1))
             (Pieces r_p))) /\
  (N < AnalyzeAsmString_NumOperands S ->
   exists r more,
     GCCAsmStmt_AnalyzeAsmString S HasVariants = Some r /\
     Pieces r
     = Pieces r_p ++ AsmStringPiece_Operand N (modifier_char Modifier) :: more).
Proof.
  intros Hsimple HStr Hlen Hp Hr Hok Hne Hd Ha Hfit N.
  split; [apply AnalyzeAsmString_NumOperands_counts|].
  unfold escape_template in HStr. change (lit "%" ++ ?x) with ("%"%char :: x) in HStr.
  destruct (@AnalyzeAsmString_after_prefix S HasVariants before _ r_p Hsimple HStr Hp Hr)
    as (st & HPtr & Hoffs & HPs & Hrun).
  rewrite Hrun.
  pose proof (@AnalyzeAsmString_body_operand_number S HasVariants st Modifier digits after
                HPtr Hok Hne Hd Ha Hfit) as [_ Hbody].
  cbn zeta in Hbody. fold N in Hbody. rewrite HPs, Hoffs in Hbody.
  pose proof (AnalyzeAsmString_while_first_turn S HasVariants st) as Hturn.
  rewrite Hbody in Hturn.
  assert (Hbound : 0 <= escape_offset before Modifier + list_size digits - 1 < 2 ^ 32).
  { rewrite HStr in Hlen. unfold escape_offset, list_size in *.
    rewrite !length_app in Hlen. cbn [length] in Hlen. rewrite !length_app in Hlen.
    destruct digits; [congruence|]. cbn [length] in *. lia. }
  split.
  - intros Hbig.
    replace (N >=? AnalyzeAsmString_NumOperands S) with true in Hturn
      by (symmetry; apply Z.geb_le; lia).
    rewrite Hturn. do 3 f_equal. unfold escape_offset in *.
    unfold to_unsigned. apply Z.mod_small. lia.
  - intros Hsmall.
    replace (N >=? AnalyzeAsmString_NumOperands S) with false in Hturn
      by (symmetry; rewrite Z.geb_leb; apply Z.leb_gt; lia).
    destruct Hturn as (r & more & Hres & Hmore). cbn [CurPieces] in Hmore.
    exists r, more. split; [exact Hres|]. rewrite Hmore, <- app_assoc. reflexivity.
Qed.

Lemma AnalyzeAsmString_operand_number_witness :
  let S := asm_foo "mov %x10, %0" in
  let N := decimal_value (lit "10") in
  (GCCAsmStmt_wf S ->
   AnalyzeAsmString_NumOperands S
   = NumOutputs S + number_of_plus_outputs S + NumInputs S) /\
  (AnalyzeAsmString_NumOperands S <= N ->
   GCCAsmStmt_AnalyzeAsmString S false
   = Some (mkAnalyzeResult (Some err_asm_invalid_operand_number)
             (Some (escape_offset (lit "mov ") (Some "x"%char) + list_size (lit "10") - 1))
             (Pieces (mkAnalyzeResult None None [AsmStringPiece_String (lit "mov ")])))) /\
  (N < AnalyzeAsmString_NumOperands S ->
   exists r more,
     GCCAsmStmt_AnalyzeAsmString S false = Some r /\
     Pieces r
     = Pieces (mkAnalyzeResult None None [AsmStringPiece_String (lit "mov ")])
       ++ AsmStringPiece_Operand N (modifier_char (Some "x"%char)) :: more).
Proof.
  intros S.
  apply (@AnalyzeAsmString_operand_number S false (lit "mov ") (Some "x"%char)
           (lit "10") (lit ", %0")
           (mkAnalyzeResult None None [AsmStringPiece_String (lit "mov ")])).
  - reflexivity.
  - reflexivity.
  - vm_compute. reflexivity.
  - vm_compute. reflexivity.
  - reflexivity.
  - reflexivity.
  - discriminate.
  - repeat constructor.
  - reflexivity.
  - vm_compute. reflexivity.
Defined.

(** The two cases on whole templates: operand 10 of two is refused at
    the offset of its last digit, operand 1 is taken and the analysis
    goes on. *)
Example AnalyzeAsmString_operand_number_cases :
  GCCAsmStmt_AnalyzeAsmString (asm_foo "mov %x10, %0") false
  = Some (mkAnalyzeResult (Some err_asm_invalid_operand_number) (Some 7)
            [AsmStringPiece_String (lit "mov ")]) /\
  GCCAsmStmt_AnalyzeAsmString (asm_foo "mov %x1, %0") false
  = Some (mkAnalyzeResult None None
            [AsmStringPiece_String (lit "mov "); AsmStringPiece_Operand 1 "x";
             AsmStringPiece_String (lit ", "); AsmStringPiece_Operand 0 "000"]).
Proof. split; reflexivity. Qed.

(** C5: for a non-simple asm statement whose counts are those of its
    [Names] array and whose template, shorter than 2^32 characters, is a
    string [before], analysed without error, then a '%' (which therefore
    opens an escape), an optional modifier letter, '[' and the rest.  With no
    ']' in the rest [AnalyzeAsmString] returns the unterminated-name
    diagnostic, and with ']' right after '[' the empty-name diagnostic,
    both at the offset of '['.  Otherwise the name runs to the first ']'
    and is resolved by [getNamedOperand], which finds the first output
    of that name, else the first input of that name, numbered after the
    outputs: with no such operand [AnalyzeAsmString] returns the
    unknown-name diagnostic at the offset of the name, and with one the
    analysis goes on and [Pieces] holds the pieces of [before], then an
    operand piece with the number found and the modifier, then what the
    rest of the template adds.  At each diagnostic [Pieces] holds the
    pieces of [before]. *)
Theorem AnalyzeAsmString_symbolic_operand (S : GCCAsmStmt) (HasVariants : bool)
    (before : StringRef) (Modifier : option ascii) (rest : StringRef)
    (r_p : AnalyzeResult) :
  GCCAsmStmt_wf S ->
  AsmStmt_isSimple S = false ->
  AsmStr S = escape_template before Modifier (lit "[" ++ rest) ->
  list_size (AsmStr S) < 2 ^ 32 ->
  GCCAsmStmt_AnalyzeAsmString (GCCAsmStmt_with_AsmStr S before) HasVariants = Some r_p ->
  Ret r_p = None ->
  modifier_ok Modifier ->
  let bracket := escape_offset before Modifier in
  let diagnosed d offs :=
    GCCAsmStmt_AnalyzeAsmString S HasVariants
    = Some (mkAnalyzeResult (Some d) (Some offs) (Pieces r_p)) in
  (~ In "]"%char rest ->
     diagnosed err_asm_unterminated_symbolic_operand_name bracket) /\
  (forall tail, rest = lit "]" ++ tail ->
     diagnosed err_asm_empty_symbolic_operand_name bracket) /\
  (forall name tail,
     rest = name ++ lit "]" ++ tail -> name <> [] -> ~ In "]"%char name ->
     GCCAsmStmt_getNamedOperand S name
     = match resolve_symbolic_name S name with
       | Some N => N
       | None => -1
       end /\
     match resolve_symbolic_name S name with
     | None => diagnosed err_asm_unknown_symbolic_operand_name (bracket + 1)
     | Some N =>
         exists r more,
           GCCAsmStmt_AnalyzeAsmString S HasVariants = Some r /\
           Pieces r
           = Pieces r_p ++ AsmStringPiece_Operand N (modifier_char Modifier) :: more
     end).
Proof.
  intros Hwf Hsimple HStr Hlen Hp Hr Hok bracket diagnosed.
  unfold escape_template in HStr. change (lit "%" ++ ?x) with ("%"%char :: x) in HStr.
  destruct (@AnalyzeAsmString_after_prefix S HasVariants before _ r_p Hsimple HStr Hp Hr)
    as (st & HPtr & Hoffs & HPs & Hrun).
  pose proof (@AnalyzeAsmString_body_symbolic_operand S HasVariants st Modifier rest
                Hwf HPtr Hok) as (Hunterminated & Hempty & Hname).
  cbn zeta in Hunterminated, Hempty, Hname.
  rewrite HPs, Hoffs in Hunterminated, Hempty, Hname.
  fold (escape_offset before Modifier) in Hunterminated, Hempty, Hname.
  fold bracket in Hunterminated, Hempty, Hname.
  pose proof (AnalyzeAsmString_while_first_turn S HasVariants st) as Hturn.
  assert (Hbound : 0 <= bracket /\ bracket + 1 < 2 ^ 32).
  { rewrite HStr in Hlen. unfold bracket, escape_offset, list_size in *.
    rewrite !length_app in Hlen. cbn [length] in Hlen. rewrite !length_app in Hlen.
    cbn [lit list_ascii_of_string length] in Hlen. lia. }
  assert (Hu : forall o, 0 <= o < 2 ^ 32 -> to_unsigned o = o)
    by (intros o Ho; unfold to_unsigned; now apply Z.mod_small).
  unfold diagnosed. rewrite Hrun. split; [|split].
  - intros Hno. rewrite (Hunterminated Hno) in Hturn. rewrite Hturn, Hu by lia.
    reflexivity.
  - intros tail Ht. rewrite (Hempty tail Ht) in Hturn. rewrite Hturn, Hu by lia.
    reflexivity.
  - intros name tail Hrest Hne Hno.
    destruct (Hname name tail Hrest Hne Hno) as [Hres Hbody].
    split; [exact Hres|]. rewrite Hbody in Hturn.
    destruct (resolve_symbolic_name S name) as [N|].
    + destruct Hturn as (r & more & Hret & Hmore). cbn [CurPieces] in Hmore.
      exists r, more. split; [exact Hret|]. rewrite Hmore, <- app_assoc. reflexivity.
    + rewrite Hturn, Hu by lia. reflexivity.
Qed.

Lemma AnalyzeAsmString_symbolic_operand_witness :
  let S := asm_foo "add %[foo], 1" in
  let r_p := mkAnalyzeResult None None [AsmStringPiece_String (lit "add ")] in
  let bracket := escape_offset (lit "add ") None in
  let diagnosed d offs :=
    GCCAsmStmt_AnalyzeAsmString S false
    = Some (mkAnalyzeResult (Some d) (Some offs) (Pieces r_p)) in
  (~ In "]"%char (lit "foo], 1") ->
     diagnosed err_asm_unterminated_symbolic_operand_name bracket) /\
  (forall tail, lit "foo], 1" = lit "]" ++ tail ->
     diagnosed err_asm_empty_symbolic_operand_name bracket) /\
  (forall name tail,
     lit "foo], 1" = name ++ lit "]" ++ tail -> name <> [] -> ~ In "]"%char name ->
     GCCAsmStmt_getNamedOperand S name
     = match resolve_symbolic_name S name with
       | Some N => N
       | None => -1
       end /\
     match resolve_symbolic_name S name with
     | None => diagnosed err_asm_unknown_symbolic_operand_name (bracket + 1)
     | Some N =>
         exists r more,
           GCCAsmStmt_AnalyzeAsmString S false = Some r /\
           Pieces r
           = Pieces r_p ++ AsmStringPiece_Operand N (modifier_char None) :: more
     end).
Proof.
  intros S r_p.
  apply (@AnalyzeAsmString_symbolic_operand S false (lit "add ") None (lit "foo], 1") r_p).
  - unfold GCCAsmStmt_wf, list_size. vm_compute.
    repeat split; try reflexivity; discriminate.
  - reflexivity.
  - reflexivity.
  - vm_compute. reflexivity.
  - vm_compute. reflexivity.
  - reflexivity.
  - simpl. exact I.
Defined.

(** The four outcomes on whole templates. *)
Example AnalyzeAsmString_symbolic_operand_cases :
  GCCAsmStmt_AnalyzeAsmString (asm_foo "add %[foo], 1") false
  = Some (mkAnalyzeResult None (Some 5)
            [AsmStringPiece_String (lit "add "); AsmStringPiece_Operand 0 "000";
             AsmStringPiece_String (lit ", 1")]) /\
  GCCAsmStmt_AnalyzeAsmString (asm_foo "add %[foo, 1") false
  = Some (mkAnalyzeResult (Some err_asm_unterminated_symbolic_operand_name) (Some 5)
            [AsmStringPiece_String (lit "add ")]) /\
  GCCAsmStmt_AnalyzeAsmString (asm_foo "add %[], 1") false
  = Some (mkAnalyzeResult (Some err_asm_empty_symbolic_operand_name) (Some 5)
            [AsmStringPiece_String (lit "add ")]) /\
  GCCAsmStmt_AnalyzeAsmString (asm_foo "add %[bar], 1") false
  = Some (mkAnalyzeResult (Some err_asm_unknown_symbolic_operand_name) (Some 6)
            [AsmStringPiece_String (lit "add ")]).
Proof. repeat split. Qed.

(* ================================================================= *)
(** * Part III: further properties of the code *)
(* ================================================================= *)

(** ** Simple asm strings *)

Lemma AnalyzeAsmString_simple_acc (rest : StringRef) :
  forall Result,
    AnalyzeAsmString_simple rest Result
    = Result ++ flat_map (fun c => if Ascii.eqb c "$"%char then lit "$$" else [c]) rest.
Proof.
  induction rest as [|c rest IH]; intros Result; cbn [AnalyzeAsmString_simple flat_map].
  - now rewrite app_nil_r.
  - rewrite IH. destruct (Ascii.eqb c "$"); now rewrite <- app_assoc.
Qed.

Lemma undouble_dollars_doubled (s : StringRef) :
  undouble_dollars (flat_map (fun c => if Ascii.eqb c "$"%char then lit "$$" else [c]) s)
  = s.
Proof.
  induction s as [|c s IH]; [reflexivity|]. cbn [flat_map].
  destruct (Ascii.eqb c "$") eqn:E.
  - apply Ascii.eqb_eq in E. subst c.
    change (undouble_dollars (lit "$$" ++ ?t)) with ("$"%char :: undouble_dollars t).
    now rewrite IH.
  - cbn [app undouble_dollars]. rewrite E. now rewrite IH.
Qed.

(** X1: on a simple asm statement the analysis never reports an error and
    does not write [DiagOffs]; it gives one string piece, the template with
    every '$' doubled, whatever the target; reading each "$$" back as '$'
    gives the template again, and the piece is longer than the template by
    the number of its '$'. *)
Theorem AnalyzeAsmString_simple_roundtrip (S : GCCAsmStmt) (HasVariants : bool) :
  AsmStmt_isSimple S = true ->
  exists Result,
    GCCAsmStmt_AnalyzeAsmString S HasVariants
    = Some (mkAnalyzeResult None None [AsmStringPiece_String Result]) /\
    undouble_dollars Result = AsmStr S /\
    length Result
    = (length (AsmStr S) + count_occ ascii_dec (AsmStr S) "$"%char)%nat /\
    GCCAsmStmt_generateAsmString S HasVariants = Some Result.
Proof.
  intros Hs. unfold GCCAsmStmt_generateAsmString, GCCAsmStmt_AnalyzeAsmString.
  rewrite Hs. eexists. split; [reflexivity|].
  rewrite AnalyzeAsmString_simple_acc. cbn [app].
  split; [apply undouble_dollars_doubled|]. split.
  - induction (AsmStr S) as [|c s IH]; [reflexivity|].
    cbn [flat_map count_occ length]. rewrite length_app, IH.
    destruct (ascii_dec c "$") as [->|Hc].
    + cbn. lia.
    + destruct (Ascii.eqb_spec c "$"); [contradiction|]. cbn [length]. lia.
  - cbn [Pieces fold_left generateAsmString_piece app]. reflexivity.
Qed.

Lemma AnalyzeAsmString_simple_roundtrip_witness :
  exists Result,
    GCCAsmStmt_AnalyzeAsmString (asm_simple "mov $eax, %0") true
    = Some (mkAnalyzeResult None None [AsmStringPiece_String Result]) /\
    undouble_dollars Result = AsmStr (asm_simple "mov $eax, %0") /\
    length Result
    = (length (AsmStr (asm_simple "mov $eax, %0"))
       + count_occ ascii_dec (AsmStr (asm_simple "mov $eax, %0")) "$"%char)%nat /\
    GCCAsmStmt_generateAsmString (asm_simple "mov $eax, %0") true = Some Result.
Proof.
  apply (@AnalyzeAsmString_simple_roundtrip (asm_simple "mov $eax, %0") true).
  reflexivity.
Defined.

(** ** Templates without '%' *)

Lemma AnalyzeAsmString_body_literal (S : GCCAsmStmt) (HasVariants : bool)
    (st : AnalyzeState) (CurChar : ascii) (rest : StringRef) :
  CurPtr st = CurChar :: rest -> CurChar <> "%"%char ->
  AnalyzeAsmString_body S HasVariants st
  = Continue (mkAnalyzeState rest (CurOffs st + 1)
                (CurStringPiece st ++ AnalyzeAsmString_literal HasVariants CurChar)
                (CurPieces st) (CurDiagOffs st)).
Proof.
  intros HPtr Hc. unfold AnalyzeAsmString_body, AnalyzeAsmString_literal. rewrite HPtr.
  destruct (Ascii.eqb CurChar "$"); [reflexivity|].
  destruct (Ascii.eqb CurChar "{"); [reflexivity|].
  destruct (Ascii.eqb CurChar "|"); [reflexivity|].
  destruct (Ascii.eqb CurChar "}"); [reflexivity|].
  destruct (Ascii.eqb_spec CurChar "%"); [contradiction | reflexivity].
Qed.

Lemma AnalyzeAsmString_while_literal (S : GCCAsmStmt) (HasVariants : bool) (fuel : nat) :
  forall st,
    ~ In "%"%char (CurPtr st) -> (length (CurPtr st) < fuel)%nat ->
    AnalyzeAsmString_while fuel S HasVariants st
    = Some (mkAnalyzeResult None (CurDiagOffs st)
              (flush_piece
                 (CurStringPiece st
                  ++ flat_map (AnalyzeAsmString_literal HasVariants) (CurPtr st))
                 (CurPieces st))).
Proof.
  induction fuel as [|fuel IH]; intros st Hno Hlen; [lia|].
  cbn [AnalyzeAsmString_while].
  destruct (CurPtr st) as [|c rest] eqn:HPtr.
  - unfold AnalyzeAsmString_body. rewrite HPtr. cbn [flat_map]. now rewrite app_nil_r.
  - rewrite (@AnalyzeAsmString_body_literal S HasVariants st c rest HPtr)
      by (intros ->; apply Hno; now left).
    rewrite IH; cbn [CurPtr CurOffs CurStringPiece CurPieces CurDiagOffs].
    + cbn [flat_map]. now rewrite <- app_assoc.
    + intros Hin. apply Hno. now right.
    + cbn [length] in Hlen. lia.
Qed.

(** X2: on a non-simple asm statement whose template has no '%', the
    analysis returns 0 without writing [DiagOffs]; the pieces are one
    string piece, the template with '$' doubled and, on a target with asm
    variants, '{', '|', '}' written "$(", "$|", "$)", or no piece at all
    when the template is empty; [generateAsmString] gives that string. *)
Theorem AnalyzeAsmString_without_percent (S : GCCAsmStmt) (HasVariants : bool) :
  AsmStmt_isSimple S = false ->
  ~ In "%"%char (AsmStr S) ->
  let text := flat_map (AnalyzeAsmString_literal HasVariants) (AsmStr S) in
  GCCAsmStmt_AnalyzeAsmString S HasVariants
  = Some (mkAnalyzeResult None None (flush_piece text [])) /\
  (AsmStr S = [] -> flush_piece text [] = []) /\
  (AsmStr S <> [] -> flush_piece text [] = [AsmStringPiece_String text]) /\
  GCCAsmStmt_generateAsmString S HasVariants = Some text.
Proof.
  intros Hs Hno text.
  assert (HA : GCCAsmStmt_AnalyzeAsmString S HasVariants
               = Some (mkAnalyzeResult None None (flush_piece text []))).
  { unfold GCCAsmStmt_AnalyzeAsmString. rewrite Hs.
    rewrite AnalyzeAsmString_while_literal; cbn [CurPtr]; [reflexivity | exact Hno | lia]. }
  split; [exact HA|]. split; [|split].
  - intros HE. unfold text. now rewrite HE.
  - intros HE. unfold text. destruct (AsmStr S) as [|c s]; [congruence|].
    cbn [flat_map]. unfold AnalyzeAsmString_literal.
    destruct (Ascii.eqb c "$"); [reflexivity|].
    destruct (Ascii.eqb c "{"); [destruct HasVariants; reflexivity|].
    destruct (Ascii.eqb c "|"); [destruct HasVariants; reflexivity|].
    destruct (Ascii.eqb c "}"); [destruct HasVariants; reflexivity|]. reflexivity.
  - unfold GCCAsmStmt_generateAsmString. rewrite HA. cbn [Pieces].
    destruct text; reflexivity.
Qed.

Lemma AnalyzeAsmString_without_percent_witness :
  let S := asm_foo "a{b|c}$" in
  let text := flat_map (AnalyzeAsmString_literal true) (AsmStr S) in
  GCCAsmStmt_AnalyzeAsmString S true
  = Some (mkAnalyzeResult None None (flush_piece text [])) /\
  (AsmStr S = [] -> flush_piece text [] = []) /\
  (AsmStr S <> [] -> flush_piece text [] = [AsmStringPiece_String text]) /\
  GCCAsmStmt_generateAsmString S true = Some text.
Proof.
  intros S.
  apply (@AnalyzeAsmString_without_percent S true).
  - reflexivity.
  - simpl. intros H. repeat (destruct H as [H|H]; [discriminate H|]). exact H.
Defined.

Example generateAsmString_variants :
  GCCAsmStmt_generateAsmString (asm_foo "a{b|c}$") true = Some (lit "a$(b$|c$)$$") /\
  GCCAsmStmt_generateAsmString (asm_foo "a{b|c}$") false = Some (lit "a{b|c}$$") /\
  GCCAsmStmt_generateAsmString (asm_foo "%0 = %x1%%%=") false
  = Some (lit "$0 = ${1:x}%${:uid}").
Proof. repeat split. Qed.

(** ** The pieces and the offsets of the analysis *)

Lemma scan_digits_nonneg (rest : StringRef) :
  forall (offs N N' : Z) (rest' : StringRef) (offs' : Z),
    scan_digits rest offs N = (N', rest', offs') -> 0 <= N -> 0 <= N'.
Proof.
  induction rest as [|c rest IH]; intros offs N N' rest' offs' H HN; cbn [scan_digits] in H.
  - now injection H as <- _ _.
  - destruct (isDigit c).
    + eapply IH; [exact H|]. unfold to_unsigned. apply Z.mod_pos_bound. lia.
    + now injection H as <- _ _.
Qed.

Lemma flush_piece_ok (S : GCCAsmStmt) (Cur : StringRef) (Ps : list AsmStringPiece) :
  Forall (AsmStringPiece_ok S) Ps -> Forall (AsmStringPiece_ok S) (flush_piece Cur Ps).
Proof.
  intros H. destruct Cur as [|c Cur]; [exact H|]. cbn [flush_piece].
  apply Forall_app. split; [exact H|]. constructor; [discriminate | constructor].
Qed.

Lemma AnalyzeAsmString_operand_pieces_ok (S : GCCAsmStmt) (Modifier EscapedChar : ascii)
    (rest : StringRef) (offs : Z) (Ps : list AsmStringPiece) (DO : option Z) :
  GCCAsmStmt_wf S ->
  Forall (AsmStringPiece_ok S) Ps ->
  match AnalyzeAsmString_operand S Modifier EscapedChar rest offs Ps DO with
  | Continue st' => Forall (AsmStringPiece_ok S) (CurPieces st')
  | Return r => Forall (AsmStringPiece_ok S) (Pieces r)
  end.
Proof.
  intros Hwf HPs. unfold AnalyzeAsmString_operand.
  destruct (isDigit EscapedChar).
  - destruct (scan_digits (EscapedChar :: rest) (offs - 1) 0) as [[N rest'] offs'] eqn:Hs.
    apply scan_digits_nonneg in Hs; [|lia].
    destruct (N >=? AnalyzeAsmString_NumOperands S) eqn:HN; [exact HPs|].
    cbn [CurPieces]. apply Forall_app. split; [exact HPs|].
    constructor; [|constructor]. cbn [AsmStringPiece_ok].
    rewrite Z.geb_leb in HN. apply Z.leb_gt in HN. lia.
  - destruct (Ascii.eqb EscapedChar "["); [|exact HPs].
    destruct (memchr rest "]") as [k|]; [|exact HPs].
    destruct (Nat.eqb k 0); [exact HPs|].
    destruct (GCCAsmStmt_getNamedOperand_resolves (firstn k rest) Hwf) as [Hres Hrange].
    destruct (GCCAsmStmt_getNamedOperand S (firstn k rest) =? -1) eqn:HN; [exact HPs|].
    cbn [CurPieces]. apply Forall_app. split; [exact HPs|].
    constructor; [|constructor]. cbn [AsmStringPiece_ok].
    apply Z.eqb_neq in HN. rewrite Hres in *.
    destruct (resolve_symbolic_name S (firstn k rest)) as [n|]; [|congruence].
    specialize (Hrange n eq_refl).
    rewrite (AnalyzeAsmString_NumOperands_counts Hwf).
    destruct Hwf as (HO & HI & Hsum & _).
    unfold to_unsigned. rewrite Z.mod_small by lia.
    unfold number_of_plus_outputs. lia.
Qed.

Lemma AnalyzeAsmString_body_pieces_ok (S : GCCAsmStmt) (HasVariants : bool)
    (st : AnalyzeState) :
  GCCAsmStmt_wf S ->
  Forall (AsmStringPiece_ok S) (CurPieces st) ->
  match AnalyzeAsmString_body S HasVariants st with
  | Continue st' => Forall (AsmStringPiece_ok S) (CurPieces st')
  | Return r => Forall (AsmStringPiece_ok S) (Pieces r)
  end.
Proof.
  intros Hwf HPs. unfold AnalyzeAsmString_body.
  destruct (CurPtr st) as [|CurChar rest1]; [now apply flush_piece_ok|].
  repeat match goal with
         | |- match (if ?b then _ else _) with _ => _ end => destruct b; [exact HPs|]
         end.
  destruct rest1 as [|EscapedChar rest2]; [exact HPs|].
  repeat match goal with
         | |- match (if Ascii.eqb ?a ?b then _ else _) with _ => _ end =>
             destruct (Ascii.eqb a b); [exact HPs|]
         end.
  destruct (isLetter EscapedChar).
  - destruct rest2 as [|EscapedChar' rest3]; [now apply flush_piece_ok|].
    apply AnalyzeAsmString_operand_pieces_ok; [exact Hwf | now apply flush_piece_ok].
  - apply AnalyzeAsmString_operand_pieces_ok; [exact Hwf | now apply flush_piece_ok].
Qed.

(** X3: on a non-simple asm statement whose counts are those of its
    operand arrays, every piece that the analysis leaves in [Pieces], on
    success and on error alike, is a non-empty string or an operand whose
    number is below the number of operands: a symbolic name never resolves
    to a number that a numeric reference would be refused. *)
Theorem AnalyzeAsmString_pieces_ok (S : GCCAsmStmt) (HasVariants : bool)
    (r : AnalyzeResult) :
  GCCAsmStmt_wf S ->
  AsmStmt_isSimple S = false ->
  GCCAsmStmt_AnalyzeAsmString S HasVariants = Some r ->
  Forall (AsmStringPiece_ok S) (Pieces r).
Proof.
  intros Hwf Hs. unfold GCCAsmStmt_AnalyzeAsmString. rewrite Hs.
  generalize (Datatypes.S (length (AsmStr S))) as fuel.
  assert (H0 : Forall (AsmStringPiece_ok S) (CurPieces (mkAnalyzeState (AsmStr S) 0 [] [] None)))
    by constructor.
  revert H0. generalize (mkAnalyzeState (AsmStr S) 0 [] [] None) as st.
  intros st H0 fuel. revert st H0.
  induction fuel as [|fuel IH]; intros st H0 H; [discriminate|].
  cbn [AnalyzeAsmString_while] in H.
  pose proof (@AnalyzeAsmString_body_pieces_ok S HasVariants st Hwf H0) as Hb.
  destruct (AnalyzeAsmString_body S HasVariants st) as [st'|r'].
  - now apply (IH st').
  - now injection H as <-.
Qed.

Lemma AnalyzeAsmString_pieces_ok_witness :
  Forall (AsmStringPiece_ok (asm_plus "a %[bar]%2 %x0 %7"))
    (Pieces (mkAnalyzeResult (Some err_asm_invalid_operand_number) (Some 16)
               [AsmStringPiece_String (lit "a "); AsmStringPiece_Operand 1 "000";
                AsmStringPiece_Operand 2 "000"; AsmStringPiece_String (lit " ");
                AsmStringPiece_Operand 0 "x"; AsmStringPiece_String (lit " ")])).
Proof.
  apply (@AnalyzeAsmString_pieces_ok (asm_plus "a %[bar]%2 %x0 %7") false).
  - unfold GCCAsmStmt_wf, list_size. vm_compute.
    repeat split; try reflexivity; discriminate.
  - reflexivity.
  - vm_compute. reflexivity.
Defined.

Lemma AnalyzeAsmString_operand_error_offset (S : GCCAsmStmt) (Modifier EscapedChar : ascii)
    (rest : StringRef) (offs : Z) (Ps : list AsmStringPiece) (DO : option Z)
    (r : AnalyzeResult) :
  AnalyzeAsmString_operand S Modifier EscapedChar rest offs Ps DO = Return r ->
  exists o, DiagOffs r = Some (to_unsigned o) /\
            offs - 1 <= o < offs + Z.of_nat (length rest).
Proof.
  unfold AnalyzeAsmString_operand. intros H.
  destruct (isDigit EscapedChar) eqn:Hd.
  - destruct (scan_digits (EscapedChar :: rest) (offs - 1) 0) as [[N rest'] offs'] eqn:Hs.
    cbn [scan_digits] in Hs. rewrite Hd in Hs. apply scan_digits_rest in Hs.
    destruct (N >=? AnalyzeAsmString_NumOperands S); [|discriminate].
    injection H as <-. exists (offs' - 1). cbn [DiagOffs]. split; [reflexivity | lia].
  - destruct (Ascii.eqb EscapedChar "[").
    + destruct (memchr rest "]") as [k|] eqn:Hm.
      * destruct (Nat.eqb k 0).
        -- injection H as <-. exists (offs - 1). cbn [DiagOffs]. split; [reflexivity | lia].
        -- destruct (GCCAsmStmt_getNamedOperand S (firstn k rest) =? -1); [|discriminate].
           injection H as <-. exists offs. cbn [DiagOffs]. apply memchr_bound in Hm.
           split; [reflexivity | lia].
      * injection H as <-. exists (offs - 1). cbn [DiagOffs]. split; [reflexivity | lia].
    + injection H as <-. exists (offs - 1). cbn [DiagOffs]. split; [reflexivity | lia].
Qed.

Lemma AnalyzeAsmString_body_error_offset (S : GCCAsmStmt) (HasVariants : bool)
    (st : AnalyzeState) (r : AnalyzeResult) (d : diag) :
  AnalyzeAsmString_body S HasVariants st = Return r -> Ret r = Some d ->
  exists o, DiagOffs r = Some (to_unsigned o) /\
            CurOffs st <= o < CurOffs st + Z.of_nat (length (CurPtr st)).
Proof.
  unfold AnalyzeAsmString_body. intros H Hd.
  destruct (CurPtr st) as [|CurChar rest1].
  { injection H as <-. discriminate Hd. }
  repeat match type of H with
         | (if ?b then _ else _) = _ => destruct b; [discriminate H|]
         end.
  destruct rest1 as [|EscapedChar rest2].
  { injection H as <-. exists (CurOffs st). cbn [DiagOffs length].
    split; [f_equal; f_equal; lia | lia]. }
  repeat match type of H with
         | (if Ascii.eqb ?a ?b then _ else _) = _ =>
             destruct (Ascii.eqb a b); [discriminate H|]
         end.
  destruct (isLetter EscapedChar).
  - destruct rest2 as [|EscapedChar' rest3].
    + injection H as <-. exists (CurOffs st + 1). cbn [DiagOffs length].
      split; [f_equal; f_equal; lia | lia].
    + apply AnalyzeAsmString_operand_error_offset in H. destruct H as (o & Ho & Hr).
      exists o. split; [exact Ho|]. cbn [length]. lia.
  - apply AnalyzeAsmString_operand_error_offset in H. destruct H as (o & Ho & Hr).
    exists o. split; [exact Ho|]. cbn [length]. lia.
Qed.

Lemma AnalyzeAsmString_while_error_offset (S : GCCAsmStmt) (HasVariants : bool)
    (fuel : nat) :
  forall (st : AnalyzeState) (r : AnalyzeResult) (d : diag),
    AnalyzeAsmString_while fuel S HasVariants st = Some r -> Ret r = Some d ->
    exists o, DiagOffs r = Some (to_unsigned o) /\
              CurOffs st <= o < CurOffs st + Z.of_nat (length (CurPtr st)).
Proof.
  induction fuel as [|fuel IH]; intros st r d H Hd; [discriminate|].
  cbn [AnalyzeAsmString_while] in H.
  destruct (AnalyzeAsmString_body S HasVariants st) as [st'|r'] eqn:Hb.
  - apply AnalyzeAsmString_body_progress in Hb.
    destruct (IH st' r d H Hd) as (o & Ho & Hr). exists o. split; [exact Ho | lia].
  - injection H as <-.
    exact (@AnalyzeAsmString_body_error_offset S HasVariants st r' d Hb Hd).
Qed.

(** X4: whenever the analysis of a template shorter than 2^32 characters
    returns a diagnostic, [DiagOffs] has been written and is the offset of
    a character of the template: 0 <= DiagOffs < length. An error implies
    that the statement is not simple and that the template has a '%'. *)
Theorem AnalyzeAsmString_error_offset_in_template (S : GCCAsmStmt) (HasVariants : bool)
    (r : AnalyzeResult) (d : diag) :
  Z.of_nat (length (AsmStr S)) < 2 ^ 32 ->
  GCCAsmStmt_AnalyzeAsmString S HasVariants = Some r ->
  Ret r = Some d ->
  AsmStmt_isSimple S = false /\ In "%"%char (AsmStr S) /\
  exists o, DiagOffs r = Some o /\ 0 <= o < Z.of_nat (length (AsmStr S)).
Proof.
  intros Hlen H Hd.
  destruct (AsmStmt_isSimple S) eqn:Hs.
  { unfold GCCAsmStmt_AnalyzeAsmString in H. rewrite Hs in H.
    injection H as <-. discriminate Hd. }
  split; [reflexivity|]. split.
  - destruct (in_dec ascii_dec "%"%char (AsmStr S)) as [Hin|Hno]; [exact Hin|].
    unfold GCCAsmStmt_AnalyzeAsmString in H. rewrite Hs in H.
    rewrite AnalyzeAsmString_while_literal in H; cbn [CurPtr]; [|exact Hno|lia].
    injection H as <-. discriminate Hd.
  - unfold GCCAsmStmt_AnalyzeAsmString in H. rewrite Hs in H.
    destruct (@AnalyzeAsmString_while_error_offset S HasVariants _ _ r d H Hd)
      as (o & Ho & Hr).
    cbn [CurOffs CurPtr] in Hr. exists o. split; [|lia].
    rewrite Ho. unfold to_unsigned. rewrite Z.mod_small; [reflexivity | lia].
Qed.

Lemma AnalyzeAsmString_error_offset_in_template_witness :
  AsmStmt_isSimple (asm_foo "ab %[foo] %q") = false /\
  In "%"%char (AsmStr (asm_foo "ab %[foo] %q")) /\
  exists o, DiagOffs (mkAnalyzeResult (Some err_asm_invalid_escape) (Some 11)
                        [AsmStringPiece_String (lit "ab "); AsmStringPiece_Operand 0 "000";
                         AsmStringPiece_String (lit " ")]) = Some o /\
            0 <= o < Z.of_nat (length (AsmStr (asm_foo "ab %[foo] %q"))).
Proof.
  apply (@AnalyzeAsmString_error_offset_in_template (asm_foo "ab %[foo] %q") false _
           err_asm_invalid_escape).
  - vm_compute. reflexivity.
  - vm_compute. reflexivity.
  - reflexivity.
Defined.

(** X5: [getNumPlusOperands] is the number of outputs whose constraint
    starts with '+'; it never exceeds [getNumOutputs], so the number of
    operands that a template may refer to lies between outputs + inputs
    and twice the outputs + inputs. *)
Theorem AsmStmt_getNumPlusOperands_counts (S : GCCAsmStmt) :
  GCCAsmStmt_wf S ->
  AsmStmt_getNumPlusOperands S = number_of_plus_outputs S /\
  0 <= AsmStmt_getNumPlusOperands S <= AsmStmt_getNumOutputs S /\
  AsmStmt_getNumOutputs S + AsmStmt_getNumInputs S
  <= AnalyzeAsmString_NumOperands S
  <= 2 * AsmStmt_getNumOutputs S + AsmStmt_getNumInputs S.
Proof.
  intros Hwf. pose proof (AnalyzeAsmString_NumOperands_counts Hwf) as HN.
  destruct Hwf as (HO & HI & Hsum & _).
  assert (HP : AsmStmt_getNumPlusOperands S = number_of_plus_outputs S).
  { unfold AsmStmt_getNumPlusOperands, AsmStmt_getNumOutputs, number_of_plus_outputs.
    pose proof (@getNumPlusOperands_loop_counts S (Z.to_nat (NumOutputs S)) 0 0) as H.
    cbn [Z.of_nat skipn] in H. rewrite H by lia. lia. }
  assert (HB : 0 <= number_of_plus_outputs S <= NumOutputs S).
  { unfold number_of_plus_outputs.
    pose proof (filter_length_le
      (fun cs : list ascii => match cs with c :: _ => Ascii.eqb c "+" | [] => false end)
      (firstn (Z.to_nat (NumOutputs S)) (Constraints S))) as Hf.
    rewrite length_firstn in Hf. lia. }
  rewrite HN, HP. unfold AsmStmt_getNumOutputs, AsmStmt_getNumInputs. lia.
Qed.

Lemma AsmStmt_getNumPlusOperands_counts_witness :
  let S := asm_plus "%2" in
  AsmStmt_getNumPlusOperands S = number_of_plus_outputs S /\
  0 <= AsmStmt_getNumPlusOperands S <= AsmStmt_getNumOutputs S /\
  AsmStmt_getNumOutputs S + AsmStmt_getNumInputs S
  <= AnalyzeAsmString_NumOperands S
  <= 2 * AsmStmt_getNumOutputs S + AsmStmt_getNumInputs S.
Proof.
  intros S. apply (@AsmStmt_getNumPlusOperands_counts S).
  unfold GCCAsmStmt_wf, list_size. vm_compute.
  repeat split; try reflexivity; discriminate.
Defined.

(** ** The statistics *)

Section StmtStatistics.

Variables Storage ChildRange : Type.
Variable StmtNodes : list (StmtNode Storage ChildRange).

Lemma to_unsigned_add_l (x y : Z) : to_unsigned (to_unsigned x + y) = to_unsigned (x + y).
Proof. unfold to_unsigned. now rewrite Zplus_mod_idemp_l. Qed.

Lemma PrintStats_total_named (a : list StmtClassNameTable) :
  forall x, PrintStats_total a (to_unsigned x) = to_unsigned (x + named_counters a).
Proof.
  induction a as [|e a IH]; intros x; cbn [PrintStats_total named_counters].
  - now rewrite Z.add_0_r.
  - destruct (Name e).
    + rewrite to_unsigned_add_l, IH. f_equal. lia.
    + apply IH.
Qed.

Lemma named_counters_update (s : nat) (f : StmtClassNameTable -> StmtClassNameTable)
    (a : list StmtClassNameTable) (e : StmtClassNameTable) :
  (forall x, Name (f x) = Name x) ->
  nth_error a s = Some e ->
  named_counters (table_update s f a)
  = named_counters a + match Name e with
                       | Some _ => Counter (f e) - Counter e
                       | None => 0
                       end.
Proof.
  intros Hf. revert s. induction a as [|x a IH]; intros [|s] H;
    cbn [nth_error table_update named_counters] in *; try discriminate.
  - injection H as ->. rewrite Hf. destruct (Name e); lia.
  - rewrite (IH s H). destruct (Name x); lia.
Qed.

(** The table once primed does not depend on the tag asked for. *)
Lemma getStmtInfoTableEntry_primed (E : nat) (st : StmtStatics) :
  Initialized st = true -> fst (getStmtInfoTableEntry StmtNodes E st) = st.
Proof. intros H. unfold getStmtInfoTableEntry. now rewrite H. Qed.

Lemma getStmtInfoTableEntry_any_tag (E E' : nat) (st : StmtStatics) :
  fst (getStmtInfoTableEntry StmtNodes E st) = fst (getStmtInfoTableEntry StmtNodes E' st).
Proof. reflexivity. Qed.

Lemma Stmt_addStmtClass_table (s : nat) (st : StmtStatics) :
  Stmt_addStmtClass StmtNodes s st
  = mkStmtStatics (Initialized (fst (getStmtInfoTableEntry StmtNodes s st)))
      (table_update s
         (fun e => mkStmtClassNameTable (Name e) (to_unsigned (Counter e + 1)) (Size e))
         (StmtClassInfo (fst (getStmtInfoTableEntry StmtNodes s st)))).
Proof. reflexivity. Qed.

(** One call of [Stmt::addStmtClass] adds one to the total of
    [Stmt::PrintStats], unless the tag is [NoStmtClass]. *)
Lemma Stmt_PrintStats_total_step (NullStmtClass s : nat) (st : StmtStatics) :
  StmtStatics_inv StmtNodes st ->
  (s <= lastStmtConstant StmtNodes)%nat ->
  to_unsigned
    (named_counters
       (StmtClassInfo
          (fst (getStmtInfoTableEntry StmtNodes NullStmtClass
                  (Stmt_addStmtClass StmtNodes s st)))))
  = to_unsigned
      (named_counters
         (StmtClassInfo (fst (getStmtInfoTableEntry StmtNodes NullStmtClass st)))
       + (if Nat.eqb s NoStmtClass then 0 else 1)).
Proof.
  intros Hinv Hs.
  destruct (StmtStatics_inv_getStmtInfoTableEntry s Hinv) as [(Hlen & H0 & Hinit) Htrue].
  rewrite Stmt_addStmtClass_table.
  rewrite getStmtInfoTableEntry_primed by (cbn [Initialized]; exact Htrue).
  cbn [StmtClassInfo].
  rewrite (getStmtInfoTableEntry_any_tag NullStmtClass s).
  set (a := StmtClassInfo (fst (getStmtInfoTableEntry StmtNodes s st))) in *.
  destruct (nth_error a s) as [e|] eqn:He; [|apply nth_error_None in He; lia].
  rewrite (@named_counters_update s
             (fun e => mkStmtClassNameTable (Name e) (to_unsigned (Counter e + 1)) (Size e))
             a e (fun x => eq_refl) He).
  cbn [Counter].
  destruct s as [|i]; cbn [Nat.eqb NoStmtClass].
  - rewrite (H0 e He). reflexivity.
  - destruct (nth_error (STMT_entries StmtNodes) i) as [type|] eqn:Hty.
    + destruct (Hinit Htrue i type Hty) as (e' & He' & Hn & _).
      rewrite He in He'. injection He' as <-. rewrite Hn.
      unfold to_unsigned.
      replace (named_counters a + ((Counter e + 1) mod 2 ^ 32 - Counter e))
        with ((Counter e + 1) mod 2 ^ 32 + (named_counters a - Counter e)) by lia.
      rewrite Zplus_mod_idemp_l. f_equal. lia.
    + apply nth_error_None in Hty. unfold lastStmtConstant in Hs. lia.
Qed.

Lemma StmtClassInfo_fill_counters (cs : list (StmtClassDecl Storage ChildRange)) :
  forall (tag : nat) (a : list StmtClassNameTable),
    Forall (fun e => Counter e = 0) a ->
    Forall (fun e => Counter e = 0) (StmtClassInfo_fill cs tag a).
Proof.
  induction cs as [|c cs IH]; intros tag a Ha; cbn [StmtClassInfo_fill]; [exact Ha|].
  apply IH. clear IH. revert tag.
  induction Ha as [|x a Hx Ha IHa]; intros [|tag]; cbn [table_update];
    constructor; auto.
Qed.

Lemma named_counters_zero (a : list StmtClassNameTable) :
  Forall (fun e => Counter e = 0) a -> named_counters a = 0.
Proof.
  induction 1 as [|x a Hx Ha IH]; cbn [named_counters]; [reflexivity|].
  destruct (Name x); lia.
Qed.

(** X6: after any run of [Stmt::addStmtClass] calls from the start of the
    program, the total that [Stmt::PrintStats] writes is the number of
    calls made with the tag of a class, modulo 2^32: a call with
    [NoStmtClass] is counted in an entry that the loops skip, and priming
    the table on first use loses no count. *)
Theorem Stmt_PrintStats_total_counts_calls (NullStmtClass : nat) (tags : list nat) :
  Forall (fun s => (s <= lastStmtConstant StmtNodes)%nat) tags ->
  stats_total (snd (Stmt_PrintStats StmtNodes NullStmtClass
                      (StmtStatics_after StmtNodes tags)))
  = to_unsigned
      (Z.of_nat (length (filter (fun s => negb (Nat.eqb s NoStmtClass)) tags))).
Proof.
  intros Htags. unfold Stmt_PrintStats.
  destruct (PrintStats_bytes _ [] 0) as [lines bytes]. cbn [snd stats_total].
  change 0 with (to_unsigned 0) at 1. rewrite PrintStats_total_named, Z.add_0_l.
  unfold StmtStatics_after.
  assert (Hgen : forall st0,
    StmtStatics_inv StmtNodes st0 ->
    to_unsigned
      (named_counters
         (StmtClassInfo
            (fst (getStmtInfoTableEntry StmtNodes NullStmtClass
                    (fold_left (fun st s => Stmt_addStmtClass StmtNodes s st) tags st0)))))
    = to_unsigned
        (named_counters
           (StmtClassInfo (fst (getStmtInfoTableEntry StmtNodes NullStmtClass st0)))
         + Z.of_nat (length (filter (fun s => negb (Nat.eqb s NoStmtClass)) tags)))).
  { induction Htags as [|s tags Hs Htags IH]; intros st0 Hinv; cbn [fold_left filter].
    - cbn [length Z.of_nat]. now rewrite Z.add_0_r.
    - rewrite IH by now apply StmtStatics_inv_addStmtClass.
      rewrite <- to_unsigned_add_l, (Stmt_PrintStats_total_step NullStmtClass Hinv Hs),
        to_unsigned_add_l.
      f_equal. destruct (Nat.eqb s NoStmtClass); cbn [negb length]; lia. }
  rewrite Hgen by apply StmtStatics_inv_initial. f_equal.
  rewrite named_counters_zero; [reflexivity|].
  unfold getStmtInfoTableEntry, StmtStatics_initial. cbn [Initialized fst StmtClassInfo].
  apply StmtClassInfo_fill_counters. apply Forall_forall.
  intros e He. apply repeat_spec in He. now subst e.
Qed.

End StmtStatistics.

Lemma Stmt_PrintStats_total_counts_calls_witness :
  stats_total (snd (Stmt_PrintStats Sample_StmtNodes 1
                      (StmtStatics_after Sample_StmtNodes [1; 0; 3; 1]%nat)))
  = to_unsigned
      (Z.of_nat (length (filter (fun s => negb (Nat.eqb s NoStmtClass)) [1; 0; 3; 1]%nat))).
Proof.
  apply (@Stmt_PrintStats_total_counts_calls _ _ Sample_StmtNodes 1 [1; 0; 3; 1]%nat).
  repeat (apply Forall_cons; [vm_compute; lia|]). apply Forall_nil.
Defined.

(** ** [CompoundStmt::setStmts] *)

Lemma memcpy_elements_spec (A : Type) (n : nat) :
  forall (done todo rest : list A) (pre old : list (Slot A)),
    length pre = length done -> length todo = n -> length old = n ->
    memcpy_elements (pre ++ old) (done ++ todo ++ rest) (Z.of_nat (length done)) n
    = Returned (pre ++ map Init todo).
Proof.
  induction n as [|n IH]; intros done todo rest pre old Hpre Htodo Hold.
  - destruct todo; [|discriminate]. destruct old; [|discriminate]. reflexivity.
  - destruct todo as [|x todo]; [discriminate|]. destruct old as [|o old]; [discriminate|].
    cbn [memcpy_elements]. cbn [app].
    rewrite ptr_read_after_prefix. cbn [bind].
    rewrite <- Hpre, array_write_after_prefix. cbn [bind].
    replace (Z.of_nat (length pre) + 1) with (Z.of_nat (length (done ++ [x])))
      by (rewrite length_app; cbn [length]; lia).
    replace (pre ++ Init x :: old) with ((pre ++ [Init x]) ++ old)
      by now rewrite <- app_assoc.
    replace (done ++ x :: todo ++ rest) with ((done ++ [x]) ++ todo ++ rest)
      by now rewrite <- app_assoc.
    rewrite IH.
    + cbn [map]. now rewrite <- app_assoc.
    + rewrite !length_app. cbn [length]. lia.
    + cbn [length] in Htodo. lia.
    + cbn [length] in Hold. lia.
Qed.

Lemma read_range_prefix (A : Type) (xs : list A) (n : nat) :
  (n <= length xs)%nat ->
  read_range (map Init xs) 0 n = Returned (firstn n xs).
Proof.
  intros Hn.
  assert (Hl : length (firstn n xs) = n) by (rewrite length_firstn; lia).
  pose proof (@read_range_after_prefix A (firstn n xs) [] (map Init (skipn n xs))) as H.
  cbn [app length Z.of_nat] in H.
  rewrite <- map_app, firstn_skipn, Hl in H. exact H.
Qed.

(** X7: [CompoundStmt::setStmts] with an array of at least [NumStmts]
    statements returns on every node, whatever its old body, and never
    asserts: the node then has a non-null body (also for [NumStmts] = 0,
    where the constructor leaves it null) and its braces are unchanged.
    Its children are the first [NumStmts mod 2^width] statements given:
    all of them when the number fits the bit-field, and silently fewer
    when it does not, where the constructor asserts. *)
Theorem CompoundStmt_setStmts_children (S : Type) (NumStmtsWidth : Z)
    (this : CompoundStmt S) (Stmts : list (option S)) (NumStmts : Z) :
  0 <= NumStmtsWidth ->
  0 <= NumStmts <= list_size Stmts ->
  exists c,
    CompoundStmt_setStmts NumStmtsWidth this Stmts NumStmts = Returned c /\
    is_nonnull (Body c) = true /\
    LBracLoc c = LBracLoc this /\ RBracLoc c = RBracLoc this /\
    CompoundStmtBits_NumStmts c = NumStmts mod 2 ^ NumStmtsWidth /\
    CompoundStmt_children c
    = Returned (firstn (Z.to_nat (NumStmts mod 2 ^ NumStmtsWidth)) Stmts) /\
    (NumStmts < 2 ^ NumStmtsWidth ->
     CompoundStmt_children c = Returned (firstn (Z.to_nat NumStmts) Stmts)).
Proof.
  intros Hw [H0 Hle]. unfold list_size in Hle.
  assert (Hpow : 0 < 2 ^ NumStmtsWidth) by (apply Z.pow_pos_nonneg; lia).
  pose proof (Z.mod_pos_bound NumStmts (2 ^ NumStmtsWidth) Hpow) as Hmod.
  pose proof (Z.mod_le NumStmts (2 ^ NumStmtsWidth) H0 Hpow) as Hmle.
  set (n := Z.to_nat NumStmts).
  assert (Hn : (n <= length Stmts)%nat) by lia.
  pose proof (@memcpy_elements_spec (option S) n [] (firstn n Stmts) (skipn n Stmts)
                [] (new_array (option S) n) eq_refl) as Hcopy.
  cbn [app length Z.of_nat] in Hcopy. rewrite firstn_skipn in Hcopy.
  specialize (Hcopy (firstn_length_le Stmts Hn) (new_array_length (option S) n)).
  assert (Hchildren :
    read_range (map Init (firstn n Stmts)) 0 (Z.to_nat (NumStmts mod 2 ^ NumStmtsWidth))
    = Returned (firstn (Z.to_nat (NumStmts mod 2 ^ NumStmtsWidth)) Stmts)).
  { rewrite read_range_prefix by (rewrite length_firstn; lia).
    rewrite firstn_firstn. f_equal. f_equal. lia. }
  eexists. split.
  { unfold CompoundStmt_setStmts. fold n. rewrite Hcopy. reflexivity. }
  cbn [Body LBracLoc RBracLoc CompoundStmtBits_NumStmts is_nonnull].
  repeat split.
  - unfold CompoundStmt_children. cbn [Body CompoundStmtBits_NumStmts]. exact Hchildren.
  - intros Hfit. unfold CompoundStmt_children. cbn [Body CompoundStmtBits_NumStmts].
    rewrite Hchildren. now rewrite Z.mod_small by lia.
Qed.

Lemma CompoundStmt_setStmts_children_witness :
  exists c,
    CompoundStmt_setStmts 2 (mkCompoundStmt 0 None 7 9)
      [Some 1%nat; None; Some 3%nat; Some 4%nat; Some 5%nat] 5 = Returned c /\
    is_nonnull (Body c) = true /\
    LBracLoc c = 7 /\ RBracLoc c = 9 /\
    CompoundStmtBits_NumStmts c = 5 mod 2 ^ 2 /\
    CompoundStmt_children c
    = Returned (firstn (Z.to_nat (5 mod 2 ^ 2))
                  [Some 1%nat; None; Some 3%nat; Some 4%nat; Some 5%nat]) /\
    (5 < 2 ^ 2 ->
     CompoundStmt_children c
     = Returned (firstn (Z.to_nat 5) [Some 1%nat; None; Some 3%nat; Some 4%nat; Some 5%nat])).
Proof.
  apply (@CompoundStmt_setStmts_children nat 2 (mkCompoundStmt 0 None 7 9)
           [Some 1%nat; None; Some 3%nat; Some 4%nat; Some 5%nat] 5).
  - lia.
  - unfold list_size. simpl. lia.
Defined.

Example CompoundStmt_setStmts_drops_silently :
  (c <- CompoundStmt_setStmts 2 (mkCompoundStmt 0 None 7 9)
          [Some 1%nat; None; Some 3%nat; Some 4%nat; Some 5%nat] 5 ;;
   CompoundStmt_children c) = Returned [Some 1%nat] /\
  CompoundStmt_CompoundStmt 2 [Some 1%nat; None; Some 3%nat; Some 4%nat; Some 5%nat] 7 9
  = AssertionFailed "NumStmts doesn't fit in bits of CompoundStmtBits.NumStmts!".
Proof. split; reflexivity. Qed.

(** ** [ObjCAtTryStmt::Create] *)

Lemma array_write_returned (A : Type) (a a' : list (Slot A)) (i : Z) (v : A) :
  array_write a i v = Returned a' ->
  0 <= i < Z.of_nat (length a) /\ length a' = length a.
Proof.
  intros H. split; [|exact (array_write_length _ _ _ H)].
  unfold array_write in H.
  destruct (0 <=? i) eqn:H0; [|discriminate]. destruct (i <? Z.of_nat (length a)) eqn:H1;
    [|discriminate].
  apply Z.leb_le in H0. apply Z.ltb_lt in H1. lia.
Qed.

Lemma ObjCAtTryStmt_copy_catches_returned (S : Type) (CatchStmts : list (option S))
    (n : nat) :
  forall (Stmts Stmts' : list (Slot (option S))) (I : Z),
    ObjCAtTryStmt_copy_catches CatchStmts Stmts I n = Returned Stmts' ->
    length Stmts' = length Stmts /\
    (0 <= I -> (0 < n)%nat -> I + Z.of_nat n < Z.of_nat (length Stmts)).
Proof.
  induction n as [|n IH]; intros Stmts Stmts' I H; cbn [ObjCAtTryStmt_copy_catches] in H.
  - injection H as <-. split; [reflexivity | lia].
  - destruct (ptr_read CatchStmts I) as [v| | |]; try discriminate. cbn [bind] in H.
    destruct (array_write Stmts (I + 1) v) as [St1| | |] eqn:Hw; try discriminate.
    cbn [bind] in H. apply array_write_returned in Hw. destruct Hw as [Hb Hl].
    apply IH in H. destruct H as [Hl' Hlast]. split; [congruence|].
    intros HI _. destruct n as [|n]; [lia|]. rewrite Hl in Hlast. lia.
Qed.

(** The constructor returns only on storage with room for all it
    writes, and keeps the size of the storage. *)
Lemma ObjCAtTryStmt_ObjCAtTryStmt_returned (S : Type) (Mem : list (Slot (option S)))
    (atTryLoc : SourceLocation) (atTryStmt : option S) (CatchStmts : list (option S))
    (N : Z) (atFinallyStmt : option S) (t : ObjCAtTryStmt S) :
  0 <= N ->
  ObjCAtTryStmt_ObjCAtTryStmt Mem atTryLoc atTryStmt CatchStmts N atFinallyStmt
  = Returned t ->
  length (ObjCAtTryStmt_Stmts t) = length Mem /\
  N < Z.of_nat (length Mem) /\
  (N + 1 < 2 ^ 32 ->
   1 + N + (if is_nonnull atFinallyStmt then 1 else 0) <= Z.of_nat (length Mem)).
Proof.
  intros HN H. unfold ObjCAtTryStmt_ObjCAtTryStmt in H. cbn zeta in H.
  destruct (array_write Mem 0 atTryStmt) as [St0| | |] eqn:H0; try discriminate.
  cbn [bind] in H. apply array_write_returned in H0. destruct H0 as [Hb0 Hl0].
  destruct (ObjCAtTryStmt_copy_catches CatchStmts St0 0 (Z.to_nat N)) as [St1| | |] eqn:H1;
    try discriminate.
  cbn [bind] in H. apply ObjCAtTryStmt_copy_catches_returned in H1.
  destruct H1 as [Hl1 Hlast].
  assert (Hroom : N < Z.of_nat (length Mem)).
  { destruct (Z.eq_dec N 0) as [-> | HN0]; [lia|].
    specialize (Hlast (Z.le_refl 0)). rewrite Hl0 in Hlast. lia. }
  destruct (is_nonnull atFinallyStmt).
  - destruct (array_write St1 (to_unsigned (N + 1)) atFinallyStmt) as [St2| | |] eqn:H2;
      try discriminate.
    cbn [bind] in H. injection H as <-. cbn [ObjCAtTryStmt_Stmts].
    apply array_write_returned in H2. destruct H2 as [Hb2 Hl2].
    split; [congruence|]. split; [exact Hroom|]. intros Hu.
    unfold to_unsigned in Hb2. rewrite Z.mod_small in Hb2 by lia. lia.
  - cbn [bind] in H. injection H as <-. cbn [ObjCAtTryStmt_Stmts].
    split; [congruence|]. split; [exact Hroom|]. lia.
Qed.

(** X8: [ObjCAtTryStmt::Create] keeps its size in an [unsigned].  When
    the size of the header and of one pointer for the try body, each of
    the [NumCatchStmts] catch statements and the finally statement, if
    there is one, is below 2^32, it returns a node whose trailing array
    is the try body, the catch statements in order and the finally
    statement, with no slot left unwritten; the counter of the node is
    the number of catch statements reduced to the width of its bit-field,
    so it is that number when there are fewer than 2^16 of them.  When
    that size is 2^32 or more, the truncated allocation has no room for
    what the constructor writes, and [Create] does not return a node. *)
Theorem ObjCAtTryStmt_Create_fits_unsigned (S : Type) (L : Layout)
    (atTryLoc : SourceLocation) (atTryStmt : option S) (CatchStmts : list (option S))
    (atFinallyStmt : option S) :
  0 < sizeof_StmtPtr L ->
  0 <= sizeof_ObjCAtTryStmt L ->
  let slots := 1 + list_size CatchStmts + (if is_nonnull atFinallyStmt then 1 else 0) in
  let Size := sizeof_ObjCAtTryStmt L + slots * sizeof_StmtPtr L in
  (Size < 2 ^ 32 ->
   ObjCAtTryStmt_Create L atTryLoc atTryStmt CatchStmts (list_size CatchStmts) atFinallyStmt
   = Returned (mkAllocation Size (alignOf_ObjCAtTryStmt L)
                 (mkObjCAtTryStmt atTryLoc
                    (list_size CatchStmts mod 2 ^ ObjCAtTryStmt_NumCatchStmts_bits)
                    (is_nonnull atFinallyStmt)
                    (Init atTryStmt :: map Init CatchStmts
                     ++ (if is_nonnull atFinallyStmt then [Init atFinallyStmt] else [])))) /\
   (list_size CatchStmts < 2 ^ ObjCAtTryStmt_NumCatchStmts_bits ->
    list_size CatchStmts mod 2 ^ ObjCAtTryStmt_NumCatchStmts_bits = list_size CatchStmts)) /\
  (2 ^ 32 <= Size ->
   forall a,
     ObjCAtTryStmt_Create L atTryLoc atTryStmt CatchStmts (list_size CatchStmts)
       atFinallyStmt
     <> Returned a).
Proof.
  intros Hptr Hhdr slots Size.
  assert (Hslots : 0 < slots)
    by (unfold slots, list_size; destruct (is_nonnull atFinallyStmt); lia).
  assert (HSize : 0 <= Size) by (unfold Size; nia).
  unfold ObjCAtTryStmt_Create. fold slots. fold Size. split.
  - intros Hfit. split; [|intros Hsmall; apply Z.mod_small; unfold list_size in *; lia].
    unfold to_unsigned. rewrite Z.mod_small by lia.
    unfold trailing_storage.
    replace (Size - sizeof_ObjCAtTryStmt L) with (slots * sizeof_StmtPtr L)
      by (unfold Size; lia).
    rewrite Z.div_mul by lia.
    set (Mem := new_array (option S) (Z.to_nat slots)).
    assert (HMem : length Mem = Z.to_nat slots) by apply new_array_length.
    assert (Hu : list_size CatchStmts + 1 < 2 ^ 32).
    { assert (slots < 2 ^ 32) by (unfold Size in Hfit; nia).
      unfold slots in *. destruct (is_nonnull atFinallyStmt); lia. }
    destruct (@ObjCAtTryStmt_ObjCAtTryStmt_returns S Mem atTryLoc atTryStmt CatchStmts
                atFinallyStmt Hu) as [post Hret].
    { rewrite HMem. unfold slots, list_size. destruct (is_nonnull atFinallyStmt); lia. }
    rewrite Hret. cbn [bind]. do 3 f_equal.
    pose proof (@ObjCAtTryStmt_ObjCAtTryStmt_returned S Mem atTryLoc atTryStmt CatchStmts
                  (list_size CatchStmts) atFinallyStmt _
                  ltac:(unfold list_size; lia) Hret) as [Hlen _].
    cbn [ObjCAtTryStmt_Stmts length] in Hlen.
    rewrite !length_app, length_map, HMem in Hlen.
    destruct post as [|p post]; [now rewrite app_nil_r|]. exfalso.
    unfold slots, list_size in Hlen.
    destruct (is_nonnull atFinallyStmt); cbn [length] in Hlen; lia.
  - intros Hbig a Hret.
    destruct (ObjCAtTryStmt_ObjCAtTryStmt _ atTryLoc atTryStmt CatchStmts
                (list_size CatchStmts) atFinallyStmt) as [t| | |] eqn:Hctor;
      try discriminate.
    apply ObjCAtTryStmt_ObjCAtTryStmt_returned in Hctor; [|unfold list_size; lia].
    destruct Hctor as (_ & Hlt & Hroom). fold slots in Hroom.
    unfold trailing_storage in Hlt, Hroom. rewrite new_array_length in Hlt, Hroom.
    assert (Htrunc : 0 <= to_unsigned Size < 2 ^ 32)
      by (unfold to_unsigned; apply Z.mod_pos_bound; lia).
    assert (Hdiv : (to_unsigned Size - sizeof_ObjCAtTryStmt L) / sizeof_StmtPtr L < slots).
    { apply Z.div_lt_upper_bound; [lia|]. unfold Size in Hbig. nia. }
    assert (Hcap : (to_unsigned Size - sizeof_ObjCAtTryStmt L) / sizeof_StmtPtr L < 2 ^ 32).
    { apply Z.div_lt_upper_bound; [lia|]. nia. }
    assert (Hu : list_size CatchStmts + 1 < 2 ^ 32) by lia.
    specialize (Hroom Hu). lia.
Qed.

Lemma ObjCAtTryStmt_Create_fits_unsigned_witness :
  let slots := 1 + list_size [Some 5%nat; None] + (if is_nonnull (Some 7%nat) then 1 else 0) in
  let Size := sizeof_ObjCAtTryStmt Layout_LP64 + slots * sizeof_StmtPtr Layout_LP64 in
  (Size < 2 ^ 32 ->
   ObjCAtTryStmt_Create Layout_LP64 3 (Some 4%nat) [Some 5%nat; None]
     (list_size [Some 5%nat; None]) (Some 7%nat)
   = Returned (mkAllocation Size (alignOf_ObjCAtTryStmt Layout_LP64)
                 (mkObjCAtTryStmt 3
                    (list_size [Some 5%nat; None] mod 2 ^ ObjCAtTryStmt_NumCatchStmts_bits)
                    (is_nonnull (Some 7%nat))
                    (Init (Some 4%nat) :: map Init [Some 5%nat; None]
                     ++ (if is_nonnull (Some 7%nat) then [Init (Some 7%nat)] else [])))) /\
   (list_size [Some 5%nat; None] < 2 ^ ObjCAtTryStmt_NumCatchStmts_bits ->
    list_size [Some 5%nat; None] mod 2 ^ ObjCAtTryStmt_NumCatchStmts_bits
    = list_size [Some 5%nat; None])) /\
  (2 ^ 32 <= Size ->
   forall a,
     ObjCAtTryStmt_Create Layout_LP64 3 (Some 4%nat) [Some 5%nat; None]
       (list_size [Some 5%nat; None]) (Some 7%nat)
     <> Returned a).
Proof.
  apply (@ObjCAtTryStmt_Create_fits_unsigned nat Layout_LP64 3 (Some 4%nat)
           [Some 5%nat; None] (Some 7%nat)).
  - simpl. lia.
  - simpl. lia.
Defined.

(** ** [CXXTryStmt::Create] *)

Lemma std_copy_returned (A : Type) (src : list A) :
  forall (a a' : list (Slot A)) (pos : Z),
    std_copy src a pos = Returned a' ->
    length a' = length a /\
    (0 <= pos -> src <> [] -> pos + list_size src <= list_size a).
Proof.
  unfold list_size.
  induction src as [|x src IH]; intros a a' pos H; cbn [std_copy] in H.
  - injection H as <-. split; [reflexivity | congruence].
  - destruct (array_write a pos x) as [a1| | |] eqn:Hw; try discriminate.
    cbn [bind] in H. apply array_write_returned in Hw. destruct Hw as [Hb Hl].
    apply IH in H. destruct H as [Hl' Hroom]. split; [congruence|].
    intros Hpos _. cbn [length]. destruct src as [|y src]; [cbn [length]; lia|].
    rewrite Hl in Hroom. specialize (Hroom ltac:(lia) ltac:(discriminate)).
    cbn [length] in *. lia.
Qed.

(** X9: [CXXTryStmt::Create] sizes its trailing array with [sizeof(Stmt)]
    per slot, and the constructor writes one pointer per slot.  Where a
    [Stmt] is at least as large as a pointer it returns a node with the
    try block and the handlers, in order, at the start of the array, and
    the slots after them are never written; where a [Stmt] is smaller
    than a pointer the constructor writes past the allocation and
    [Create] does not return a node. *)
Theorem CXXTryStmt_Create_returns_iff (S : Type) (L : Layout) (tryLoc : SourceLocation)
    (tryBlock : option S) (handlers : list (option S)) :
  0 < sizeof_StmtPtr L -> 0 < sizeof_Stmt L -> 0 <= sizeof_CXXTryStmt L ->
  sizeof_CXXTryStmt L + (list_size handlers + 1) * sizeof_Stmt L < 2 ^ 64 ->
  (sizeof_StmtPtr L <= sizeof_Stmt L ->
   exists post,
     CXXTryStmt_Create L tryLoc tryBlock handlers
     = Returned (mkAllocation
                   (sizeof_CXXTryStmt L + (list_size handlers + 1) * sizeof_Stmt L)
                   (alignOf_CXXTryStmt L)
                   (mkCXXTryStmt tryLoc (to_unsigned (list_size handlers))
                      (Init tryBlock :: map Init handlers ++ post))) /\
     Forall (fun slot => slot = Uninit) post /\
     list_size post
     = (list_size handlers + 1) * sizeof_Stmt L / sizeof_StmtPtr L
       - (list_size handlers + 1)) /\
  (sizeof_Stmt L < sizeof_StmtPtr L ->
   forall a, CXXTryStmt_Create L tryLoc tryBlock handlers <> Returned a).
Proof.
  intros Hptr HS Hhdr Hfit.
  assert (HH : 0 <= list_size handlers) by (unfold list_size; lia).
  assert (HSize : to_size_t (sizeof_CXXTryStmt L
                             + to_size_t ((list_size handlers + 1) * sizeof_Stmt L))
                  = sizeof_CXXTryStmt L + (list_size handlers + 1) * sizeof_Stmt L).
  { unfold to_size_t. rewrite (Z.mod_small ((list_size handlers + 1) * sizeof_Stmt L)) by nia.
    apply Z.mod_small. nia. }
  assert (HMem : forall A : Type,
    length (trailing_storage A
              (sizeof_CXXTryStmt L + (list_size handlers + 1) * sizeof_Stmt L)
              (sizeof_CXXTryStmt L) (sizeof_StmtPtr L))
    = Z.to_nat ((list_size handlers + 1) * sizeof_Stmt L / sizeof_StmtPtr L)).
  { intros A. unfold trailing_storage. rewrite new_array_length. do 2 f_equal. lia. }
  split.
  - intros Hle.
    assert (Hq : list_size handlers + 1
                 <= (list_size handlers + 1) * sizeof_Stmt L / sizeof_StmtPtr L).
    { apply Z.div_le_lower_bound; [lia | nia]. }
    unfold CXXTryStmt_Create. fold (list_size handlers). rewrite HSize.
    specialize (HMem (option S)).
    set (Mem := trailing_storage (option S) _ _ _) in *.
    destruct (@split_storage _ Mem 1 (length handlers))
      as (pre & old & post & Hsplit & Hpre & Hold).
    { rewrite HMem. unfold list_size in *. lia. }
    destruct pre as [|m0 [|? ?]]; try discriminate.
    exists post. split; [|split].
    + unfold CXXTryStmt_CXXTryStmt.
      rewrite (@array_write_at _ Mem [] m0 (old ++ post) 0 tryBlock Hsplit eq_refl).
      cbn [bind app].
      pose proof (@std_copy_after_prefix _ handlers [Init tryBlock] old post Hold) as Hcopy.
      change (Z.of_nat (length [Init tryBlock])) with 1 in Hcopy.
      cbn [app] in Hcopy. rewrite Hcopy. reflexivity.
    + apply Forall_forall. intros x Hx.
      assert (Hin : In x Mem).
      { rewrite Hsplit. apply in_or_app. right. apply in_or_app. now right. }
      unfold Mem, trailing_storage, new_array in Hin. now apply repeat_spec in Hin.
    + assert (Hlen : length Mem = (1 + length handlers + length post)%nat).
      { rewrite Hsplit, !length_app. cbn [length]. lia. }
      unfold list_size in *. lia.
  - intros Hlt a Hret. unfold CXXTryStmt_Create in Hret. fold (list_size handlers) in Hret.
    rewrite HSize in Hret.
    destruct (CXXTryStmt_CXXTryStmt _ tryLoc tryBlock handlers) as [t| | |] eqn:Hctor;
      try discriminate.
    unfold CXXTryStmt_CXXTryStmt in Hctor.
    destruct (array_write _ 0 tryBlock) as [St0| | |] eqn:H0; try discriminate.
    cbn [bind] in Hctor.
    destruct (std_copy handlers St0 1) as [St1| | |] eqn:H1; try discriminate.
    pose proof (array_write_returned _ _ _ H0) as [Hb0 Hl0].
    pose proof (std_copy_returned _ _ _ H1) as [_ Hroom].
    rewrite HMem in Hl0, Hb0.
    assert (Hq : (list_size handlers + 1) * sizeof_Stmt L / sizeof_StmtPtr L
                 < list_size handlers + 1).
    { apply Z.div_lt_upper_bound; [lia | nia]. }
    destruct handlers as [|h handlers].
    + cbn [length] in *. unfold list_size in *. cbn [length] in *. lia.
    + specialize (Hroom ltac:(lia) ltac:(discriminate)).
      unfold list_size in *. rewrite Hl0 in Hroom. lia.
Qed.

Lemma CXXTryStmt_Create_returns_iff_witness :
  (sizeof_StmtPtr Layout_wide_Stmt <= sizeof_Stmt Layout_wide_Stmt ->
   exists post,
     CXXTryStmt_Create Layout_wide_Stmt 7 (Some 1%nat) [Some 2%nat; None]
     = Returned (mkAllocation
                   (sizeof_CXXTryStmt Layout_wide_Stmt
                    + (list_size [Some 2%nat; None] + 1) * sizeof_Stmt Layout_wide_Stmt)
                   (alignOf_CXXTryStmt Layout_wide_Stmt)
                   (mkCXXTryStmt 7 (to_unsigned (list_size [Some 2%nat; None]))
                      (Init (Some 1%nat) :: map Init [Some 2%nat; None] ++ post))) /\
     Forall (fun slot => slot = Uninit) post /\
     list_size post
     = (list_size [Some 2%nat; None] + 1) * sizeof_Stmt Layout_wide_Stmt
       / sizeof_StmtPtr Layout_wide_Stmt
       - (list_size [Some 2%nat; None] + 1)) /\
  (sizeof_Stmt Layout_wide_Stmt < sizeof_StmtPtr Layout_wide_Stmt ->
   forall a,
     CXXTryStmt_Create Layout_wide_Stmt 7 (Some 1%nat) [Some 2%nat; None] <> Returned a).
Proof.
  apply (@CXXTryStmt_Create_returns_iff nat Layout_wide_Stmt 7 (Some 1%nat)
           [Some 2%nat; None]).
  - simpl. lia.
  - simpl. lia.
  - simpl. lia.
  - vm_compute. reflexivity.
Defined.

(** ** The factories of the OpenMP clauses *)

Section OMPClauseFactoryProperties.

Variable E : Type.

(** A checked copy into one segment of the storage. *)
Lemma checked_copy_segment (msg : string) (start : OMPVarListClause E -> Z)
    (A : list (option E)) (c : OMPVarListClause E) (pre old post : list (Slot (option E))) :
  OMPClause_storage c = pre ++ old ++ post ->
  list_size old = NumVars c ->
  start c = list_size pre ->
  checked_copy msg start A c
  = if list_size A =? NumVars c
    then Returned (mkOMPVarListClause (NumVars c) (pre ++ map Init A ++ post))
    else AssertionFailed msg.
Proof.
  intros Hst Hold Hstart. unfold checked_copy, assert_that, varlist_size.
  destruct (list_size A =? NumVars c) eqn:HA; [|reflexivity].
  apply Z.eqb_eq in HA. cbn [bind]. unfold copy_into. rewrite Hst, Hstart.
  unfold list_size in *.
  rewrite std_copy_after_prefix by lia. reflexivity.
Qed.

Lemma ArrayRef_elements_segment (c : OMPVarListClause E) (r : ArrayRef)
    (pre post : list (Slot (option E))) (xs : list (option E)) :
  OMPClause_storage c = pre ++ map Init xs ++ post ->
  ArrayRef_begin r = list_size pre ->
  ArrayRef_size r = list_size xs ->
  ArrayRef_elements c r = Returned xs.
Proof.
  intros Hst Hb Hs. unfold ArrayRef_elements, list_size in *.
  rewrite Hst, Hb, Hs, Nat2Z.id. apply read_range_after_prefix.
Qed.

Lemma new_array_segments (n k : nat) :
  new_array (option E) (Z.to_nat (Z.of_nat k * Z.of_nat n))
  = concat (repeat (new_array (option E) n) k).
Proof.
  unfold new_array. rewrite <- Nat2Z.inj_mul, Nat2Z.id.
  induction k as [|k IH]; [reflexivity|].
  cbn [repeat concat Nat.mul]. now rewrite repeat_app, IH.
Qed.

Lemma all_written_map_Init (xs : list (option E)) : all_written (map Init xs).
Proof. apply Forall_forall. intros x Hx. apply in_map_iff in Hx. now destruct Hx as (? & <- & _). Qed.

Lemma all_written_app (a b : list (Slot (option E))) :
  all_written a -> all_written b -> all_written (a ++ b).
Proof. intros Ha Hb. apply Forall_app. now split. Qed.


Lemma concat_segment (X : Type) (n : nat) (segs : list (list X)) :
  Forall (fun s => length s = n) segs ->
  forall (j : nat) (old x : list X),
    nth_error segs j = Some old ->
    exists pre post,
      concat segs = pre ++ old ++ post /\
      concat (set_segment j x segs) = pre ++ x ++ post /\
      length pre = (j * n)%nat /\ length old = n.
Proof.
  induction 1 as [|s segs Hs Hsegs IH]; intros [|j] old x Hnth; cbn [nth_error] in Hnth;
    try discriminate.
  - injection Hnth as <-. exists [], (concat segs). cbn [concat set_segment app length].
    repeat split; auto.
  - destruct (IH j old x Hnth) as (pre & post & H1 & H2 & H3 & H4).
    exists (s ++ pre), post. cbn [concat set_segment]. rewrite H1, H2, <- !app_assoc.
    repeat split; auto. rewrite length_app, H3, Hs. cbn [Nat.mul]. lia.
Qed.

Lemma set_segment_lengths (X : Type) (n : nat) (segs : list (list X)) (j : nat)
    (x : list X) :
  Forall (fun s => length s = n) segs -> length x = n ->
  Forall (fun s => length s = n) (set_segment j x segs).
Proof.
  intros H Hx. revert j. induction H as [|s segs Hs Hsegs IH]; intros [|j];
    cbn [set_segment]; constructor; auto.
Qed.

(** A checked copy into array [j] of a storage of arrays of [N]
    elements. *)
Lemma checked_copy_nth (msg : string) (start : OMPVarListClause E -> Z)
    (A : list (option E)) (N : Z) (segs : list (list (Slot (option E)))) (j n : nat) :
  Forall (fun s => length s = n) segs -> Z.of_nat n = N ->
  (j < length segs)%nat ->
  start (mkOMPVarListClause N (concat segs)) = Z.of_nat j * N ->
  list_size A = N ->
  checked_copy msg start A (mkOMPVarListClause N (concat segs))
  = Returned (mkOMPVarListClause N (concat (set_segment j (map Init A) segs))).
Proof.
  intros Hsegs Hn Hj Hstart HA.
  destruct (nth_error segs j) as [old|] eqn:Hnth; [|apply nth_error_None in Hnth; lia].
  destruct (@concat_segment _ n segs Hsegs j old (map Init A) Hnth)
    as (pre & post & H1 & H2 & H3 & H4).
  rewrite (@checked_copy_segment msg start A _ pre old post); cbn [OMPClause_storage NumVars].
  - rewrite HA, Z.eqb_refl, H2. reflexivity.
  - exact H1.
  - unfold list_size. lia.
  - rewrite Hstart. unfold list_size. rewrite H3. nia.
Qed.

Lemma ArrayRef_elements_nth (c : OMPVarListClause E) (r : ArrayRef)
    (segs : list (list (Slot (option E)))) (j n : nat) (xs : list (option E)) :
  OMPClause_storage c = concat segs ->
  Forall (fun s => length s = n) segs ->
  nth_error segs j = Some (map Init xs) ->
  ArrayRef_begin r = Z.of_nat j * Z.of_nat n ->
  ArrayRef_size r = Z.of_nat n ->
  ArrayRef_elements c r = Returned xs.
Proof.
  intros Hst Hsegs Hnth Hb Hs.
  destruct (@concat_segment _ n segs Hsegs j _ (map Init xs) Hnth)
    as (pre & post & H1 & _ & H3 & H4).
  rewrite length_map in H4.
  apply (@ArrayRef_elements_segment c r pre post xs).
  - now rewrite Hst.
  - rewrite Hb. unfold list_size. rewrite H3. nia.
  - rewrite Hs. unfold list_size. lia.
Qed.

(** The storage that a factory allocates for [k] arrays. *)
Lemma OMPVarListClause_new_segments (n k : nat) :
  OMPVarListClause_new E (Z.of_nat n) (Z.of_nat k)
  = mkOMPVarListClause (Z.of_nat n) (concat (repeat (new_array (option E) n) k)).
Proof. unfold OMPVarListClause_new. now rewrite new_array_segments. Qed.

Ltac segment_lengths :=
  repeat (first [ apply Forall_nil
                | apply Forall_cons;
                  [ first [ apply new_array_length
                          | rewrite length_map; first [ assumption | reflexivity
                                                      | apply repeat_length ] ]
                  | ] ]).

Ltac array_start :=
  unfold OMPVarList_varlists; unfold_arrays;
  cbn [NumVars ArrayRef_begin ArrayRef_size];
  repeat match goal with x := _ : Z |- _ => subst x end;
  lia.

(** X10: [OMPLastPrivateClause::Create] on a variable list and three
    arrays of the same length returns a clause in which the variable
    list, the two arrays of pseudo variables and the assignments read
    back as given and the default inits are all null: setting the default
    inits after the assignments overwrites none of them, and no slot of
    the allocation is left unwritten.  When one of the three arrays has
    another length than the variable list, [Create] stops at an
    assertion. *)
Theorem OMPLastPrivateClause_Create_roundtrip
    (VL PseudoVars1 PseudoVars2 Assignments : list (option E)) :
  (length PseudoVars1 = length VL /\ length PseudoVars2 = length VL /\
   length Assignments = length VL ->
   exists c,
     OMPLastPrivateClause_Create VL PseudoVars1 PseudoVars2 Assignments = Returned c /\
     varlist_size c = list_size VL /\
     ArrayRef_elements c (OMPVarList_varlists c) = Returned VL /\
     ArrayRef_elements c (OMPLastPrivateClause_getPseudoVars1 c) = Returned PseudoVars1 /\
     ArrayRef_elements c (OMPLastPrivateClause_getPseudoVars2 c) = Returned PseudoVars2 /\
     ArrayRef_elements c (OMPLastPrivateClause_getDefaultInits c)
     = Returned (repeat None (length VL)) /\
     ArrayRef_elements c (OMPLastPrivateClause_getAssignments c) = Returned Assignments /\
     all_written (OMPClause_storage c)) /\
  (~ (length PseudoVars1 = length VL /\ length PseudoVars2 = length VL /\
      length Assignments = length VL) ->
   exists msg,
     OMPLastPrivateClause_Create VL PseudoVars1 PseudoVars2 Assignments
     = AssertionFailed msg).
Proof.
  set (n := length VL).
  set (U := new_array (option E) n).
  set (N := Z.of_nat n).
  assert (Hnew : OMPVarListClause_new E (list_size VL) 5
                 = mkOMPVarListClause N (concat [U; U; U; U; U]))
    by apply (OMPVarListClause_new_segments n 5).
  unfold OMPLastPrivateClause_Create. rewrite Hnew. fold n.
  assert (H1 : OMPVarList_setVars VL (mkOMPVarListClause N (concat [U; U; U; U; U]))
               = Returned (mkOMPVarListClause N (concat [map Init VL; U; U; U; U]))).
  { apply (@checked_copy_nth _ (fun c => varlist_begin c) VL N [U; U; U; U; U] 0 n);
      [segment_lengths | reflexivity | cbn [length]; lia | array_start | reflexivity]. }
  rewrite H1. cbn [bind].
  assert (H2 : length PseudoVars1 = n ->
               OMPLastPrivateClause_setPseudoVars1 PseudoVars1
                 (mkOMPVarListClause N (concat [map Init VL; U; U; U; U]))
               = Returned (mkOMPVarListClause N
                             (concat [map Init VL; map Init PseudoVars1; U; U; U]))).
  { intros HP1.
    apply (@checked_copy_nth _ (fun c => varlist_end c) PseudoVars1 N
             [map Init VL; U; U; U; U] 1 n);
      [segment_lengths | reflexivity | cbn [length]; lia | array_start
      | unfold list_size, N; now rewrite HP1]. }
  assert (H3 : length PseudoVars1 = n -> length PseudoVars2 = n ->
               OMPLastPrivateClause_setPseudoVars2 PseudoVars2
                 (mkOMPVarListClause N
                    (concat [map Init VL; map Init PseudoVars1; U; U; U]))
               = Returned (mkOMPVarListClause N
                             (concat [map Init VL; map Init PseudoVars1;
                                      map Init PseudoVars2; U; U]))).
  { intros HP1 HP2.
    apply (@checked_copy_nth _
             (fun c => ArrayRef_end (OMPLastPrivateClause_getPseudoVars1 c)) PseudoVars2 N
             [map Init VL; map Init PseudoVars1; U; U; U] 2 n);
      [segment_lengths | reflexivity | cbn [length]; lia | array_start
      | unfold list_size, N; now rewrite HP2]. }
  assert (H4 : length PseudoVars1 = n -> length PseudoVars2 = n ->
               length Assignments = n ->
               OMPLastPrivateClause_setAssignments Assignments
                 (mkOMPVarListClause N
                    (concat [map Init VL; map Init PseudoVars1;
                             map Init PseudoVars2; U; U]))
               = Returned (mkOMPVarListClause N
                             (concat [map Init VL; map Init PseudoVars1;
                                      map Init PseudoVars2; U; map Init Assignments]))).
  { intros HP1 HP2 HA.
    apply (@checked_copy_nth _
             (fun c => ArrayRef_end (OMPLastPrivateClause_getDefaultInits c)) Assignments N
             [map Init VL; map Init PseudoVars1; map Init PseudoVars2; U; U] 4 n);
      [segment_lengths | reflexivity | cbn [length]; lia | array_start
      | unfold list_size, N; now rewrite HA]. }
  assert (H5 : length PseudoVars1 = n -> length PseudoVars2 = n ->
               length Assignments = n ->
               OMPLastPrivateClause_setDefaultInits (repeat None n)
                 (mkOMPVarListClause N
                    (concat [map Init VL; map Init PseudoVars1;
                             map Init PseudoVars2; U; map Init Assignments]))
               = Returned (mkOMPVarListClause N
                             (concat [map Init VL; map Init PseudoVars1;
                                      map Init PseudoVars2; map Init (repeat None n);
                                      map Init Assignments]))).
  { intros HP1 HP2 HA.
    apply (@checked_copy_nth _
             (fun c => ArrayRef_end (OMPLastPrivateClause_getPseudoVars2 c))
             (repeat None n) N
             [map Init VL; map Init PseudoVars1; map Init PseudoVars2; U;
              map Init Assignments] 3 n);
      [segment_lengths | reflexivity | cbn [length]; lia | array_start
      | unfold list_size, N; now rewrite repeat_length]. }
  split.
  - intros (HP1 & HP2 & HA).
    rewrite (H2 HP1). cbn [bind]. rewrite (H3 HP1 HP2). cbn [bind].
    rewrite (H4 HP1 HP2 HA). cbn [bind]. rewrite (H5 HP1 HP2 HA).
    eexists. split; [reflexivity|]. split; [reflexivity|].
    assert (Hsegs : Forall (fun s : list (Slot (option E)) => length s = n)
                      [map Init VL; map Init PseudoVars1; map Init PseudoVars2;
                       map Init (repeat None n); map Init Assignments])
      by segment_lengths.
    repeat split.
    + eapply ArrayRef_elements_nth with (j := 0%nat) (n := n);
        [reflexivity | exact Hsegs | reflexivity | array_start | array_start].
    + eapply ArrayRef_elements_nth with (j := 1%nat) (n := n);
        [reflexivity | exact Hsegs | reflexivity | array_start | array_start].
    + eapply ArrayRef_elements_nth with (j := 2%nat) (n := n);
        [reflexivity | exact Hsegs | reflexivity | array_start | array_start].
    + eapply ArrayRef_elements_nth with (j := 3%nat) (n := n);
        [reflexivity | exact Hsegs | reflexivity | array_start | array_start].
    + eapply ArrayRef_elements_nth with (j := 4%nat) (n := n);
        [reflexivity | exact Hsegs | reflexivity | array_start | array_start].
    + cbn [OMPClause_storage concat]. rewrite app_nil_r.
      repeat apply all_written_app; apply all_written_map_Init.
  - intros Hnot.
    destruct (Nat.eq_dec (length PseudoVars1) n) as [HP1|HP1].
    + rewrite (H2 HP1). cbn [bind].
      destruct (Nat.eq_dec (length PseudoVars2) n) as [HP2|HP2].
      * rewrite (H3 HP1 HP2). cbn [bind].
        destruct (Nat.eq_dec (length Assignments) n) as [HA|HA]; [tauto|].
        eexists.
        change (OMPLastPrivateClause_setAssignments Assignments ?x)
          with (checked_copy "Number of inits is not the same as the preallocated buffer"
                  (fun c0 => ArrayRef_end (OMPLastPrivateClause_getDefaultInits c0))
                  Assignments x).
        rewrite checked_copy_rejects; [reflexivity|].
        unfold varlist_size, list_size, N. cbn [NumVars]. lia.
      * eexists.
        change (OMPLastPrivateClause_setPseudoVars2 PseudoVars2 ?x)
          with (checked_copy "Number of vars is not the same as the preallocated buffer"
                  (fun c0 => ArrayRef_end (OMPLastPrivateClause_getPseudoVars1 c0))
                  PseudoVars2 x).
        rewrite checked_copy_rejects; [reflexivity|].
        unfold varlist_size, list_size, N. cbn [NumVars]. lia.
    + eexists.
      change (OMPLastPrivateClause_setPseudoVars1 PseudoVars1 ?x)
        with (checked_copy "Number of vars is not the same as the preallocated buffer"
                (fun c0 => varlist_end c0) PseudoVars1 x).
      rewrite checked_copy_rejects; [reflexivity|].
      unfold varlist_size, list_size, N. cbn [NumVars]. lia.
Qed.

(** X11: [OMPReductionClause::Create] on a variable list and four arrays
    of the same length returns a clause in which the five arrays read
    back as given, each in its own segment of the storage, and no slot is
    left unwritten.  When the operator expressions have another length
    than the variable list it stops at its own assertion, before
    anything is allocated; when a later array has another length it stops
    at the assertion of the setter. *)
Theorem OMPReductionClause_Create_roundtrip
    (VL OpExprs HelperParams1 HelperParams2 DefaultInits : list (option E)) :
  (length OpExprs = length VL /\ length HelperParams1 = length VL /\
   length HelperParams2 = length VL /\ length DefaultInits = length VL ->
   exists c,
     OMPReductionClause_Create VL OpExprs HelperParams1 HelperParams2 DefaultInits
     = Returned c /\
     varlist_size c = list_size VL /\
     ArrayRef_elements c (OMPVarList_varlists c) = Returned VL /\
     ArrayRef_elements c (OMPReductionClause_getOpExprs c) = Returned OpExprs /\
     ArrayRef_elements c (OMPReductionClause_getHelperParameters1st c)
     = Returned HelperParams1 /\
     ArrayRef_elements c (OMPReductionClause_getHelperParameters2nd c)
     = Returned HelperParams2 /\
     ArrayRef_elements c (OMPReductionClause_getDefaultInits c) = Returned DefaultInits /\
     all_written (OMPClause_storage c)) /\
  (length OpExprs <> length VL ->
   OMPReductionClause_Create VL OpExprs HelperParams1 HelperParams2 DefaultInits
   = AssertionFailed "Number of expressions is not the same as number of variables!") /\
  (length OpExprs = length VL ->
   ~ (length HelperParams1 = length VL /\ length HelperParams2 = length VL /\
      length DefaultInits = length VL) ->
   exists msg,
     OMPReductionClause_Create VL OpExprs HelperParams1 HelperParams2 DefaultInits
     = AssertionFailed msg /\
     msg <> "Number of expressions is not the same as number of variables!"%string).
Proof.
  set (n := length VL).
  set (U := new_array (option E) n).
  set (N := Z.of_nat n).
  assert (Hnew : OMPVarListClause_new E (list_size VL) 5
                 = mkOMPVarListClause N (concat [U; U; U; U; U]))
    by apply (OMPVarListClause_new_segments n 5).
  unfold OMPReductionClause_Create. rewrite Hnew.
  assert (H1 : OMPVarList_setVars VL (mkOMPVarListClause N (concat [U; U; U; U; U]))
               = Returned (mkOMPVarListClause N (concat [map Init VL; U; U; U; U]))).
  { apply (@checked_copy_nth _ (fun c => varlist_begin c) VL N [U; U; U; U; U] 0 n);
      [segment_lengths | reflexivity | cbn [length]; lia | array_start | reflexivity]. }
  rewrite H1. cbn [bind].
  assert (H2 : length OpExprs = n ->
               OMPReductionClause_setOpExprs OpExprs
                 (mkOMPVarListClause N (concat [map Init VL; U; U; U; U]))
               = Returned (mkOMPVarListClause N
                             (concat [map Init VL; map Init OpExprs; U; U; U]))).
  { intros HP1.
    apply (@checked_copy_nth _ (fun c => varlist_end c) OpExprs N
             [map Init VL; U; U; U; U] 1 n);
      [segment_lengths | reflexivity | cbn [length]; lia | array_start
      | unfold list_size, N; now rewrite HP1]. }
  assert (H3 : length OpExprs = n -> length HelperParams1 = n ->
               OMPReductionClause_setHelperParameters1st HelperParams1
                 (mkOMPVarListClause N (concat [map Init VL; map Init OpExprs; U; U; U]))
               = Returned (mkOMPVarListClause N
                             (concat [map Init VL; map Init OpExprs;
                                      map Init HelperParams1; U; U]))).
  { intros HP1 HP2.
    apply (@checked_copy_nth _
             (fun c => ArrayRef_end (OMPReductionClause_getOpExprs c)) HelperParams1 N
             [map Init VL; map Init OpExprs; U; U; U] 2 n);
      [segment_lengths | reflexivity | cbn [length]; lia | array_start
      | unfold list_size, N; now rewrite HP2]. }
  assert (H4 : length OpExprs = n -> length HelperParams1 = n ->
               length HelperParams2 = n ->
               OMPReductionClause_setHelperParameters2nd HelperParams2
                 (mkOMPVarListClause N
                    (concat [map Init VL; map Init OpExprs; map Init HelperParams1; U; U]))
               = Returned (mkOMPVarListClause N
                             (concat [map Init VL; map Init OpExprs;
                                      map Init HelperParams1; map Init HelperParams2; U]))).
  { intros HP1 HP2 HP3.
    apply (@checked_copy_nth _
             (fun c => ArrayRef_end (OMPReductionClause_getHelperParameters1st c))
             HelperParams2 N
             [map Init VL; map Init OpExprs; map Init HelperParams1; U; U] 3 n);
      [segment_lengths | reflexivity | cbn [length]; lia | array_start
      | unfold list_size, N; now rewrite HP3]. }
  assert (H5 : length OpExprs = n -> length HelperParams1 = n ->
               length HelperParams2 = n -> length DefaultInits = n ->
               OMPReductionClause_setDefaultInits DefaultInits
                 (mkOMPVarListClause N
                    (concat [map Init VL; map Init OpExprs; map Init HelperParams1;
                             map Init HelperParams2; U]))
               = Returned (mkOMPVarListClause N
                             (concat [map Init VL; map Init OpExprs;
                                      map Init HelperParams1; map Init HelperParams2;
                                      map Init DefaultInits]))).
  { intros HP1 HP2 HP3 HP4.
    apply (@checked_copy_nth _
             (fun c => ArrayRef_end (OMPReductionClause_getHelperParameters2nd c))
             DefaultInits N
             [map Init VL; map Init OpExprs; map Init HelperParams1;
              map Init HelperParams2; U] 4 n);
      [segment_lengths | reflexivity | cbn [length]; lia | array_start
      | unfold list_size, N; now rewrite HP4]. }
  assert (Hyes : length OpExprs = n -> (list_size VL =? list_size OpExprs) = true).
  { intros HP1. unfold list_size. rewrite HP1. apply Z.eqb_refl. }
  split; [|split].
  - intros (HP1 & HP2 & HP3 & HP4).
    rewrite (Hyes HP1). cbn [assert_that bind].
    rewrite (H2 HP1). cbn [bind]. rewrite (H3 HP1 HP2). cbn [bind].
    rewrite (H4 HP1 HP2 HP3). cbn [bind]. rewrite (H5 HP1 HP2 HP3 HP4).
    eexists. split; [reflexivity|]. split; [reflexivity|].
    assert (Hsegs : Forall (fun s : list (Slot (option E)) => length s = n)
                      [map Init VL; map Init OpExprs; map Init HelperParams1;
                       map Init HelperParams2; map Init DefaultInits])
      by segment_lengths.
    repeat split.
    + eapply ArrayRef_elements_nth with (j := 0%nat) (n := n);
        [reflexivity | exact Hsegs | reflexivity | array_start | array_start].
    + eapply ArrayRef_elements_nth with (j := 1%nat) (n := n);
        [reflexivity | exact Hsegs | reflexivity | array_start | array_start].
    + eapply ArrayRef_elements_nth with (j := 2%nat) (n := n);
        [reflexivity | exact Hsegs | reflexivity | array_start | array_start].
    + eapply ArrayRef_elements_nth with (j := 3%nat) (n := n);
        [reflexivity | exact Hsegs | reflexivity | array_start | array_start].
    + eapply ArrayRef_elements_nth with (j := 4%nat) (n := n);
        [reflexivity | exact Hsegs | reflexivity | array_start | array_start].
    + cbn [OMPClause_storage concat]. rewrite app_nil_r.
      repeat apply all_written_app; apply all_written_map_Init.
  - intros HP1.
    assert (Hno : (list_size VL =? list_size OpExprs) = false)
      by (apply Z.eqb_neq; unfold list_size; fold n; lia).
    rewrite Hno. reflexivity.
  - intros HP1 Hnot. rewrite (Hyes HP1). cbn [assert_that bind].
    rewrite (H2 HP1). cbn [bind].
    destruct (Nat.eq_dec (length HelperParams1) n) as [HP2|HP2].
    + rewrite (H3 HP1 HP2). cbn [bind].
      destruct (Nat.eq_dec (length HelperParams2) n) as [HP3|HP3].
      * rewrite (H4 HP1 HP2 HP3). cbn [bind].
        destruct (Nat.eq_dec (length DefaultInits) n) as [HP4|HP4]; [tauto|].
        eexists.
        change (OMPReductionClause_setDefaultInits DefaultInits ?x)
          with (checked_copy "Number of inits is not the same as the preallocated buffer"
                  (fun c0 => ArrayRef_end (OMPReductionClause_getHelperParameters2nd c0))
                  DefaultInits x).
        rewrite checked_copy_rejects; [split; [reflexivity | discriminate]|].
        unfold varlist_size, list_size, N. cbn [NumVars]. lia.
      * eexists.
        change (OMPReductionClause_setHelperParameters2nd HelperParams2 ?x)
          with (checked_copy
                  "Number of expressions is not the same as the number of variables."
                  (fun c0 => ArrayRef_end (OMPReductionClause_getHelperParameters1st c0))
                  HelperParams2 x).
        rewrite checked_copy_rejects; [split; [reflexivity | discriminate]|].
        unfold varlist_size, list_size, N. cbn [NumVars]. lia.
    + eexists.
      change (OMPReductionClause_setHelperParameters1st HelperParams1 ?x)
        with (checked_copy
                "Number of expressions is not the same as the number of variables."
                (fun c0 => ArrayRef_end (OMPReductionClause_getOpExprs c0))
                HelperParams1 x).
      rewrite checked_copy_rejects; [split; [reflexivity | discriminate]|].
      unfold varlist_size, list_size, N. cbn [NumVars]. lia.
Qed.

End OMPClauseFactoryProperties.

Lemma OMPLastPrivateClause_Create_roundtrip_witness :
  (length [Some 3%nat; None] = length [Some 1%nat; Some 2%nat] /\
   length [Some 5%nat; Some 6%nat] = length [Some 1%nat; Some 2%nat] /\
   length [None; Some 8%nat] = length [Some 1%nat; Some 2%nat]) /\
  exists c,
    OMPLastPrivateClause_Create [Some 1%nat; Some 2%nat] [Some 3%nat; None]
      [Some 5%nat; Some 6%nat] [None; Some 8%nat] = Returned c /\
    ArrayRef_elements c (OMPLastPrivateClause_getDefaultInits c) = Returned [None; None] /\
    ArrayRef_elements c (OMPLastPrivateClause_getAssignments c)
    = Returned [None; Some 8%nat].
Proof.
  assert (H : length [Some 3%nat; None] = length [Some 1%nat; Some 2%nat] /\
              length [Some 5%nat; Some 6%nat] = length [Some 1%nat; Some 2%nat] /\
              length [None; Some 8%nat] = length [Some 1%nat; Some 2%nat])
    by (repeat split; reflexivity).
  split; [exact H|].
  destruct (proj1 (@OMPLastPrivateClause_Create_roundtrip nat [Some 1%nat; Some 2%nat]
                     [Some 3%nat; None] [Some 5%nat; Some 6%nat] [None; Some 8%nat]) H)
    as (c & Hc & _ & _ & _ & _ & Hd & Ha & _).
  exists c. repeat split; assumption.
Defined.

Lemma OMPReductionClause_Create_roundtrip_witness :
  (length [Some 2%nat] = length [Some 1%nat] /\ length [Some 3%nat] = length [Some 1%nat] /\
   length [@None nat] = length [Some 1%nat] /\ length [Some 5%nat] = length [Some 1%nat]) /\
  exists c,
    OMPReductionClause_Create [Some 1%nat] [Some 2%nat] [Some 3%nat] [None] [Some 5%nat]
    = Returned c /\
    ArrayRef_elements c (OMPReductionClause_getHelperParameters2nd c) = Returned [None].
Proof.
  assert (H : length [Some 2%nat] = length [Some 1%nat] /\
              length [Some 3%nat] = length [Some 1%nat] /\
              length [@None nat] = length [Some 1%nat] /\
              length [Some 5%nat] = length [Some 1%nat])
    by (repeat split; reflexivity).
  split; [exact H|].
  destruct (proj1 (@OMPReductionClause_Create_roundtrip nat [Some 1%nat] [Some 2%nat]
                     [Some 3%nat] [None] [Some 5%nat]) H)
    as (c & Hc & _ & _ & _ & _ & H2 & _).
  exists c. split; assumption.
Defined.

(** ** [CapturedStmt::capturesVariable] *)

Section CapturedStmtCapturesProperties.

Variables S Capture CapturedDecl RecordDecl VarDecl : Type.
Variable Capture_capturesVariable : Capture -> bool.
Variable Capture_getCapturedVar : Capture -> outcome (option VarDecl).
Variable VarDecl_ptr_eqb : option VarDecl -> option VarDecl -> bool.

(** [Capture::getCapturedVar] asserts that the capture is not one of
    [this]. *)
Hypothesis Capture_getCapturedVar_returns :
  forall C, Capture_capturesVariable C = true ->
            exists V, Capture_getCapturedVar C = Returned V.

Lemma CapturedStmt_capturesVariable_loop_spec (Var : option VarDecl)
    (todo : list Capture) :
  forall done : list Capture,
    CapturedStmt_capturesVariable_loop Capture_capturesVariable Capture_getCapturedVar
      VarDecl_ptr_eqb (map Init (done ++ todo)) Var (Z.of_nat (length done)) (length todo)
    = Returned (captured_in Capture_capturesVariable Capture_getCapturedVar
                  VarDecl_ptr_eqb Var todo).
Proof.
  induction todo as [|C todo IH]; intros done; [reflexivity|].
  cbn [CapturedStmt_capturesVariable_loop length].
  rewrite (@array_read_at _ _ (map Init done) (map Init todo) _ C)
    by (now rewrite ?map_app, ?length_map).
  cbn [bind]. unfold captured_in. cbn [existsb].
  replace (Z.of_nat (length done) + 1) with (Z.of_nat (length (done ++ [C])))
    by (rewrite length_app; cbn [length]; lia).
  replace (done ++ C :: todo) with ((done ++ [C]) ++ todo) by now rewrite <- app_assoc.
  destruct (Capture_capturesVariable C) eqn:HC; cbn [negb andb orb].
  - destruct (Capture_getCapturedVar_returns HC) as [V HV]. rewrite HV. cbn [bind].
    destruct (VarDecl_ptr_eqb V Var); [reflexivity|]. apply IH.
  - apply IH.
Qed.

(** X12: on a node built by [CapturedStmt::Create] from a statement and
    declarations that are not null and as many initializers as captures,
    in an allocation whose size fits the [unsigned] that [Create]
    computes it in, [CapturedStmt::capturesVariable] returns, and
    returns true exactly when one of the captures given to [Create]
    captures a variable and that variable is [Var]: a capture of [this]
    is skipped before its variable is asked for, so that no assertion
    fails, and never matches, not even the null pointer. *)
Theorem CapturedStmt_capturesVariable_spec (L : CapturedLayout) (S' : option S)
    (Kind : CapturedRegionKind)
    (Captures : list Capture) (CaptureInits : list (option S))
    (CD : option CapturedDecl) (RD : option RecordDecl) (Var : option VarDecl) :
  is_nonnull S' = true -> is_nonnull CD = true -> is_nonnull RD = true ->
  length CaptureInits = length Captures ->
  0 <= sizeof_CapturedStmt L -> 0 < CapturedLayout_sizeof_StmtPtr L ->
  0 < sizeof_Capture L -> 0 < alignOf_Capture L ->
  sizeof_CapturedStmt L + CapturedLayout_sizeof_StmtPtr L * (list_size Captures + 1)
  + alignOf_Capture L + sizeof_Capture L * list_size Captures < 2 ^ 32 ->
  exists c,
    CapturedStmt_Create L S' Kind Captures CaptureInits CD RD = Returned c /\
    CapturedStmt_capturesVariable Capture_capturesVariable Capture_getCapturedVar
      VarDecl_ptr_eqb c Var
    = Returned (captured_in Capture_capturesVariable Capture_getCapturedVar
                  VarDecl_ptr_eqb Var Captures) /\
    ((forall C, In C Captures -> Capture_capturesVariable C = false) ->
     CapturedStmt_capturesVariable Capture_capturesVariable Capture_getCapturedVar
       VarDecl_ptr_eqb c Var = Returned false).
Proof.
  intros HS HCD HRD Hlen Hhdr Hptr Hcap Halign Hfit.
  eexists. split; [now apply CapturedStmt_Create_returns|].
  assert (Hspec : CapturedStmt_capturesVariable Capture_capturesVariable
                    Capture_getCapturedVar VarDecl_ptr_eqb
                    (mkCapturedStmt (list_size Captures) CD Kind RD
                       (map Init CaptureInits ++ [Init S']) (map Init Captures)) Var
                  = Returned (captured_in Capture_capturesVariable Capture_getCapturedVar
                                VarDecl_ptr_eqb Var Captures)).
  { unfold CapturedStmt_capturesVariable, list_size. cbn [StoredCaptures NumCaptures].
    rewrite Nat2Z.id. apply (CapturedStmt_capturesVariable_loop_spec Var Captures []). }
  split; [exact Hspec|].
  intros Hthis. rewrite Hspec. f_equal. unfold captured_in.
  apply not_true_is_false. intros Hex. apply existsb_exists in Hex.
  destruct Hex as (C & HC & Hb). rewrite (Hthis C HC) in Hb. discriminate.
Qed.

End CapturedStmtCapturesProperties.

Lemma CapturedStmt_capturesVariable_spec_witness :
  exists c,
    CapturedStmt_Create CapturedLayout_LP64 (Some 9%nat) CR_Default [None; Some 4%nat]
      [Some 1%nat; Some 2%nat] (Some tt) (Some tt) = Returned c /\
    CapturedStmt_capturesVariable Sample_capturesVariable Sample_getCapturedVar
      Sample_ptr_eqb c (Some 4%nat)
    = Returned (captured_in Sample_capturesVariable Sample_getCapturedVar
                  Sample_ptr_eqb (Some 4%nat) [None; Some 4%nat]) /\
    ((forall C, In C [None; Some 4%nat] -> Sample_capturesVariable C = false) ->
     CapturedStmt_capturesVariable Sample_capturesVariable Sample_getCapturedVar
       Sample_ptr_eqb c (Some 4%nat) = Returned false).
Proof.
  apply (@CapturedStmt_capturesVariable_spec nat (option nat) unit unit nat
           Sample_capturesVariable Sample_getCapturedVar Sample_ptr_eqb).
  - intros [v|] H; [eexists; reflexivity | discriminate H].
  - reflexivity.
  - reflexivity.
  - reflexivity.
  - reflexivity.
  - simpl. lia.
  - simpl. lia.
  - simpl. lia.
  - simpl. lia.
  - vm_compute. reflexivity.
Defined.

Example CapturedStmt_capturesVariable_this_and_null :
  (c <- CapturedStmt_Create CapturedLayout_LP64 (Some 9%nat) CR_Default
          [None; Some 4%nat] [Some 1%nat; Some 2%nat] (Some tt) (Some tt) ;;
   CapturedStmt_capturesVariable Sample_capturesVariable Sample_getCapturedVar
     Sample_ptr_eqb c None) = Returned false /\
  (c <- CapturedStmt_Create CapturedLayout_LP64 (Some 9%nat) CR_Default
          [None; Some 4%nat] [Some 1%nat; Some 2%nat] (Some tt) (Some tt) ;;
   CapturedStmt_capturesVariable Sample_capturesVariable Sample_getCapturedVar
     Sample_ptr_eqb c (Some 4%nat)) = Returned true.
Proof. split; reflexivity. Qed.

(** ** [MSAsmStmt] *)

Lemma copyIntoContext_returns (str : StringRef) : copyIntoContext str = Returned str.
Proof.
  unfold copyIntoContext.
  pose proof (@memcpy_elements_spec ascii (length str) [] str [] []
                (new_array ascii (length str)) eq_refl eq_refl
                (new_array_length ascii (length str))) as H.
  cbn [app length Z.of_nat] in H. rewrite app_nil_r in H. rewrite H. cbn [bind].
  apply read_range_all.
Qed.

Lemma initialize_loop_spec (A B : Type) (f : A -> outcome B) (g : A -> B)
    (todo : list A) :
  (forall x, f x = Returned (g x)) ->
  forall (done : list A) (pre old : list (Slot B)),
    length pre = length done -> length old = length todo ->
    initialize_loop f (done ++ todo) (pre ++ old) (Z.of_nat (length done)) (length todo)
    = Returned (pre ++ map Init (map g todo)).
Proof.
  intros Hf. induction todo as [|x todo IH]; intros done pre old Hpre Hold.
  - destruct old; [|discriminate]. reflexivity.
  - destruct old as [|o old]; [discriminate|].
    cbn [initialize_loop length].
    rewrite ArrayRef_index_after_prefix. cbn [bind]. rewrite Hf. cbn [bind].
    rewrite <- Hpre, array_write_after_prefix. cbn [bind].
    replace (Z.of_nat (length pre) + 1) with (Z.of_nat (length (done ++ [x])))
      by (rewrite length_app; cbn [length]; lia).
    replace (pre ++ Init (g x) :: old) with ((pre ++ [Init (g x)]) ++ old)
      by now rewrite <- app_assoc.
    replace (done ++ x :: todo) with ((done ++ [x]) ++ todo) by now rewrite <- app_assoc.
    rewrite IH.
    + cbn [map]. now rewrite <- app_assoc.
    + rewrite !length_app. cbn [length]. lia.
    + cbn [length] in Hold. lia.
Qed.

Lemma initialize_loop_fresh (A B : Type) (f : A -> outcome B) (g : A -> B)
    (src : list A) :
  (forall x, f x = Returned (g x)) ->
  initialize_loop f src (new_array B (length src)) 0 (length src)
  = Returned (map Init (map g src)).
Proof.
  intros Hg.
  apply (@initialize_loop_spec A B f g src Hg [] [] (new_array B (length src)) eq_refl).
  apply new_array_length.
Qed.

Section MSAsmStmtProperties.

Variables Expr Token : Type.

(** X13: [MSAsmStmt::MSAsmStmt] returns exactly when the number of
    expressions is the sum of the outputs and the inputs and the number
    of constraints is that of the expressions; it then holds its own
    copies of the assembly string, the expressions, the tokens, the
    constraints and the clobbers, in order, and
    [MSAsmStmt::generateAsmString] is the assembly string as given.
    Otherwise it stops at an assertion of [initialize]. *)
Theorem MSAsmStmt_MSAsmStmt_returns_iff (asmloc lbraceloc : SourceLocation)
    (issimple isvolatile : bool) (asmtoks : list Token) (numoutputs numinputs : Z)
    (constraints : list StringRef) (exprs : list (option Expr)) (asmstr : StringRef)
    (clobbers : list StringRef) (endloc : SourceLocation) :
  list_size asmtoks < 2 ^ 32 -> list_size clobbers < 2 ^ 32 ->
  list_size exprs < 2 ^ 32 ->
  (list_size exprs = to_unsigned (numoutputs + numinputs) /\
   list_size constraints = list_size exprs ->
   exists s,
     MSAsmStmt_MSAsmStmt asmloc lbraceloc issimple isvolatile asmtoks numoutputs
       numinputs constraints exprs asmstr clobbers endloc = Returned s /\
     s = mkMSAsmStmt asmloc issimple isvolatile numoutputs numinputs (list_size clobbers)
           (map Init exprs) lbraceloc endloc asmstr (list_size asmtoks)
           (map Init asmtoks) (map Init constraints) (map Init clobbers) /\
     MSAsmStmt_generateAsmString s = asmstr) /\
  (~ (list_size exprs = to_unsigned (numoutputs + numinputs) /\
      list_size constraints = list_size exprs) ->
   exists msg,
     MSAsmStmt_MSAsmStmt asmloc lbraceloc issimple isvolatile asmtoks numoutputs
       numinputs constraints exprs asmstr clobbers endloc = AssertionFailed msg).
Proof.
  intros Htoks Hclob Hexprs.
  assert (Hu : forall A (l : list A), list_size l < 2 ^ 32 ->
                 to_unsigned (list_size l) = list_size l).
  { intros A l H. unfold to_unsigned, list_size in *. apply Z.mod_small. lia. }
  unfold MSAsmStmt_MSAsmStmt, MSAsmStmt_initialize.
  cbn [MS_NumAsmToks MS_NumClobbers MS_NumOutputs MS_NumInputs MS_AsmLoc MS_IsSimple
       MS_IsVolatile MS_LBraceLoc MS_EndLoc].
  rewrite !Hu by assumption. rewrite !Z.eqb_refl. cbn [assert_that bind].
  split.
  - intros [He Hc]. rewrite <- He, Z.eqb_refl. cbn [assert_that bind].
    replace (list_size exprs =? list_size constraints) with true
      by (symmetry; apply Z.eqb_eq; congruence).
    cbn [bind]. rewrite copyIntoContext_returns. cbn [bind].
    assert (Hlen : length constraints = length exprs) by (unfold list_size in Hc; lia).
    unfold list_size. rewrite !Nat2Z.id.
    rewrite (@initialize_loop_fresh _ _ _ (fun e => e) exprs) by reflexivity.
    cbn [bind].
    rewrite (@initialize_loop_fresh _ _ _ (fun e => e) asmtoks) by reflexivity.
    cbn [bind].
    rewrite <- Hlen.
    rewrite (@initialize_loop_fresh _ _ _ (fun e => e) constraints)
      by apply copyIntoContext_returns.
    cbn [bind].
    rewrite (@initialize_loop_fresh _ _ _ (fun e => e) clobbers)
      by apply copyIntoContext_returns.
    cbn [bind]. rewrite !map_id.
    eexists. split; [reflexivity|]. split; reflexivity.
  - intros Hnot.
    destruct (list_size exprs =? to_unsigned (numoutputs + numinputs)) eqn:He;
      [|eexists; reflexivity].
    apply Z.eqb_eq in He. cbn [bind].
    destruct (list_size exprs =? list_size constraints) eqn:Hc; [|eexists; reflexivity].
    apply Z.eqb_eq in Hc. exfalso. apply Hnot. split; congruence.
Qed.

Lemma array_write_read (A : Type) (a a' : list (Slot A)) (i : Z) (v : A) :
  array_write a i v = Returned a' ->
  array_read a' i = Returned v /\
  (forall j, j <> i -> array_read a' j = array_read a j).
Proof.
  intros H. pose proof (array_write_returned _ _ _ H) as [Hb _].
  unfold array_write in H.
  destruct ((0 <=? i) && (i <? Z.of_nat (length a)))%bool; [|discriminate].
  injection H as <-.
  assert (Hf : length (firstn (Z.to_nat i) a) = Z.to_nat i)
    by (rewrite length_firstn; lia).
  split.
  - unfold array_read. destruct (0 <=? i) eqn:H0; [|apply Z.leb_gt in H0; lia].
    rewrite nth_error_app2 by lia. rewrite Hf, Nat.sub_diag. reflexivity.
  - intros j Hj. unfold array_read. destruct (0 <=? j) eqn:H0; [|reflexivity].
    apply Z.leb_le in H0.
    destruct (Z_lt_le_dec j i) as [Hlt|Hge].
    + rewrite nth_error_app1 by lia. rewrite nth_error_firstn.
      destruct (Nat.ltb_spec (Z.to_nat j) (Z.to_nat i)); [reflexivity | lia].
    + rewrite nth_error_app2 by lia. rewrite Hf.
      destruct (Z.to_nat j - Z.to_nat i)%nat as [|k] eqn:Hk; [lia|].
      cbn [nth_error]. rewrite nth_error_skipn.
      replace (Z.to_nat i + 1 + k)%nat with (Z.to_nat j) by lia. reflexivity.
Qed.

(** X14: [MSAsmStmt::setInputExpr] on input [i] writes slot
    [i + NumOutputs] of the expressions.  When that slot exists,
    [getInputExpr(i)] afterwards is the expression set (an assertion of
    [cast] for the null pointer), every other input and every output
    reads as before, and the assembly string is unchanged.  When there is
    no such slot the write is outside the array. *)
Theorem MSAsmStmt_setInputExpr_getInputExpr (this : MSAsmStmt Expr Token) (i : Z)
    (E : option Expr) :
  0 <= i -> 0 <= MS_NumOutputs this -> i + MS_NumOutputs this < 2 ^ 32 ->
  (i + MS_NumOutputs this < list_size (MS_Exprs this) ->
   exists s,
     MSAsmStmt_setInputExpr this i E = Returned s /\
     MSAsmStmt_getInputExpr s i = cast_Expr E /\
     (forall j, 0 <= j -> j <> i -> j + MS_NumOutputs this < 2 ^ 32 ->
                MSAsmStmt_getInputExpr s j = MSAsmStmt_getInputExpr this j) /\
     (forall k, 0 <= k < MS_NumOutputs this ->
                MSAsmStmt_getOutputExpr s k = MSAsmStmt_getOutputExpr this k) /\
     MS_NumOutputs s = MS_NumOutputs this /\ MS_NumInputs s = MS_NumInputs this /\
     MSAsmStmt_generateAsmString s = MSAsmStmt_generateAsmString this) /\
  (list_size (MS_Exprs this) <= i + MS_NumOutputs this ->
   MSAsmStmt_setInputExpr this i E = Undefined).
Proof.
  intros Hi HO Hfit. unfold MSAsmStmt_setInputExpr, list_size.
  assert (Hu : forall j, 0 <= j -> j + MS_NumOutputs this < 2 ^ 32 ->
                 to_unsigned (j + MS_NumOutputs this) = j + MS_NumOutputs this)
    by (intros j Hj Hjf; unfold to_unsigned; apply Z.mod_small; lia).
  rewrite (Hu i Hi Hfit). split.
  - intros Hin.
    destruct (array_write (MS_Exprs this) (i + MS_NumOutputs this) E) as [a'| | |] eqn:Hw.
    2-4: unfold array_write in Hw;
         replace ((0 <=? i + MS_NumOutputs this)
                  && (i + MS_NumOutputs this <? Z.of_nat (length (MS_Exprs this))))%bool
           with true in Hw by (symmetry; apply andb_true_intro; split;
                               [apply Z.leb_le | apply Z.ltb_lt]; lia);
         discriminate.
    cbn [bind]. destruct (array_write_read _ _ _ Hw) as [Hsame Hother].
    eexists. split; [reflexivity|].
    unfold MSAsmStmt_getInputExpr, MSAsmStmt_getOutputExpr, MSAsmStmt_generateAsmString.
    cbn [MS_Exprs MS_NumOutputs MS_NumInputs MS_AsmStr].
    rewrite (Hu i Hi Hfit), Hsame. cbn [bind].
    split; [reflexivity|]. split; [|split; [|repeat split]].
    + intros j Hj Hne Hjf. rewrite (Hu j Hj Hjf), Hother by lia. reflexivity.
    + intros k Hk. rewrite Hother by lia. reflexivity.
  - intros Hout. unfold array_write.
    replace (i + MS_NumOutputs this <? Z.of_nat (length (MS_Exprs this))) with false
      by (symmetry; apply Z.ltb_ge; lia).
    now rewrite andb_false_r.
Qed.

End MSAsmStmtProperties.

Lemma MSAsmStmt_MSAsmStmt_returns_iff_witness :
  (list_size [Some 1%nat; None; Some 3%nat] = to_unsigned (1 + 2) /\
   list_size [lit "=r"; lit "r"; lit "m"] = list_size [Some 1%nat; None; Some 3%nat] ->
   exists s,
     MSAsmStmt_MSAsmStmt 5 6 false true [tt; tt] 1 2 [lit "=r"; lit "r"; lit "m"]
       [Some 1%nat; None; Some 3%nat] (lit "mov eax, ebx") [lit "memory"] 9 = Returned s /\
     s = mkMSAsmStmt 5 false true 1 2 (list_size [lit "memory"])
           (map Init [Some 1%nat; None; Some 3%nat]) 6 9 (lit "mov eax, ebx")
           (list_size [tt; tt]) (map Init [tt; tt])
           (map Init [lit "=r"; lit "r"; lit "m"]) (map Init [lit "memory"]) /\
     MSAsmStmt_generateAsmString s = lit "mov eax, ebx") /\
  (~ (list_size [Some 1%nat; None; Some 3%nat] = to_unsigned (1 + 2) /\
      list_size [lit "=r"; lit "r"; lit "m"] = list_size [Some 1%nat; None; Some 3%nat]) ->
   exists msg,
     MSAsmStmt_MSAsmStmt 5 6 false true [tt; tt] 1 2 [lit "=r"; lit "r"; lit "m"]
       [Some 1%nat; None; Some 3%nat] (lit "mov eax, ebx") [lit "memory"] 9
     = AssertionFailed msg).
Proof.
  apply (@MSAsmStmt_MSAsmStmt_returns_iff nat unit 5 6 false true [tt; tt] 1 2
           [lit "=r"; lit "r"; lit "m"] [Some 1%nat; None; Some 3%nat]
           (lit "mov eax, ebx") [lit "memory"] 9).
  - vm_compute. reflexivity.
  - vm_compute. reflexivity.
  - vm_compute. reflexivity.
Defined.

Lemma MSAsmStmt_setInputExpr_getInputExpr_witness :
  let this := mkMSAsmStmt 5 false true 1 2 0
                (map Init [Some 1%nat; None; Some 3%nat]) 6 9 (lit "nop") 0
                (@nil (Slot unit)) [] [] in
  (1 + MS_NumOutputs this < list_size (MS_Exprs this) ->
   exists s,
     MSAsmStmt_setInputExpr this 1 (Some 8%nat) = Returned s /\
     MSAsmStmt_getInputExpr s 1 = cast_Expr (Some 8%nat) /\
     (forall j, 0 <= j -> j <> 1 -> j + MS_NumOutputs this < 2 ^ 32 ->
                MSAsmStmt_getInputExpr s j = MSAsmStmt_getInputExpr this j) /\
     (forall k, 0 <= k < MS_NumOutputs this ->
                MSAsmStmt_getOutputExpr s k = MSAsmStmt_getOutputExpr this k) /\
     MS_NumOutputs s = MS_NumOutputs this /\ MS_NumInputs s = MS_NumInputs this /\
     MSAsmStmt_generateAsmString s = MSAsmStmt_generateAsmString this) /\
  (list_size (MS_Exprs this) <= 1 + MS_NumOutputs this ->
   MSAsmStmt_setInputExpr this 1 (Some 8%nat) = Undefined).
Proof.
  intros this.
  apply (@MSAsmStmt_setInputExpr_getInputExpr nat unit this 1 (Some 8%nat)).
  - lia.
  - simpl. lia.
  - simpl. lia.
Defined.

(** ** [Stmt::stripLabelLikeStatements] and [Stmt::IgnoreImplicit] *)

Section StmtTreeProperties.

Variable Other : Type.

(** Induction on a statement with the sub-statement its class follows. *)
Lemma StmtTree_induction (P : StmtTree Other -> Prop) :
  (forall S, (forall S', label_like_sub S = Some S' -> P S') ->
             is_label_like S = true -> P S) ->
  (forall p, (forall S', p = Some S' -> P S') -> P (ExprWithCleanups p)) ->
  (forall p, (forall S', p = Some S' -> P S') -> P (ImplicitCastExpr p)) ->
  (forall s, P (OtherStmt s)) ->
  forall S, P S.
Proof.
  intros HL HE HI HO. fix IH 1.
  intros [p|p|p|p|p|p|s].
  1-4: apply HL; [|reflexivity]; cbn [label_like_sub]; destruct p as [S'|];
       intros S'' [= <-]; apply IH.
  - apply HE. destruct p as [S'|]; intros S'' [= <-]. apply IH.
  - apply HI. destruct p as [S'|]; intros S'' [= <-]. apply IH.
  - apply HO.
Qed.

Lemma Stmt_stripLabelLikeStatements_label_like (S : StmtTree Other) :
  is_label_like S = true ->
  Stmt_stripLabelLikeStatements S
  = match label_like_sub S with
    | Some S' => Stmt_stripLabelLikeStatements S'
    | None => AssertionFailed "isa<> used on a null pointer"
    end.
Proof. destruct S as [p|p|p|p|p|p|s]; intros H; try discriminate H; reflexivity. Qed.

Lemma Stmt_stripLabelLikeStatements_other (S : StmtTree Other) :
  is_label_like S = false -> Stmt_stripLabelLikeStatements S = Returned S.
Proof. destruct S as [p|p|p|p|p|p|s]; intros H; try discriminate H; reflexivity. Qed.

(** X15: [Stmt::stripLabelLikeStatements] returns a statement that is
    not a label, case, default or attributed statement, that is reached
    from the start through such statements only, and on which the
    function changes nothing more; it stops at the assertion of [dyn_cast]
    exactly when the chain of label-like statements ends in a null
    sub-statement. *)
Theorem Stmt_stripLabelLikeStatements_spec (S : StmtTree Other) :
  match Stmt_stripLabelLikeStatements S with
  | Returned R =>
      is_label_like R = false /\ under_labels S R /\
      Stmt_stripLabelLikeStatements R = Returned R /\ ~ labels_end_in_null S
  | AssertionFailed _ => labels_end_in_null S
  | _ => False
  end.
Proof.
  induction S as [S IH Hl|p _|p _|s] using StmtTree_induction.
  - rewrite (Stmt_stripLabelLikeStatements_label_like _ Hl).
    destruct (label_like_sub S) as [S'|] eqn:Hsub.
    + specialize (IH S' eq_refl).
      destruct (Stmt_stripLabelLikeStatements S') as [R|msg|msg|]; try contradiction.
      * destruct IH as (HR & Hu & Hid & Hnull). repeat split; auto.
        -- now apply under_labels_sub with S'.
        -- intros Hn. inversion Hn; subst; congruence.
      * now apply labels_end_sub with S'.
    + now apply labels_end_here.
  - cbn. repeat split; [constructor|]. intros Hn. inversion Hn; discriminate.
  - cbn. repeat split; [constructor|]. intros Hn. inversion Hn; discriminate.
  - cbn. repeat split; [constructor|]. intros Hn. inversion Hn; discriminate.
Qed.

Lemma IgnoreImplicit_casts_spec (s : StmtTree Other) :
  match IgnoreImplicit_casts s with
  | Returned R => is_ImplicitCastExpr R = false /\ IgnoreImplicit_casts R = Returned R
  | AssertionFailed _ => True
  | _ => False
  end.
Proof.
  induction s as [S IH Hl|p IH|p IH|o] using StmtTree_induction.
  - destruct S; try discriminate Hl; cbn; auto.
  - cbn. auto.
  - destruct p as [s'|]; cbn; [|exact I]. apply (IH s' eq_refl).
  - cbn. auto.
Qed.

(** X16: what [Stmt::IgnoreImplicit] returns is never an implicit cast.
    It looks through one [ExprWithCleanups], and only when the node
    itself is one: under an implicit cast an [ExprWithCleanups] is
    returned as it is, so that a second call can remove more than the
    first; when the result is not an [ExprWithCleanups], a second call
    returns it unchanged. *)
Theorem Stmt_IgnoreImplicit_spec (S : StmtTree Other) :
  match Stmt_IgnoreImplicit S with
  | Returned R =>
      is_ImplicitCastExpr R = false /\
      (is_ExprWithCleanups R = false -> Stmt_IgnoreImplicit R = Returned R)
  | AssertionFailed _ => True
  | _ => False
  end /\
  (forall p : option (StmtTree Other),
     Stmt_IgnoreImplicit (ImplicitCastExpr (Some (ExprWithCleanups p)))
     = Returned (ExprWithCleanups p) /\
     Stmt_IgnoreImplicit (ExprWithCleanups (Some (ExprWithCleanups p)))
     = Returned (ExprWithCleanups p)).
Proof.
  split; [|intros p; split; reflexivity].
  assert (Hcasts : forall s : StmtTree Other,
    match IgnoreImplicit_casts s with
    | Returned R =>
        is_ImplicitCastExpr R = false /\
        (is_ExprWithCleanups R = false -> Stmt_IgnoreImplicit R = Returned R)
    | AssertionFailed _ => True
    | _ => False
    end).
  { intros s. pose proof (IgnoreImplicit_casts_spec s) as H.
    destruct (IgnoreImplicit_casts s) as [R|msg|msg|]; auto.
    destruct H as [HR Hid]. split; [exact HR|]. intros HE.
    destruct R; try discriminate HE; exact Hid. }
  destruct S as [p|p|p|p|[s|]|p|o]; try apply Hcasts. exact I.
Qed.

End StmtTreeProperties.

(** ** [AttributedStmt::Create] and [AttributedStmt::CreateEmpty] *)

(** X17: for one attribute or more, [AttributedStmt::Create] and
    [AttributedStmt::CreateEmpty] ask the allocator for the same memory:
    the object, which holds the first attribute, and one pointer for
    each further attribute.  For no attribute [CreateEmpty] stops at its
    assertion, and [Create], which has none, asks for one pointer less
    than the size of the object. *)
Theorem AttributedStmt_Create_Allocate_sizes (Attr : Type) (L : AttributedLayout)
    (Attrs : list (option Attr)) :
  0 < sizeof_AttrPtr L <= sizeof_AttributedStmt L ->
  list_size Attrs < 2 ^ 32 ->
  sizeof_AttributedStmt L + sizeof_AttrPtr L * list_size Attrs < 2 ^ 64 ->
  (Attrs <> [] ->
   AttributedStmt_Create_Allocate L Attrs
   = (sizeof_AttributedStmt L + sizeof_AttrPtr L * (list_size Attrs - 1),
      alignOf_AttributedStmt L) /\
   AttributedStmt_CreateEmpty_Allocate L (list_size Attrs)
   = Returned (AttributedStmt_Create_Allocate L Attrs)) /\
  (Attrs = [] ->
   AttributedStmt_Create_Allocate L Attrs
   = (sizeof_AttributedStmt L - sizeof_AttrPtr L, alignOf_AttributedStmt L) /\
   sizeof_AttributedStmt L - sizeof_AttrPtr L < sizeof_AttributedStmt L /\
   AttributedStmt_CreateEmpty_Allocate L (list_size Attrs)
   = AssertionFailed "NumAttrs should be greater than zero").
Proof.
  intros [Hptr Hle] Hn Hfit.
  unfold AttributedStmt_Create_Allocate, AttributedStmt_CreateEmpty_Allocate. split.
  - intros Hne.
    assert (H1 : 1 <= list_size Attrs)
      by (destruct Attrs; [congruence | unfold list_size; cbn [length]; lia]).
    assert (Hsize : to_size_t (sizeof_AttributedStmt L
                               + to_size_t (sizeof_AttrPtr L * to_size_t (list_size Attrs - 1)))
                    = sizeof_AttributedStmt L + sizeof_AttrPtr L * (list_size Attrs - 1)).
    { unfold to_size_t. rewrite (Z.mod_small (list_size Attrs - 1)) by lia.
      rewrite (Z.mod_small (sizeof_AttrPtr L * (list_size Attrs - 1))) by nia.
      apply Z.mod_small. nia. }
    rewrite Hsize. split; [reflexivity|].
    replace (list_size Attrs >? 0) with true by (symmetry; apply Z.gtb_lt; lia).
    cbn [assert_that bind]. unfold to_unsigned.
    rewrite (Z.mod_small (list_size Attrs - 1)) by lia.
    do 2 f_equal. unfold to_size_t.
    rewrite (Z.mod_small (sizeof_AttrPtr L * (list_size Attrs - 1))) by nia.
    apply Z.mod_small. nia.
  - intros ->. unfold list_size. cbn [length Z.of_nat].
    split; [|split; [lia | reflexivity]]. f_equal. unfold to_size_t.
    change (0 - 1) with (-1). change (-1 mod 2 ^ 64) with (2 ^ 64 - 1).
    replace (sizeof_AttrPtr L * (2 ^ 64 - 1))
      with (- sizeof_AttrPtr L + sizeof_AttrPtr L * 2 ^ 64) by lia.
    rewrite Z.mod_add by lia.
    rewrite Zplus_mod_idemp_r.
    replace (sizeof_AttributedStmt L + - sizeof_AttrPtr L)
      with (sizeof_AttributedStmt L - sizeof_AttrPtr L) by lia.
    apply Z.mod_small. unfold list_size in Hfit. cbn [length Z.of_nat] in Hfit. lia.
Qed.

Lemma AttributedStmt_Create_Allocate_sizes_witness :
  ([Some 1%nat; Some 2%nat; None] <> [] ->
   AttributedStmt_Create_Allocate AttributedLayout_LP64 [Some 1%nat; Some 2%nat; None]
   = (sizeof_AttributedStmt AttributedLayout_LP64
      + sizeof_AttrPtr AttributedLayout_LP64 * (list_size [Some 1%nat; Some 2%nat; None] - 1),
      alignOf_AttributedStmt AttributedLayout_LP64) /\
   AttributedStmt_CreateEmpty_Allocate AttributedLayout_LP64
     (list_size [Some 1%nat; Some 2%nat; None])
   = Returned (AttributedStmt_Create_Allocate AttributedLayout_LP64
                 [Some 1%nat; Some 2%nat; None])) /\
  ([Some 1%nat; Some 2%nat; None] = [] ->
   AttributedStmt_Create_Allocate AttributedLayout_LP64 [Some 1%nat; Some 2%nat; None]
   = (sizeof_AttributedStmt AttributedLayout_LP64 - sizeof_AttrPtr AttributedLayout_LP64,
      alignOf_AttributedStmt AttributedLayout_LP64) /\
   sizeof_AttributedStmt AttributedLayout_LP64 - sizeof_AttrPtr AttributedLayout_LP64
   < sizeof_AttributedStmt AttributedLayout_LP64 /\
   AttributedStmt_CreateEmpty_Allocate AttributedLayout_LP64
     (list_size [Some 1%nat; Some 2%nat; None])
   = AssertionFailed "NumAttrs should be greater than zero").
Proof.
  apply (@AttributedStmt_Create_Allocate_sizes nat AttributedLayout_LP64
           [Some 1%nat; Some 2%nat; None]).
  - simpl. lia.
  - vm_compute. reflexivity.
  - vm_compute. reflexivity.
Defined.

Example AttributedStmt_Create_Allocate_no_attribute :
  AttributedStmt_Create_Allocate AttributedLayout_LP64 (@nil (option nat)) = (24, 8) /\
  AttributedStmt_Create_Allocate AttributedLayout_LP64 [Some 1%nat] = (32, 8).
Proof. split; reflexivity. Qed.

(** ** [Stmt::getLocStart] and [Stmt::getLocEnd] *)

Section StmtLocationProperties.

Variables Storage ChildRange : Type.
Variable StmtNodes : list (StmtNode Storage ChildRange).

(** X18: on a node of a class without a [getSourceRange] of its own,
    [Stmt::getSourceRange] returns a range exactly when
    [Stmt::getLocStart] and [Stmt::getLocEnd] both return, and the range
    is the pair of their results; when the class has its own, the range
    is what that member gives, whatever the two locations are.  On a tag
    without a class the two location functions end in
    [llvm_unreachable], as [Stmt::getSourceRange] does. *)
Theorem Stmt_getSourceRange_of_locations (s : Stmt Storage) :
  (forall type,
     StmtClass_case StmtNodes (Stmt_getStmtClass s) = Some type ->
     Stmt_getLocStart StmtNodes s = class_getLocStart type s /\
     Stmt_getLocEnd StmtNodes s = class_getLocEnd type s /\
     (class_getSourceRange type = None ->
      forall R,
        Stmt_getSourceRange StmtNodes s = Returned R <->
        exists B E,
          Stmt_getLocStart StmtNodes s = Returned B /\
          Stmt_getLocEnd StmtNodes s = Returned E /\ R = mkSourceRange B E) /\
     (forall own, class_getSourceRange type = Some own ->
                  Stmt_getSourceRange StmtNodes s = own s)) /\
  (StmtClass_case StmtNodes (Stmt_getStmtClass s) = None ->
   (exists msg, Stmt_getLocStart StmtNodes s = Unreachable msg) /\
   (exists msg, Stmt_getLocEnd StmtNodes s = Unreachable msg) /\
   (exists msg, Stmt_getSourceRange StmtNodes s = Unreachable msg)).
Proof.
  unfold Stmt_getLocStart, Stmt_getLocEnd, Stmt_getSourceRange, StmtClass_case.
  destruct (Stmt_getStmtClass s) as [|i].
  - split; [intros type H; discriminate H|].
    intros _. repeat split; eexists; reflexivity.
  - split.
    + intros type Hty. rewrite Hty. split; [reflexivity|]. split; [reflexivity|].
      unfold getSourceRangeImpl. split.
      * intros Hnone R. rewrite Hnone. split.
        -- intros H. destruct (class_getLocStart type s) as [B| | |]; try discriminate H.
           cbn [bind] in H.
           destruct (class_getLocEnd type s) as [E| | |]; try discriminate H.
           cbn [bind] in H. injection H as <-. exists B, E. repeat split.
        -- intros (B & E & HB & HE & ->). rewrite HB. cbn [bind]. rewrite HE. reflexivity.
      * intros own Hown. rewrite Hown. reflexivity.
    + intros Hnone. rewrite Hnone. repeat split; eexists; reflexivity.
Qed.

End StmtLocationProperties.

Lemma Stmt_getSourceRange_of_locations_witness :
  Stmt_getLocStart Sample_StmtNodes Sample_compound = Returned 1 /\
  Stmt_getLocEnd Sample_StmtNodes Sample_compound = Returned 9 /\
  Stmt_getSourceRange Sample_StmtNodes Sample_compound = Returned (mkSourceRange 1 9).
Proof.
  destruct (@Stmt_getSourceRange_of_locations SampleStorage (list (option Leaf))
              Sample_StmtNodes Sample_compound) as [Hclass _].
  destruct (Hclass Sample_CompoundStmt_class eq_refl) as (HB & HE & Hrange & _).
  split; [rewrite HB; reflexivity|]. split; [rewrite HE; reflexivity|].
  apply (Hrange eq_refl). exists 1, 9. split; [rewrite HB; reflexivity|].
  split; [rewrite HE; reflexivity | reflexivity].
Defined.

(** ** Condition variables from the constructors on *)

Lemma last_cons_default (A : Type) (l : list A) :
  forall a d : A, last (a :: l) d = last l a.
Proof.
  induction l as [|b l IH]; intros a d; [reflexivity|].
  change (last (a :: b :: l) d) with (last (b :: l) d).
  now rewrite (IH b d), (IH b a).
Qed.

Section ConditionVariableConstructorProperties.

Variables VarDecl OtherDecl OtherStmt : Type.
Variable VarDecl_getSourceRange : VarDecl -> SourceRange.

Lemma IfStmt_set_run (Vs : list (option VarDecl)) :
  forall (i : IfStmt VarDecl OtherDecl OtherStmt) (V : option VarDecl),
    IfStmt_getConditionVariable i = Returned V ->
    let i' := fold_left (IfStmt_setConditionVariable VarDecl_getSourceRange) Vs i in
    IfStmt_getConditionVariable i' = Returned (last Vs V) /\
      IfStmt_SubExprs_COND i' = IfStmt_SubExprs_COND i /\
      IfStmt_SubExprs_THEN i' = IfStmt_SubExprs_THEN i /\
      IfStmt_SubExprs_ELSE i' = IfStmt_SubExprs_ELSE i /\
      IfLoc i' = IfLoc i /\
      ElseLoc i' = ElseLoc i.
Proof.
  induction Vs as [|W Vs IH]; intros i V HV; cbn [fold_left].
  - repeat split. exact HV.
  - assert (HW : IfStmt_getConditionVariable
                   (IfStmt_setConditionVariable VarDecl_getSourceRange i W) = Returned W)
      by (destruct W; reflexivity).
    pose proof (IH _ W HW) as IH'. cbn zeta in IH'.
    rewrite (last_cons_default Vs W V).
    destruct IH' as [H1 H2]. split; [exact H1|].
    destruct W; exact H2.
Qed.

Lemma ForStmt_set_run (Vs : list (option VarDecl)) :
  forall (i : ForStmt VarDecl OtherDecl OtherStmt) (V : option VarDecl),
    ForStmt_getConditionVariable i = Returned V ->
    let i' := fold_left (ForStmt_setConditionVariable VarDecl_getSourceRange) Vs i in
    ForStmt_getConditionVariable i' = Returned (last Vs V) /\
      ForStmt_SubExprs_INIT i' = ForStmt_SubExprs_INIT i /\
      ForStmt_SubExprs_COND i' = ForStmt_SubExprs_COND i /\
      ForStmt_SubExprs_INC i' = ForStmt_SubExprs_INC i /\
      ForStmt_SubExprs_BODY i' = ForStmt_SubExprs_BODY i /\
      ForLoc i' = ForLoc i /\
      ForStmt_LParenLoc i' = ForStmt_LParenLoc i /\
      ForStmt_RParenLoc i' = ForStmt_RParenLoc i.
Proof.
  induction Vs as [|W Vs IH]; intros i V HV; cbn [fold_left].
  - repeat split. exact HV.
  - assert (HW : ForStmt_getConditionVariable
                   (ForStmt_setConditionVariable VarDecl_getSourceRange i W) = Returned W)
      by (destruct W; reflexivity).
    pose proof (IH _ W HW) as IH'. cbn zeta in IH'.
    rewrite (last_cons_default Vs W V).
    destruct IH' as [H1 H2]. split; [exact H1|].
    destruct W; exact H2.
Qed.

Lemma SwitchStmt_set_run (Vs : list (option VarDecl)) :
  forall (i : SwitchStmt VarDecl OtherDecl OtherStmt) (V : option VarDecl),
    SwitchStmt_getConditionVariable i = Returned V ->
    let i' := fold_left (SwitchStmt_setConditionVariable VarDecl_getSourceRange) Vs i in
    SwitchStmt_getConditionVariable i' = Returned (last Vs V) /\
      SwitchStmt_SubExprs_COND i' = SwitchStmt_SubExprs_COND i /\
      SwitchStmt_SubExprs_BODY i' = SwitchStmt_SubExprs_BODY i /\
      SwitchLoc i' = SwitchLoc i /\
      AllEnumCasesCovered i' = AllEnumCasesCovered i.
Proof.
  induction Vs as [|W Vs IH]; intros i V HV; cbn [fold_left].
  - repeat split. exact HV.
  - assert (HW : SwitchStmt_getConditionVariable
                   (SwitchStmt_setConditionVariable VarDecl_getSourceRange i W) = Returned W)
      by (destruct W; reflexivity).
    pose proof (IH _ W HW) as IH'. cbn zeta in IH'.
    rewrite (last_cons_default Vs W V).
    destruct IH' as [H1 H2]. split; [exact H1|].
    destruct W; exact H2.
Qed.

Lemma WhileStmt_set_run (Vs : list (option VarDecl)) :
  forall (i : WhileStmt VarDecl OtherDecl OtherStmt) (V : option VarDecl),
    WhileStmt_getConditionVariable i = Returned V ->
    let i' := fold_left (WhileStmt_setConditionVariable VarDecl_getSourceRange) Vs i in
    WhileStmt_getConditionVariable i' = Returned (last Vs V) /\
      WhileStmt_SubExprs_COND i' = WhileStmt_SubExprs_COND i /\
      WhileStmt_SubExprs_BODY i' = WhileStmt_SubExprs_BODY i /\
      WhileLoc i' = WhileLoc i.
Proof.
  induction Vs as [|W Vs IH]; intros i V HV; cbn [fold_left].
  - repeat split. exact HV.
  - assert (HW : WhileStmt_getConditionVariable
                   (WhileStmt_setConditionVariable VarDecl_getSourceRange i W) = Returned W)
      by (destruct W; reflexivity).
    pose proof (IH _ W HW) as IH'. cbn zeta in IH'.
    rewrite (last_cons_default Vs W V).
    destruct IH' as [H1 H2]. split; [exact H1|].
    destruct W; exact H2.
Qed.

(** X19: a node built by the constructor of [IfStmt], [ForStmt],
    [SwitchStmt] or [WhileStmt] and then changed by any run of
    [setConditionVariable] calls answers [getConditionVariable] with the
    variable of the last call, or of the constructor when there was no
    call, and never with a failed cast; the condition and the other
    sub-statements are those given to the constructor, which the calls
    leave alone (the body of a new [SwitchStmt] is null). *)
Theorem ConditionVariable_from_constructor (Vs : list (option VarDecl))
    (var : option VarDecl) (init cond inc then' elsev body : option (SubStmt VarDecl OtherDecl OtherStmt))
    (IL EL FL LP RP WL : SourceLocation) :
  (let i := fold_left (IfStmt_setConditionVariable VarDecl_getSourceRange) Vs
              (IfStmt_IfStmt VarDecl_getSourceRange IL var cond then' EL elsev) in
   IfStmt_getConditionVariable i = Returned (last Vs var) /\
   IfStmt_SubExprs_COND i = cond /\ IfStmt_SubExprs_THEN i = then' /\
   IfStmt_SubExprs_ELSE i = elsev /\ IfLoc i = IL /\ ElseLoc i = EL) /\
  (let f := fold_left (ForStmt_setConditionVariable VarDecl_getSourceRange) Vs
              (ForStmt_ForStmt VarDecl_getSourceRange init cond var inc body FL LP RP) in
   ForStmt_getConditionVariable f = Returned (last Vs var) /\
   ForStmt_SubExprs_INIT f = init /\ ForStmt_SubExprs_COND f = cond /\
   ForStmt_SubExprs_INC f = inc /\ ForStmt_SubExprs_BODY f = body /\
   ForLoc f = FL /\ ForStmt_LParenLoc f = LP /\ ForStmt_RParenLoc f = RP) /\
  (let s := fold_left (SwitchStmt_setConditionVariable VarDecl_getSourceRange) Vs
              (SwitchStmt_SwitchStmt VarDecl_getSourceRange var cond) in
   SwitchStmt_getConditionVariable s = Returned (last Vs var) /\
   SwitchStmt_SubExprs_COND s = cond /\ SwitchStmt_SubExprs_BODY s = None /\
   AllEnumCasesCovered s = false) /\
  (let w := fold_left (WhileStmt_setConditionVariable VarDecl_getSourceRange) Vs
              (WhileStmt_WhileStmt VarDecl_getSourceRange var cond body WL) in
   WhileStmt_getConditionVariable w = Returned (last Vs var) /\
   WhileStmt_SubExprs_COND w = cond /\ WhileStmt_SubExprs_BODY w = body /\
   WhileLoc w = WL).
Proof.
  split; [|split; [|split]]; cbn zeta.
  - destruct (@IfStmt_set_run Vs
                (IfStmt_IfStmt VarDecl_getSourceRange IL var cond then' EL elsev) var)
      as (H1 & H2 & H3 & H4 & H5 & H6); [destruct var; reflexivity|].
    rewrite H1, H2, H3, H4, H5, H6. destruct var; repeat split.
  - destruct (@ForStmt_set_run Vs
                (ForStmt_ForStmt VarDecl_getSourceRange init cond var inc body FL LP RP) var)
      as (H1 & H2 & H3 & H4 & H5 & H6 & H7 & H8); [destruct var; reflexivity|].
    rewrite H1, H2, H3, H4, H5, H6, H7, H8. destruct var; repeat split.
  - destruct (@SwitchStmt_set_run Vs
                (SwitchStmt_SwitchStmt VarDecl_getSourceRange var cond) var)
      as (H1 & H2 & H3 & H4 & H5); [destruct var; reflexivity|].
    rewrite H1, H2, H3, H5. destruct var; repeat split.
  - destruct (@WhileStmt_set_run Vs
                (WhileStmt_WhileStmt VarDecl_getSourceRange var cond body WL) var)
      as (H1 & H2 & H3 & H4); [destruct var; reflexivity|].
    rewrite H1, H2, H3, H4. destruct var; repeat split.
Qed.

End ConditionVariableConstructorProperties.

(** ** The layout of a [CapturedStmt] *)

(** X20: [CapturedStmt::Create], [CapturedStmt::CreateDeserialized] and
    [CapturedStmt::getStoredCaptures] agree on the layout.  For [N] > 0
    captures whose allocation fits an [unsigned], the [Capture] array
    starts at a multiple of the alignment of [Capture], at or after the
    end of the [N] + 1 statement slots, and ends exactly at the end of
    the allocation; the two factories ask for the same size.  For no
    capture the allocation ends with the statement slot. *)
Theorem CapturedStmt_layout_agrees (L : CapturedLayout) (N : Z) :
  0 <= sizeof_CapturedStmt L -> 0 < CapturedLayout_sizeof_StmtPtr L ->
  0 <= sizeof_Capture L -> 0 < alignOf_Capture L ->
  0 <= N ->
  sizeof_CapturedStmt L + CapturedLayout_sizeof_StmtPtr L * (N + 1)
  + alignOf_Capture L + sizeof_Capture L * N < 2 ^ 32 ->
  let stmts_end := sizeof_CapturedStmt L + CapturedLayout_sizeof_StmtPtr L * (N + 1) in
  let offset := CapturedStmt_getStoredCaptures_offset L N in
  CapturedStmt_CreateDeserialized_Size L N = CapturedStmt_Create_Size L N /\
  (0 < N ->
   stmts_end <= offset < stmts_end + alignOf_Capture L /\
   offset mod alignOf_Capture L = 0 /\
   CapturedStmt_Create_Size L N = offset + sizeof_Capture L * N) /\
  (N = 0 -> CapturedStmt_Create_Size L N = stmts_end).
Proof.
  intros Hhdr Hptr Hcap Halign HN Hfit stmts_end offset.
  assert (Hpow : 2 ^ 32 < 2 ^ 64) by (vm_compute; reflexivity).
  assert (Hcn : 0 <= sizeof_Capture L * N) by nia.
  assert (Hse : 0 <= stmts_end < 2 ^ 32) by (unfold stmts_end; nia).
  assert (HN1 : N + 1 < 2 ^ 32) by (unfold stmts_end in Hse; nia).
  assert (Hu32 : to_unsigned (N + 1) = N + 1)
    by (unfold to_unsigned; apply Z.mod_small; lia).
  assert (Hu64 : to_size_t (N + 1) = N + 1)
    by (unfold to_size_t; apply Z.mod_small; lia).
  assert (HSize : to_unsigned stmts_end = stmts_end)
    by (unfold to_unsigned; apply Z.mod_small; lia).
  destruct (@RoundUpToAlignment_spec stmts_end (alignOf_Capture L)) as [Hr Hmod];
    [lia | lia | lia |].
  assert (Hoff : offset = RoundUpToAlignment stmts_end (alignOf_Capture L)).
  { unfold offset, CapturedStmt_getStoredCaptures_offset. rewrite Hu32.
    fold stmts_end. rewrite HSize. unfold to_unsigned. apply Z.mod_small. lia. }
  assert (HCreate : CapturedStmt_Create_Size L N
                    = if negb (N =? 0) then offset + sizeof_Capture L * N else stmts_end).
  { unfold CapturedStmt_Create_Size. rewrite Hu64. fold stmts_end. rewrite HSize.
    destruct (N =? 0); cbn [negb]; [reflexivity|].
    rewrite Hoff. unfold to_unsigned at 2.
    rewrite (Z.mod_small (RoundUpToAlignment _ _)) by lia.
    unfold to_size_t at 1. rewrite (Z.mod_small (sizeof_Capture L * N)) by lia.
    unfold to_unsigned. apply Z.mod_small. lia. }
  split; [|split].
  - rewrite HCreate. unfold CapturedStmt_CreateDeserialized_Size. rewrite Hu32.
    fold stmts_end. rewrite HSize.
    destruct (Z.eq_dec N 0) as [->|Hne]; [reflexivity|].
    replace (N >? 0) with true by (symmetry; apply Z.gtb_lt; lia).
    replace (N =? 0) with false by (symmetry; apply Z.eqb_neq; lia). cbn [negb].
    rewrite Hoff. unfold to_unsigned at 2.
    rewrite (Z.mod_small (RoundUpToAlignment _ _)) by lia.
    unfold to_size_t at 1. rewrite (Z.mod_small (sizeof_Capture L * N)) by lia.
    unfold to_unsigned. apply Z.mod_small. lia.
  - intros Hpos. rewrite Hoff. split; [exact Hr|]. split; [exact Hmod|].
    rewrite HCreate, Hoff.
    replace (N =? 0) with false by (symmetry; apply Z.eqb_neq; lia). reflexivity.
  - intros ->. rewrite HCreate. reflexivity.
Qed.

Lemma CapturedStmt_layout_agrees_witness :
  let stmts_end := sizeof_CapturedStmt CapturedLayout_LP64
                   + CapturedLayout_sizeof_StmtPtr CapturedLayout_LP64 * (2 + 1) in
  let offset := CapturedStmt_getStoredCaptures_offset CapturedLayout_LP64 2 in
  CapturedStmt_CreateDeserialized_Size CapturedLayout_LP64 2
  = CapturedStmt_Create_Size CapturedLayout_LP64 2 /\
  (0 < 2 ->
   stmts_end <= offset < stmts_end + alignOf_Capture CapturedLayout_LP64 /\
   offset mod alignOf_Capture CapturedLayout_LP64 = 0 /\
   CapturedStmt_Create_Size CapturedLayout_LP64 2
   = offset + sizeof_Capture CapturedLayout_LP64 * 2) /\
  (2 = 0 -> CapturedStmt_Create_Size CapturedLayout_LP64 2 = stmts_end).
Proof.
  apply (@CapturedStmt_layout_agrees CapturedLayout_LP64 2).
  - simpl. lia.
  - simpl. lia.
  - simpl. lia.
  - simpl. lia.
  - lia.
  - vm_compute. reflexivity.
Defined.

Example CapturedStmt_layout_LP64 :
  CapturedStmt_getStoredCaptures_offset CapturedLayout_LP64 2 = 64 /\
  CapturedStmt_Create_Size CapturedLayout_LP64 2 = 96 /\
  CapturedStmt_Create_Size CapturedLayout_LP64 0 = 44 /\
  CapturedStmt_getStoredCaptures_offset CapturedLayout_LP64 0 = 48.
Proof. repeat split. Qed.

(** ** [DiagOffs] when the analysis succeeds *)

Lemma scan_digits_suffix (rest : StringRef) :
  forall (offs N N' : Z) (rest' : StringRef) (offs' : Z),
    scan_digits rest offs N = (N', rest', offs') -> exists pre, rest = pre ++ rest'.
Proof.
  induction rest as [|c rest IH]; intros offs N N' rest' offs' H; cbn [scan_digits] in H.
  - injection H as _ <- _. now exists [].
  - destruct (isDigit c).
    + apply IH in H. destruct H as [pre ->]. now exists (c :: pre).
    + injection H as _ <- _. now exists [].
Qed.

Lemma AnalyzeAsmString_operand_DiagOffs (S : GCCAsmStmt) (Modifier EscapedChar : ascii)
    (rest : StringRef) (offs : Z) (Ps : list AsmStringPiece) (DO : option Z) :
  match AnalyzeAsmString_operand S Modifier EscapedChar rest offs Ps DO with
  | Continue st' =>
      (CurDiagOffs st' = DO \/ EscapedChar = "["%char) /\
      exists pre, EscapedChar :: rest = pre ++ CurPtr st'
  | Return r => Ret r <> None
  end.
Proof.
  unfold AnalyzeAsmString_operand.
  destruct (isDigit EscapedChar).
  - destruct (scan_digits (EscapedChar :: rest) (offs - 1) 0) as [[N rest'] offs'] eqn:Hs.
    apply scan_digits_suffix in Hs.
    destruct (N >=? AnalyzeAsmString_NumOperands S); [discriminate|].
    cbn [CurDiagOffs CurPtr]. split; [now left | exact Hs].
  - destruct (Ascii.eqb_spec EscapedChar "["%char) as [-> | _]; [|discriminate].
    destruct (memchr rest "]") as [k|]; [|discriminate].
    destruct (Nat.eqb k 0); [discriminate|].
    destruct (GCCAsmStmt_getNamedOperand S (firstn k rest) =? -1); [discriminate|].
    cbn [CurDiagOffs CurPtr]. split; [now right|].
    exists ("["%char :: firstn (k + 1) rest). cbn [app]. now rewrite firstn_skipn.
Qed.

Lemma AnalyzeAsmString_body_DiagOffs (S : GCCAsmStmt) (HasVariants : bool)
    (st : AnalyzeState) :
  match AnalyzeAsmString_body S HasVariants st with
  | Continue st' =>
      (CurDiagOffs st' = CurDiagOffs st \/ In "["%char (CurPtr st)) /\
      exists pre, CurPtr st = pre ++ CurPtr st'
  | Return r => Ret r = None -> DiagOffs r = CurDiagOffs st
  end.
Proof.
  unfold AnalyzeAsmString_body.
  destruct (CurPtr st) as [|CurChar rest1]; [reflexivity|].
  repeat match goal with
         | |- match (if ?b then _ else _) with _ => _ end =>
             destruct b;
             [ cbn [CurDiagOffs CurPtr]; split; [now left | now exists [CurChar]] | ]
         end.
  destruct rest1 as [|EscapedChar rest2]; [discriminate|].
  repeat match goal with
         | |- match (if Ascii.eqb ?a ?b then _ else _) with _ => _ end =>
             destruct (Ascii.eqb a b);
             [ cbn [CurDiagOffs CurPtr]; split;
               [now left | now exists [CurChar; EscapedChar]] | ]
         end.
  destruct (isLetter EscapedChar).
  - destruct rest2 as [|EscapedChar' rest3]; [discriminate|].
    pose proof (AnalyzeAsmString_operand_DiagOffs S EscapedChar EscapedChar' rest3
                  (CurOffs st + 1 + 1 + 1) (flush_piece (CurStringPiece st) (CurPieces st))
                  (CurDiagOffs st)) as H.
    destruct (AnalyzeAsmString_operand _ _ _ _ _ _ _) as [st'|r].
    + destruct H as [[H| ->] [pre Hpre]].
      * split; [now left|]. exists (CurChar :: EscapedChar :: pre). cbn [app].
        now rewrite Hpre.
      * split; [right; cbn [In]; tauto|]. exists (CurChar :: EscapedChar :: pre).
        cbn [app]. now rewrite Hpre.
    + intros Hr. contradiction.
  - pose proof (AnalyzeAsmString_operand_DiagOffs S "000"%char EscapedChar rest2
                  (CurOffs st + 1 + 1) (flush_piece (CurStringPiece st) (CurPieces st))
                  (CurDiagOffs st)) as H.
    destruct (AnalyzeAsmString_operand _ _ _ _ _ _ _) as [st'|r].
    + destruct H as [[H| ->] [pre Hpre]].
      * split; [now left|]. exists (CurChar :: pre). cbn [app]. now rewrite Hpre.
      * split; [right; cbn [In]; tauto|]. exists (CurChar :: pre). cbn [app].
        now rewrite Hpre.
    + intros Hr. contradiction.
Qed.

Lemma AnalyzeAsmString_while_DiagOffs (S : GCCAsmStmt) (HasVariants : bool) (fuel : nat) :
  forall (st : AnalyzeState) (r : AnalyzeResult),
    AnalyzeAsmString_while fuel S HasVariants st = Some r -> Ret r = None ->
    DiagOffs r = CurDiagOffs st \/ In "["%char (CurPtr st).
Proof.
  induction fuel as [|fuel IH]; intros st r H Hr; [discriminate|].
  cbn [AnalyzeAsmString_while] in H.
  pose proof (AnalyzeAsmString_body_DiagOffs S HasVariants st) as Hb.
  destruct (AnalyzeAsmString_body S HasVariants st) as [st'|r'].
  - destruct Hb as [Hdo [pre Hpre]].
    destruct (IH st' r H Hr) as [Heq|Hin].
    + destruct Hdo as [Hdo|Hdo]; [left; congruence | now right].
    + right. rewrite Hpre. apply in_or_app. now right.
  - injection H as <-. left. now apply Hb.
Qed.

(** X21: when [AnalyzeAsmString] returns 0, [DiagOffs] is left
    unwritten unless the statement is not simple and its template has a
    '[': the offset is stored as soon as a symbolic operand name is met,
    before the name is looked up, so that a successful analysis can
    leave [DiagOffs] written. *)
Theorem AnalyzeAsmString_DiagOffs_on_success (S : GCCAsmStmt) (HasVariants : bool)
    (r : AnalyzeResult) :
  GCCAsmStmt_AnalyzeAsmString S HasVariants = Some r ->
  Ret r = None ->
  DiagOffs r <> None ->
  AsmStmt_isSimple S = false /\ In "["%char (AsmStr S).
Proof.
  intros H Hr Hd. unfold GCCAsmStmt_AnalyzeAsmString in H.
  destruct (AsmStmt_isSimple S).
  - injection H as <-. now contradiction Hd.
  - split; [reflexivity|].
    destruct (AnalyzeAsmString_while_DiagOffs _ _ _ _ H Hr) as [Heq|Hin];
      [cbn [CurDiagOffs] in Heq; contradiction | exact Hin].
Qed.

Lemma AnalyzeAsmString_DiagOffs_on_success_witness :
  AsmStmt_isSimple (asm_foo "%[foo]") = false /\ In "["%char (AsmStr (asm_foo "%[foo]")).
Proof.
  apply (@AnalyzeAsmString_DiagOffs_on_success (asm_foo "%[foo]") false
           (mkAnalyzeResult None (Some 1) [AsmStringPiece_Operand 0 "000"])).
  - vm_compute. reflexivity.
  - reflexivity.
  - discriminate.
Defined.
